(* ===== verification/_CoqProject ===== *)
-Q . S2P
Prelude.v
GoErrors.v
GoCrypto.v
Metrics.v
GoJson.v
Delivery.v
Signature.v
Retry.v
Store.v
Repository.v
Memory.v
SaveFile.v
Postgres.v
Sessions.v
Service.v
Persistence.v
Durable.v
GoHttp.v
GoStrconv.v
GoFlag.v
Config.v
Lifecycle.v
Linter.v
LinterFixtures.v
Pool.v
GoNet.v
Encryption.v
Middleware.v
Auditing.v
Handler.v
Page.v
ServerMain.v
Grpc.v
Transports.v
Agent.v
AgentLoop.v
HttpStorage.v
Tracking.v
System.v
HttpSystem.v
PgSystem.v
CrashSystem.v
Recovery.v
Programs.v
Shutdown.v
ResetGen.v
ResetStable.v
ResetCode.v
ResetFixtures.v
