(* ===== verification/Prelude.v ===== *)
(** * Verification library of the metrics service

    The repository is a metrics collection system in Go: an agent
    ([src/cmd/agent], [src/internal/agent]) polls the Go runtime and the
    operating system, groups what it has into batches with an idempotency key
    and sends them, with retries, over HTTP or gRPC; a server
    ([src/cmd/server], [src/internal/server]) validates the batches, applies
    each key at most once to an in-memory storage (with an optional file) or to
    PostgreSQL, publishes audit events, and serves the values back.  Two tools
    of the build, a generator of [Reset] methods and a linter, are in
    [src/cmd/reset] and [src/cmd/linter].  This library models both programs and
    both tools and proves the contracts between their parts, up to the
    end-to-end properties that every increment the agent counts is added to the
    server's counters exactly once, over gRPC and over HTTP, in memory and in
    PostgreSQL, and across crashes of a server that saves to its file.

    ** The parts, from the bottom up

    Foundations (no code of the repository, but what the code uses of Go):
    - [Prelude]: 64-bit integers with their wrap-around, strings as byte lists,
      the order of a map range, the tactics and hint databases.
    - [GoErrors]: error values, wrapping, [errors.Join], [errors.Is].
    - [GoCrypto]: SHA-256, HMAC and hexadecimal, computed.
    - [GoJson]: the interface [Json] of the encoder and decoder, with the round
      trip on encodable values (NaN and infinities are not encodable).
    - [GoStrconv]: [ParseInt] and [FormatInt] base 10, computed, with their
      round trip; the interface of the floating-point conversions.
    - [GoFlag]: the [flag] package, computed: the scan of the arguments, integers
      in any base, booleans.
    - [GoHttp]: headers, requests, and the class [ResponseWriter] with the
      server's own writer as an instance; a handler's answer is a script of
      calls on whatever writer it is given.
    - [GoNet]: [SplitHostPort], computed; the interface of addresses.

    Components:
    - [Metrics]: [internal/model], the metric record and the generated [Reset].
    - [Delivery]: [internal/delivery], batch identifiers and fingerprints.
    - [Signature]: [internal/signature].
    - [Retry]: [internal/retry], over any world the operation acts on.
    - [Store]: [internal/agent/store.go].
    - [Repository]: [internal/repository/repository.go]: the three Go
      interfaces as classes; [calls], the abstract specification of a keyed
      storage (a set of receipts and a log of committed payloads); and
      [OnceSpec] and [ContentSpec], what a storage promises to its clients.
    - [Memory]: [internal/repository/memory.go] and the in-memory half of
      [idempotency.go]; an instance of the laws.
    - [SaveFile]: [SaveToFile], [loadFromFile] and the restoring constructor,
      over a file system in which every call may fail.
    - [Postgres]: [internal/repository/postgres.go] and the other half of
      [idempotency.go], over the tables of the migrations and a connection
      that may fail at every interaction, also between a commit and its
      acknowledgement.
    - [Sessions]: any number of those transactions at once, interleaved statement
      by statement under PostgreSQL's row locks, retried, repeated, ended by the
      server or lost.
    - [Service]: [internal/service/metrics.go], for any repository of the laws.
    - [Persistence]: [internal/service/persistence.go]: the callbacks of the two
      file modes, [Close] of a caller on its own, and the goroutine, its channels
      and the callers of [close] as a step relation, which refines it.
    - [Encryption]: [internal/encryption], framing and key checks over an
      interface of RSA-OAEP and AES-GCM.
    - [Auditing]: [internal/audit]: notifier, file and HTTP observers.
    - [Middleware]: [internal/middleware]: logging, subnet, decryption, gzip and
      signature, as functions on handlers; their response writers are instances
      of [ResponseWriter].
    - [Handler]: [internal/handler/metrics.go], every handler.
    - [Grpc]: [internal/grpcapi], the server with its interceptors, and the
      client.
    - [Agent]: [internal/agent/agent.go], [system.go], [realip.go]: the
      construction, collection, sending and the sequential report.
    - [AgentLoop]: [Agent.Run] with its loops, channel and workers as a step
      relation on the atomic actions of the goroutines.
    - [ServerMain]: the routes and the stack of middleware of
      [cmd/server/main.go]; the router is the class [Router].
    - [Config]: [internal/config]: defaults, JSON file, flags and environment of
      both programs.
    - [Lifecycle]: [internal/server]: serving, draining and flushing, as step
      relations over the states of one transport or two.
    - [Pool]: [internal/pool], with the heap the pooled pointers lead to.
    - [Page]: the template of [internal/handler/metrics.go] and the escaping of
      [html/template], with the lexer of its reader.
    - [Linter]: [cmd/linter]: the visitor of the analyzer on syntax trees;
      [LinterFixtures], the packages of its tests and the diagnostics they want.
    - [ResetGen], [ResetCode]: [cmd/reset]: the generator, from marked structs to
      operations, text and files; and what the generated methods do, as
      statements on a memory of typed variables.  [ResetStable]: repeated runs of
      the generator; [ResetFixtures]: the package of its tests, and their run.

    Compositions:
    - [Durable]: concurrent handlers on the in-memory storage, the mutex of
      [persistence], the synchronous file, and crashes with restorations.
    - [Transports]: the HTTP and the gRPC endpoint side by side, on one service
      with one notifier.
    - [HttpStorage]: the handlers over the in-memory storage and its file.
    - [Tracking]: what a server knows of the batches of an agent, for any server
      whose every attempt keeps a relation between them; the accounting of
      increments that the next four use.
    - [System]: the agent, a lossy transport, the gRPC server, the service and
      the in-memory storage.
    - [HttpSystem]: the same over HTTP, with the server's middleware.
    - [PgSystem]: the same over gRPC, with PostgreSQL and its failures.
    - [CrashSystem]: the same over gRPC, with the synchronous file, saves that fail,
      and a server that stops and restores at any call.
    - [Recovery]: the agent of [System] from any state in which the network has
      recovered.
    - [Shutdown]: the server's lifecycle with the file storage it flushes: the
      handlers of the transports are the writers.
    - [Programs]: [main] of both programs, TLS files and migrations: what is
      built from a configuration, and the order of acquisition and release.

    A definition has the name of the Go function, method or type it translates;
    methods take their receiver and return its new state.  A method that holds a
    mutex for all of its body is one function of the state.  A function with
    effects is a function [W -> W * result] of the world it acts on, so that the
    files can be composed over one world.  A loop over a map takes the order of
    the range as an argument, and theorems hold for every order.

    ** What the theorems show

    - Exactly once: [Repository.calls_commit_once] for every storage of the
      laws, [Memory.counters_exactly_once] for the values of counters,
      [Postgres.UpdateMetricsOnce_any_failures] under any pattern of connection
      failures, [Sessions.sessions_serializable] for concurrent transactions,
      [AgentLoop.agent_conserves] for the agent in every interleaving
      of its goroutines, [System.exactly_once], [HttpSystem.http_exactly_once],
      [PgSystem.postgres_exactly_once] and [CrashSystem.crash_exactly_once] for the
      whole.  [Postgres.lost_commit_ack] shows why the key is needed:
      without it, a lost acknowledgement makes the retry count twice.
    - Endpoints: [Handler.UpdateMetricsJSON_once], [Grpc.SendBatch_delivers] and
      [Transports.transports_agree] give status, effect and audit of a batch on
      every branch; the [_refuses] theorems that a refused batch leaves no
      trace; [Handler.UpdateMetric_then_GetValue] that reads see writes;
      [Page.ListMetrics_shows] that the page lists every metric once, and that no
      name becomes markup;
      [Grpc.NewServer_guards] the interceptors and the TLS version.
    - Middleware: [Middleware.stack_transparent] (a request that passes is
      answered as the routes answer its plain body, sealed and compressed for the
      client), [Middleware.stack_refuses] (the others do not reach the storage),
      [HttpSystem.agent_request_admitted] (what the agent sends passes).
    - Durability: [SaveFile.SaveToFile_atomic], [SaveFile.save_then_restore],
      [Memory.fileSnapshot_restores], [Service.ack_implies_saved],
      [Persistence.acknowledged_is_durable] and, with concurrent handlers and any
      number of crashes, [Durable.acknowledged_survive_crashes], whose requests are
      those of the agent in [CrashSystem.crash_exactly_once];
      [Persistence.close_flushes_once],
      [Lifecycle.drains_then_flushes], and the three parts together,
      [Shutdown.shutdown_saves]: a server that returned has flushed once, reports
      the errors of its listeners, of its calls and of the last save, and has
      everything in its file when there are none;
      [HttpStorage.nan_gauge_blocks_saves] is the exception the code allows.
    - Equivalence and refinement: [Postgres.postgres_refines_content] (the two
      storages hold the same content), [Service.UpdateMetrics_content],
      [Handler.UpdateMetricJSON_is_batch], [AgentLoop.worker_runs_sendBatch]
      (the steps of a worker implement the sequential [sendBatch]),
      [AgentLoop.SystemPollLoop_steps] and [Persistence.Close_steps] likewise.
    - Liveness: [AgentLoop.run_can_finish], [Persistence.close_can_finish],
      [Lifecycle.server_can_return] and [Shutdown.shutdown_can_finish]: from
      every reachable state there is a way to the end, so that no shutdown can
      deadlock.  [Recovery.recovers]: when the network delivers again, every end
      of [Run] has all batches delivered and all increments counted.
    - Formats: [Encryption.Decrypt_Encrypt], [Encryption.Decrypt_accepts],
      [Signature.Verify_Calculate], [Delivery.ValidKey_spec].
    - Configuration and programs: [Config.LoadServerConfig_effective] gives each
      option its source, [Config.configured_durations_fit] rules out overflow,
      [Config.applyFile_accepts] says which files are taken;
      [Programs.server_main_assembles] and [Programs.agent_main_runs] follow a
      run to the exit.
    - Tools: [ResetGen.reset_terminates] and [ResetGen.generate_writes_safely]
      for the generator, [ResetCode.Reset_correct] and
      [ResetCode.Reset_follows_types] for the methods it generates,
      [ResetStable.generate_stable] for runs over their own output,
      [Linter.run_reports_forbidden] for the linter,
      [Pool.Get_fresh_or_reset] for the pool.

    ** Fuel and bounds

    Decimal conversion uses fuel: 20 digits, and an [int64] has at most 19; the
    round trip proves that it suffices.  SHA-256 runs over the number of blocks
    of its padded message, and derives its round constants bit by bit.  Retries are bounded by
    [defaultDelays] (three, as in the code).  The generator's recursion over
    types goes through names and may not end: [ResetGen.reset] has fuel, and
    [reset_terminates] says exactly when some fuel is enough.  The fuel of
    [ResetCode.exec] bounds nested statements and calls; [Reset_correct] proves
    that there is enough, and that more does not change the result.  Recursion
    is structural everywhere else.  The step relations have no fuel.  Counters are [Z] in the
    [int64] range and sums wrap; PostgreSQL's [BIGINT] addition fails instead,
    which is why [postgres_refines_content] asks for room for the sums.

    ** Parameters

    Code outside the repository is an interface or an argument: the JSON and
    floating-point texts, the ciphers, PEM and X.509 parsing, gzip, addresses
    and subnets, the HTTP client and the gRPC connection, the router,
    the flag and duration texts, the clock, the source of random
    identifiers, the loader of Go packages and the formatter of Go sources, and
    the order of map ranges.  Each law assumed of one is documented behaviour,
    and the witnesses instantiate it with a concrete function
    ([Encryption.clear_ciphers], the transport of [System], the encoders of
    [HttpStorage]).

    ** What is not modelled

    Log lines, and the quoted arguments of error messages; the generated
    protobuf code; the database driver and the migration library, of which
    [Programs] models the calls; the build information printed at start; the
    helpers of the tests.  Which texts PostgreSQL refuses (a zero byte, invalid
    UTF-8): to [Postgres] a refusal is an outcome of the script, for any name.  The [Reset] that a
    generated one calls may be generated, promoted from an embedded structure, by
    value or by pointer, or written by hand, on the terms of
    [ResetCode.hand_written]: it ends on a receiver of its type, keeps to its
    footprint, and makes no pointer or map lead elsewhere; a promoted one clears
    only the embedded part ([promoted_reset_keeps_siblings]).  Promotion from
    interfaces, from embedded types that are no structures and across further
    pointers is not modelled, nor are the tags and embedded fields of structures
    without a name in the text of their type ([ResetGen.typeName]). *)

From Stdlib Require Export ZArith Lia SpecFloat.
From stdpp Require Export base tactics option gmap fin_maps strings numbers list.

#[export] Set Default Goal Selector "!".

(** ** Notations and hint databases *)

Declare Scope go_scope.
Delimit Scope go_scope with go.

(** [go] resolves side conditions, [go_simpl] holds the rewriting equations. *)
Create HintDb go discriminated.
Create Rewrite HintDb go_simpl.

(** ** 64-bit signed integers

    A Go [int64] (and [int] on the 64-bit platforms the service targets) is a
    [Z] in [-2^63, 2^63); the arithmetic operators of the code wrap around. *)

Definition int64_min : Z := - 2 ^ 63.
Definition int64_max : Z := 2 ^ 63 - 1.
Definition in_int64 (z : Z) : Prop := (int64_min ≤ z ≤ int64_max)%Z.

#[export] Instance in_int64_dec z : Decision (in_int64 z).
Proof. unfold in_int64. apply _. Defined.

Definition wrap64 (z : Z) : Z := ((z + 2 ^ 63) mod 2 ^ 64 - 2 ^ 63)%Z.

Definition add64 (a b : Z) : Z := wrap64 (a + b).

Lemma wrap64_range z : in_int64 (wrap64 z).
Proof.
  unfold in_int64, wrap64, int64_min, int64_max.
  pose proof (Z.mod_pos_bound (z + 2 ^ 63) (2 ^ 64)). lia.
Qed.

Lemma wrap64_id z : in_int64 z → wrap64 z = z.
Proof.
  unfold in_int64, wrap64, int64_min, int64_max. intros ?.
  rewrite Z.mod_small; lia.
Qed.

Lemma wrap64_mod a b : (a mod 2 ^ 64 = b mod 2 ^ 64)%Z → wrap64 a = wrap64 b.
Proof.
  unfold wrap64. intros H. f_equal.
  rewrite <-(Z.add_mod_idemp_l a), <-(Z.add_mod_idemp_l b) by lia. by rewrite H.
Qed.

Lemma wrap64_cong z : (wrap64 z mod 2 ^ 64 = z mod 2 ^ 64)%Z.
Proof.
  unfold wrap64. rewrite Zminus_mod, Z.mod_mod by lia.
  rewrite <-Zminus_mod. f_equal. lia.
Qed.

Lemma wrap64_add_l a b : wrap64 (wrap64 a + b) = wrap64 (a + b).
Proof.
  apply wrap64_mod. rewrite <-Z.add_mod_idemp_l by lia.
  by rewrite wrap64_cong, Z.add_mod_idemp_l by lia.
Qed.

Lemma wrap64_add_r a b : wrap64 (a + wrap64 b) = wrap64 (a + b).
Proof. rewrite Z.add_comm, wrap64_add_l. f_equal. lia. Qed.

Lemma wrap64_wrap64 a : wrap64 (wrap64 a) = wrap64 a.
Proof. apply wrap64_id, wrap64_range. Qed.

Lemma add64_range a b : in_int64 (add64 a b).
Proof. apply wrap64_range. Qed.

Lemma add64_0_l a : in_int64 a → add64 0 a = a.
Proof. intros. by apply wrap64_id. Qed.

#[export] Hint Resolve wrap64_range add64_range : go.
#[export] Hint Rewrite wrap64_add_l wrap64_add_r wrap64_wrap64 : go_simpl.

(** Sums of lists of integers. *)
Definition sumZ (l : list Z) : Z := foldr Z.add 0%Z l.

Lemma sumZ_app l1 l2 : sumZ (l1 ++ l2) = (sumZ l1 + sumZ l2)%Z.
Proof. unfold sumZ. induction l1 as [|x l1 IH]; csimpl; lia. Qed.

#[export] Instance sumZ_perm : Proper ((≡ₚ) ==> eq) sumZ.
Proof. unfold sumZ. intros l1 l2. induction 1; csimpl; lia. Qed.

#[export] Hint Rewrite sumZ_app : go_simpl.

(** ** Floating point numbers

    A Go [float64] is an IEEE 754 binary64 number: the Standard Library's
    [spec_float] at precision 53 and maximal exponent 1024.  The payload of a
    NaN is not represented; the program never looks at it. *)

Definition float64 : Type := spec_float.

#[export] Instance float64_eq_dec : EqDecision float64.
Proof.
  unfold EqDecision, Decision, float64.
  intros x y. repeat decide equality.
Defined.

Definition float64_IsNaN (f : float64) : bool :=
  match f with S754_nan => true | _ => false end.

Definition float64_IsInf (f : float64) : bool :=
  match f with S754_infinity _ => true | _ => false end.

Definition float64_finite (f : float64) : bool :=
  negb (float64_IsNaN f || float64_IsInf f).

(** The conversion [float64(n)] of an integer: rounding to nearest, ties to
    even. *)
Definition float64_of_Z (n : Z) : float64 := binary_normalize 53 1024 n 0 false.

Definition float64_zero : float64 := S754_zero false.

(** ** Stateful computations

    A computation over a world [W]: the code's calls are sequenced by the
    monadic bind, and every effect is an explicit update of the world. *)

Definition M (W A : Type) : Type := W → W * A.

Definition ret {W A} (a : A) : M W A := λ w, (w, a).
Definition bind {W A B} (m : M W A) (k : A → M W B) : M W B :=
  λ w, let '(w', a) := m w in k a w'.
Definition get {W} : M W W := λ w, (w, w).
Definition put {W} (w : W) : M W unit := λ _, (w, tt).
Definition modify {W} (f : W → W) : M W unit := λ w, (f w, tt).

Notation "'let!' x := c 'in' k" := (bind c (λ x, k))
  (at level 200, x name, c at level 99, k at level 200) : go_scope.
Notation "'let!' ' p := c 'in' k" := (bind c (λ x, match x with p => k end))
  (at level 200, p pattern, c at level 99, k at level 200) : go_scope.
Notation "c ';;' k" := (bind c (λ _, k))
  (at level 100, k at level 200, right associativity) : go_scope.
Open Scope go_scope.

Lemma bind_eq {W A B} (m : M W A) (k : A → M W B) w w' a :
  m w = (w', a) → bind m k w = k a w'.
Proof. unfold bind. by intros ->. Qed.

(** Unfolds the monad in the goal and the hypotheses. *)
Ltac munfold :=
  repeat first [progress unfold bind in * | progress unfold ret in *
    | progress unfold get in * | progress unfold put in *
    | progress unfold modify in * | progress simpl in *].

(** Case analysis on the discriminee of the first [match] or [if] found. *)
Ltac case_match_eq := let H := fresh "Heq" in case_match eqn:H.

Ltac solve_cases := repeat (case_match; simplify_eq/=); try done.

(** ** Strings *)

Lemma string_length_app (s t : string) :
  String.length (s +:+ t) = String.length s + String.length t.
Proof. induction s as [|c s IH]; simpl; [done|]. by rewrite IH. Qed.

Lemma string_app_assoc (s t u : string) : (s +:+ t) +:+ u = s +:+ t +:+ u.
Proof. induction s as [|c s IH]; [done|]. exact (f_equal (String c) IH). Qed.

Lemma string_app_nil_r (s : string) : s +:+ "" = s.
Proof. induction s as [|c s IH]; [done|]. exact (f_equal (String c) IH). Qed.

(** A suffix makes a different string. *)
Lemma string_app_ne (s t : string) : t ≠ "" → s ≠ s +:+ t.
Proof.
  intros Ht Heq. apply (f_equal String.length) in Heq. rewrite string_length_app in Heq.
  destruct t; simpl in Heq; [done|lia].
Qed.

(** ** Association lists and maps *)

(** Go's [m[k]] on a map whose element type has the zero value [z]. *)
Definition get_or {A} (z : A) (m : gmap string A) (k : string) : A :=
  default z (m !! k).

Lemma get_or_insert {A} (z : A) m k v k' :
  get_or z (<[k := v]> m) k' = if decide (k = k') then v else get_or z m k'.
Proof. unfold get_or. rewrite lookup_insert. by case_decide. Qed.

#[export] Hint Rewrite @get_or_insert : go_simpl.

(** A Go [range] over a map visits every entry once, in an unspecified order:
    the loops of the models take the order as an argument, and [range_of]
    says which arguments are possible. *)
Definition range_of {A} (l : list (string * A)) (m : gmap string A) : Prop :=
  l ≡ₚ map_to_list m.

Lemma range_of_to_list {A} (m : gmap string A) : range_of (map_to_list m) m.
Proof. unfold range_of. reflexivity. Qed.

Lemma range_of_NoDup {A} l (m : gmap string A) : range_of l m → NoDup l.*1.
Proof. intros H. rewrite H. apply NoDup_fst_map_to_list. Qed.

Lemma range_of_lookup {A} l (m : gmap string A) k v :
  range_of l m → (k, v) ∈ l ↔ m !! k = Some v.
Proof. intros H. rewrite H. apply elem_of_map_to_list. Qed.

Lemma range_of_map {A} l (m : gmap string A) : range_of l m → list_to_map l = m.
Proof.
  intros H. rewrite <-(list_to_map_to_list m).
  apply list_to_map_proper; [by eapply range_of_NoDup | done].
Qed.

Lemma range_of_nil {A} (m : gmap string A) : range_of [] m ↔ m = ∅.
Proof.
  unfold range_of. split; [|intros ->; by rewrite map_to_list_empty].
  intros H%Permutation_nil_l. by apply map_to_list_empty_iff.
Qed.

#[export] Hint Resolve range_of_to_list range_of_NoDup : go.

(** The loop [for k, v := range m { dst[k] = v }]. *)
Definition copy_into {A} (l : list (string * A)) (dst : gmap string A) : gmap string A :=
  foldl (λ d '(k, v), <[k := v]> d) dst l.

Lemma copy_into_lookup {A} l (dst : gmap string A) k :
  NoDup l.*1 →
  copy_into l dst !! k =
    match (list_to_map l : gmap string A) !! k with Some v => Some v | None => dst !! k end.
Proof.
  unfold copy_into. revert dst.
  induction l as [|[k' v'] l IH]; intros dst Hnd; csimpl.
  { by rewrite lookup_empty. }
  apply NoDup_cons in Hnd as [Hk' Hnd]. rewrite IH by done.
  rewrite !lookup_insert. case_decide; [subst|done].
  rewrite not_elem_of_list_to_map_1 by done. done.
Qed.

Lemma copy_into_empty {A} l (m : gmap string A) :
  range_of l m → copy_into l ∅ = m.
Proof.
  intros H. apply map_eq. intros k.
  rewrite copy_into_lookup by eauto with go.
  rewrite (range_of_map _ _ H). case_match; [done|]. by rewrite lookup_empty.
Qed.
