(* ===== verification/GoErrors.v ===== *)
(** Go error values: the sentinels of the program, messages, wrapping with
    [fmt.Errorf("...: %w", err)], [errors.Join], and the queries [errors.Is]
    and [errors.As] the program makes. *)

From S2P Require Import Prelude.

(** A non-nil [error].  A variable declared with [errors.New] is a
    [Sentinel], compared by identity; an error built at run time without a
    wrapped cause is a [Msg]. *)
Inductive error : Type :=
| Sentinel (text : string)
| Msg (text : string)
| PqError (code : string)
| StatusErr (code : Z) (text : string)
| Wrap (text : string) (cause : error)
| WrapBoth (first : error) (text : string) (second : error)
| Joined (errs : list error).

(** The interface value: [None] is [nil]. *)
Abbreviation err := (option error).

(** [errors.Is(err, target)] for a sentinel [target]. *)
Fixpoint errors_Is (target : string) (e : error) : bool :=
  match e with
  | Sentinel t => bool_decide (t = target)
  | Msg _ | PqError _ | StatusErr _ _ => false
  | Wrap _ e => errors_Is target e
  | WrapBoth e1 _ e2 => errors_Is target e1 || errors_Is target e2
  | Joined es => existsb (errors_Is target) es
  end.

(** [errors.As(err, &pqErr)]: the first [*pq.Error] in the depth-first walk of
    the tree, here its code. *)
Fixpoint errors_As_pq (e : error) : option string :=
  match e with
  | PqError c => Some c
  | Sentinel _ | Msg _ | StatusErr _ _ => None
  | Wrap _ e => errors_As_pq e
  | WrapBoth e1 _ e2 =>
      match errors_As_pq e1 with Some c => Some c | None => errors_As_pq e2 end
  | Joined es =>
      (fix go es := match es with
       | [] => None
       | e :: es => match errors_As_pq e with Some c => Some c | None => go es end
       end) es
  end.

Definition Is (target : string) (e : err) : bool :=
  match e with Some e => errors_Is target e | None => false end.

(** [errors.Join(errs...)] drops nil values and is nil when all are nil. *)
Definition errors_Join (es : list err) : err :=
  match omap id es with [] => None | es' => Some (Joined es') end.

(** A call that returns either a value or a non-nil error. *)
Inductive res (A : Type) : Type :=
| Ok (a : A)
| Fail (e : error).
Arguments Ok {A} _.
Arguments Fail {A} _.

(** ** The text of an error *)
Definition newline : string := String (Ascii.ascii_of_nat 10) "".

Fixpoint join_text (sep : string) (l : list string) : string :=
  match l with
  | [] => ""
  | [s] => s
  | s :: l => s +:+ sep +:+ join_text sep l
  end.

Fixpoint Error (e : error) : string :=
  match e with
  | Sentinel t | Msg t => t
  | PqError c => "pq: " +:+ c
  | StatusErr _ t => "rpc error: " +:+ t
  | Wrap t e => t +:+ ": " +:+ Error e
  | WrapBoth e1 t e2 => Error e1 +:+ ": " +:+ t +:+ ": " +:+ Error e2
  | Joined es => join_text newline (map Error es)
  end.

(** ** Lemmas *)

Lemma errors_Join_nil es : errors_Join es = None ↔ Forall (λ e, e = None) es.
Proof.
  unfold errors_Join. induction es as [|[e|] es IH]; csimpl.
  - split; [intros; constructor | done].
  - split; [done|]. by inversion 1.
  - rewrite IH. split; [by constructor | by inversion 1].
Qed.

Lemma errors_Join_nil2 e1 e2 : errors_Join [e1; e2] = None ↔ e1 = None ∧ e2 = None.
Proof. rewrite errors_Join_nil, !Forall_cons. naive_solver. Qed.

Lemma Is_Join target es : Is target (errors_Join es) = existsb (Is target) es.
Proof.
  assert (Hex : existsb (errors_Is target) (omap id es) = existsb (Is target) es).
  { induction es as [|[e|] es IH]; csimpl; [done| |done].
    change (errors_Is target e || existsb (errors_Is target) (omap id es)
            = errors_Is target e || existsb (Is target) es).
    by rewrite IH. }
  unfold errors_Join. destruct (omap id es) eqn:E; rewrite <-Hex; done.
Qed.

#[export] Hint Rewrite Is_Join : go_simpl.
