(* ===== verification/GoCrypto.v ===== *)
(** The parts of the Go standard library's [crypto/sha256], [crypto/hmac] and
    [encoding/hex] the program uses, as executable functions on byte strings.
    Every byte of a Go string is one [ascii]. *)

From S2P Require Import Prelude.
From Stdlib Require Import Ascii.

(** ** Bytes *)
Definition byte_of (a : ascii) : Z := Z.of_N (N_of_ascii a).
Definition ascii_of (z : Z) : ascii := ascii_of_N (Z.to_N z).
Definition bytes_of (s : string) : list Z := map byte_of (String.list_ascii_of_string s).
Definition string_of (l : list Z) : string := String.string_of_list_ascii (map ascii_of l).

Lemma byte_of_range a : (0 ≤ byte_of a < 256)%Z.
Proof. unfold byte_of. pose proof (N_ascii_bounded a). lia. Qed.

Lemma ascii_of_byte a : ascii_of (byte_of a) = a.
Proof. unfold ascii_of, byte_of. by rewrite N2Z.id, ascii_N_embedding. Qed.

Lemma string_of_bytes s : string_of (bytes_of s) = s.
Proof.
  unfold string_of, bytes_of. rewrite List.map_map.
  rewrite (map_ext _ id) by apply ascii_of_byte.
  by rewrite List.map_id, String.string_of_list_ascii_of_string.
Qed.

Lemma bytes_of_length s : length (bytes_of s) = String.length s.
Proof. unfold bytes_of. rewrite length_map. induction s; simpl; auto. Qed.

Lemma string_of_length l : String.length (string_of l) = length l.
Proof. unfold string_of. induction l; simpl; auto. Qed.

Lemma bytes_of_range s : Forall (λ b, 0 ≤ b < 256)%Z (bytes_of s).
Proof. unfold bytes_of. induction s; simpl; constructor; auto using byte_of_range. Qed.

(** ** SHA-256 (FIPS 180-4) on 32-bit words *)
Section Sha256.
Local Open Scope Z_scope.

Definition add32 (a b : Z) : Z := (a + b) mod 2 ^ 32.
Definition rotr (n x : Z) : Z :=
  Z.lor (Z.shiftr x n) (Z.shiftl x (32 - n) mod 2 ^ 32).
Definition not32 (x : Z) : Z := Z.lxor x (2 ^ 32 - 1).

Definition Ch (x y z : Z) : Z := Z.lxor (Z.land x y) (Z.land (not32 x) z).
Definition Maj (x y z : Z) : Z :=
  Z.lxor (Z.lxor (Z.land x y) (Z.land x z)) (Z.land y z).
Definition bsig0 (x : Z) : Z := Z.lxor (Z.lxor (rotr 2 x) (rotr 13 x)) (rotr 22 x).
Definition bsig1 (x : Z) : Z := Z.lxor (Z.lxor (rotr 6 x) (rotr 11 x)) (rotr 25 x).
Definition ssig0 (x : Z) : Z := Z.lxor (Z.lxor (rotr 7 x) (rotr 18 x)) (Z.shiftr x 3).
Definition ssig1 (x : Z) : Z := Z.lxor (Z.lxor (rotr 17 x) (rotr 19 x)) (Z.shiftr x 10).

(** The constants of the standard: the first 32 bits of the fractional parts of
    the cube roots of the first 64 primes, and of the square roots of the first
    8.  The roots are computed on integers scaled by 2^96 and 2^64. *)
Fixpoint cube_root (bits : nat) (n r : Z) : Z :=
  match bits with
  | O => r
  | S i =>
      let r' := r + 2 ^ Z.of_nat i in
      cube_root i n (if r' * r' * r' <=? n then r' else r)
  end.

Definition is_prime (n : nat) : bool :=
  forallb (λ d, negb (n mod d =? 0)%nat) (seq 2 (n - 2)).

Definition primes : list Z :=
  Eval vm_compute in map Z.of_nat (List.filter is_prime (seq 2 310)).

Definition K256 : list Z :=
  Eval vm_compute in map (λ p, cube_root 36 (p * 2 ^ 96) 0 mod 2 ^ 32) primes.

Definition H256 : list Z :=
  Eval vm_compute in map (λ p, Z.sqrt (p * 2 ^ 64) mod 2 ^ 32) (take 8 primes).

(** Big-endian words. *)
Definition be32 (z : Z) : list Z :=
  [Z.shiftr z 24 mod 256; Z.shiftr z 16 mod 256; Z.shiftr z 8 mod 256; z mod 256].
Fixpoint words (l : list Z) : list Z :=
  match l with
  | a :: b :: c :: d :: l =>
      (Z.shiftl a 24 + Z.shiftl b 16 + Z.shiftl c 8 + d) :: words l
  | _ => []
  end.

Definition pad (l : list Z) : list Z :=
  let n := Z.of_nat (length l) in
  let zeros := Z.to_nat ((55 - n) mod 64) in
  l ++ [0x80] ++ repeat 0 zeros
    ++ be32 (Z.shiftr (8 * n) 32 mod 2 ^ 32) ++ be32 ((8 * n) mod 2 ^ 32).

(** The message schedule, most recent word first. *)
Fixpoint schedule (n : nat) (rev_w : list Z) : list Z :=
  match n with
  | O => rev_w
  | S n =>
      let g i := nth i rev_w 0 in
      schedule n (add32 (add32 (ssig1 (g 1%nat)) (g 6%nat))
                        (add32 (ssig0 (g 14%nat)) (g 15%nat)) :: rev_w)
  end.

Definition round (st : list Z) (kw : Z * Z) : list Z :=
  match st with
  | [a; b; c; d; e; f; g; h] =>
      let t1 := add32 (add32 h (bsig1 e)) (add32 (Ch e f g) (add32 kw.1 kw.2)) in
      let t2 := add32 (bsig0 a) (Maj a b c) in
      [add32 t1 t2; a; b; c; add32 d t1; e; f; g]
  | _ => st
  end.

Definition compress (st block : list Z) : list Z :=
  let w := rev (schedule 48 (rev block)) in
  zip_with add32 st (foldl round st (zip K256 w)).

Fixpoint blocks (n : nat) (st ws : list Z) : list Z :=
  match n with
  | O => st
  | S n => blocks n (compress st (take 16 ws)) (drop 16 ws)
  end.

Definition sha256_bytes (l : list Z) : list Z :=
  let ws := words (pad l) in
  flat_map be32 (blocks (length ws / 16) H256 ws).

Definition Sum256 (s : string) : string := string_of (sha256_bytes (bytes_of s)).

(** ** HMAC-SHA256 (RFC 2104), block size 64 *)
Definition hmac_key (k : list Z) : list Z :=
  let k := if decide (64 < length k)%nat then sha256_bytes k else k in
  k ++ repeat 0 (64 - length k).

Definition hmac_bytes (key data : list Z) : list Z :=
  let k := hmac_key key in
  sha256_bytes (map (Z.lxor 0x5c) k
    ++ sha256_bytes (map (Z.lxor 0x36) k ++ data)).

Definition hmac_sha256 (key data : string) : string :=
  string_of (hmac_bytes (bytes_of key) (bytes_of data)).
End Sha256.

(** ** Hexadecimal *)
Definition hex_digit (n : Z) : ascii :=
  ascii_of (if decide (n < 10)%Z then 48 + n else 87 + n).

Definition hex_value (c : ascii) : option Z :=
  let b := byte_of c in
  if decide (48 ≤ b ≤ 57)%Z then Some (b - 48)%Z
  else if decide (97 ≤ b ≤ 102)%Z then Some (b - 87)%Z
  else if decide (65 ≤ b ≤ 70)%Z then Some (b - 55)%Z
  else None.

Fixpoint EncodeToString (s : string) : string :=
  match s with
  | "" => ""
  | String c s =>
      String (hex_digit (byte_of c / 16)) (String (hex_digit (byte_of c mod 16)) (EncodeToString s))
  end.

(** [hex.DecodeString]: [None] on a non-hexadecimal digit or odd length. *)
Fixpoint DecodeString (s : string) : option string :=
  match s with
  | "" => Some ""
  | String a (String b s) =>
      x ← hex_value a; y ← hex_value b; r ← DecodeString s;
      Some (String (ascii_of (16 * x + y)) r)
  | String _ "" => None
  end.

Lemma hex_digits_value c :
  hex_value (hex_digit (byte_of c / 16)) = Some (byte_of c / 16)%Z ∧
  hex_value (hex_digit (byte_of c mod 16)) = Some (byte_of c mod 16)%Z.
Proof. destruct c as [[] [] [] [] [] [] [] []]; by vm_compute. Qed.

Lemma hex_decode_encode s : DecodeString (EncodeToString s) = Some s.
Proof.
  induction s as [|c s IH]; [done|]. simpl.
  destruct (hex_digits_value c) as [-> ->]. simpl. rewrite IH. simpl.
  rewrite <-Z.div_mod by lia. by rewrite ascii_of_byte.
Qed.

Lemma hex_encode_length s : String.length (EncodeToString s) = (2 * String.length s)%nat.
Proof. induction s; simpl; lia. Qed.

Lemma sha256_bytes_range l : Forall (λ b, 0 ≤ b < 256)%Z (sha256_bytes l).
Proof.
  unfold sha256_bytes. generalize (blocks (length (words (pad l)) / 16) H256 (words (pad l))).
  intros ws. induction ws as [|w ws IH]; simpl; [constructor|].
  repeat (constructor; [apply Z.mod_pos_bound; lia|]). done.
Qed.

Lemma foldl_round_length kws st : length st = 8%nat → length (foldl round st kws) = 8%nat.
Proof.
  revert st. induction kws as [|kw kws IH]; intros st H; [done|]. simpl. apply IH.
  do 9 (destruct st as [|? st]; try done).
Qed.

Lemma blocks_length n st ws : length st = 8%nat → length (blocks n st ws) = 8%nat.
Proof.
  revert st ws. induction n as [|n IH]; intros st ws H; [done|]. simpl. apply IH.
  unfold compress. rewrite length_zip_with, foldl_round_length by done. lia.
Qed.

Lemma sha256_bytes_length l : length (sha256_bytes l) = 32%nat.
Proof.
  unfold sha256_bytes.
  pose proof (blocks_length (length (words (pad l)) / 16) H256 (words (pad l)) eq_refl) as H.
  revert H. generalize (blocks (length (words (pad l)) / 16) H256 (words (pad l))).
  intros ws H. do 9 (destruct ws as [|? ws]; try done).
Qed.

Example primes_64 : length primes = 64.
Proof. reflexivity. Qed.

(** ** Test vectors (FIPS 180-4 and RFC 4231) *)
Example sha256_abc : EncodeToString (Sum256 "abc") =
  "ba7816bf8f01cfea414140de5dae2223b00361a396177a9cb410ff61f20015ad".
Proof. vm_compute. reflexivity. Qed.

Example sha256_two_blocks :
  EncodeToString (Sum256 "abcdbcdecdefdefgefghfghighijhijkijkljklmklmnlmnomnopnopq") =
  "248d6a61d20638b8e5c026930c3e6039a33ce45964ff2167f6ecedd419db06c1".
Proof. vm_compute. reflexivity. Qed.

Example hmac_rfc4231_2 :
  EncodeToString (hmac_sha256 "Jefe" "what do ya want for nothing?") =
  "5bdcc146bf60754e6a042426089575c75a003f089d2739839dec58b964ec3843".
Proof. vm_compute. reflexivity. Qed.
