(* ===== verification/Metrics.v ===== *)
(** The metric record of [internal/model] and its generated [Reset].

    Values are modelled twice: [Metrics] is the record as every component but
    [Reset] sees it (an optional delta and an optional value), [MetricsObj] is
    the object with its two pointers in a heap, which [Reset] mutates in
    place. *)

From S2P Require Import Prelude GoErrors.

Definition Counter : string := "counter".
Definition Gauge : string := "gauge".

Lemma Gauge_Counter : Gauge ≠ Counter.
Proof. done. Qed.

(** [Delta] and [Value] are pointers in the code: nil is [None]. *)
Record Metrics : Type := mkMetrics {
  ID : string;
  MType : string;
  Delta : option Z;
  Value : option float64;
  Hash : string
}.

#[export] Instance Metrics_eq_dec : EqDecision Metrics.
Proof. unfold EqDecision, Decision. intros. decide equality; apply (decide (_ = _)). Defined.

Definition gauge_metric (name : string) (v : float64) : Metrics :=
  mkMetrics name Gauge None (Some v) "".
Definition counter_metric (name : string) (d : Z) : Metrics :=
  mkMetrics name Counter (Some d) None "".

(** The type discipline of the code: a delta is an [int64]. *)
Definition typed (m : Metrics) : Prop := from_option in_int64 True (Delta m).

(** What the update loops of every storage do with a metric: the [switch] on
    [MType] with its nil checks. *)
Inductive effect : Type :=
| SetGauge (name : string) (v : float64)
| AddCounter (name : string) (d : Z)
| NoEffect.

Definition effect_of (m : Metrics) : effect :=
  if decide (MType m = Gauge) then
    match Value m with Some v => SetGauge (ID m) v | None => NoEffect end
  else if decide (MType m = Counter) then
    match Delta m with Some d => AddCounter (ID m) d | None => NoEffect end
  else NoEffect.

(** The increment a batch asks for on a counter, and the gauge value it leaves. *)
Definition delta_of (name : string) (m : Metrics) : Z :=
  match effect_of m with
  | AddCounter n d => if decide (n = name) then d else 0%Z
  | _ => 0%Z
  end.

Definition total_delta (name : string) (ms : list Metrics) : Z :=
  sumZ (map (delta_of name) ms).

Definition gauge_of (name : string) (m : Metrics) : option float64 :=
  match effect_of m with
  | SetGauge n v => if decide (n = name) then Some v else None
  | _ => None
  end.

Fixpoint last_gauge (name : string) (ms : list Metrics) : option float64 :=
  match ms with
  | [] => None
  | m :: ms =>
      match last_gauge name ms with Some v => Some v | None => gauge_of name m end
  end.

Lemma effect_of_gauge n v : effect_of (gauge_metric n v) = SetGauge n v.
Proof. done. Qed.

Lemma effect_of_counter n d : effect_of (counter_metric n d) = AddCounter n d.
Proof. done. Qed.

Lemma total_delta_cons name m ms :
  total_delta name (m :: ms) = (delta_of name m + total_delta name ms)%Z.
Proof. done. Qed.

Lemma total_delta_app name ms1 ms2 :
  total_delta name (ms1 ++ ms2) = (total_delta name ms1 + total_delta name ms2)%Z.
Proof. unfold total_delta. by rewrite map_app, sumZ_app. Qed.

Lemma total_delta_perm name ms1 ms2 :
  ms1 ≡ₚ ms2 → total_delta name ms1 = total_delta name ms2.
Proof. unfold total_delta. by intros ->. Qed.

#[export] Hint Rewrite effect_of_gauge effect_of_counter total_delta_cons total_delta_app
  : go_simpl.

(** ** The generated Reset, on a heap *)

Definition loc : Type := positive.

(** The object behind a [*Metrics]: its pointer fields hold locations. *)
Record MetricsObj : Type := mkMetricsObj {
  o_ID : string;
  o_MType : string;
  o_Delta : option loc;
  o_Value : option loc;
  o_Hash : string
}.

Record heap : Type := mkHeap {
  objs : gmap loc MetricsObj;
  ints : gmap loc Z;
  floats : gmap loc float64
}.

(** [func (rs *Metrics) Reset()].  A location the heap does not hold would be
    a dangling pointer, which Go has not: the result is then [None]. *)
Definition Reset (rs : option loc) (h : heap) : option heap :=
  match rs with
  | None => Some h
  | Some l =>
      o ← objs h !! l;
      let objs' := <[l := mkMetricsObj "" "" (o_Delta o) (o_Value o) ""]> (objs h) in
      ints' ← match o_Delta o with
              | None => Some (ints h)
              | Some p => _ ← ints h !! p; Some (<[p := 0%Z]> (ints h))
              end;
      floats' ← match o_Value o with
                | None => Some (floats h)
                | Some p => _ ← floats h !! p; Some (<[p := float64_zero]> (floats h))
                end;
      Some (mkHeap objs' ints' floats')
  end.

(** Every pointer stored in an object is allocated. *)
Definition heap_ok (h : heap) : Prop :=
  map_Forall (λ _ o,
    from_option (λ p, is_Some (ints h !! p)) True (o_Delta o) ∧
    from_option (λ p, is_Some (floats h !! p)) True (o_Value o)) (objs h).

(** The record a [*Metrics] denotes. *)
Definition load (h : heap) (l : loc) : option Metrics :=
  o ← objs h !! l;
  Some (mkMetrics (o_ID o) (o_MType o)
    (p ← o_Delta o; ints h !! p) (p ← o_Value o; floats h !! p) (o_Hash o)).

(** The record [Reset] leaves: zeros where there were values. *)
Definition zeroed (m : Metrics) : Metrics :=
  mkMetrics "" "" ((λ _, 0%Z) <$> Delta m) ((λ _, float64_zero) <$> Value m) "".

Lemma Reset_total h l :
  heap_ok h → is_Some (objs h !! l) → ∃ h', Reset (Some l) h = Some h'.
Proof.
  intros Hok [o Ho]. destruct (Hok _ _ Ho) as [Hi Hf].
  unfold Reset. rewrite Ho. simpl.
  destruct (o_Delta o) as [p|]; simpl in *.
  - destruct Hi as [? ->]. simpl. destruct (o_Value o) as [q|]; simpl in *; [|eauto].
    destruct Hf as [? ->]. simpl. eauto.
  - destruct (o_Value o) as [q|]; simpl in *; [|eauto]. destruct Hf as [? ->]. simpl. eauto.
Qed.

(** The pieces of a successful call. *)
Lemma Reset_inv h l h' :
  Reset (Some l) h = Some h' → ∃ o, objs h !! l = Some o ∧
    objs h' = <[l := mkMetricsObj "" "" (o_Delta o) (o_Value o) ""]> (objs h) ∧
    (∀ p, ints h' !! p = if decide (o_Delta o = Some p) then Some 0%Z else ints h !! p) ∧
    (∀ p, floats h' !! p = if decide (o_Value o = Some p) then Some float64_zero else floats h !! p).
Proof.
  unfold Reset. intros H. apply bind_Some in H as (o & Ho & H). exists o. split; [done|].
  apply bind_Some in H as (is' & Hi & H). apply bind_Some in H as (fs' & Hf & H).
  simplify_eq. simpl. split; [done|]. split.
  - destruct (o_Delta o) as [p|]; simplify_eq.
    + apply bind_Some in Hi as (? & ? & [= <-]). intros q. rewrite lookup_insert.
      repeat case_decide; naive_solver.
    + intros q. by case_decide.
  - destruct (o_Value o) as [p|]; simplify_eq.
    + apply bind_Some in Hf as (? & ? & [= <-]). intros q. rewrite lookup_insert.
      repeat case_decide; naive_solver.
    + intros q. by case_decide.
Qed.
