(* ===== verification/GoJson.v ===== *)
(** What the program relies on in the Go package [encoding/json]: an encoder
    and two decoders per type, and the round trip on encodable values. *)

From S2P Require Import Prelude GoErrors.
From Stdlib Require Import Ascii.

(** [json.Marshal], [json.Unmarshal] (the whole text is one value) and
    [json.NewDecoder(r).Decode] (the first value of the text). *)
Class Json (A : Type) : Type := {
  json_Marshal : A → res string;
  json_Unmarshal : string → res A;
  json_Decode : string → res A;
  json_DecodeBroken : string → res A   (* [Decode] on a stream that fails after the text *)
}.

(** [json.NewEncoder(w).Encode(v)] writes the encoding and a newline. *)
Definition json_Encode `{Json A} (a : A) : res string :=
  match json_Marshal a with Ok s => Ok (s +:+ newline) | Fail e => Fail e end.

(** The documented behaviour: a value of the domain [clean] is encoded, and its
    text, alone or as a line, decodes to the value. *)
Class JsonRoundTrip (A : Type) `{Json A} (clean : A → Prop) : Prop := {
  json_marshal_clean a : clean a → ∃ s, json_Marshal a = Ok s;
  json_unmarshal_marshal a s : clean a → json_Marshal a = Ok s → json_Unmarshal s = Ok a;
  json_unmarshal_line a s : clean a → json_Encode a = Ok s → json_Unmarshal s = Ok a;
  json_decode_marshal a s : clean a → json_Marshal a = Ok s → json_Decode s = Ok a
}.

(** ** A concrete encoder

    For any countable type, numbers written in base one-bit digits: it has the
    laws above for every value, and the witnesses instantiate the interface
    with it. *)
Module BinaryJson.

Fixpoint print (p : positive) : string :=
  match p with
  | xH => ""
  | xO p => String "0" (print p)
  | xI p => String "1" (print p)
  end.

Fixpoint parse (s : string) : option positive :=
  match s with
  | "" => Some xH
  | String c s =>
      if decide (c = "0"%char) then xO <$> parse s
      else if decide (c = "1"%char) then xI <$> parse s
      else if decide (s = "") then Some xH else None
  end.

Lemma parse_print p : parse (print p) = Some p ∧ parse (print p +:+ newline) = Some p.
Proof. induction p as [p [IH1 IH2]|p [IH1 IH2]|]; simpl; rewrite ?IH1, ?IH2; done. Qed.

Definition of_string {A} `{Countable A} (s : string) : res A :=
  match p ← parse s; decode p with Some a => Ok a | None => Fail (Msg "invalid character") end.

Definition codec (A : Type) `{Countable A} : Json A := {|
  json_Marshal a := Ok (print (encode a));
  json_Unmarshal := of_string;
  json_Decode := of_string;
  json_DecodeBroken _ := Fail (Msg "unexpected end")
|}.

Lemma codec_ok (A : Type) `{Countable A} :
  @JsonRoundTrip A (codec A) (λ _, True).
Proof.
  assert (∀ a : A, of_string (print (encode a)) = Ok a ∧
    of_string (print (encode a) +:+ newline) = Ok a) as Hp.
  { intros a. unfold of_string. destruct (parse_print (encode a)) as [-> ->]. simpl.
    by rewrite decode_encode. }
  constructor; simpl.
  - eauto.
  - intros a s _ [= <-]. apply Hp.
  - intros a s _ [= <-]. apply Hp.
  - intros a s _ [= <-]. apply Hp.
Qed.

End BinaryJson.
