(* ===== verification/Delivery.v ===== *)
(** [internal/delivery]: retry-safe batch identifiers and fingerprints. *)

From S2P Require Import Prelude GoErrors GoCrypto Metrics GoJson.
From Stdlib Require Import Ascii.

Definition Header : string := "Idempotency-Key".

Definition ErrConflict_text : string := "idempotency key reused with different metrics".
Definition ErrConflict : error := Sentinel ErrConflict_text.

(** A batch keeps its identifier and its metrics until it is acknowledged. *)
Record Batch : Type := mkBatch { batch_ID : string; batch_Metrics : list Metrics }.

#[export] Instance Batch_eq_dec : EqDecision Batch.
Proof. solve_decision. Defined.

(** ** New

    [crypto/rand.Text] reads 26 random bytes and maps each to a letter of the
    base 32 alphabet; the bytes read are an argument. *)
Definition base32alphabet : string := "ABCDEFGHIJKLMNOPQRSTUVWXYZ234567".

Definition rand_Text (src : list Z) : string :=
  String.string_of_list_ascii
    (map (λ b, nth (Z.to_nat (b mod 32)) (String.list_ascii_of_string base32alphabet) "A"%char)
      (take 26 src)).

Definition New (src : list Z) (metrics : list Metrics) : Batch :=
  mkBatch (rand_Text src) metrics.

(** ** ValidKey

    [for _, c := range key] decodes UTF-8: [runes] is Go's decoding, with
    U+FFFD for every byte that starts no well-formed sequence. *)
Definition RuneError : Z := 0xFFFD.
Definition between (lo hi b : Z) : bool := (lo <=? b)%Z && (b <=? hi)%Z.

(** The allowed range of the second byte, by the first one, and the number of
    continuation bytes. *)
Definition second_range (b0 : Z) : option (nat * Z * Z) :=
  if between 0xC2 0xDF b0 then Some (1%nat, 0x80, 0xBF)%Z
  else if (b0 =? 0xE0)%Z then Some (2%nat, 0xA0, 0xBF)%Z
  else if (b0 =? 0xED)%Z then Some (2%nat, 0x80, 0x9F)%Z
  else if between 0xE1 0xEF b0 then Some (2%nat, 0x80, 0xBF)%Z
  else if (b0 =? 0xF0)%Z then Some (3%nat, 0x90, 0xBF)%Z
  else if between 0xF1 0xF3 b0 then Some (3%nat, 0x80, 0xBF)%Z
  else if (b0 =? 0xF4)%Z then Some (3%nat, 0x80, 0x8F)%Z
  else None.

Definition cont (b : Z) : bool := between 0x80 0xBF b.
(** The payload bits of a byte: its value modulo a power of two. *)
Definition low6 (b : Z) : Z := (b mod 64)%Z.

Fixpoint runes (l : list Z) : list Z :=
  match l with
  | [] => []
  | b0 :: l0 =>
      if (b0 <? 0x80)%Z then b0 :: runes l0
      else match second_range b0 with
      | None => RuneError :: runes l0
      | Some (n, lo, hi) =>
          match n, l0 with
          | 1, b1 :: l1 =>
              if between lo hi b1
              then (b0 mod 32 * 64 + low6 b1)%Z :: runes l1
              else RuneError :: runes l0
          | 2, b1 :: b2 :: l2 =>
              if between lo hi b1 && cont b2
              then (b0 mod 16 * 4096 + low6 b1 * 64 + low6 b2)%Z :: runes l2
              else RuneError :: runes l0
          | 3, b1 :: b2 :: b3 :: l3 =>
              if between lo hi b1 && cont b2 && cont b3
              then (b0 mod 8 * 262144 + low6 b1 * 4096 + low6 b2 * 64 + low6 b3)%Z :: runes l3
              else RuneError :: runes l0
          | _, _ => RuneError :: runes l0
          end
      end
  end.

(** The condition on a rune; the character constants are written as numbers. *)
Definition key_rune (c : Z) : bool :=
  between 97 122 c || between 65 90 c || between 48 57 c
  || (c =? 45)%Z || (c =? 95)%Z || (c =? 46)%Z.

Definition ValidKey (key : string) : bool :=
  if (String.length key =? 0)%nat || (128 <? String.length key)%nat then false
  else forallb key_rune (runes (bytes_of key)).

(** ** Fingerprint *)
Definition Fingerprint `{Json (list Metrics)} (metrics : list Metrics) : res string :=
  match json_Marshal metrics with
  | Fail e => Fail e
  | Ok data => Ok (EncodeToString (Sum256 data))
  end.

(** ** Lemmas *)

Lemma key_rune_ascii c : key_rune c = true → (45 ≤ c < 128)%Z.
Proof.
  unfold key_rune, between. rewrite !orb_true_iff, !andb_true_iff, !Z.leb_le, !Z.eqb_eq. lia.
Qed.

Lemma key_rune_high c : (128 ≤ c)%Z → key_rune c = false.
Proof. destruct (key_rune c) eqn:E; [|done]. apply key_rune_ascii in E. lia. Qed.


(** A byte of 128 or more never yields an allowed rune, whatever follows. *)
Lemma runes_high b0 l :
  (128 ≤ b0 < 256)%Z → ∃ r l', runes (b0 :: l) = r :: l' ∧ (128 ≤ r)%Z.
Proof.
  intros Hb. cbn [runes]. destruct (Z.ltb_spec b0 0x80) as [|_]; [lia|].
  assert (∀ l', ∃ r l'', RuneError :: runes l' = r :: l'' ∧ (128 ≤ r)%Z) as Herr.
  { intros l'. eexists _, _. split; [done|]. unfold RuneError. lia. }
  assert (∀ b, 0 ≤ low6 b < 64)%Z as Hlow by (intros; apply Z.mod_pos_bound; lia).
  unfold second_range, between, cont, between, low6 in *.
  repeat match goal with |- context [if ?c then Some _ else _] =>
    let E := fresh "E" in destruct c eqn:E end;
    repeat match goal with
    | H : (_ && _) = true |- _ => apply andb_prop in H as [?%Z.leb_le ?%Z.leb_le]
    | H : (_ =? _)%Z = true |- _ => apply Z.eqb_eq in H
    end; try done.
  all: repeat (match goal with |- context [match ?l with [] => _ | _ => _ end] =>
    destruct l as [|? l] end; [done|]).
  all: match goal with |- context [if ?c then _ else _] => destruct c eqn:Ec end; [|done].
  all: rewrite ?andb_true_iff, ?Z.leb_le in Ec.
  all: eexists _, _; split; [done|].
  all: repeat match goal with b : Z |- _ =>
         lazymatch goal with H : (0 ≤ b mod 64 < 64)%Z |- _ => fail | _ => pose proof (Hlow b) end end.
  all: Z.to_euclidean_division_equations; lia.
Qed.

Lemma ValidKey_runes s :
  forallb key_rune (runes (bytes_of s)) = forallb key_rune (bytes_of s).
Proof.
  pose proof (bytes_of_range s) as Hr. revert Hr. generalize (bytes_of s).
  intros l. induction l as [|b l IH]; [done|]. intros [Hb Hl]%Forall_cons.
  destruct (decide (b < 128)%Z).
  - cbn [runes]. destruct (Z.ltb_spec b 0x80); [|lia]. simpl. by rewrite IH.
  - destruct (runes_high b l) as (r & l' & -> & Hr); [lia|].
    simpl. rewrite !key_rune_high by lia. done.
Qed.

(** The letter of a random byte, and the only two facts about the alphabet. *)
Definition letter (b : Z) : ascii :=
  nth (Z.to_nat (b mod 32)) (String.list_ascii_of_string base32alphabet) "A"%char.

Lemma letters_ok :
  forallb (λ n, key_rune (byte_of (letter n))) (map Z.of_nat (seq 0 32)) = true ∧
  NoDup (map letter (map Z.of_nat (seq 0 32))).
Proof. split; [by vm_compute|]. apply (bool_decide_unpack _). by vm_compute. Qed.

Lemma seq32 b : ∃ i, i < 32 ∧ (b mod 32)%Z = Z.of_nat i.
Proof. exists (Z.to_nat (b mod 32)). pose proof (Z.mod_pos_bound b 32). lia. Qed.

Lemma letter_mod b : letter b = letter (b mod 32).
Proof. unfold letter. by rewrite Z.mod_mod. Qed.

Lemma letter_key_rune b : key_rune (byte_of (letter b)) = true.
Proof.
  rewrite letter_mod. destruct (seq32 b) as (i & Hi & ->).
  destruct letters_ok as [H _]. rewrite forallb_forall in H. apply H.
  apply in_map, in_seq. lia.
Qed.

Lemma letter_inj a b : letter a = letter b → (a mod 32 = b mod 32)%Z.
Proof.
  rewrite (letter_mod a), (letter_mod b).
  destruct (seq32 a) as (i & Hi & ->), (seq32 b) as (j & Hj & ->).
  destruct letters_ok as [_ H]. intros Heq. f_equal.
  assert (∀ k, k < 32 → map letter (map Z.of_nat (seq 0 32)) !! k = Some (letter (Z.of_nat k))) as Hk.
  { intros k Hk. rewrite !list_lookup_fmap, lookup_seq_lt by done. done. }
  eapply NoDup_lookup; [exact H|by apply Hk|]. rewrite Heq. by apply Hk.
Qed.

Lemma list_ascii_of_string_of_list l :
  String.list_ascii_of_string (String.string_of_list_ascii l) = l.
Proof. apply String.list_ascii_of_string_of_list_ascii. Qed.

Lemma rand_Text_bytes src :
  bytes_of (rand_Text src) = map (λ b, byte_of (letter b)) (take 26 src).
Proof. unfold bytes_of, rand_Text. by rewrite list_ascii_of_string_of_list, List.map_map. Qed.

Lemma string_length_bytes s : String.length s = length (bytes_of s).
Proof. by rewrite bytes_of_length. Qed.

(** ** Properties *)

(** [ValidKey] accepts exactly the keys of 1 to 128 bytes whose every byte is
    an ASCII letter or digit, a hyphen, an underscore or a dot; the decoding of
    the key into runes never lets another byte sequence through. *)
Theorem ValidKey_spec key :
  ValidKey key = true ↔
    1 ≤ String.length key ≤ 128 ∧
    Forall (λ b, 97 ≤ b ≤ 122 ∨ 65 ≤ b ≤ 90 ∨ 48 ≤ b ≤ 57 ∨ b = 45 ∨ b = 95 ∨ b = 46)%Z
      (bytes_of key).
Proof.
  unfold ValidKey. rewrite ValidKey_runes.
  assert (forallb key_rune (bytes_of key) = true ↔
    Forall (λ b, 97 ≤ b ≤ 122 ∨ 65 ≤ b ≤ 90 ∨ 48 ≤ b ≤ 57 ∨ b = 45 ∨ b = 95 ∨ b = 46)%Z
      (bytes_of key)) as Hf.
  { rewrite forallb_forall, Forall_forall. setoid_rewrite list_elem_of_In.
    unfold key_rune, between.
    setoid_rewrite orb_true_iff. repeat setoid_rewrite orb_true_iff.
    repeat setoid_rewrite andb_true_iff. repeat setoid_rewrite Z.leb_le.
    repeat setoid_rewrite Z.eqb_eq. naive_solver lia. }
  destruct ((_ =? 0)%nat || _) eqn:E.
  - split; [done|]. intros [Hl _]. exfalso.
    apply orb_true_iff in E as [E%Nat.eqb_eq|E%Nat.ltb_lt]; lia.
  - rewrite Hf. apply orb_false_iff in E as [E1%Nat.eqb_neq E2%Nat.ltb_ge].
    split; [intros; split; [lia|done] | naive_solver].
Qed.

(** [New] keeps the metrics it is given and its identifier is a valid key of
    26 characters; two identifiers are equal exactly when all 26 five-bit
    random values agree, so an identifier carries all 130 random bits and does
    not depend on the metrics. *)
Theorem New_batch src ms :
  26 ≤ length src →
  batch_Metrics (New src ms) = ms ∧
  String.length (batch_ID (New src ms)) = 26 ∧
  ValidKey (batch_ID (New src ms)) = true ∧
  ∀ src' ms', batch_ID (New src ms) = batch_ID (New src' ms') ↔
    map (λ b, b mod 32)%Z (take 26 src) = map (λ b, b mod 32)%Z (take 26 src').
Proof.
  intros Hlen. simpl.
  assert (String.length (rand_Text src) = 26) as Hl.
  { rewrite string_length_bytes, rand_Text_bytes, length_map, length_take. lia. }
  split_and!; [done|done| |].
  - unfold ValidKey. rewrite ValidKey_runes, Hl, rand_Text_bytes. simpl.
    apply forallb_forall. intros x (b & <- & _)%in_map_iff. apply letter_key_rune.
  - intros src' _. unfold rand_Text. split.
    + intros H. apply (f_equal String.list_ascii_of_string) in H.
      rewrite !list_ascii_of_string_of_list in H.
      revert H. generalize (take 26 src) (take 26 src'). fold letter.
      intros l. induction l as [|a l IH]; intros [|b l'] H; try done.
      simpl in *. injection H as H1 H2. f_equal; [by apply letter_inj|by apply IH].
    + intros H. f_equal.
      transitivity (map letter (map (λ b, b mod 32)%Z (take 26 src))).
      { rewrite List.map_map. apply map_ext. intros b. apply letter_mod. }
      rewrite H, List.map_map. apply map_ext. intros b. symmetry. apply letter_mod.
Qed.

Lemma New_batch_witness :
  let src := repeat 7%Z 26 in
  26 ≤ length src ∧ ValidKey (batch_ID (New src [])) = true.
Proof.
  simpl. split; [lia|].
  exact (proj1 (proj2 (proj2 (New_batch (repeat 7%Z 26) [] ltac:(simpl; lia))))).
Defined.
