(* ===== verification/Signature.v ===== *)
(** [internal/signature]: HMAC-SHA256 request and response signatures. *)

From S2P Require Import Prelude GoCrypto.

Definition Header : string := "HashSHA256".

Definition calculate (data key : string) : string := hmac_sha256 key data.

Definition Calculate (data key : string) : string := EncodeToString (calculate data key).

(** [hmac.Equal] compares in constant time; its result is byte equality. *)
Definition Verify (data key expected : string) : bool :=
  match DecodeString expected with
  | None => false
  | Some expectedBytes => bool_decide (calculate data key = expectedBytes)
  end.

Lemma calculate_length data key : String.length (calculate data key) = 32.
Proof.
  unfold calculate, hmac_sha256. rewrite string_of_length. apply sha256_bytes_length.
Qed.

Lemma Verify_own data key : Verify data key (Calculate data key) = true.
Proof. unfold Verify, Calculate. rewrite hex_decode_encode. by apply bool_decide_eq_true. Qed.

(** A signature computed by [Calculate] is 64 hexadecimal characters long and
    [Verify] accepts it for the same data and key; [Verify] accepts exactly the
    hexadecimal spellings (either case) of the HMAC, so a text that decodes to
    anything else, or is not hexadecimal, is rejected. *)
Theorem Verify_Calculate data key :
  String.length (Calculate data key) = 64 ∧
  Verify data key (Calculate data key) = true ∧
  ∀ expected, Verify data key expected = true ↔
    DecodeString expected = Some (hmac_sha256 key data).
Proof.
  unfold Verify, Calculate. split_and!.
  - by rewrite hex_encode_length, calculate_length.
  - apply Verify_own.
  - intros expected. destruct (DecodeString expected) as [b|]; [|naive_solver].
    rewrite bool_decide_eq_true. unfold calculate. naive_solver.
Qed.
