(* ===== verification/Retry.v ===== *)
(** [internal/retry]: bounded retries with fixed delays. *)

From S2P Require Import Prelude GoErrors.

Definition Second : Z := 1000000000.

Definition defaultDelays : list Z := [Second; 3 * Second; 5 * Second]%Z.

Section Retry.
(** The world the operation and the sleep function act on. *)
Context {W : Type}.
Implicit Types (operation : M W err) (shouldRetry : error → bool) (sleep : Z → M W unit).

(** [err == nil || !shouldRetry(err)]: the loop stops here. *)
Definition final shouldRetry (e : err) : bool :=
  match e with None => true | Some e => negb (shouldRetry e) end.

(** The loop over the delays; [e] is the error of the last attempt. *)
Fixpoint retry_loop operation shouldRetry sleep (delays : list Z) (e : err) : M W err :=
  match delays with
  | [] => ret e
  | delay :: delays =>
      sleep delay ;;
      let! e := operation in
      if final shouldRetry e then ret e
      else retry_loop operation shouldRetry sleep delays e
  end.

Definition DoWithSleeper operation shouldRetry sleep : M W err :=
  let! e := operation in
  if final shouldRetry e then ret e
  else retry_loop operation shouldRetry sleep defaultDelays e.

(** ** Specification: the run of attempts

    [run n w es w'] holds when [n+1] attempts, separated by the first [n]
    delays, go from [w] to [w'] and yield the errors [es] in order. *)
Fixpoint run operation sleep (delays : list Z) (w : W) : list err * W :=
  let '(w1, e) := operation w in
  match delays with
  | [] => ([e], w1)
  | d :: delays =>
      let '(w2, _) := sleep d w1 in
      let '(es, w3) := run operation sleep delays w2 in (e :: es, w3)
  end.

Lemma run_length operation sleep ds w :
  length (run operation sleep ds w).1 = S (length ds).
Proof.
  revert w. induction ds as [|d ds IH]; intros w; simpl.
  - by destruct (operation w).
  - destruct (operation w) as [w1 e], (sleep d w1) as [w2 []].
    specialize (IH w2). destruct (run operation sleep ds w2). simpl in *. lia.
Qed.

(** The loop body shared by the first attempt and the later ones. *)
Definition attempt operation shouldRetry sleep (delays : list Z) : M W err :=
  let! e := operation in
  if final shouldRetry e then ret e
  else retry_loop operation shouldRetry sleep delays e.

Lemma attempt_spec operation shouldRetry sleep ds w w' e :
  attempt operation shouldRetry sleep ds w = (w', e) →
  ∃ n es, n ≤ length ds ∧ run operation sleep (take n ds) w = (es ++ [e], w') ∧
    Forall (λ e', final shouldRetry e' = false) es ∧
    (final shouldRetry e = true ∨ n = length ds).
Proof.
  revert w. induction ds as [|d ds IH]; intros w; unfold attempt; munfold.
  - destruct (operation w) as [w1 e1] eqn:Hop. intros H.
    exists 0, []. simpl. rewrite Hop.
    destruct (final shouldRetry e1); simplify_eq; split_and!; auto.
  - destruct (operation w) as [w1 e1] eqn:Hop.
    destruct (final shouldRetry e1) eqn:Hf; intros H.
    { simplify_eq. exists 0, []. simpl. rewrite Hop. split_and!; auto with lia. }
    destruct (sleep d w1) as [w2 u] eqn:Hs.
    assert (attempt operation shouldRetry sleep ds w2 = (w', e)) as Ha.
    { unfold attempt. munfold. destruct (operation w2) as [w3 e3]. done. }
    destruct (IH _ Ha) as (n & es & Hn & Hrun & Hes & Hfin).
    exists (S n), (e1 :: es). simpl. rewrite Hop, Hs, Hrun.
    split_and!; auto with lia. naive_solver.
Qed.

Lemma DoWithSleeper_attempt operation shouldRetry sleep :
  DoWithSleeper operation shouldRetry sleep =
    attempt operation shouldRetry sleep defaultDelays.
Proof. done. Qed.

(** Reasoning by invariant: when every attempt from a [P]-state ends in a
    [P]-state with [Q] between its state and its error, and sleeping keeps [P],
    the retries end in a [P]-state with [Q] of the last error. *)
Lemma attempt_invariant operation shouldRetry sleep ds (P : W → Prop) (Q : W → err → Prop) :
  (∀ w, P w → P (operation w).1 ∧ Q (operation w).1 (operation w).2) →
  (∀ d w, P w → P (sleep d w).1) →
  ∀ w, P w → let '(w', e) := attempt operation shouldRetry sleep ds w in P w' ∧ Q w' e.
Proof.
  intros Hop Hsl. induction ds as [|d ds IH]; intros w Hw; unfold attempt; munfold.
  - specialize (Hop _ Hw). destruct (operation w) as [w1 e1].
    by destruct (final shouldRetry e1).
  - pose proof (Hop _ Hw) as [HP HQ]. destruct (operation w) as [w1 e1].
    destruct (final shouldRetry e1); [done|]. simpl in *.
    specialize (Hsl d w1 HP). destruct (sleep d w1) as [w2 []]. simpl in *.
    specialize (IH w2 Hsl). unfold attempt in IH. munfold. by destruct (operation w2).
Qed.
End Retry.

(** [Do] sleeps with [time.Sleep], which changes nothing the program reads. *)
Definition Do {W} (operation : M W err) (shouldRetry : error → bool) : M W err :=
  DoWithSleeper operation shouldRetry (λ _, ret tt).

Lemma Do_invariant {W} (operation : M W err) shouldRetry (P : W → Prop) (Q : W → err → Prop) w :
  (∀ w, P w → P (operation w).1 ∧ Q (operation w).1 (operation w).2) →
  P w → let '(w', e) := Do operation shouldRetry w in P w' ∧ Q w' e.
Proof. intros Hop Hw. by apply attempt_invariant. Qed.

(** An operation that succeeds, or fails for good, runs once. *)
Lemma Do_final {W} (operation : M W err) shouldRetry w w' e :
  operation w = (w', e) → final shouldRetry e = true →
  Do operation shouldRetry w = (w', e).
Proof. intros Hop Hf. unfold Do, DoWithSleeper. munfold. by rewrite Hop, Hf. Qed.

(** ** Properties *)

(** [DoWithSleeper] makes between one and four attempts, sleeping 1s, 3s and
    5s between them in that order: its world and error are those of the last
    attempt made, every earlier attempt failed with a retriable error, and the
    last one succeeded, failed for good, or was the fourth. *)
Theorem DoWithSleeper_correct {W} (operation : M W err) shouldRetry sleep (w : W) :
  let '(w', e) := DoWithSleeper operation shouldRetry sleep w in
  ∃ n es, n ≤ 3 ∧
    run operation sleep (take n [Second; 3 * Second; 5 * Second]%Z) w = (es ++ [e], w') ∧
    Forall (λ e', ∃ x, e' = Some x ∧ shouldRetry x = true) es ∧
    (e = None ∨ (∃ x, e = Some x ∧ shouldRetry x = false) ∨ n = 3).
Proof.
  rewrite DoWithSleeper_attempt.
  destruct (attempt _ _ _ _ w) as [w' e] eqn:H.
  apply attempt_spec in H as (n & es & Hn & Hrun & Hes & Hfin).
  exists n, es. split_and!; [done|done| |].
  - eapply Forall_impl; [done|]. intros [x|] Hx; simpl in Hx; [|done].
    exists x. split; [done|]. by destruct (shouldRetry x).
  - destruct Hfin as [Hfin|]; [|auto]. destruct e as [x|]; [|auto].
    right; left. exists x. simpl in Hfin. by destruct (shouldRetry x).
Qed.
