(* ===== verification/Store.v ===== *)
(** [internal/agent/store.go]: the metrics the agent has collected and not yet
    reported.  Every operation runs under the store's mutex, so it is one
    function on the state. *)

From S2P Require Import Prelude GoErrors Metrics.

Record Store : Type := mkStore {
  gauges : gmap string float64;
  counters : gmap string Z
}.

Definition NewStore : Store := mkStore ∅ ∅.

Definition SetGauge (name : string) (value : float64) (s : Store) : Store :=
  mkStore (<[name := value]> (gauges s)) (counters s).

Definition IncCounter (name : string) (delta : Z) (s : Store) : Store :=
  mkStore (gauges s) (<[name := add64 (get_or 0%Z (counters s) name) delta]> (counters s)).

(** The snapshots range over the maps; [go] and [co] are the orders in which
    the entries come. *)
Definition SnapshotGauges (go : list (string * float64)) (s : Store) : gmap string float64 :=
  copy_into go ∅.

Definition SnapshotAndResetCounters (co co' : list (string * Z)) (s : Store)
  : Store * gmap string Z :=
  let copyMap := copy_into co ∅ in
  (mkStore (gauges s) (foldl (λ c '(k, _), <[k := 0%Z]> c) (counters s) co'), copyMap).

(** One iteration of the gauge loop: the value goes to its own slot of
    [gaugeValues], which is what the metric points to. *)
Definition append_gauge (acc : list Metrics) (kv : string * float64) : list Metrics :=
  acc ++ [gauge_metric kv.1 kv.2].

(** One iteration of the counter loop, with the deletion of the entry. *)
Definition append_counter (acc : gmap string Z * list Metrics) (kv : string * Z)
  : gmap string Z * list Metrics :=
  (delete kv.1 acc.1, acc.2 ++ [counter_metric kv.1 kv.2]).

Definition SnapshotMetrics (go : list (string * float64)) (co : list (string * Z)) (s : Store)
  : Store * list Metrics :=
  let metrics := foldl append_gauge [] go in
  let '(counters', metrics') := foldl append_counter (counters s, metrics) co in
  (mkStore (gauges s) counters', metrics').

(** ** Invariant: counters are 64-bit integers *)
Definition store_ok (s : Store) : Prop := map_Forall (λ _ d, in_int64 d) (counters s).

(** The counter as a number, zero when absent. *)
Definition counter_value (s : Store) (name : string) : Z := get_or 0%Z (counters s) name.

(** ** Lemmas *)

Lemma foldl_append_gauge go acc :
  foldl append_gauge acc go = acc ++ map (λ kv, gauge_metric kv.1 kv.2) go.
Proof.
  revert acc. induction go as [|kv go IH]; intros acc; simpl; [by rewrite app_nil_r|].
  rewrite IH. unfold append_gauge. by rewrite <-app_assoc.
Qed.

Lemma foldl_append_counter co c acc :
  foldl append_counter (c, acc) co =
    (foldl (λ c kv, delete kv.1 c) c co, acc ++ map (λ kv, counter_metric kv.1 kv.2) co).
Proof.
  revert c acc. induction co as [|kv co IH]; intros c acc; simpl; [by rewrite app_nil_r|].
  unfold append_counter at 2. simpl. rewrite IH. by rewrite <-app_assoc.
Qed.

Lemma foldl_delete_lookup {A} (co : list (string * A)) (c : gmap string A) k :
  foldl (λ c kv, delete kv.1 c) c co !! k = if decide (k ∈ co.*1) then None else c !! k.
Proof.
  revert c. induction co as [|[k' v] co IH]; intros c; csimpl.
  - done.
  - rewrite IH. repeat case_decide; rewrite ?lookup_delete; repeat case_decide; set_solver.
Qed.

Lemma foldl_delete_all {A} (co : list (string * A)) (c : gmap string A) :
  range_of co c → foldl (λ c kv, delete kv.1 c) c co = ∅.
Proof.
  intros Hr. apply map_eq. intros k. rewrite foldl_delete_lookup, lookup_empty.
  case_decide as Hk; [done|]. destruct (c !! k) as [v|] eqn:E; [|done].
  exfalso. apply Hk. apply list_elem_of_fmap. exists (k, v). split; [done|].
  by apply (range_of_lookup _ _ _ _ Hr).
Qed.

(** What a snapshot contains. *)
Definition snapshot_list (go : list (string * float64)) (co : list (string * Z)) : list Metrics :=
  map (λ kv, gauge_metric kv.1 kv.2) go ++ map (λ kv, counter_metric kv.1 kv.2) co.

Lemma SnapshotMetrics_eq go co s :
  range_of co (counters s) →
  SnapshotMetrics go co s = (mkStore (gauges s) ∅, snapshot_list go co).
Proof.
  intros Hc. unfold SnapshotMetrics. rewrite foldl_append_gauge, foldl_append_counter.
  by rewrite foldl_delete_all.
Qed.

Lemma total_delta_gauges name go :
  total_delta name (map (λ kv, gauge_metric kv.1 kv.2) go) = 0%Z.
Proof. induction go as [|kv go IH]; [done|]. simpl. rewrite total_delta_cons, IH. done. Qed.

Lemma total_delta_counters name co (c : gmap string Z) :
  range_of co c →
  total_delta name (map (λ kv, counter_metric kv.1 kv.2) co) = get_or 0%Z c name.
Proof.
  intros Hr. rewrite <-(range_of_map _ _ Hr). pose proof (range_of_NoDup _ _ Hr) as Hnd.
  clear Hr. unfold get_or. induction co as [|[k v] co IH]; csimpl; [done|].
  apply NoDup_cons in Hnd as [Hk Hnd]. rewrite total_delta_cons, IH by done.
  unfold delta_of. rewrite effect_of_counter. simpl. rewrite lookup_insert. case_decide; [subst|done].
  rewrite not_elem_of_list_to_map_1 by done. simpl. lia.
Qed.

Lemma total_delta_snapshot name go co s :
  range_of co (counters s) → total_delta name (snapshot_list go co) = counter_value s name.
Proof.
  intros Hc. unfold snapshot_list.
  rewrite total_delta_app, total_delta_gauges, (total_delta_counters _ _ _ Hc). done.
Qed.

Lemma last_gauge_app name ms1 ms2 :
  last_gauge name (ms1 ++ ms2) =
    match last_gauge name ms2 with Some v => Some v | None => last_gauge name ms1 end.
Proof.
  induction ms1 as [|m ms1 IH]; simpl; [by destruct (last_gauge name ms2)|].
  rewrite IH. by destruct (last_gauge name ms2).
Qed.

Lemma last_gauge_counters name co :
  last_gauge name (map (λ kv, counter_metric kv.1 kv.2) co) = None.
Proof. induction co as [|kv co IH]; [done|]. simpl. by rewrite IH. Qed.

Lemma last_gauge_gauges name go (g : gmap string float64) :
  range_of go g → last_gauge name (map (λ kv, gauge_metric kv.1 kv.2) go) = g !! name.
Proof.
  intros Hr. rewrite <-(range_of_map _ _ Hr). pose proof (range_of_NoDup _ _ Hr) as Hnd.
  clear Hr. induction go as [|[k v] go IH]; csimpl; [by rewrite lookup_empty|].
  apply NoDup_cons in Hnd as [Hk Hnd]. rewrite IH by done. rewrite lookup_insert.
  unfold gauge_of. rewrite effect_of_gauge. simpl. case_decide; [subst|].
  - by rewrite not_elem_of_list_to_map_1.
  - by destruct ((list_to_map go : gmap string float64) !! name).
Qed.

Lemma last_gauge_snapshot name go co (g : gmap string float64) :
  range_of go g → last_gauge name (snapshot_list go co) = g !! name.
Proof.
  intros Hg. unfold snapshot_list.
  by rewrite last_gauge_app, last_gauge_counters, (last_gauge_gauges _ _ _ Hg).
Qed.

Lemma snapshot_list_nil go co s :
  range_of go (gauges s) → range_of co (counters s) →
  snapshot_list go co = [] ↔ gauges s = ∅ ∧ counters s = ∅.
Proof.
  intros Hg Hc. unfold snapshot_list. split.
  - intros [->%map_eq_nil ->%map_eq_nil]%app_eq_nil.
    split; by apply range_of_nil.
  - intros [E1 E2]. rewrite E1 in Hg. rewrite E2 in Hc. unfold range_of in *.
    rewrite map_to_list_empty in *. by apply Permutation_nil_r in Hg as ->, Hc as ->.
Qed.

Lemma IncCounter_value name d s n :
  counter_value (IncCounter name d s) n =
    if decide (name = n) then add64 (counter_value s name) d else counter_value s n.
Proof. unfold counter_value, IncCounter. simpl. by rewrite get_or_insert. Qed.

Lemma SetGauge_value name v s n : counter_value (SetGauge name v s) n = counter_value s n.
Proof. done. Qed.

Lemma NewStore_ok : store_ok NewStore.
Proof. by apply map_Forall_empty. Qed.
Lemma SetGauge_ok name v s : store_ok s → store_ok (SetGauge name v s).
Proof. done. Qed.
Lemma IncCounter_ok name d s : store_ok s → store_ok (IncCounter name d s).
Proof. intros H. apply map_Forall_insert_2; auto with go. Qed.

Lemma store_ok_value s n : store_ok s → in_int64 (counter_value s n).
Proof.
  intros H. unfold counter_value, get_or. destruct (counters s !! n) as [d|] eqn:E; simpl.
  - by eapply H.
  - unfold in_int64, int64_min, int64_max. lia.
Qed.

#[export] Hint Resolve NewStore_ok SetGauge_ok IncCounter_ok store_ok_value : go.

(** Tagging the keys of a duplicate-free list with a metric type. *)
Lemma NoDup_tagged {A} (t : string) (l : list (string * A)) :
  NoDup l.*1 → NoDup (map (λ kv, (t, kv.1)) l).
Proof.
  intros H. replace (map (λ kv, (t, kv.1)) l) with (pair t <$> l.*1).
  - apply NoDup_fmap_2; [by intros ?? [=]|done].
  - clear H. induction l as [|kv l IH]; [done|]. csimpl. by rewrite IH.
Qed.

(** ** Properties *)

(** [SnapshotMetrics] moves the counters out of the store and copies the
    gauges, in whatever orders the maps are ranged over: the snapshot asks for
    exactly the accumulated delta of every counter and the latest value of
    every gauge, names no metric twice, and leaves every counter at zero and
    the gauges as they were; it is empty exactly when nothing was collected. *)
Theorem SnapshotMetrics_conserves go co s :
  range_of go (gauges s) → range_of co (counters s) →
  let '(s', ms) := SnapshotMetrics go co s in
  (∀ name, total_delta name ms = counter_value s name) ∧
  (∀ name, last_gauge name ms = gauges s !! name) ∧
  NoDup (map (λ m, (MType m, ID m)) ms) ∧
  gauges s' = gauges s ∧ (∀ name, counter_value s' name = 0%Z) ∧
  (ms = [] ↔ gauges s = ∅ ∧ counters s = ∅).
Proof.
  intros Hg Hc. rewrite SnapshotMetrics_eq by done. split_and!.
  - intros. by apply total_delta_snapshot.
  - intros. by apply last_gauge_snapshot.
  - unfold snapshot_list. rewrite map_app, !List.map_map. simpl.
    apply NoDup_app. split_and!.
    + apply NoDup_tagged. by eapply range_of_NoDup.
    + intros x (? & -> & _)%list_elem_of_fmap (? & Heq & _)%list_elem_of_fmap. by injection Heq.
    + apply NoDup_tagged. by eapply range_of_NoDup.
  - done.
  - intros. unfold counter_value. simpl. unfold get_or. by rewrite lookup_empty.
  - by apply snapshot_list_nil.
Qed.

Lemma SnapshotMetrics_conserves_witness :
  let s := IncCounter "PollCount" 3 (SetGauge "Alloc" float64_zero NewStore) in
  range_of [("Alloc", float64_zero)] (gauges s) ∧
  let '(s', ms) := SnapshotMetrics [("Alloc", float64_zero)] [("PollCount", 3%Z)] s in
  total_delta "PollCount" ms = 3%Z.
Proof.
  split; [by unfold range_of; vm_compute|].
  refine (proj1 (SnapshotMetrics_conserves [("Alloc", float64_zero)] [("PollCount", 3%Z)]
    (IncCounter "PollCount" 3 (SetGauge "Alloc" float64_zero NewStore)) _ _) "PollCount");
  by unfold range_of; vm_compute.
Defined.

(** [SnapshotAndResetCounters] returns the counters as they were and leaves
    every counter of the store present with the value zero. *)
Theorem SnapshotAndResetCounters_spec co co' s :
  range_of co (counters s) → range_of co' (counters s) →
  let '(s', m) := SnapshotAndResetCounters co co' s in
  m = counters s ∧ gauges s' = gauges s ∧ counters s' = (λ _, 0%Z) <$> counters s.
Proof.
  intros Hc Hc'. simpl. split_and!; [by apply copy_into_empty|done|].
  apply map_eq. intros k. rewrite lookup_fmap.
  assert (∀ l c, foldl (λ c '(k, _), <[k := 0%Z]> c) c l !! k =
    if decide (k ∈ (l : list (string * Z)).*1) then Some 0%Z else (c : gmap string Z) !! k) as Hl.
  { intros l. induction l as [|[k' v] l IH]; intros c; csimpl.
    - done.
    - rewrite IH, lookup_insert. repeat case_decide; set_solver. }
  rewrite Hl. case_decide as Hk.
  - apply list_elem_of_fmap in Hk as ([? v] & -> & Hk).
    apply (range_of_lookup _ _ _ _ Hc') in Hk. simpl. by rewrite Hk.
  - destruct (counters s !! k) as [v|] eqn:E; [|done]. exfalso. apply Hk.
    apply list_elem_of_fmap. exists (k, v). split; [done|].
    by apply (range_of_lookup _ _ _ _ Hc').
Qed.

Lemma SnapshotAndResetCounters_spec_witness :
  let s := IncCounter "PollCount" 3 NewStore in
  (SnapshotAndResetCounters [("PollCount", 3%Z)] [("PollCount", 3%Z)] s).2 = counters s.
Proof.
  refine (proj1 (SnapshotAndResetCounters_spec [("PollCount", 3%Z)] [("PollCount", 3%Z)]
    (IncCounter "PollCount" 3 NewStore) _ _)); by unfold range_of; vm_compute.
Defined.
