(* ===== verification/Repository.v ===== *)
(** [internal/repository/repository.go]: the interfaces between the service and
    its storages, the abstract storage they promise, and the laws the clients
    are verified against. *)

From S2P Require Import Prelude GoErrors Metrics.

(** ** The interfaces, over the world [W] a storage acts on *)

Class MetricsRepository (W : Type) : Type := {
  UpdateGauge : string → float64 → M W err;
  UpdateCounter : string → Z → M W err;
  GetGauge : string → M W (float64 * bool);
  GetCounter : string → M W (Z * bool);
  GetAllGauges : M W (gmap string float64);
  GetAllCounters : M W (gmap string Z)
}.

(** The optional interfaces, which the service tests with type assertions. *)
Class MetricsBatchRepository (W : Type) : Type := {
  UpdateMetrics : list Metrics → M W err
}.

Class IdempotentRepository (W : Type) : Type := {
  UpdateMetricsOnce : string → string → list Metrics → M W (bool * err)
}.

(** ** The abstract storage *)

Record Content : Type := mkContent {
  c_gauges : gmap string float64;
  c_counters : gmap string Z
}.

Definition apply_effect (c : Content) (e : effect) : Content :=
  match e with
  | SetGauge n v => mkContent (<[n := v]> (c_gauges c)) (c_counters c)
  | AddCounter n d =>
      mkContent (c_gauges c) (<[n := add64 (get_or 0%Z (c_counters c) n) d]> (c_counters c))
  | NoEffect => c
  end.

Definition apply_batch (c : Content) (ms : list Metrics) : Content :=
  foldl (λ c m, apply_effect c (effect_of m)) c ms.

(** A storage's content and the fingerprints of the batches it has applied.
    The content is abstract: [upd] says what a batch makes of it, [None] when
    the storage refuses the batch. *)
Record Ledger (C : Type) : Type := mkLedger {
  l_content : C;
  l_receipts : gmap string string
}.
Arguments mkLedger {C} _ _.
Arguments l_content {C} _.
Arguments l_receipts {C} _.

Definition commit {C} (upd : C → list Metrics → option C)
    (key fingerprint : string) (ms : list Metrics) (l : Ledger C) : option (Ledger C) :=
  c ← upd (l_content l) ms;
  Some (mkLedger c (<[key := fingerprint]> (l_receipts l))).

Definition counter_at (c : Content) (name : string) : Z := get_or 0%Z (c_counters c) name.

Definition content_ok (c : Content) : Prop := map_Forall (λ _ d, in_int64 d) (c_counters c).

(** What [UpdateMetricsOnce] promises: the batch and its receipt are committed
    together or not at all, only when the key is free, and a call that reports
    no error leaves the receipt of its fingerprint in the storage. *)
Class OnceSpec (W C : Type) `{IdempotentRepository W}
    (upd : C → list Metrics → option C) (ledger : W → Ledger C) : Prop := {
  once_atomic key fp ms w w' applied e :
    UpdateMetricsOnce key fp ms w = (w', (applied, e)) →
    ledger w' = ledger w ∧ applied = false ∨
    l_receipts (ledger w) !! key = None ∧ commit upd key fp ms (ledger w) = Some (ledger w');
  once_acknowledged key fp ms w w' applied :
    UpdateMetricsOnce key fp ms w = (w', (applied, None)) →
    l_receipts (ledger w') !! key = Some fp
}.

(** What the unkeyed operations promise of the content. *)
Class ContentSpec (W : Type) `{MetricsRepository W} (content : W → Content) : Prop := {
  UpdateGauge_content n v w w' :
    UpdateGauge n v w = (w', None) → content w' = apply_effect (content w) (SetGauge n v);
  UpdateCounter_content n d w w' :
    UpdateCounter n d w = (w', None) → content w' = apply_effect (content w) (AddCounter n d);
  GetGauge_content n w : GetGauge n w =
    (w, (get_or float64_zero (c_gauges (content w)) n, bool_decide (is_Some (c_gauges (content w) !! n))));
  GetCounter_content n w : GetCounter n w =
    (w, (counter_at (content w) n, bool_decide (is_Some (c_counters (content w) !! n))))
}.

(** ** Lemmas on the abstract storage *)

Lemma apply_batch_nil c : apply_batch c [] = c.
Proof. done. Qed.

Lemma apply_batch_app c ms1 ms2 :
  apply_batch c (ms1 ++ ms2) = apply_batch (apply_batch c ms1) ms2.
Proof. unfold apply_batch. by rewrite foldl_app. Qed.

Lemma apply_effect_ok c e : content_ok c → content_ok (apply_effect c e).
Proof.
  destruct e; simpl; [done| |done]. intros H. apply map_Forall_insert_2; auto with go.
Qed.

Lemma apply_batch_ok c ms : content_ok c → content_ok (apply_batch c ms).
Proof.
  revert c. induction ms as [|m ms IH]; intros c H; [done|]. simpl. by apply IH, apply_effect_ok.
Qed.

Lemma counter_at_range c n : content_ok c → in_int64 (counter_at c n).
Proof.
  intros H. unfold counter_at, get_or. destruct (c_counters c !! n) eqn:E; simpl.
  - by eapply H.
  - unfold in_int64, int64_min, int64_max. lia.
Qed.

Lemma counter_at_effect c m n :
  content_ok c →
  counter_at (apply_effect c (effect_of m)) n = wrap64 (counter_at c n + delta_of n m).
Proof.
  intros Hc. pose proof (counter_at_range c n Hc). unfold delta_of.
  destruct (effect_of m) as [n' v|n' d|]; simpl.
  - unfold counter_at. simpl. rewrite Z.add_0_r. symmetry. by apply wrap64_id.
  - unfold counter_at. simpl. rewrite get_or_insert. case_decide; [by subst|].
    rewrite Z.add_0_r. symmetry. by apply wrap64_id.
  - rewrite Z.add_0_r. symmetry. by apply wrap64_id.
Qed.

(** A batch adds its total delta to every counter, modulo 2^64. *)
Lemma counter_at_batch c ms n :
  content_ok c → counter_at (apply_batch c ms) n = wrap64 (counter_at c n + total_delta n ms).
Proof.
  revert c. induction ms as [|m ms IH]; intros c Hc.
  - simpl. rewrite Z.add_0_r. symmetry. by apply wrap64_id, counter_at_range.
  - simpl. rewrite IH by (by apply apply_effect_ok).
    rewrite counter_at_effect by done. rewrite wrap64_add_l, total_delta_cons. f_equal. lia.
Qed.

(** A batch leaves the last value it gives to a gauge. *)
Lemma gauge_at_batch c ms n :
  c_gauges (apply_batch c ms) !! n =
    match last_gauge n ms with Some v => Some v | None => c_gauges c !! n end.
Proof.
  revert c. induction ms as [|m ms IH]; intros c; [done|]. simpl. rewrite IH.
  destruct (last_gauge n ms); [done|]. unfold gauge_of.
  destruct (effect_of m) as [n' v|n' d|]; simpl; [|done|done].
  rewrite lookup_insert. by case_decide.
Qed.

Lemma counter_present_effect c e n :
  is_Some (c_counters c !! n) → is_Some (c_counters (apply_effect c e) !! n).
Proof. destruct e; simpl; [done| |done]. rewrite lookup_insert. by case_decide. Qed.

Lemma content_eq c1 c2 :
  c_gauges c1 = c_gauges c2 → c_counters c1 = c_counters c2 → c1 = c2.
Proof. destruct c1, c2; simpl. by intros -> ->. Qed.

#[export] Hint Resolve apply_effect_ok apply_batch_ok counter_at_range : go.

(** ** Sequences of keyed updates

    Concurrent calls on a storage are serialised by its mutex or by the
    database, so any interleaving of them is a sequence. *)

Record call : Type := mkCall {
  call_key : string;
  call_fingerprint : string;
  call_metrics : list Metrics
}.

Section Calls.
Context {W C : Type} `{OnceSpec W C upd ledger}.

Fixpoint run_calls (cs : list call) : M W (list (bool * err)) :=
  match cs with
  | [] => ret []
  | c :: cs =>
      let! r := UpdateMetricsOnce (call_key c) (call_fingerprint c) (call_metrics c) in
      let! rs := run_calls cs in
      ret (r :: rs)
  end.

(** [commits l cs l']: committing the calls [cs] one after the other, each
    under a free key, leads from [l] to [l']. *)
Inductive commits : Ledger C → list call → Ledger C → Prop :=
| commits_nil l : commits l [] l
| commits_cons l c cs l1 l' :
    l_receipts l !! call_key c = None →
    commit upd (call_key c) (call_fingerprint c) (call_metrics c) l = Some l1 →
    commits l1 cs l' → commits l (c :: cs) l'.

Lemma commit_receipts key fp ms (l l1 : Ledger C) :
  commit upd key fp ms l = Some l1 → l_receipts l1 = <[key := fp]> (l_receipts l).
Proof. unfold commit. intros (c & _ & [= <-])%bind_Some. done. Qed.

Lemma commits_receipts l cs l' key fp :
  commits l cs l' → l_receipts l !! key = Some fp → l_receipts l' !! key = Some fp.
Proof.
  induction 1 as [|l c cs l1 l' Hk Hc _ IH]; [done|]. intros Hfp. apply IH.
  rewrite (commit_receipts _ _ _ _ _ Hc), lookup_insert_ne; [done|]. intros <-. congruence.
Qed.

Lemma commits_fresh l cs l' c :
  commits l cs l' → c ∈ cs → l_receipts l !! call_key c = None.
Proof.
  induction 1 as [|l d cs l1 l' Hk Hc _ IH]; [by intros ?%elem_of_nil|].
  intros [->|Hin]%elem_of_cons; [done|]. specialize (IH Hin).
  rewrite (commit_receipts _ _ _ _ _ Hc), lookup_insert in IH. by case_decide.
Qed.

Lemma commits_NoDup l cs l' : commits l cs l' → NoDup (map call_key cs).
Proof.
  induction 1 as [|l c cs l1 l' Hk Hc Hcs IH]; simpl; constructor; [|done].
  intros (d & Hkd & Hd)%list_elem_of_fmap.
  pose proof (commits_fresh _ _ _ _ Hcs Hd) as Hf.
  by rewrite (commit_receipts _ _ _ _ _ Hc), <-Hkd, lookup_insert_eq in Hf.
Qed.

Lemma commits_origin l cs l' key fp :
  commits l cs l' → l_receipts l' !! key = Some fp →
  l_receipts l !! key = Some fp ∨
  ∃ c, c ∈ cs ∧ call_key c = key ∧ call_fingerprint c = fp.
Proof.
  induction 1 as [|l c cs l1 l' Hk Hc _ IH]; [auto|]. intros Hfp.
  destruct (IH Hfp) as [Hin|(d & ? & ? & ?)].
  - rewrite (commit_receipts _ _ _ _ _ Hc), lookup_insert in Hin. case_decide; [|by left].
    right. exists c. simplify_eq. split; [by left|done].
  - right. exists d. split; [by right|done].
Qed.

Lemma commits_app l1 cs1 l2 cs2 l3 :
  commits l1 cs1 l2 → commits l2 cs2 l3 → commits l1 (cs1 ++ cs2) l3.
Proof. induction 1; [done|]. intros. simpl. econstructor; eauto. Qed.

Lemma once_commits c w w' r :
  UpdateMetricsOnce (call_key c) (call_fingerprint c) (call_metrics c) w = (w', r) →
  ∃ cs, cs `sublist_of` [c] ∧ commits (ledger w) cs (ledger w') ∧ (r.1 = true → cs = [c]).
Proof.
  destruct r as [applied e]. intros [[-> ->]|[Hk Hc]]%once_atomic.
  - exists []. split_and!; [by apply sublist_nil_l|constructor|done].
  - exists [c]. split_and!; [done| |done]. econstructor; [done|done|constructor].
Qed.

(** The calls of a sequence that are committed. *)
Lemma run_calls_committed cs w :
  let '(w', rs) := run_calls cs w in
  ∃ dn, dn `sublist_of` cs ∧ commits (ledger w) dn (ledger w') ∧
    Forall2 (λ c r, (r.1 = true → c ∈ dn) ∧
      (r.2 = None → l_receipts (ledger w') !! call_key c = Some (call_fingerprint c))) cs rs.
Proof.
  revert w. induction cs as [|c cs IH]; intros w; simpl; munfold.
  - exists []. split_and!; [done|constructor|constructor].
  - destruct (UpdateMetricsOnce _ _ _ w) as [w1 r] eqn:Hc. specialize (IH w1).
    destruct (run_calls cs w1) as [w2 rs'].
    destruct IH as (dn & Hsub & Hcom & Hres).
    destruct (once_commits _ _ _ _ Hc) as (d & Hd & Hcomd & Hr).
    exists (d ++ dn). split_and!.
    + change (c :: cs) with ([c] ++ cs). by apply sublist_app.
    + by eapply commits_app.
    + constructor.
      * split; [intros ->%Hr; set_solver|]. intros He. destruct r as [applied e]. simpl in He. subst.
        apply once_acknowledged in Hc. by eapply commits_receipts.
      * eapply Forall2_impl; [exact Hres|]. intros ? ? [? ?]. split; [set_solver|done].
Qed.

(** Whatever the storage, a sequence of keyed updates (any interleaving of
    concurrent calls, retries and duplicates) commits a subsequence of them in
    order, at most one per key and none whose key was taken before; the content
    is the result of exactly those batches; every call that reports [applied] is
    one of them; and every call that returns without an error has its
    fingerprint recorded under its key at the end, so its payload was committed
    exactly once, by this call, an earlier one or before the sequence. *)
Theorem calls_commit_once cs w :
  let '(w', rs) := run_calls cs w in
  ∃ committed, committed `sublist_of` cs ∧ commits (ledger w) committed (ledger w') ∧
    NoDup (map call_key committed) ∧
    Forall (λ c, l_receipts (ledger w) !! call_key c = None) committed ∧
    Forall2 (λ c r, (r.1 = true → c ∈ committed) ∧
      (r.2 = None → l_receipts (ledger w') !! call_key c = Some (call_fingerprint c) ∧
        (l_receipts (ledger w) !! call_key c = Some (call_fingerprint c) ∨
         ∃ d, d ∈ committed ∧ call_key d = call_key c ∧ call_fingerprint d = call_fingerprint c)))
      cs rs.
Proof.
  pose proof (run_calls_committed cs w) as Hrun. destruct (run_calls cs w) as [w' rs].
  destruct Hrun as (dn & Hsub & Hcom & Hres).
  exists dn. split_and!; [done|done|by eapply commits_NoDup| |].
  - apply Forall_forall. intros c Hin. by eapply commits_fresh.
  - eapply Forall2_impl; [exact Hres|]. intros c r [? Hn]. split; [done|].
    intros Hr. specialize (Hn Hr). split; [done|]. by eapply commits_origin.
Qed.
End Calls.
