(* ===== verification/Memory.v ===== *)
(** [internal/repository/memory.go] and the in-memory half of [idempotency.go]:
    the storage behind a mutex, its snapshot for the file, and what the file
    restores.  Every exported operation holds the mutex, so it is one function
    on the state. *)

From S2P Require Import Prelude GoErrors Metrics Delivery Repository.

Record MemStorage : Type := mkMemStorage {
  gauges : gmap string float64;
  counters : gmap string Z;
  receipts : gmap string string
}.

Definition NewMemStorage : MemStorage := mkMemStorage ∅ ∅ ∅.

Definition UpdateGauge (name : string) (value : float64) : M MemStorage err := λ s,
  (mkMemStorage (<[name := value]> (gauges s)) (counters s) (receipts s), None).

Definition UpdateCounter (name : string) (value : Z) : M MemStorage err := λ s,
  (mkMemStorage (gauges s)
     (<[name := add64 (get_or 0%Z (counters s) name) value]> (counters s)) (receipts s), None).

(** The body of the loop of [updateMetricsLocked]. *)
Definition update_metric (s : MemStorage) (metric : Metrics) : MemStorage :=
  if decide (MType metric = Gauge) then
    match Value metric with
    | Some value => mkMemStorage (<[ID metric := value]> (gauges s)) (counters s) (receipts s)
    | None => s
    end
  else if decide (MType metric = Counter) then
    match Delta metric with
    | Some delta =>
        mkMemStorage (gauges s)
          (<[ID metric := add64 (get_or 0%Z (counters s) (ID metric)) delta]> (counters s))
          (receipts s)
    | None => s
    end
  else s.

Definition updateMetricsLocked (metrics : list Metrics) (s : MemStorage) : MemStorage :=
  foldl update_metric s metrics.

Definition UpdateMetrics (metrics : list Metrics) : M MemStorage err :=
  modify (updateMetricsLocked metrics) ;; ret None.

Definition GetGauge (name : string) : M MemStorage (float64 * bool) := λ s,
  (s, match gauges s !! name with Some v => (v, true) | None => (float64_zero, false) end).

Definition GetCounter (name : string) : M MemStorage (Z * bool) := λ s,
  (s, match counters s !! name with Some v => (v, true) | None => (0%Z, false) end).

(** The copies range over the maps; [order] is the order of the entries. *)
Definition GetAllGauges (order : list (string * float64)) : M MemStorage (gmap string float64) :=
  ret (copy_into order ∅).

Definition GetAllCounters (order : list (string * Z)) : M MemStorage (gmap string Z) :=
  ret (copy_into order ∅).

(** [idempotency.go] *)
Definition UpdateMetricsOnce (key fingerprint : string) (metrics : list Metrics)
  : M MemStorage (bool * err) :=
  let! s := get in
  match receipts s !! key with
  | Some previous =>
      if decide (previous ≠ fingerprint) then ret (false, Some ErrConflict)
      else ret (false, None)
  | None =>
      modify (updateMetricsLocked metrics) ;;
      modify (λ s, mkMemStorage (gauges s) (counters s) (<[key := fingerprint]> (receipts s))) ;;
      ret (true, None)
  end.

(** ** Snapshots *)

Definition snapshotMetricsLocked (go : list (string * float64)) (co : list (string * Z))
  : list Metrics :=
  let metrics := foldl (λ acc kv, acc ++ [gauge_metric kv.1 kv.2]) [] go in
  foldl (λ acc kv, acc ++ [counter_metric kv.1 kv.2]) metrics co.

(** A record of the file: a metric, and on the first one the receipts. *)
Record snapshotRecord : Type := mkSnapshotRecord {
  sr_Metrics : Metrics;
  sr_Receipts : gmap string string
}.

Definition fileSnapshot (go : list (string * float64)) (co : list (string * Z))
    (ro : list (string * string)) (s : MemStorage) : list snapshotRecord :=
  let records := map (λ m, mkSnapshotRecord m ∅) (snapshotMetricsLocked go co) in
  match records with
  | r :: rest =>
      if decide (0 < size (receipts s)) then
        mkSnapshotRecord (sr_Metrics r) (copy_into ro ∅) :: rest
      else records
  | [] => []
  end.

(** The loop of [loadFromFile] on the decoded records; [orders] are the orders
    in which the receipts of the records come. *)
Definition load_record (s : MemStorage) (r : snapshotRecord * list (string * string))
  : MemStorage :=
  let metric := sr_Metrics r.1 in
  let s := mkMemStorage (gauges s) (counters s) (copy_into r.2 (receipts s)) in
  if decide (MType metric = Gauge) then
    match Value metric with
    | Some v => mkMemStorage (<[ID metric := v]> (gauges s)) (counters s) (receipts s)
    | None => s
    end
  else if decide (MType metric = Counter) then
    match Delta metric with
    | Some d => mkMemStorage (gauges s) (<[ID metric := d]> (counters s)) (receipts s)
    | None => s
    end
  else s.

Definition load_records (records : list snapshotRecord) (orders : list (list (string * string)))
  : MemStorage :=
  foldl load_record (mkMemStorage ∅ ∅ ∅) (zip records orders).

(** ** The storage as an implementation of the interfaces *)

Definition content (s : MemStorage) : Content := mkContent (gauges s) (counters s).
Definition ledger (s : MemStorage) : Ledger Content := mkLedger (content s) (receipts s).

(** The storage takes every batch. *)
Definition mem_upd (c : Content) (ms : list Metrics) : option Content := Some (apply_batch c ms).

#[export] Instance MemStorage_MetricsRepository : MetricsRepository MemStorage := {|
  Repository.UpdateGauge := UpdateGauge;
  Repository.UpdateCounter := UpdateCounter;
  Repository.GetGauge := GetGauge;
  Repository.GetCounter := GetCounter;
  Repository.GetAllGauges := λ s, GetAllGauges (map_to_list (gauges s)) s;
  Repository.GetAllCounters := λ s, GetAllCounters (map_to_list (counters s)) s
|}.

#[export] Instance MemStorage_MetricsBatchRepository : MetricsBatchRepository MemStorage :=
  {| Repository.UpdateMetrics := UpdateMetrics |}.

#[export] Instance MemStorage_IdempotentRepository : IdempotentRepository MemStorage :=
  {| Repository.UpdateMetricsOnce := UpdateMetricsOnce |}.

(** ** Lemmas *)

Lemma update_metric_content s m :
  content (update_metric s m) = apply_effect (content s) (effect_of m) ∧
  receipts (update_metric s m) = receipts s.
Proof.
  unfold update_metric, effect_of. repeat case_decide; repeat case_match; done.
Qed.

Lemma updateMetricsLocked_content ms s :
  content (updateMetricsLocked ms s) = apply_batch (content s) ms ∧
  receipts (updateMetricsLocked ms s) = receipts s.
Proof.
  unfold updateMetricsLocked, apply_batch. revert s.
  induction ms as [|m ms IH]; intros s; [done|]. simpl.
  destruct (IH (update_metric s m)) as [-> ->].
  by destruct (update_metric_content s m) as [-> ->].
Qed.

(** The three outcomes of a keyed update. *)
Lemma UpdateMetricsOnce_cases key fp ms s :
  UpdateMetricsOnce key fp ms s =
    match receipts s !! key with
    | None =>
        let s' := updateMetricsLocked ms s in
        (mkMemStorage (gauges s') (counters s') (<[key := fp]> (receipts s')), (true, None))
    | Some fp' => (s, (false, if decide (fp' ≠ fp) then Some ErrConflict else None))
    end.
Proof. unfold UpdateMetricsOnce. munfold. repeat case_match; done. Qed.

Lemma UpdateMetricsOnce_commit key fp ms s :
  receipts s !! key = None →
  ∃ s', UpdateMetricsOnce key fp ms s = (s', (true, None)) ∧
    commit mem_upd key fp ms (ledger s) = Some (ledger s').
Proof.
  intros Hk. rewrite UpdateMetricsOnce_cases, Hk. eexists. split; [done|].
  unfold commit, mem_upd, ledger. simpl. destruct (updateMetricsLocked_content ms s) as [Hc ->].
  unfold content in *. simpl. by rewrite <-Hc.
Qed.

#[export] Instance MemStorage_OnceSpec : OnceSpec MemStorage Content mem_upd ledger.
Proof.
  constructor; simpl.
  - intros key fp ms s s' applied e H. destruct (receipts s !! key) as [fp'|] eqn:Hk.
    + rewrite UpdateMetricsOnce_cases, Hk in H. simplify_eq. by left.
    + destruct (UpdateMetricsOnce_commit key fp ms s Hk) as (s'' & H' & Hl).
      rewrite H' in H. simplify_eq. by right.
  - intros key fp ms s s' applied H. destruct (receipts s !! key) as [fp'|] eqn:Hk.
    + rewrite UpdateMetricsOnce_cases, Hk in H. case_decide; simplify_eq/=.
      by rewrite Hk.
    + destruct (UpdateMetricsOnce_commit key fp ms s Hk) as (s'' & H' & Hl).
      rewrite H' in H. simplify_eq. apply (commit_receipts (upd := mem_upd)) in Hl.
      change (l_receipts (ledger s') !! key = Some fp). by rewrite Hl, lookup_insert_eq.
Qed.

#[export] Instance MemStorage_ContentSpec : ContentSpec MemStorage content.
Proof.
  constructor; simpl.
  - intros n v s s' [= <-]. done.
  - intros n d s s' [= <-]. done.
  - intros n s. unfold GetGauge, get_or. simpl. by destruct (gauges s !! n).
  - intros n s. unfold GetCounter, counter_at, get_or. simpl. by destruct (counters s !! n).
Qed.

(** ** The invariants of the storage *)

(** Counters are 64-bit integers. *)
Definition mem_ok (s : MemStorage) : Prop := content_ok (content s).

(** The receipts can be written to the file, on the record of some metric. *)
Definition saveable (s : MemStorage) : Prop :=
  receipts s = ∅ ∨ gauges s ≠ ∅ ∨ counters s ≠ ∅.

Definition effective (m : Metrics) : Prop := effect_of m ≠ NoEffect.

Lemma NewMemStorage_ok : mem_ok NewMemStorage ∧ saveable NewMemStorage.
Proof. split; [by apply map_Forall_empty | by left]. Qed.

Lemma update_metric_nonempty s m :
  effective m ∨ gauges s ≠ ∅ ∨ counters s ≠ ∅ →
  gauges (update_metric s m) ≠ ∅ ∨ counters (update_metric s m) ≠ ∅.
Proof.
  unfold effective. intros H. destruct (update_metric_content s m) as [Hc _].
  unfold content in Hc. destruct (update_metric s m) as [g c r]. simpl in *.
  destruct (effect_of m) as [n v|n d|] eqn:E; simpl in Hc; injection Hc as -> ->.
  - left. apply insert_non_empty.
  - right. apply insert_non_empty.
  - naive_solver.
Qed.

Lemma updateMetricsLocked_nonempty ms s :
  Exists effective ms ∨ gauges s ≠ ∅ ∨ counters s ≠ ∅ →
  gauges (updateMetricsLocked ms s) ≠ ∅ ∨ counters (updateMetricsLocked ms s) ≠ ∅.
Proof.
  unfold updateMetricsLocked. revert s. induction ms as [|m ms IH]; intros s H; simpl.
  - destruct H as [H|H]; [by inversion H|done].
  - apply IH. destruct H as [[H|H]%Exists_cons|H].
    + right. apply update_metric_nonempty. by left.
    + by left.
    + right. apply update_metric_nonempty. by right.
Qed.

Lemma UpdateMetricsOnce_saveable key fp ms s :
  Exists effective ms → saveable s → saveable (UpdateMetricsOnce key fp ms s).1.
Proof.
  intros Hms Hs. rewrite UpdateMetricsOnce_cases. case_match; [done|]. right.
  by apply updateMetricsLocked_nonempty; left.
Qed.

Lemma UpdateMetrics_saveable ms s : saveable s → saveable (UpdateMetrics ms s).1.
Proof.
  intros [Hr|Hs]; munfold; unfold UpdateMetrics; munfold.
  - left. by destruct (updateMetricsLocked_content ms s) as [_ ->].
  - right. apply updateMetricsLocked_nonempty. by right.
Qed.

Lemma UpdateMetricsOnce_mem_ok key fp ms s : mem_ok s → mem_ok (UpdateMetricsOnce key fp ms s).1.
Proof.
  intros Hs. rewrite UpdateMetricsOnce_cases. case_match; [done|]. unfold mem_ok.
  change (content_ok (content (updateMetricsLocked ms s))).
  destruct (updateMetricsLocked_content ms s) as [-> _]. by apply apply_batch_ok.
Qed.

Lemma UpdateMetrics_ok ms s : mem_ok s → mem_ok (UpdateMetrics ms s).1.
Proof.
  intros Hs. unfold UpdateMetrics, mem_ok. munfold.
  destruct (updateMetricsLocked_content ms s) as [-> _]. by apply apply_batch_ok.
Qed.

(** ** Snapshots and restoration *)

Lemma snapshotMetricsLocked_eq go co :
  snapshotMetricsLocked go co =
    map (λ kv, gauge_metric kv.1 kv.2) go ++ map (λ kv, counter_metric kv.1 kv.2) co.
Proof.
  unfold snapshotMetricsLocked.
  assert (∀ {A B} (f : A → B) l acc, foldl (λ acc kv, acc ++ [f kv]) acc l = acc ++ map f l) as Hf.
  { intros A B f l. induction l as [|x l IH]; intros acc; simpl; [by rewrite app_nil_r|].
    rewrite IH. by rewrite <-app_assoc. }
  by rewrite !Hf.
Qed.

(** Loading plain records, without receipts. *)
Lemma load_gauges go s orders :
  length orders = length go → Forall (λ o, o = []) orders →
  foldl load_record s (zip (map (λ kv, mkSnapshotRecord (gauge_metric kv.1 kv.2) ∅) go) orders) =
    mkMemStorage (copy_into go (gauges s)) (counters s) (receipts s).
Proof.
  revert s orders. induction go as [|[k v] go IH]; intros s [|o os] Hl Ho; try done.
  - by destruct s.
  - apply Forall_cons in Ho as [-> Ho]. simpl in *. rewrite IH by auto. done.
Qed.

Lemma load_counters co s orders :
  length orders = length co → Forall (λ o, o = []) orders →
  foldl load_record s (zip (map (λ kv, mkSnapshotRecord (counter_metric kv.1 kv.2) ∅) co) orders) =
    mkMemStorage (gauges s) (copy_into co (counters s)) (receipts s).
Proof.
  revert s orders. induction co as [|[k v] co IH]; intros s [|o os] Hl Ho; try done.
  - by destruct s.
  - apply Forall_cons in Ho as [-> Ho]. simpl in *. rewrite IH by auto. done.
Qed.

(** Without receipts on any record, the snapshot restores the content. *)
Lemma load_plain go co s orders :
  length orders = length go + length co → Forall (λ o, o = []) orders →
  foldl load_record s (zip (map (λ m, mkSnapshotRecord m ∅) (snapshotMetricsLocked go co)) orders) =
    mkMemStorage (copy_into go (gauges s)) (copy_into co (counters s)) (receipts s).
Proof.
  intros Hl Ho. rewrite snapshotMetricsLocked_eq, map_app, !List.map_map.
  rewrite <-(take_drop (length go) orders).
  rewrite zip_with_app by (rewrite length_map, length_take; lia).
  rewrite foldl_app, load_gauges, load_counters; [done| | | |];
    rewrite ?length_take, ?length_drop; auto using Forall_take, Forall_drop; lia.
Qed.

(** Moving the receipts to the first record only adds them to the result. *)
Lemma load_record_receipts s m (rc : gmap string string) ro :
  load_record s (mkSnapshotRecord m rc, ro) =
  load_record (mkMemStorage (gauges s) (counters s) (copy_into ro (receipts s)))
    (mkSnapshotRecord m ∅, []).
Proof. done. Qed.

(** The receipts of the records are read in some order. *)
Definition orders_of (records : list snapshotRecord) (orders : list (list (string * string))) : Prop :=
  Forall2 (λ r o, range_of o (sr_Receipts r)) records orders.

Lemma plain_orders ms orders :
  orders_of (map (λ m, mkSnapshotRecord m ∅) ms) orders →
  length orders = length ms ∧ Forall (λ o, o = []) orders.
Proof.
  unfold orders_of. revert orders.
  induction ms as [|m ms IH]; intros orders H; inversion H as [|? o ? os Ho Hos]; subst; [done|].
  destruct (IH _ Hos) as [Hl Hf]. simpl. split; [by rewrite Hl|]. constructor; [|done].
  simpl in Ho. unfold range_of in Ho. rewrite map_to_list_empty in Ho. by apply Permutation_nil_r.
Qed.

Lemma snapshot_length go co :
  length (snapshotMetricsLocked go co) = length go + length co.
Proof. by rewrite snapshotMetricsLocked_eq, length_app, !length_map. Qed.

(** The general statement: the receipts survive when there is a record. *)
Lemma load_fileSnapshot go co ro s orders :
  range_of go (gauges s) → range_of co (counters s) → range_of ro (receipts s) →
  orders_of (fileSnapshot go co ro s) orders → saveable s →
  load_records (fileSnapshot go co ro s) orders = s.
Proof.
  intros Hg Hc Hr Ho Hs. unfold load_records, fileSnapshot in *.
  pose proof (snapshot_length go co) as Hlen.
  destruct (snapshotMetricsLocked go co) as [|m ms] eqn:Hsnap; simpl in *.
  - destruct go, co; simpl in Hlen; try lia.
    apply range_of_nil in Hg, Hc. destruct s as [g c r]. simpl in *. subst.
    destruct Hs as [Hs|[Hs|Hs]]; simpl in Hs; by subst.
  - assert (∀ s' os, length os = length go + length co → Forall (λ o, o = []) os →
      gauges s' = ∅ → counters s' = ∅ →
      foldl load_record s' (zip (map (λ m, mkSnapshotRecord m ∅) (m :: ms)) os) =
        mkMemStorage (gauges s) (counters s) (receipts s')) as Hplain.
    { intros s' os Hl Hf Hgs Hcs. rewrite <-Hsnap, load_plain by done.
      rewrite Hgs, Hcs.
      by rewrite (copy_into_empty go (gauges s)), (copy_into_empty co (counters s)). }
    case_decide as Hsize.
    + inversion Ho as [|? o ? os Hor Hos]; subst. simpl in *.
      apply plain_orders in Hos as [Hl Hf].
      rewrite (load_record_receipts _ m _ o).
      etransitivity; [apply (Hplain (mkMemStorage ∅ ∅ (copy_into o ∅)) ([] :: os));
        simpl; [lia|by constructor|done|done]|].
      rewrite (copy_into_empty ro (receipts s)) in Hor by done. simpl.
      rewrite (copy_into_empty _ _ Hor). by destruct s.
    + apply (plain_orders (m :: ms)) in Ho as [Hl Hf].
      etransitivity; [apply (Hplain (mkMemStorage ∅ ∅ ∅) orders);
        simpl in *; [lia|done|done|done]|].
      destruct s as [g c r]. simpl in *. f_equal. symmetry. apply map_size_empty_inv. lia.
Qed.

(** ** Properties *)

(** [UpdateMetrics] never fails, adds the total delta of the batch to every
    counter modulo 2^64, leaves the last value of the batch in every gauge it
    names, touches nothing else, and composes: two batches are the
    concatenated batch.  The counters do not depend on the order of the
    metrics. *)
Theorem UpdateMetrics_spec ms s :
  mem_ok s →
  let '(s', e) := UpdateMetrics ms s in
  e = None ∧ mem_ok s' ∧ receipts s' = receipts s ∧
  (∀ name, get_or 0%Z (counters s') name =
     wrap64 (get_or 0%Z (counters s) name + total_delta name ms)) ∧
  (∀ name, gauges s' !! name =
     match last_gauge name ms with Some v => Some v | None => gauges s !! name end) ∧
  (∀ ms', UpdateMetrics ms' s' = UpdateMetrics (ms ++ ms') s) ∧
  (∀ ms' name, ms ≡ₚ ms' →
     get_or 0%Z (counters (UpdateMetrics ms' s).1) name = get_or 0%Z (counters s') name).
Proof.
  intros Hok.
  assert (∀ l name, get_or 0%Z (counters (updateMetricsLocked l s)) name =
    wrap64 (get_or 0%Z (counters s) name + total_delta name l)) as Hc.
  { intros l name. change (counter_at (content (updateMetricsLocked l s)) name =
      wrap64 (counter_at (content s) name + total_delta name l)).
    destruct (updateMetricsLocked_content l s) as [-> _]. by apply counter_at_batch. }
  pose proof (UpdateMetrics_ok ms s Hok) as Hok'.
  unfold UpdateMetrics in *. munfold. split_and!; auto.
  - apply updateMetricsLocked_content.
  - intros name. change (gauges (updateMetricsLocked ms s))
      with (c_gauges (content (updateMetricsLocked ms s))).
    destruct (updateMetricsLocked_content ms s) as [-> _]. apply gauge_at_batch.
  - intros ms'. unfold updateMetricsLocked. by rewrite foldl_app.
  - intros ms' name Hp. rewrite !Hc. by rewrite (total_delta_perm _ _ _ Hp).
Qed.

Lemma UpdateMetrics_spec_witness :
  let ms := [counter_metric "PollCount" 5; gauge_metric "Alloc" float64_zero] in
  get_or 0%Z (counters (UpdateMetrics ms NewMemStorage).1) "PollCount" = 5%Z.
Proof.
  pose proof (UpdateMetrics_spec [counter_metric "PollCount" 5; gauge_metric "Alloc" float64_zero]
    NewMemStorage (proj1 NewMemStorage_ok)) as (_ & _ & _ & H & _).
  etransitivity; [exact (H "PollCount") | by vm_compute].
Defined.

(** [UpdateMetricsOnce] on each branch: a free key commits the batch and the
    receipt together and reports [applied]; a key taken with the same
    fingerprint reports a duplicate and changes nothing; a key taken with
    another fingerprint is the conflict error and changes nothing; and in all
    cases a second identical call right after changes nothing. *)
Theorem UpdateMetricsOnce_spec key fp ms s :
  let '(s', (applied, e)) := UpdateMetricsOnce key fp ms s in
  match receipts s !! key with
  | None => applied = true ∧ e = None ∧
      s' = mkMemStorage (gauges (UpdateMetrics ms s).1) (counters (UpdateMetrics ms s).1)
             (<[key := fp]> (receipts s))
  | Some fp' => applied = false ∧ s' = s ∧ (e = None ↔ fp' = fp) ∧
      (fp' ≠ fp → e = Some ErrConflict)
  end ∧
  (UpdateMetricsOnce key fp ms s').1 = s'.
Proof.
  rewrite UpdateMetricsOnce_cases. destruct (receipts s !! key) as [fp'|] eqn:Hk.
  - split; [|by rewrite UpdateMetricsOnce_cases, Hk].
    case_decide as Hd; split_and!; naive_solver.
  - simpl. split.
    { by destruct (updateMetricsLocked_content ms s) as [_ ->]. }
    rewrite UpdateMetricsOnce_cases. simpl.
    by rewrite lookup_insert_eq.
Qed.

(** Loading what [fileSnapshot] wrote gives back the storage, gauges, counters
    and receipts, in whatever orders the maps are ranged over, provided the
    receipts have a record to be written on; every update of the storage keeps
    that condition, when the keyed batches hold an effective metric, as the
    handlers' validation guarantees. *)
Theorem fileSnapshot_restores go co ro s orders :
  range_of go (gauges s) → range_of co (counters s) → range_of ro (receipts s) →
  orders_of (fileSnapshot go co ro s) orders → saveable s →
  load_records (fileSnapshot go co ro s) orders = s ∧
  (∀ n v, saveable (UpdateGauge n v s).1) ∧
  (∀ n d, saveable (UpdateCounter n d s).1) ∧
  (∀ ms, saveable (UpdateMetrics ms s).1) ∧
  (∀ key fp ms, Exists effective ms → saveable (UpdateMetricsOnce key fp ms s).1).
Proof.
  intros. split_and!.
  - by apply load_fileSnapshot with (ro := ro).
  - intros n v. right; left. apply insert_non_empty.
  - intros n d. right; right. apply insert_non_empty.
  - intros. by apply UpdateMetrics_saveable.
  - intros. by apply UpdateMetricsOnce_saveable.
Qed.

Lemma fileSnapshot_restores_witness :
  let s := (UpdateMetricsOnce "k" "fp" [counter_metric "PollCount" 5] NewMemStorage).1 in
  load_records (fileSnapshot [] [("PollCount", 5%Z)] [("k", "fp")] s) [[("k", "fp")]] = s.
Proof.
  refine (proj1 (fileSnapshot_restores [] [("PollCount", 5%Z)] [("k", "fp")]
    (UpdateMetricsOnce "k" "fp" [counter_metric "PollCount" 5] NewMemStorage).1
    [[("k", "fp")]] _ _ _ _ _)); try (by unfold range_of; vm_compute).
  - repeat constructor.
  - right; right. by vm_compute.
Defined.

(** Without that condition the receipts are lost: a keyed batch of metrics
    without effect, which the repository accepts, is not remembered by the
    file, and the same call is applied again after a restart. *)
Lemma receipts_without_metrics_lost key fp :
  let ms := [mkMetrics "m" "unknown" None None ""] in
  let s := (UpdateMetricsOnce key fp ms NewMemStorage).1 in
  fileSnapshot [] [] [(key, fp)] s = [] ∧
  load_records (fileSnapshot [] [] [(key, fp)] s) [] = NewMemStorage ∧
  (UpdateMetricsOnce key fp ms (load_records (fileSnapshot [] [] [(key, fp)] s) [])).2
    = (true, None).
Proof. by simpl; split_and!. Qed.

(** ** Sequences of keyed updates on the in-memory storage *)

Lemma calls_commit_once_witness :
  let c1 := mkCall "k" "fp" [counter_metric "PollCount" 5] in
  let c2 := mkCall "k" "other" [counter_metric "PollCount" 7] in
  let '(s', rs) := run_calls [c1; c1; c2] NewMemStorage in
  ∃ committed, committed `sublist_of` [c1; c1; c2] ∧
    commits (upd := mem_upd) (ledger NewMemStorage) committed (ledger s').
Proof.
  pose proof (calls_commit_once (W := MemStorage) (ledger := ledger)
    [mkCall "k" "fp" [counter_metric "PollCount" 5];
     mkCall "k" "fp" [counter_metric "PollCount" 5];
     mkCall "k" "other" [counter_metric "PollCount" 7]] NewMemStorage) as H.
  simpl. destruct H as (cs & Hsub & Hcom & _). by exists cs.
Defined.

Lemma commits_counters l cs l' n :
  commits (upd := mem_upd) l cs l' → content_ok (l_content l) →
  counter_at (l_content l') n =
    wrap64 (counter_at (l_content l) n + sumZ (map (λ c, total_delta n (call_metrics c)) cs)).
Proof.
  induction 1 as [l|l c cs l1 l' Hk Hc _ IH]; intros Hok.
  - simpl. rewrite Z.add_0_r. symmetry. by apply wrap64_id, counter_at_range.
  - unfold commit, mem_upd in Hc. simpl in Hc. injection Hc as <-. simpl in *.
    rewrite IH by (by apply apply_batch_ok). rewrite counter_at_batch by done.
    rewrite wrap64_add_l. f_equal. lia.
Qed.

(** Calls with consistent fingerprints per key never fail. *)
Lemma run_calls_no_conflict cs s :
  (∀ c fp, c ∈ cs → receipts s !! call_key c = Some fp → fp = call_fingerprint c) →
  (∀ c d, c ∈ cs → d ∈ cs → call_key c = call_key d → call_fingerprint c = call_fingerprint d) →
  Forall (λ r, r.2 = None) (run_calls cs s).2.
Proof.
  revert s. induction cs as [|c cs IH]; intros s Hs Hcs; [constructor|].
  simpl. munfold. rewrite UpdateMetricsOnce_cases.
  destruct (receipts s !! call_key c) as [fp|] eqn:Hk.
  - assert (fp = call_fingerprint c) as -> by (eapply Hs; [by left|done]).
    rewrite decide_False by auto.
    specialize (IH s). destruct (run_calls cs s) as [s' rs]. simpl in *.
    constructor; [done|]. apply IH; set_solver.
  - simpl. match goal with |- context [run_calls cs ?x] => set (s1 := x) end. specialize (IH s1).
    destruct (run_calls cs s1) as [s' rs]. simpl in *. constructor; [done|]. apply IH.
    + intros d fp Hd. simpl. destruct (updateMetricsLocked_content (call_metrics c) s) as [_ ->].
      rewrite lookup_insert. case_decide as Hkd.
      * intros [= <-]. by apply Hcs; [left|right|].
      * apply Hs. by right.
    + set_solver.
Qed.

(** Exactly-once accounting: after any sequence of keyed updates in which a
    key always comes with the same fingerprint, on a storage that has none of
    the keys, no call fails, one call of every key is committed, and every
    counter has grown, modulo 2^64, by the deltas of the committed batches
    alone, however often each batch was delivered. *)
Theorem counters_exactly_once cs s n :
  mem_ok s → Forall (λ c, receipts s !! call_key c = None) cs →
  (∀ c d, c ∈ cs → d ∈ cs → call_key c = call_key d → c = d) →
  let '(s', rs) := run_calls cs s in
  Forall (λ r, r.2 = None) rs ∧
  ∃ committed, committed `sublist_of` cs ∧ NoDup committed ∧
    (∀ c, c ∈ committed ↔ c ∈ cs) ∧
    get_or 0%Z (counters s') n =
      wrap64 (get_or 0%Z (counters s) n
              + sumZ (map (λ c, total_delta n (call_metrics c)) committed)).
Proof.
  intros Hok Hfresh Hsame.
  pose proof (run_calls_committed (W := MemStorage) (ledger := ledger) cs s) as Hrun.
  pose proof (run_calls_no_conflict cs s) as Hno.
  destruct (run_calls cs s) as [s' rs]. simpl in Hno.
  destruct Hrun as (cm & Hsub & Hcom & Hres). pose proof (commits_NoDup _ _ _ Hcom) as Hnd.
  assert (Forall (λ r, r.2 = None) rs) as Hrs.
  { apply Hno.
    - intros c fp Hc. rewrite Forall_forall in Hfresh. by rewrite Hfresh.
    - intros c d Hc Hd Hk. by rewrite (Hsame c d). }
  split; [done|]. exists cm. split_and!; [done|by eapply NoDup_fmap_1| |].
  - intros c. split.
    + intros Hc. by eapply elem_of_submseteq, sublist_submseteq.
    + intros Hc. apply list_elem_of_lookup in Hc as [i Hi].
      destruct (Forall2_lookup_l _ _ _ _ _ Hres Hi) as (r & Hr & _ & Hn).
      assert (c ∈ cs) as Hc by (by eapply list_elem_of_lookup_2).
      destruct (commits_origin _ _ _ _ _ Hcom (Hn ltac:(by eapply Forall_lookup_1 in Hrs)))
        as [Hin|(d & Hd & Hkd & _)].
      * exfalso. rewrite Forall_forall in Hfresh.
        specialize (Hfresh _ Hc). simpl in Hin. by rewrite Hfresh in Hin.
      * rewrite <-(Hsame d c); [done| |done|done].
        by eapply elem_of_submseteq, sublist_submseteq.
  - exact (commits_counters _ _ _ n Hcom Hok).
Qed.

Lemma counters_exactly_once_witness :
  let c := mkCall "k" "fp" [counter_metric "PollCount" 5] in
  ∃ committed, committed `sublist_of` [c; c; c] ∧
    get_or 0%Z (counters (run_calls [c; c; c] NewMemStorage).1) "PollCount" =
      wrap64 (0 + sumZ (map (λ c, total_delta "PollCount" (call_metrics c)) committed)).
Proof.
  set (c := mkCall "k" "fp" [counter_metric "PollCount" 5]).
  pose proof (counters_exactly_once [c; c; c] NewMemStorage "PollCount"
    (proj1 NewMemStorage_ok)) as H.
  assert (∀ a b, a ∈ [c; c; c] → b ∈ [c; c; c] → call_key a = call_key b → a = b) as Hs.
  { intros a b Ha Hb _. rewrite !elem_of_cons, elem_of_nil in Ha, Hb. naive_solver. }
  specialize (H ltac:(repeat constructor) Hs).
  destruct H as (_ & cm & Hsub & _ & _ & Hc). exists cm. split; [exact Hsub|exact Hc].
Defined.
