(* ===== verification/SaveFile.v ===== *)
(** [SaveToFile], [loadFromFile] and [NewMemStorageWithRestore] of
    [internal/repository/memory.go]: the snapshot written to a temporary file
    and renamed over the target, and its restoration at start-up. *)

From S2P Require Import Prelude GoErrors Metrics GoJson Memory.
From Stdlib Require Import Ascii.

(** ** path/filepath on slash-separated paths *)

Fixpoint split_slash (s : string) : list string :=
  match s with
  | "" => [""]
  | String c s =>
      if decide (c = "/"%char) then "" :: split_slash s
      else match split_slash s with
           | [] => [String c ""]
           | p :: ps => String c p :: ps
           end
  end.

Definition is_rooted (s : string) : bool :=
  match s with String c _ => bool_decide (c = "/"%char) | "" => false end.

(** One component of [Clean]: [out] is the result so far, last component first. *)
Definition clean_step (rooted : bool) (out : list string) (p : string) : list string :=
  if decide (p = "" ∨ p = ".") then out
  else if decide (p = "..") then
    match out with
    | [] => if rooted then [] else [".."]
    | o :: out' => if decide (o = "..") then ".." :: out else out'
    end
  else p :: out.

Definition filepath_Clean (s : string) : string :=
  let rooted := is_rooted s in
  let body := join_text "/" (rev (foldl (clean_step rooted) [] (split_slash s))) in
  if rooted then String "/" body else if decide (body = "") then "." else body.

(** Everything up to the last slash, cleaned. *)
Definition filepath_Dir (path : string) : string :=
  let comps := split_slash path in
  filepath_Clean (join_text "/" (removelast comps) +:+ (if decide (length comps ≤ 1) then "" else "/")).

(** ** The file system

    Files are their contents by path.  Every call can fail: [Faults] says
    what each one returns in one execution. *)
Abbreviation FS := (gmap string string).

Record Faults : Type := mkFaults {
  f_mkdir : err;
  f_temp : res string;          (* os.CreateTemp: the fresh name it picks *)
  f_write : option (string * error);  (* a failed write and the bytes that got through *)
  f_chmod : err;
  f_close : err;
  f_rename : err;
  f_remove : bool               (* os.Remove of the temporary file succeeds *)
}.

Definition no_faults (tempName : string) : Faults :=
  mkFaults None (Ok tempName) None None None None true.

(** [os.ErrNotExist] *)
Definition ErrNotExist_text : string := "file does not exist".

Section SaveFile.
Context `{Json (list snapshotRecord)}.

(** [defer os.Remove(tempName)]: it runs on every return after [CreateTemp]. *)
Definition deferred_remove (f : Faults) (tempName : string) (r : FS * err) : FS * err :=
  (if f_remove f then delete tempName r.1 else r.1, r.2).

(** The part of [SaveToFile] after [CreateTemp]; the snapshot is taken here. *)
Definition write_and_rename (f : Faults) (tempName path : string)
    (metrics : list snapshotRecord) (fs : FS) : FS * err :=
  let encoded :=
    match json_Encode metrics with
    | Fail e => (fs, Some e)
    | Ok text =>
        match f_write f with
        | Some (partial, e) => (<[tempName := partial]> fs, Some e)
        | None => (<[tempName := text]> fs, None)
        end
    end in
  match encoded with
  | (fs, Some e) =>
      match f_close f with
      | Some closeErr =>
          (fs, Some (match errors_Join [Some e; Some closeErr] with
                     | Some j => Wrap "failed to encode and close temp file" j
                     | None => Msg "" end))
      | None => (fs, Some (Wrap "failed to encode metrics" e))
      end
  | (fs, None) =>
      match f_chmod f with
      | Some e =>
          match f_close f with
          | Some closeErr =>
              (fs, Some (match errors_Join [Some e; Some closeErr] with
                         | Some j => Wrap "failed to chmod and close temp file" j
                         | None => Msg "" end))
          | None => (fs, Some (Wrap "failed to chmod temp file" e))
          end
      | None =>
          match f_close f with
          | Some e => (fs, Some (Wrap "failed to close the temp file" e))
          | None =>
              match f_rename f with
              | Some e => (fs, Some (Wrap "failed to replace storage file" e))
              | None =>
                  (<[path := default "" (fs !! tempName)]> (delete tempName fs), None)
              end
          end
      end
  end.

(** [metrics] is the snapshot [s.fileSnapshot()] of the storage. *)
Definition SaveToFile (f : Faults) (metrics : list snapshotRecord) (path : string) (fs : FS)
  : FS * err :=
  let dir := filepath_Dir path in
  let mkdirErr := if decide (dir = ".") then None else f_mkdir f in
  match mkdirErr with
  | Some e => (fs, Some (Wrap "failed to create storage directory" e))
  | None =>
      match f_temp f with
      | Fail e => (fs, Some (Wrap "failed to create temp file" e))
      | Ok tempName =>
          deferred_remove f tempName
            (write_and_rename f tempName path metrics (<[tempName := ""]> fs))
      end
  end.

(** [os.ReadFile]: [readErr] is an error other than the absence of the file. *)
Definition ReadFile (readErr : err) (path : string) (fs : FS) : res string :=
  match readErr with
  | Some e => Fail e
  | None =>
      match fs !! path with
      | Some data => Ok data
      | None => Fail (Wrap ("open " +:+ path) (Sentinel ErrNotExist_text))
      end
  end.

(** [loadFromFile]; [orders] chooses how the receipts of each record are
    ranged over. *)
Definition loadFromFile (readErr : err) (orders : list snapshotRecord → list (list (string * string)))
    (path : string) (fs : FS) (s : MemStorage) : MemStorage * err :=
  match ReadFile readErr path fs with
  | Fail e =>
      if errors_Is ErrNotExist_text e then (s, None)
      else (s, Some (Wrap "failed to read storage file" e))
  | Ok data =>
      match json_Unmarshal data with
      | Fail e => (s, Some (Wrap "failed to unmarshal metrics" e))
      | Ok metrics => (load_records metrics (orders metrics), None)
      end
  end.

Definition NewMemStorageWithRestore (readErr : err)
    (orders : list snapshotRecord → list (list (string * string)))
    (path : string) (restore : bool) (fs : FS) : res MemStorage :=
  let storage := NewMemStorage in
  if negb restore then Ok storage
  else match loadFromFile readErr orders path fs storage with
       | (storage, None) => Ok storage
       | (_, Some e) => Fail e
       end.

(** ** Lemmas *)

Lemma write_and_rename_other f tempName path metrics fs k :
  k ≠ tempName → k ≠ path →
  (write_and_rename f tempName path metrics fs).1 !! k = fs !! k.
Proof.
  intros Ht Hp. unfold write_and_rename.
  repeat (case_match; simplify_eq/=).
  all: by rewrite ?lookup_insert_ne, ?lookup_delete_ne, ?lookup_insert_ne by done.
Qed.

(** The target is written by the rename alone. *)
Lemma write_and_rename_path f tempName path metrics fs :
  path ≠ tempName →
  let '(fs', e) := write_and_rename f tempName path metrics fs in
  match e with
  | None => ∃ text, json_Encode metrics = Ok text ∧ fs' !! path = Some text
  | Some _ => fs' !! path = fs !! path
  end.
Proof.
  intros Hp. unfold write_and_rename.
  destruct (json_Encode metrics) as [text|e] eqn:Hj.
  - destruct (f_write f) as [[partial e]|].
    + destruct (f_close f); simpl; by rewrite lookup_insert_ne.
    + destruct (f_chmod f), (f_close f), (f_rename f); simpl;
        rewrite ?lookup_insert_ne by done; try done.
      rewrite !lookup_insert_eq. eauto.
  - by destruct (f_close f).
Qed.

(** Only the target file matters to a restoration. *)
Lemma restore_target readErr orders path restore fs fs' :
  fs' !! path = fs !! path →
  NewMemStorageWithRestore readErr orders path restore fs' = NewMemStorageWithRestore readErr orders path restore fs.
Proof. intros Hp. unfold NewMemStorageWithRestore, loadFromFile, ReadFile. by rewrite Hp. Qed.

(** What a save leaves in the target file. *)
Lemma SaveToFile_target f metrics path fs fs' e :
  (∀ t, f_temp f = Ok t → t ≠ path) → SaveToFile f metrics path fs = (fs', e) →
  match e with
  | None => ∃ text, json_Encode metrics = Ok text ∧ fs' !! path = Some text
  | Some _ => fs' !! path = fs !! path
  end.
Proof.
  intros Ht. unfold SaveToFile.
  destruct (if decide _ then _ else f_mkdir f) as [e'|]; [by intros [= <- <-]|].
  destruct (f_temp f) as [t|e'] eqn:Htemp; [|by intros [= <- <-]]. specialize (Ht t eq_refl).
  pose proof (write_and_rename_path f t path metrics (<[t := ""]> fs) (not_eq_sym Ht)) as Hw.
  destruct (write_and_rename f t path _ _) as [fs'' e'']. unfold deferred_remove. intros [= <- <-].
  rewrite lookup_insert_ne in Hw by done. destruct (f_remove f); [|done]. by rewrite lookup_delete_ne.
Qed.

Lemma SaveToFile_restores `{!JsonRoundTrip (list snapshotRecord) clean}
    f go co ro s orders path fs fs' :
  range_of go (gauges s) → range_of co (counters s) → range_of ro (receipts s) →
  (∀ rs, orders_of rs (orders rs)) → saveable s →
  clean (fileSnapshot go co ro s) →
  (∀ t, f_temp f = Ok t → t ≠ path) →
  SaveToFile f (fileSnapshot go co ro s) path fs = (fs', None) →
  NewMemStorageWithRestore None orders path true fs' = Ok s.
Proof.
  intros Hg Hc Hr Ho Hs Hclean Ht Hsave.
  destruct (SaveToFile_target _ _ _ _ _ _ Ht Hsave) as (text & Henc & Hp).
  unfold NewMemStorageWithRestore, loadFromFile, ReadFile. simpl. rewrite Hp.
  rewrite (json_unmarshal_line _ _ Hclean Henc). f_equal.
  by apply load_fileSnapshot with (ro := ro).
Qed.

(** ** Properties *)

(** C19: [SaveToFile] is atomic under any combination of failures: the target file
    holds either what it held before, exactly when an error is returned, or
    the complete encoding of the snapshot, exactly when none is; no other file
    changes, and the temporary file is gone unless its removal failed.  A
    snapshot that does not encode (a gauge that is NaN or infinite) always
    fails and never damages the file. *)
Theorem SaveToFile_atomic f metrics path fs :
  (∀ t, f_temp f = Ok t → fs !! t = None ∧ t ≠ path) →
  let '(fs', e) := SaveToFile f metrics path fs in
  match e with
  | None => ∃ text, json_Encode metrics = Ok text ∧ fs' !! path = Some text
  | Some _ => fs' !! path = fs !! path
  end ∧
  (∀ k, k ≠ path → f_temp f ≠ Ok k → fs' !! k = fs !! k) ∧
  (∀ t, f_temp f = Ok t → f_remove f = true → fs' !! t = None).
Proof.
  intros Ht. unfold SaveToFile.
  destruct (if decide _ then _ else f_mkdir f) as [e|].
  { split_and!; [done|done|]. intros t Hft _. by apply Ht. }
  destruct (f_temp f) as [t|e] eqn:Htemp; [|by split_and!].
  destruct (Ht t eq_refl) as [Hfresh Hne].
  pose proof (write_and_rename_path f t path metrics (<[t := ""]> fs) (not_eq_sym Hne)) as Hw.
  pose proof (write_and_rename_other f t path metrics (<[t := ""]> fs)) as Ho.
  destruct (write_and_rename f t path metrics (<[t := ""]> fs)) as [fs' e].
  rewrite lookup_insert_ne in Hw by done. simpl in *. split_and!.
  - destruct (f_remove f); [|done]. rewrite lookup_delete_ne by done. done.
  - intros k Hk Hk'. assert (k ≠ t) by congruence.
    destruct (f_remove f); rewrite ?lookup_delete_ne by done; rewrite Ho by done;
      by rewrite lookup_insert_ne.
  - intros t' [= <-] ->. by rewrite lookup_delete_eq.
Qed.

(** C20: what a successful save wrote, a restart restores: the storage read back
    from the file is the storage that was saved, gauges, counters and receipts,
    when its snapshot is encodable and its receipts had a record to live on; a
    missing file starts empty, and with [restore] off the file is not read. *)
Theorem save_then_restore `{!JsonRoundTrip (list snapshotRecord) clean}
    f go co ro s orders path fs :
  range_of go (gauges s) → range_of co (counters s) → range_of ro (receipts s) →
  (∀ rs, orders_of rs (orders rs)) → saveable s →
  clean (fileSnapshot go co ro s) →
  (∀ t, f_temp f = Ok t → t ≠ path) →
  let '(fs', e) := SaveToFile f (fileSnapshot go co ro s) path fs in
  (e = None → NewMemStorageWithRestore None orders path true fs' = Ok s) ∧
  (fs !! path = None → NewMemStorageWithRestore None orders path true fs = Ok NewMemStorage) ∧
  (∀ readErr, NewMemStorageWithRestore readErr orders path false fs' = Ok NewMemStorage).
Proof.
  intros Hg Hc Hr Ho Hs Hclean Ht.
  destruct (SaveToFile f (fileSnapshot go co ro s) path fs) as [fs' e] eqn:Hsave.
  split_and!; [| |done].
  - intros ->. by eapply SaveToFile_restores.
  - intros Hnone. unfold NewMemStorageWithRestore, loadFromFile, ReadFile. simpl.
    rewrite Hnone. done.
Qed.
End SaveFile.

(** ** Witnesses, with the concrete encoder *)

#[local] Instance float64_countable : Countable float64.
Proof.
  refine (inj_countable'
    (λ f : spec_float, match f with
      | S754_zero s => inl (inl s) | S754_infinity s => inl (inr s)
      | S754_nan => inr (inl tt) | S754_finite s m e => inr (inr (s, m, e)) end)
    (λ x, match x with
      | inl (inl s) => S754_zero s | inl (inr s) => S754_infinity s
      | inr (inl _) => S754_nan | inr (inr (s, m, e)) => S754_finite s m e end) _).
  by intros [].
Defined.

#[local] Instance Metrics_countable : Countable Metrics.
Proof.
  refine (inj_countable' (λ m, (ID m, MType m, Delta m, Value m, Hash m))
    (λ '(i, t, d, v, h), mkMetrics i t d v h) _). by intros [].
Defined.

#[local] Instance snapshotRecord_eq_dec : EqDecision snapshotRecord.
Proof. solve_decision. Defined.

#[local] Instance snapshotRecord_countable : Countable snapshotRecord.
Proof.
  refine (inj_countable' (λ r, (sr_Metrics r, sr_Receipts r))
    (λ '(m, r), mkSnapshotRecord m r) _). by intros [].
Defined.

Definition record_codec : Json (list snapshotRecord) := BinaryJson.codec (list snapshotRecord).

Lemma SaveToFile_atomic_witness :
  let f := mkFaults None (Ok "dir/metrics-1.tmp") None None None (Some (Msg "busy")) true in
  @fst FS err (@SaveToFile record_codec f [] "dir/m.json" {["dir/m.json" := "old"]})
    !! "dir/m.json" = Some "old".
Proof.
  pose (f := mkFaults None (Ok "dir/metrics-1.tmp") None None None (Some (Msg "busy")) true).
  assert (∀ t, f_temp f = Ok t → ({["dir/m.json" := "old"]} : FS) !! t = None ∧ t ≠ "dir/m.json") as Hf.
  { intros t [= <-]. by vm_compute. }
  exact (proj1 (@SaveToFile_atomic record_codec f [] "dir/m.json" {["dir/m.json" := "old"]} Hf)).
Defined.

Lemma save_then_restore_witness :
  let s := (UpdateMetricsOnce "k" "fp" [counter_metric "PollCount" 5] NewMemStorage).1 in
  let saved := @SaveToFile record_codec (no_faults "metrics-1.tmp")
    (fileSnapshot [] [("PollCount", 5%Z)] [("k", "fp")] s) "m.json" ∅ in
  saved.2 = None ∧
  @NewMemStorageWithRestore record_codec None (map (λ r, map_to_list (sr_Receipts r)))
    "m.json" true saved.1 = Ok s.
Proof.
  set (s := (UpdateMetricsOnce "k" "fp" [counter_metric "PollCount" 5] NewMemStorage).1).
  assert (∀ rs, orders_of rs (map (λ r, map_to_list (sr_Receipts r)) rs)) as Ho.
  { intros rs. unfold orders_of. induction rs; simpl; constructor; auto with go. }
  assert (∀ t, f_temp (no_faults "metrics-1.tmp") = Ok t → t ≠ "m.json") as Ht by (by intros t [= <-]).
  pose proof (@save_then_restore record_codec (λ _, True) (BinaryJson.codec_ok _)
    (no_faults "metrics-1.tmp") [] [("PollCount", 5%Z)] [("k", "fp")] s
    (map (λ r, map_to_list (sr_Receipts r))) "m.json" ∅
    ltac:(by unfold range_of; vm_compute) ltac:(by unfold range_of; vm_compute)
    ltac:(by unfold range_of; vm_compute) Ho ltac:(right; right; by vm_compute) I Ht) as H.
  simpl. split; [by vm_compute|]. by apply H.
Defined.

(** The same encoder on batches of metrics. *)
Definition metrics_codec : Json (list Metrics) := BinaryJson.codec (list Metrics).

Lemma metrics_codec_ok : @JsonRoundTrip (list Metrics) metrics_codec (λ _, True).
Proof. apply BinaryJson.codec_ok. Qed.
