(* ===== verification/Postgres.v ===== *)
(** [internal/repository/postgres.go] and the PostgreSQL half of
    [idempotency.go].

    The tables are those of the migrations, and the statements are the SQL
    texts of the source, read as PostgreSQL documents them.  The server is not
    part of the repository: each interaction with it consumes an outcome
    from a script, so that the theorems hold for every pattern of connection
    failures, a lost commit acknowledgement included. *)

From S2P Require Import Prelude GoErrors Metrics Delivery Retry Repository.

(** ** Tables *)

(** A row of [metrics]; the key column is the map key. *)
Record row : Type := mkRow {
  r_type : string;
  r_gauge : option float64;
  r_counter : option Z
}.

Record DB : Type := mkDB {
  t_metrics : gmap string row;
  t_receipts : gmap string string
}.

(** One interaction: done, refused with an error and without effect, or
    performed with the answer lost. *)
Inductive outcome : Type :=
| Done
| Refused (e : error)
| Lost (e : error).

Record PW : Type := mkPW { db : DB; script : list outcome }.

(** An exhausted script means a server that works. *)
Definition next : M PW outcome := λ w,
  match script w with
  | [] => (w, Done)
  | o :: os => (mkPW (db w) os, o)
  end.

Definition set_db (d : DB) : M PW unit := λ w, (mkPW d (script w), tt).

(** ** Statements *)

Definition ErrNoRows : error := Sentinel "sql: no rows in result set".

(** SQLSTATE 22003, numeric_value_out_of_range: BIGINT does not wrap. *)
Definition out_of_range : error := PqError "22003".

(** INSERT ... ON CONFLICT (id) DO UPDATE SET gauge_value = EXCLUDED.gauge_value,
    counter_value = NULL *)
Definition upsertGaugeQuery (id type : string) (value : float64) (d : DB) : res DB :=
  Ok (mkDB (<[id := mkRow type (Some value) None]> (t_metrics d)) (t_receipts d)).

(** INSERT ... ON CONFLICT (id) DO UPDATE SET gauge_value = NULL, counter_value =
    COALESCE(metrics.counter_value, 0) + EXCLUDED.counter_value *)
Definition upsertCounterQuery (id type : string) (value : Z) (d : DB) : res DB :=
  match t_metrics d !! id with
  | None => Ok (mkDB (<[id := mkRow type None (Some value)]> (t_metrics d)) (t_receipts d))
  | Some r =>
      let v := (default 0 (r_counter r) + value)%Z in
      if decide (in_int64 v)
      then Ok (mkDB (<[id := mkRow type None (Some v)]> (t_metrics d)) (t_receipts d))
      else Fail out_of_range
  end.

(** INSERT INTO metric_receipts ... ON CONFLICT DO NOTHING, with the number of
    rows it inserted. *)
Definition insertReceipt (key fingerprint : string) (d : DB) : DB * Z :=
  match t_receipts d !! key with
  | Some _ => (d, 0%Z)
  | None => (mkDB (t_metrics d) (<[key := fingerprint]> (t_receipts d)), 1%Z)
  end.

(** A statement outside a transaction commits by itself. *)
Definition db_Exec (stmt : DB → res DB) : M PW err :=
  let! o := next in
  let! w := get in
  match o, stmt (db w) with
  | Refused e, _ => ret (Some e)
  | Done, Ok d => set_db d ;; ret None
  | Done, Fail e => ret (Some e)
  | Lost e, Ok d => set_db d ;; ret (Some e)
  | Lost e, Fail _ => ret (Some e)
  end.

(** A query: its rows, or the error of the connection. *)
Definition db_Query {A} (q : DB → A) : M PW (res A) :=
  let! o := next in
  let! w := get in
  match o with
  | Done => ret (Ok (q (db w)))
  | Refused e | Lost e => ret (Fail e)
  end.

(** ** Transactions

    A transaction works on its own copy of the database, which [Commit]
    publishes; a rollback drops it. *)
Definition db_Begin : M PW (res DB) := db_Query id.

Definition tx_Exec {A} (stmt : DB → res A) (tx : DB) : M PW (res A) :=
  let! o := next in
  match o with
  | Done => ret (stmt tx)
  | Refused e | Lost e => ret (Fail e)
  end.

Definition tx_Commit (tx : DB) : M PW err :=
  let! o := next in
  match o with
  | Done => set_db tx ;; ret None
  | Refused e => ret (Some e)
  | Lost e => set_db tx ;; ret (Some e)
  end.

(** The error test of the retries: class 08 of the SQLSTATE codes. *)
Definition isPostgresConnectionException (e : error) : bool :=
  match errors_As_pq e with
  | None => false
  | Some code => String.prefix "08" code
  end.

Definition retryPostgres {W} (operation : M W err) : M W err :=
  Do operation isPostgresConnectionException.

(** An operation that assigns a variable of the enclosing function: the variable
    is part of the world of the retries. *)
Definition assigning {A} (op : M PW (A * err)) : M (PW * A) err := λ wa,
  let '(w', (a', e)) := op wa.1 in ((w', a'), e).

Definition retry_assigning {A} (a0 : A) (op : M PW (A * err)) : M PW (A * err) := λ w,
  let '((w', a'), e) := retryPostgres (assigning op) (w, a0) in (w', (a', e)).

(** ** The storage *)

Definition UpdateGauge (name : string) (value : float64) : M PW err :=
  retryPostgres (db_Exec (upsertGaugeQuery name Gauge value)).

Definition UpdateCounter (name : string) (value : Z) : M PW err :=
  retryPostgres (db_Exec (upsertCounterQuery name Counter value)).

Fixpoint updateMetricsTx (tx : DB) (metrics : list Metrics) : M PW (res DB) :=
  match metrics with
  | [] => ret (Ok tx)
  | metric :: metrics =>
      if decide (MType metric = Gauge) then
        match Value metric with
        | Some v =>
            let! r := tx_Exec (upsertGaugeQuery (ID metric) Gauge v) tx in
            match r with
            | Fail e => ret (Fail e)
            | Ok tx => updateMetricsTx tx metrics
            end
        | None => updateMetricsTx tx metrics
        end
      else if decide (MType metric = Counter) then
        match Delta metric with
        | Some d =>
            let! r := tx_Exec (upsertCounterQuery (ID metric) Counter d) tx in
            match r with
            | Fail e => ret (Fail e)
            | Ok tx => updateMetricsTx tx metrics
            end
        | None => updateMetricsTx tx metrics
        end
      else updateMetricsTx tx metrics
  end.

Definition updateMetrics (metrics : list Metrics) : M PW err :=
  let! b := db_Begin in
  match b with
  | Fail e => ret (Some e)
  | Ok tx =>
      let! r := updateMetricsTx tx metrics in
      match r with
      | Fail e => ret (Some e)
      | Ok tx => tx_Commit tx
      end
  end.

Definition UpdateMetrics (metrics : list Metrics) : M PW err :=
  retryPostgres (updateMetrics metrics).

Definition updateMetricsOnce (key fingerprint : string) (metrics : list Metrics)
  : M PW (bool * err) :=
  let! b := db_Begin in
  match b with
  | Fail e => ret (false, Some (Wrap "begin idempotent batch" e))
  | Ok tx =>
      let! r := tx_Exec (λ d, Ok (insertReceipt key fingerprint d)) tx in
      match r with
      | Fail e => ret (false, Some (Wrap "insert batch receipt" e))
      | Ok (tx, affected) =>
          let! r := tx_Exec (λ _, Ok affected) tx in   (* result.RowsAffected() *)
          match r with
          | Fail e => ret (false, Some e)
          | Ok n =>
              if decide (n = 0%Z) then
                let! q := tx_Exec (λ d, Ok (t_receipts d !! key)) tx in
                match q with
                | Fail e => ret (false, Some e)
                | Ok None => ret (false, Some ErrNoRows)
                | Ok (Some previous) =>
                    if decide (previous ≠ fingerprint) then ret (false, Some ErrConflict)
                    else ret (false, None)
                end
              else
                let! u := updateMetricsTx tx metrics in
                match u with
                | Fail e => ret (false, Some e)
                | Ok tx =>
                    let! c := tx_Commit tx in
                    match c with
                    | Some e => ret (false, Some (Wrap "commit idempotent batch" e))
                    | None => ret (true, None)
                    end
                end
          end
      end
  end.

Definition UpdateMetricsOnce (key fingerprint : string) (metrics : list Metrics)
  : M PW (bool * err) :=
  retry_assigning false (updateMetricsOnce key fingerprint metrics).

(** SELECT gauge_value ... WHERE id = $1 AND type = $2 AND gauge_value IS NOT NULL *)
Definition select_gauge (name : string) (d : DB) : option float64 :=
  r ← t_metrics d !! name;
  if decide (r_type r = Gauge) then r_gauge r else None.

Definition select_counter (name : string) (d : DB) : option Z :=
  r ← t_metrics d !! name;
  if decide (r_type r = Counter) then r_counter r else None.

(** [QueryRow(...).Scan(&value)]. *)
Definition scan {A} (zero : A) (q : DB → option A) : M PW (A * err) :=
  let! r := db_Query q in
  match r with
  | Fail e => ret (zero, Some e)
  | Ok None => ret (zero, Some ErrNoRows)
  | Ok (Some v) => ret (v, None)
  end.

Definition GetGauge (name : string) : M PW (float64 * bool) :=
  let! r := retry_assigning float64_zero (scan float64_zero (select_gauge name)) in
  match r with
  | (_, Some _) => ret (float64_zero, false)
  | (v, None) => ret (v, true)
  end.

Definition GetCounter (name : string) : M PW (Z * bool) :=
  let! r := retry_assigning 0%Z (scan 0%Z (select_counter name)) in
  match r with
  | (_, Some _) => ret (0%Z, false)
  | (v, None) => ret (v, true)
  end.

Definition select_gauges (d : DB) : gmap string float64 :=
  omap (λ r, if decide (r_type r = Gauge) then r_gauge r else None) (t_metrics d).

Definition select_counters (d : DB) : gmap string Z :=
  omap (λ r, if decide (r_type r = Counter) then r_counter r else None) (t_metrics d).

(** The rows are read one by one; a failure while reading drops them all. *)
Definition getAllGauges : M PW (gmap string float64 * err) :=
  let! r := db_Query select_gauges in
  match r with Fail e => ret (∅, Some e) | Ok m => ret (m, None) end.

Definition getAllCounters : M PW (gmap string Z * err) :=
  let! r := db_Query select_counters in
  match r with Fail e => ret (∅, Some e) | Ok m => ret (m, None) end.

Definition GetAllGauges : M PW (gmap string float64) :=
  let! r := retry_assigning ∅ getAllGauges in
  match r with (_, Some _) => ret ∅ | (m, None) => ret m end.

Definition GetAllCounters : M PW (gmap string Z) :=
  let! r := retry_assigning ∅ getAllCounters in
  match r with (_, Some _) => ret ∅ | (m, None) => ret m end.

(** ** The interfaces *)

#[export] Instance Postgres_MetricsRepository : MetricsRepository PW := {|
  Repository.UpdateGauge := UpdateGauge;
  Repository.UpdateCounter := UpdateCounter;
  Repository.GetGauge := GetGauge;
  Repository.GetCounter := GetCounter;
  Repository.GetAllGauges := GetAllGauges;
  Repository.GetAllCounters := GetAllCounters
|}.

#[export] Instance Postgres_MetricsBatchRepository : MetricsBatchRepository PW :=
  {| Repository.UpdateMetrics := UpdateMetrics |}.

#[export] Instance Postgres_IdempotentRepository : IdempotentRepository PW :=
  {| Repository.UpdateMetricsOnce := UpdateMetricsOnce |}.

Definition ledger (w : PW) : Ledger (gmap string row) :=
  mkLedger (t_metrics (db w)) (t_receipts (db w)).

(** What a batch makes of the table: the statements in order, none when one of
    them is out of range. *)
Definition effect_stmt (e : effect) (t : gmap string row) : option (gmap string row) :=
  match e with
  | SetGauge n v => Some (<[n := mkRow Gauge (Some v) None]> t)
  | AddCounter n d =>
      match t !! n with
      | None => Some (<[n := mkRow Counter None (Some d)]> t)
      | Some r =>
          let v := (default 0 (r_counter r) + d)%Z in
          if decide (in_int64 v) then Some (<[n := mkRow Counter None (Some v)]> t) else None
      end
  | NoEffect => Some t
  end.

Fixpoint pg_upd (t : gmap string row) (ms : list Metrics) : option (gmap string row) :=
  match ms with
  | [] => Some t
  | m :: ms => t ← effect_stmt (effect_of m) t; pg_upd t ms
  end.

(** ** Lemmas *)

Lemma next_db w : db (next w).1 = db w.
Proof. unfold next. by destruct (script w). Qed.

(** An interaction inside a transaction leaves the published database alone. *)
Lemma tx_Exec_db {A} (stmt : DB → res A) tx w w' r :
  tx_Exec stmt tx w = (w', r) → db w' = db w ∧ (∀ a, r = Ok a → stmt tx = Ok a).
Proof.
  unfold tx_Exec. munfold. pose proof (next_db w) as Hn.
  destruct (next w) as [w1 []]; simpl in Hn; intros [= <- <-]; split; naive_solver.
Qed.

Lemma db_Query_db {A} (q : DB → A) w w' r :
  db_Query q w = (w', r) → db w' = db w ∧ (∀ a, r = Ok a → a = q (db w)).
Proof.
  unfold db_Query. munfold. pose proof (next_db w) as Hn.
  destruct (next w) as [w1 []]; simpl in Hn; intros [= <- <-]; rewrite ?Hn; naive_solver.
Qed.

Lemma tx_Commit_db tx w w' e :
  tx_Commit tx w = (w', e) →
  (db w' = db w ∧ is_Some e) ∨ db w' = tx.
Proof.
  unfold tx_Commit, set_db. munfold. pose proof (next_db w) as Hn.
  destruct (next w) as [w1 []]; simpl in Hn; intros [= <- <-]; simpl; eauto.
Qed.

Lemma upsertCounter_eq n d tx tx' :
  upsertCounterQuery n Counter d tx = Ok tx' →
  effect_stmt (AddCounter n d) (t_metrics tx) = Some (t_metrics tx') ∧
  t_receipts tx' = t_receipts tx.
Proof.
  unfold upsertCounterQuery, effect_stmt. destruct (t_metrics tx !! n) as [r|].
  - case_decide; intros [= <-]; done.
  - by intros [= <-].
Qed.

Lemma updateMetricsTx_db ms tx w w' r :
  updateMetricsTx tx ms w = (w', r) → db w' = db w ∧
  (∀ tx', r = Ok tx' → pg_upd (t_metrics tx) ms = Some (t_metrics tx') ∧
    t_receipts tx' = t_receipts tx).
Proof.
  revert tx w. induction ms as [|m ms IH]; intros tx w; simpl.
  { munfold. intros [= <- <-]. split; [done|]. by intros ? [= <-]. }
  unfold effect_of.
  destruct (decide (MType m = Gauge)); [|destruct (decide (MType m = Counter))].
  - destruct (Value m) as [v|]; [|by apply IH]. unfold bind.
    destruct (tx_Exec _ tx w) as [w1 [tx1|e1]] eqn:Hx; apply tx_Exec_db in Hx as [Hdb Hs].
    + intros Hr. apply IH in Hr as [Hdb' Hr]. split; [congruence|].
      specialize (Hs _ eq_refl). unfold upsertGaugeQuery in Hs. simplify_eq. simpl. apply Hr.
    + munfold. by intros [= <- <-].
  - destruct (Delta m) as [d|]; [|by apply IH]. unfold bind.
    destruct (tx_Exec _ tx w) as [w1 [tx1|e1]] eqn:Hx; apply tx_Exec_db in Hx as [Hdb Hs].
    + intros Hr. apply IH in Hr as [Hdb' Hr]. split; [congruence|].
      destruct (upsertCounter_eq _ _ _ _ (Hs _ eq_refl)) as [He Hrc]. simpl in He.
      intros tx' Htx. destruct (Hr _ Htx) as [Hu Hrc']. split; [|congruence].
      simpl. rewrite He. done.
    + munfold. by intros [= <- <-].
  - by apply IH.
Qed.

(** One attempt: nothing, or the batch with its receipt; a nil error means the
    receipt is there. *)
Lemma updateMetricsOnce_attempt key fp ms w w' applied e :
  updateMetricsOnce key fp ms w = (w', (applied, e)) →
  (ledger w' = ledger w ∧ applied = false ∧ (e = None → l_receipts (ledger w) !! key = Some fp)) ∨
  (l_receipts (ledger w) !! key = None ∧ commit pg_upd key fp ms (ledger w) = Some (ledger w')).
Proof.
  unfold updateMetricsOnce, bind, ret.
  assert (∀ w1, db w1 = db w → ledger w1 = ledger w) as Hled by (unfold ledger; by intros ? ->).
  destruct (db_Begin w) as [w1 [tx0|e0]] eqn:H1; apply db_Query_db in H1 as [D1 S1].
  2: { intros [= <- <- <-]. left. by split_and!; auto. }
  specialize (S1 _ eq_refl). simpl in S1. subst tx0.
  destruct (tx_Exec _ (db w) w1) as [w2 [[tx n0]|e0]] eqn:H2; apply tx_Exec_db in H2 as [D2 S2].
  2: { intros [= <- <- <-]. left. split_and!; [apply Hled; congruence|done|done]. }
  specialize (S2 _ eq_refl). injection S2 as S2.
  destruct (tx_Exec (λ _, Ok n0) tx w2) as [w3 [n|e0]] eqn:H3; apply tx_Exec_db in H3 as [D3 S3].
  2: { intros [= <- <- <-]. left. split_and!; [apply Hled; congruence|done|done]. }
  specialize (S3 _ eq_refl). injection S3 as <-. unfold insertReceipt in S2.
  destruct (t_receipts (db w) !! key) as [fp'|] eqn:Hk; injection S2 as <- <-; simpl.
  - destruct (tx_Exec _ (db w) w3) as [w4 [q|e0]] eqn:H4; apply tx_Exec_db in H4 as [D4 S4].
    2: { intros [= <- <- <-]. left. split_and!; [apply Hled; congruence|done|done]. }
    specialize (S4 _ eq_refl). injection S4 as <-. rewrite Hk.
    case_decide as Hd; intros [= <- <- <-]; left; split_and!; try done; try (apply Hled; congruence).
    intros _. by rewrite Hd.
  - destruct (updateMetricsTx _ ms w3) as [w4 [tx|e0]] eqn:H4;
      apply updateMetricsTx_db in H4 as [D4 S4].
    2: { intros [= <- <- <-]. left. split_and!; [apply Hled; congruence|done|done]. }
    destruct (S4 _ eq_refl) as [Hu Hr]. simpl in Hu, Hr.
    assert (∀ w5, db w5 = tx → commit pg_upd key fp ms (ledger w) = Some (ledger w5)) as Hcom.
    { intros w5 <-. unfold commit, ledger. simpl. by rewrite Hu, Hr. }
    destruct (tx_Commit tx w4) as [w5 [e0|]] eqn:H5; apply tx_Commit_db in H5 as [[D5 [? E]]|D5].
    all: intros [= <- <- <-]; try done; auto.
    left. split_and!; [apply Hled; congruence|done|done].
Qed.

#[export] Instance Postgres_OnceSpec : OnceSpec PW (gmap string row) pg_upd ledger.
Proof.
  assert (∀ key fp ms w w' applied e, UpdateMetricsOnce key fp ms w = (w', (applied, e)) →
    (ledger w' = ledger w ∧ applied = false ∨
     l_receipts (ledger w) !! key = None ∧ commit pg_upd key fp ms (ledger w) = Some (ledger w')) ∧
    (e = None → l_receipts (ledger w') !! key = Some fp)) as H.
  { intros key fp ms w w' applied e. unfold UpdateMetricsOnce, retry_assigning, retryPostgres.
    pose (P (wa : PW * bool) := ledger wa.1 = ledger w ∧ wa.2 = false ∨
      l_receipts (ledger w) !! key = None ∧ commit pg_upd key fp ms (ledger w) = Some (ledger wa.1)).
    pose (Q (wa : PW * bool) (e0 : err) := e0 = None → l_receipts (ledger wa.1) !! key = Some fp).
    pose proof (Do_invariant (assigning (updateMetricsOnce key fp ms))
      isPostgresConnectionException P Q (w, false)) as Hdo.
    destruct (Do _ _ (w, false)) as [[w1 a1] e1]. intros [= <- <- <-]. apply Hdo; [|by left].
    clear. intros [w0 a0] HP. unfold assigning. cbn [fst snd].
    destruct (updateMetricsOnce key fp ms w0) as [w1 [a1 e1]] eqn:Ha.
    apply updateMetricsOnce_attempt in Ha. unfold P, Q in *. cbn [fst snd] in *.
    destruct HP as [[HL ->]|[Hk Hc]].
    - rewrite HL in Ha. destruct Ha as [(Hl & -> & Hn)|[Hk Hc]].
      + rewrite Hl. split; [by left|done].
      + split; [by right|]. intros _.
        by rewrite (commit_receipts _ _ _ _ _ Hc), lookup_insert_eq.
    - pose proof (commit_receipts _ _ _ _ _ Hc) as Hr.
      destruct Ha as [(Hl & -> & Hn)|[Hk' _]].
      + rewrite Hl. split; [by right|]. intros _. by rewrite Hr, lookup_insert_eq.
      + by rewrite Hr, lookup_insert_eq in Hk'. }
  constructor; intros; [by eapply H|]. by eapply H.
Qed.

(** ** A working server: the storage computes [pg_upd] *)

Lemma tx_Exec_ok {A} (stmt : DB → res A) tx d : tx_Exec stmt tx (mkPW d []) = (mkPW d [], stmt tx).
Proof. done. Qed.

Lemma updateMetricsTx_ok ms tx d :
  updateMetricsTx tx ms (mkPW d []) =
    (mkPW d [], match pg_upd (t_metrics tx) ms with
                | Some t => Ok (mkDB t (t_receipts tx))
                | None => Fail out_of_range end).
Proof.
  revert tx. induction ms as [|m ms IH]; intros tx; simpl; [by destruct tx|].
  unfold effect_of.
  destruct (decide (MType m = Gauge)); [|destruct (decide (MType m = Counter))]; [| |apply IH].
  - destruct (Value m) as [v|]; [|apply IH]. unfold bind. rewrite tx_Exec_ok. simpl. by rewrite IH.
  - destruct (Delta m) as [dl|]; [|apply IH]. unfold bind. rewrite tx_Exec_ok. simpl.
    unfold upsertCounterQuery. destruct (t_metrics tx !! ID m) as [r|]; [|by rewrite IH].
    case_decide; [by rewrite IH|done].
Qed.

Lemma retry_assigning_final {A} (a0 : A) op w w' a e :
  op w = (w', (a, e)) → final isPostgresConnectionException e = true →
  retry_assigning a0 op w = (w', (a, e)).
Proof.
  intros Hop Hf. unfold retry_assigning, retryPostgres.
  rewrite (Do_final (assigning op) _ (w, a0) (w', a) e); [done| |done].
  unfold assigning. simpl. by rewrite Hop.
Qed.

Lemma UpdateMetricsOnce_ok key fp ms d :
  UpdateMetricsOnce key fp ms (mkPW d []) =
    match t_receipts d !! key with
    | Some fp' => (mkPW d [], (false, if decide (fp' ≠ fp) then Some ErrConflict else None))
    | None =>
        match pg_upd (t_metrics d) ms with
        | Some t => (mkPW (mkDB t (<[key := fp]> (t_receipts d))) [], (true, None))
        | None => (mkPW d [], (false, Some out_of_range))
        end
    end.
Proof.
  assert (updateMetricsOnce key fp ms (mkPW d []) = match t_receipts d !! key with
    | Some fp' => (mkPW d [], (false, if decide (fp' ≠ fp) then Some ErrConflict else None))
    | None => match pg_upd (t_metrics d) ms with
        | Some t => (mkPW (mkDB t (<[key := fp]> (t_receipts d))) [], (true, None))
        | None => (mkPW d [], (false, Some out_of_range)) end end) as Hone.
  { unfold updateMetricsOnce, bind. simpl. unfold insertReceipt.
    destruct (t_receipts d !! key) as [fp'|] eqn:Hk; simpl.
    - rewrite Hk. case_decide; by rewrite ?decide_True, ?decide_False.
    - rewrite updateMetricsTx_ok. simpl. by destruct (pg_upd (t_metrics d) ms). }
  destruct (t_receipts d !! key) as [fp'|]; [|destruct (pg_upd (t_metrics d) ms)];
    apply retry_assigning_final; rewrite ?Hone; try done.
  by case_decide.
Qed.

(** ** The content of the table, and the agreement with the abstract storage *)

Definition rows_content (t : gmap string row) : Content :=
  mkContent (select_gauges (mkDB t ∅)) (select_counters (mkDB t ∅)).

(** Every name is of one type: the rows of the table and the metrics of the batch
    respect the assignment [ty]. *)
Definition row_ok (ty : string → string) (n : string) (r : row) : Prop :=
  r_type r = ty n ∧
  (r_type r = Gauge ∧ is_Some (r_gauge r) ∧ r_counter r = None ∨
   r_type r = Counter ∧ r_gauge r = None ∧ is_Some (r_counter r)).

Definition rows_ok (ty : string → string) (t : gmap string row) : Prop :=
  map_Forall (row_ok ty) t.

Definition metric_ok (ty : string → string) (m : Metrics) : Prop :=
  match effect_of m with
  | SetGauge n _ => ty n = Gauge
  | AddCounter n d => ty n = Counter ∧ in_int64 d
  | NoEffect => True
  end.

Lemma rows_content_lookup t n :
  c_gauges (rows_content t) !! n = select_gauge n (mkDB t ∅) ∧
  c_counters (rows_content t) !! n = select_counter n (mkDB t ∅).
Proof.
  unfold rows_content, select_gauges, select_counters, select_gauge, select_counter. simpl.
  by rewrite !lookup_omap.
Qed.

Lemma effect_stmt_ok ty t m t' :
  rows_ok ty t → metric_ok ty m → effect_stmt (effect_of m) t = Some t' →
  rows_ok ty t' ∧ rows_content t' = apply_effect (rows_content t) (effect_of m).
Proof.
  unfold metric_ok. intros Ht Hm He.
  assert (∀ t1 t2 : gmap string row, ∀ c,
    (∀ n, select_gauge n (mkDB t1 ∅) = c_gauges c !! n) →
    (∀ n, select_counter n (mkDB t1 ∅) = c_counters c !! n) → rows_content t1 = c) as Hext.
  { intros t1 _ c Hg Hc. apply content_eq; apply map_eq; intros n;
      destruct (rows_content_lookup t1 n) as [E1 E2]; rewrite ?E1, ?E2; auto. }
  pose proof (λ n, proj1 (rows_content_lookup t n)) as Eg.
  pose proof (λ n, proj2 (rows_content_lookup t n)) as Ec.
  pose proof Gauge_Counter as Hgc.
  destruct (effect_of m) as [n v|n d|]; simpl in He; simplify_eq; [| |done].
  - split. { apply map_Forall_insert_2; [|done]. split; [done|]. left. eauto. }
    apply Hext; [done| |]; intros k; simpl.
    + unfold select_gauge. simpl. rewrite !lookup_insert. case_decide; simpl; [done|].
      symmetry. apply Eg.
    + rewrite Ec. unfold select_counter. simpl. rewrite lookup_insert. case_decide; [subst|done].
      simpl. destruct (t !! k) as [r|] eqn:E; [|done]. simpl.
      destruct (Ht _ _ E) as [Hty _]. by rewrite decide_False by congruence.
  - destruct Hm as [Hty Hd].
    assert (∃ z, t' = <[n := mkRow Counter None (Some z)]> t ∧
      z = add64 (get_or 0%Z (c_counters (rows_content t)) n) d) as (z & -> & Hz).
    { unfold get_or. rewrite Ec. unfold select_counter. simpl.
      destruct (t !! n) as [r|] eqn:E; simpl.
      - case_decide as Hin; simplify_eq. exists (default 0 (r_counter r) + d)%Z. split; [done|].
        destruct (Ht _ _ E) as [Hty' _]. rewrite decide_True by congruence.
        symmetry. by apply wrap64_id.
      - simplify_eq. exists d. split; [done|]. symmetry. by apply add64_0_l. }
    split. { apply map_Forall_insert_2; [|done]. split; [done|]. right. eauto. }
    apply Hext; [done| |]; intros k; simpl.
    + rewrite Eg. unfold select_gauge. simpl. rewrite lookup_insert. case_decide; [subst|done].
      simpl. destruct (t !! k) as [r|] eqn:E; [|done]. simpl.
      destruct (Ht _ _ E) as [Hty' _]. by rewrite decide_False by congruence.
    + unfold select_counter. simpl. rewrite !lookup_insert. case_decide; simpl; [by subst|].
      symmetry. apply Ec.
Qed.

Lemma pg_upd_ok ty t ms t' :
  rows_ok ty t → Forall (metric_ok ty) ms → pg_upd t ms = Some t' →
  rows_ok ty t' ∧ rows_content t' = apply_batch (rows_content t) ms.
Proof.
  revert t. induction ms as [|m ms IH]; intros t Ht Hms Hu; simpl in Hu; [by simplify_eq|].
  apply Forall_cons in Hms as [Hm Hms]. apply bind_Some in Hu as (t1 & He & Hu).
  destruct (effect_stmt_ok _ _ _ _ Ht Hm He) as [Ht1 Hc1].
  destruct (IH _ Ht1 Hms Hu) as [Ht' Hc']. split; [done|]. by rewrite Hc', Hc1.
Qed.

(** ** Properties *)

(** C6: however the connection fails, at any interaction, with or without the
    statement or the commit having taken effect, and through all the retries,
    [UpdateMetricsOnce] leaves the tables as they were or has committed the
    whole batch together with its receipt exactly once, the latter only under a
    free key; [applied] is never reported without the commit, and a nil error
    guarantees the receipt. *)
Theorem UpdateMetricsOnce_any_failures key fp ms w :
  let '(w', (applied, e)) := UpdateMetricsOnce key fp ms w in
  (db w' = db w ∧ applied = false ∨
   t_receipts (db w) !! key = None ∧
   ∃ t, pg_upd (t_metrics (db w)) ms = Some t ∧
     db w' = mkDB t (<[key := fp]> (t_receipts (db w)))) ∧
  (e = None → t_receipts (db w') !! key = Some fp).
Proof.
  destruct (UpdateMetricsOnce key fp ms w) as [w' [applied e]] eqn:H.
  pose proof (once_atomic (W := PW) (ledger := ledger) key fp ms w w' applied e H) as Ha.
  split.
  - destruct Ha as [[Hl ->]|[Hk Hc]].
    + left. split; [|done]. unfold ledger in Hl. destruct (db w'), (db w). by simplify_eq/=.
    + right. split; [done|]. unfold commit in Hc. apply bind_Some in Hc as (t & Hu & Hl).
      exists t. split; [done|]. unfold ledger in Hl. destruct (db w'). by simplify_eq/=.
  - intros ->. exact (once_acknowledged (W := PW) (ledger := ledger) key fp ms w w' applied H).
Qed.

(** C38: The acknowledgement of a commit can be lost: with a key the retry finds
    the receipt and the batch counts once, without one the retry applies the
    batch again and the counter grows twice, and both report success. *)
Theorem lost_commit_ack key fp n d :
  in_int64 d → in_int64 (d + d) →
  let lost := Lost (PqError "08006") in
  let keyed := UpdateMetricsOnce key fp [counter_metric n d]
    (mkPW (mkDB ∅ ∅) [Done; Done; Done; Done; lost]) in
  let unkeyed := UpdateMetrics [counter_metric n d] (mkPW (mkDB ∅ ∅) [Done; Done; lost]) in
  keyed.2 = (false, None) ∧ select_counter n (db keyed.1) = Some d ∧
  unkeyed.2 = None ∧ select_counter n (db unkeyed.1) = Some (d + d)%Z.
Proof.
  intros Hd Hdd. cbv zeta.
  unfold UpdateMetricsOnce, UpdateMetrics, retry_assigning, retryPostgres, Do, DoWithSleeper,
    assigning, updateMetricsOnce, updateMetrics, bind, ret, select_counter.
  repeat (simpl; unfold insertReceipt, upsertCounterQuery, bind, ret; simpl;
    rewrite ?lookup_empty, ?lookup_insert_eq, ?(decide_True _ _ Hdd),
      ?(decide_False (P := fp ≠ fp)) by auto).
  split_and!; done.
Qed.

Lemma lost_commit_ack_witness :
  in_int64 5 ∧ in_int64 (5 + 5) ∧
  (UpdateMetrics [counter_metric "PollCount" 5]
    (mkPW (mkDB ∅ ∅) [Done; Done; Lost (PqError "08006")])).2 = None.
Proof.
  assert (in_int64 5) as H1 by (by vm_compute). assert (in_int64 (5 + 5)) as H2 by (by vm_compute).
  split; [done|]. split; [done|].
  exact (proj1 (proj2 (proj2 (lost_commit_ack "k" "fp" "PollCount" 5 H1 H2)))).
Defined.

(** C37: refinement of the abstract storage: on a working server, when every name
    has one type, [UpdateMetricsOnce] answers as the abstract storage does
    (applied, duplicate, conflict), commits the same gauges and counters, and
    keeps the rows well formed; the only other answer is PostgreSQL's
    out-of-range error, where the in-memory counter would wrap, and then
    nothing changes. *)
Theorem postgres_refines_content ty key fp ms d :
  rows_ok ty (t_metrics d) → Forall (metric_ok ty) ms →
  let '(w', (applied, e)) := UpdateMetricsOnce key fp ms (mkPW d []) in
  rows_ok ty (t_metrics (db w')) ∧
  match t_receipts d !! key with
  | Some fp' => applied = false ∧ db w' = d ∧ (e = None ↔ fp' = fp)
  | None =>
      (applied = true ∧ e = None ∧ t_receipts (db w') = <[key := fp]> (t_receipts d) ∧
       rows_content (t_metrics (db w')) = apply_batch (rows_content (t_metrics d)) ms) ∨
      (applied = false ∧ e = Some out_of_range ∧ db w' = d ∧ pg_upd (t_metrics d) ms = None)
  end.
Proof.
  intros Hd Hms. rewrite UpdateMetricsOnce_ok.
  destruct (t_receipts d !! key) as [fp'|].
  - split; [done|]. case_decide; split_and!; naive_solver.
  - destruct (pg_upd (t_metrics d) ms) as [t|] eqn:Hu; simpl.
    + destruct (pg_upd_ok _ _ _ _ Hd Hms Hu). split; [done|]. by left.
    + split; [done|]. by right.
Qed.

Lemma postgres_refines_content_witness :
  let ty n := if decide (n = "PollCount") then Counter else Gauge in
  let ms := [counter_metric "PollCount" 5; gauge_metric "Alloc" float64_zero] in
  rows_ok ty ∅ ∧ Forall (metric_ok ty) ms ∧
  let '(w', (applied, e)) := UpdateMetricsOnce "k" "fp" ms (mkPW (mkDB ∅ ∅) []) in
  rows_ok ty (t_metrics (db w')).
Proof.
  set (ty n := if decide (n = "PollCount") then Counter else Gauge).
  set (ms := [counter_metric "PollCount" 5; gauge_metric "Alloc" float64_zero]).
  assert (rows_ok ty ∅) as H1 by apply map_Forall_empty.
  assert (Forall (metric_ok ty) ms) as H2 by (repeat constructor; by vm_compute).
  split; [done|]. split; [done|].
  exact (proj1 (postgres_refines_content ty "k" "fp" ms (mkDB ∅ ∅) H1 H2)).
Defined.

(** The table holds one row per name, so the storages disagree on a name used
    with both types: after a gauge and then a counter update of it, PostgreSQL
    has no such gauge any more, while the in-memory content keeps both. *)
Theorem type_change_drops_gauge n v d :
  in_int64 d →
  let ms := [gauge_metric n v; counter_metric n d] in
  let '(w', _) := UpdateMetricsOnce "k" "fp" ms (mkPW (mkDB ∅ ∅) []) in
  select_gauge n (db w') = None ∧ select_counter n (db w') = Some d ∧
  c_gauges (apply_batch (mkContent ∅ ∅) ms) !! n = Some v ∧
  counter_at (apply_batch (mkContent ∅ ∅) ms) n = d.
Proof.
  intros Hd. cbv zeta. rewrite UpdateMetricsOnce_ok. cbn [t_receipts]. rewrite lookup_empty.
  unfold select_gauge, select_counter. simpl. rewrite lookup_insert_eq. simpl.
  rewrite decide_True by done. simpl. rewrite !lookup_insert_eq. simpl.
  split_and!; [done|done|done|].
  unfold counter_at, get_or. simpl. rewrite lookup_insert_eq. simpl. by apply add64_0_l.
Qed.

Lemma type_change_drops_gauge_witness :
  in_int64 5 ∧
  let '(w', _) := UpdateMetricsOnce "k" "fp" [gauge_metric "m" float64_zero; counter_metric "m" 5]
    (mkPW (mkDB ∅ ∅) []) in
  select_gauge "m" (db w') = None.
Proof.
  assert (in_int64 5) as H by (by vm_compute). split; [done|].
  exact (proj1 (type_change_drops_gauge "m" float64_zero 5 H)).
Defined.
