(* ===== verification/Sessions.v ===== *)
(** Concurrent transactions of [internal/repository/postgres.go] and
    [idempotency.go] on one database.

    [Postgres] runs one call at a time.  Here any number of calls, retries and
    repeated deliveries of the same batch are at work at once, statement by
    statement, under the rules that PostgreSQL documents for its default
    isolation level: a statement sees what is committed and what its own
    transaction has written; a row that a transaction has written, or a key it has
    inserted, is locked until the transaction ends, and a statement that needs it
    waits; a transaction may be ended by the server, or lost with its connection,
    at any moment. *)

From S2P Require Import Prelude GoErrors Metrics Delivery Retry Repository Postgres.

(** ** Calls and their transactions *)

(** [UpdateMetricsOnce], and [UpdateMetrics] without a key. *)
Inductive job : Type := Keyed (c : call) | Plain (ms : list Metrics).

Definition job_metrics (j : job) : list Metrics := match j with Keyed c => call_metrics c | Plain ms => ms end.
Definition job_key (j : job) : option string := match j with Keyed c => Some (call_key c) | Plain _ => None end.
Definition job_plain (j : job) : option (list Metrics) := match j with Keyed _ => None | Plain ms => Some ms end.

(** Where a transaction is: about to insert the receipt, about to read the one
    that was there, in the loop of [updateMetricsTx]. *)
Inductive pc : Type := AtReceipt | AtSelect | AtMetrics (rest : list Metrics).

(** What it has written is its own, and locked. *)
Record Session : Type := mkSession {
  s_job : job;
  s_pc : pc;
  s_rows : gmap string row;
  s_receipts : gmap string string
}.

(** [log] are the calls in the order of their commits, [answered] those that have
    returned without an error. *)
Record State : Type := mkState {
  committed : DB;
  sessions : gmap nat Session;
  log : list job;
  answered : list job
}.

Definition view (d : DB) (s : Session) : DB :=
  mkDB (s_rows s ∪ t_metrics d) (s_receipts s ∪ t_receipts d).

Definition free_row (i : nat) (n : string) (ss : gmap nat Session) : Prop :=
  ∀ j s, j ≠ i → ss !! j = Some s → s_rows s !! n = None.
Definition free_key (i : nat) (k : string) (ss : gmap nat Session) : Prop :=
  ∀ j s, j ≠ i → ss !! j = Some s → s_receipts s !! k = None.

(** The statement of a metric, and the row it writes. *)
Definition statement (m : Metrics) : option (string * (DB → res DB)) :=
  match effect_of m with
  | SetGauge n v => Some (n, upsertGaugeQuery n Gauge v)
  | AddCounter n d => Some (n, upsertCounterQuery n Counter d)
  | NoEffect => None
  end.

Definition begin_session (j : job) : Session :=
  match j with
  | Keyed _ => mkSession j AtReceipt ∅ ∅
  | Plain ms => mkSession j (AtMetrics ms) ∅ ∅
  end.

(** A transaction goes on, or ends without effect. *)
Definition set_session (i : nat) (s : Session) (st : State) : State :=
  mkState (committed st) (<[i := s]> (sessions st)) (log st) (answered st).
Definition end_session (i : nat) (ok : list job) (st : State) : State :=
  mkState (committed st) (delete i (sessions st)) (log st) (answered st ++ ok).

Inductive session_step : State → State → Prop :=
| begins st i j :
    sessions st !! i = None → session_step st (set_session i (begin_session j) st)
(* updateMetricsOnce *)
| inserts_receipt st i s c tx :
    sessions st !! i = Some s → s_job s = Keyed c → s_pc s = AtReceipt → free_key i (call_key c) (sessions st) →
    insertReceipt (call_key c) (call_fingerprint c) (view (committed st) s) = (tx, 1%Z) →
    session_step st (set_session i
      (mkSession (s_job s) (AtMetrics (call_metrics c)) (s_rows s)
        (<[call_key c := call_fingerprint c]> (s_receipts s))) st)
| finds_receipt st i s c tx :
    sessions st !! i = Some s → s_job s = Keyed c → s_pc s = AtReceipt → free_key i (call_key c) (sessions st) →
    insertReceipt (call_key c) (call_fingerprint c) (view (committed st) s) = (tx, 0%Z) →
    session_step st (set_session i (mkSession (s_job s) AtSelect (s_rows s) (s_receipts s)) st)
| selects st i s c previous :
    sessions st !! i = Some s → s_job s = Keyed c → s_pc s = AtSelect →
    t_receipts (view (committed st) s) !! call_key c = Some previous →
    session_step st (end_session i (if decide (previous = call_fingerprint c) then [s_job s] else []) st)
(* updateMetricsTx *)
| skips st i s m rest :
    sessions st !! i = Some s → s_pc s = AtMetrics (m :: rest) → statement m = None →
    session_step st (set_session i (mkSession (s_job s) (AtMetrics rest) (s_rows s) (s_receipts s)) st)
| upserts st i s m rest n stmt tx r :
    sessions st !! i = Some s → s_pc s = AtMetrics (m :: rest) → statement m = Some (n, stmt) →
    free_row i n (sessions st) → stmt (view (committed st) s) = Ok tx → t_metrics tx !! n = Some r →
    session_step st (set_session i (mkSession (s_job s) (AtMetrics rest) (<[n := r]> (s_rows s)) (s_receipts s)) st)
| upsert_fails st i s m rest n stmt e :
    sessions st !! i = Some s → s_pc s = AtMetrics (m :: rest) → statement m = Some (n, stmt) →
    free_row i n (sessions st) → stmt (view (committed st) s) = Fail e →
    session_step st (end_session i [] st)
(* the commit, whose acknowledgement may be lost *)
| commits st i s (acknowledged : bool) :
    sessions st !! i = Some s → s_pc s = AtMetrics [] →
    session_step st (mkState (view (committed st) s) (delete i (sessions st)) (log st ++ [s_job s])
      (answered st ++ if acknowledged then [s_job s] else []))
(* the connection, or the server, ends the transaction *)
| aborts st i s :
    sessions st !! i = Some s → session_step st (end_session i [] st).

Definition start (d : DB) : State := mkState d ∅ [] [].
Definition session_reachable (d : DB) (st : State) : Prop := rtc session_step (start d) st.

(** ** One call after the other

    The calls of [Postgres] on a server that works. *)
Definition runs_alone (j : job) (d d' : DB) : Prop :=
  match j with
  | Keyed c =>
      UpdateMetricsOnce (call_key c) (call_fingerprint c) (call_metrics c) (mkPW d []) = (mkPW d' [], (true, None))
  | Plain ms => UpdateMetrics ms (mkPW d []) = (mkPW d' [], None)
  end.

Inductive serial (d0 : DB) : list job → DB → Prop :=
| serial_nil : serial d0 [] d0
| serial_snoc js j d d' : serial d0 js d → runs_alone j d d' → serial d0 (js ++ [j]) d'.

(** ** Lemmas *)

Lemma UpdateMetrics_alone ms d :
  UpdateMetrics ms (mkPW d []) =
    match pg_upd (t_metrics d) ms with
    | Some t => (mkPW (mkDB t (t_receipts d)) [], None)
    | None => (mkPW d [], Some out_of_range)
    end.
Proof.
  assert (updateMetrics ms (mkPW d []) = match pg_upd (t_metrics d) ms with
    | Some t => (mkPW (mkDB t (t_receipts d)) [], None) | None => (mkPW d [], Some out_of_range) end) as Hone.
  { unfold updateMetrics, bind. cbn. rewrite updateMetricsTx_ok. by destruct (pg_upd (t_metrics d) ms). }
  unfold UpdateMetrics, retryPostgres.
  destruct (pg_upd (t_metrics d) ms); by apply Do_final; rewrite ?Hone.
Qed.

Lemma runs_alone_eq j d d' :
  runs_alone j d d' ↔
  pg_upd (t_metrics d) (job_metrics j) = Some (t_metrics d') ∧
  match j with
  | Keyed c => t_receipts d !! call_key c = None ∧
      t_receipts d' = <[call_key c := call_fingerprint c]> (t_receipts d)
  | Plain _ => t_receipts d' = t_receipts d
  end.
Proof.
  destruct j as [c|ms]; cbn [runs_alone job_metrics].
  - rewrite UpdateMetricsOnce_ok. destruct (t_receipts d !! call_key c) as [fp|].
    { split; [by intros [=]|by intros (_ & [=] & _)]. }
    destruct (pg_upd (t_metrics d) (call_metrics c)) as [t|]; [|split; [by intros [=]|by intros ([=] & _)]].
    split; [by intros [= <-]|]. intros ([= ->] & _ & <-). by destruct d'.
  - rewrite UpdateMetrics_alone. destruct (pg_upd (t_metrics d) ms) as [t|]; [|split; [by intros [=]|by intros ([=] & _)]].
    split; [by intros [= <-]|]. intros ([= ->] & <-). by destruct d'.
Qed.

(** The rows that a list of metrics writes. *)
Definition names (ms : list Metrics) : list string := (omap statement ms).*1.

Lemma names_app ms ms' : names (ms ++ ms') = names ms ++ names ms'.
Proof. unfold names. by rewrite omap_app, fmap_app. Qed.

(** A statement reads and writes its own row. *)
Lemma statement_row m n stmt d tx :
  statement m = Some (n, stmt) → stmt d = Ok tx →
  ∃ r, effect_stmt (effect_of m) (t_metrics d) = Some (<[n := r]> (t_metrics d)) ∧
    tx = mkDB (<[n := r]> (t_metrics d)) (t_receipts d).
Proof.
  unfold statement. destruct (effect_of m) as [n' v|n' z|]; intros [= <- <-]; cbn [effect_stmt].
  - unfold upsertGaugeQuery. intros [= <-]. by eexists.
  - unfold upsertCounterQuery. destruct (t_metrics d !! n') as [r|]; [|intros [= <-]; by eexists].
    case_decide; [|done]. intros [= <-]. by eexists.
Qed.

Lemma statement_none m t : statement m = None → effect_stmt (effect_of m) t = Some t.
Proof. unfold statement. by destruct (effect_of m). Qed.

Lemma pg_upd_snoc t ms m t' :
  pg_upd t ms = Some t' → pg_upd t (ms ++ [m]) = effect_stmt (effect_of m) t'.
Proof.
  revert t. induction ms as [|m' ms IH]; intros t; cbn [pg_upd app].
  - intros [= ->]. by destruct (effect_stmt (effect_of m) t').
  - intros (t1 & -> & Hu)%bind_Some. by apply IH.
Qed.

Lemma effect_stmt_frame m t t' t2 :
  (∀ n, n ∈ names [m] → t2 !! n = t !! n) → effect_stmt (effect_of m) t = Some t' →
  (t' = t ∧ effect_stmt (effect_of m) t2 = Some t2 ∧ names [m] = []) ∨
  ∃ n r, names [m] = [n] ∧ t' = <[n := r]> t ∧ effect_stmt (effect_of m) t2 = Some (<[n := r]> t2).
Proof.
  unfold names. cbn [omap list_omap]. unfold statement.
  destruct (effect_of m) as [n v|n z|]; cbn [effect_stmt fmap list_fmap fst]; intros Hn.
  - intros [= <-]. right. by eexists _, _.
  - rewrite (Hn n) by apply list_elem_of_here. intros He. right.
    destruct (t !! n) as [r|]; [case_decide; [|done]|]; injection He as <-; by eexists _, _.
  - intros [= <-]. by left.
Qed.

(** A batch works the same on a table that agrees on its rows. *)
Lemma pg_upd_frame ms t t' t2 :
  pg_upd t ms = Some t' → (∀ n, n ∈ names ms → t2 !! n = t !! n) →
  ∃ t2', pg_upd t2 ms = Some t2' ∧ (∀ n, n ∈ names ms → t2' !! n = t' !! n) ∧
    (∀ n, n ∉ names ms → t2' !! n = t2 !! n ∧ t' !! n = t !! n).
Proof.
  revert t t2. induction ms as [|m ms IH]; intros t t2; cbn [pg_upd].
  { intros [= <-] _. exists t2. split_and!; [done|by intros n ?%not_elem_of_nil|done]. }
  change (m :: ms) with ([m] ++ ms). rewrite names_app.
  intros (t1 & He & Hu)%bind_Some Hn.
  destruct (effect_stmt_frame m t t1 t2) as [(-> & He2 & Hm)|(n & r & Hm & -> & He2)]; [|done|..].
  - intros n Hin. apply Hn, elem_of_app. by left.
  - rewrite Hm in Hn |- *. destruct (IH t t2 Hu) as (t2' & Hu2 & ?); [exact Hn|].
    exists t2'. by rewrite He2.
  - rewrite Hm in Hn |- *. destruct (IH _ (<[n := r]> t2) Hu) as (t2' & Hu2 & Hin & Hout).
    { intros k Hk. rewrite !lookup_insert. case_decide; [done|]. apply Hn, elem_of_app. by right. }
    exists t2'. rewrite He2. split; [exact Hu2|]. split.
    + intros k Hk. destruct (decide (k ∈ names ms)) as [Hms|Hms]; [by apply Hin|].
      destruct (Hout k Hms) as [-> ->]. apply elem_of_app in Hk as [->%list_elem_of_singleton|]; [|done].
      by rewrite !lookup_insert_eq.
    + intros k [Hk Hms]%not_elem_of_app. apply not_elem_of_cons in Hk as [Hk _].
      destruct (Hout k Hms) as [-> ->]. by rewrite !lookup_insert_ne.
Qed.

(** What a batch writes, over any table that has the same rows for it. *)
Lemma pg_upd_overlay ms t rows t2 :
  pg_upd t ms = Some (rows ∪ t) → (∀ n, is_Some (rows !! n) ↔ n ∈ names ms) →
  (∀ n, n ∈ names ms → t2 !! n = t !! n) → pg_upd t2 ms = Some (rows ∪ t2).
Proof.
  intros Hu Hd Hn. destruct (pg_upd_frame ms t _ t2 Hu Hn) as (t2' & -> & Hin & Hout). f_equal.
  apply map_eq. intros n. destruct (rows !! n) as [r|] eqn:Hr.
  - rewrite Hin by (apply Hd; by eexists). by rewrite !(lookup_union_Some_l _ _ _ _ Hr).
  - assert (n ∉ names ms) as Hnn by (rewrite <-Hd, Hr; by intros [? [=]]).
    by rewrite lookup_union_r, (proj1 (Hout n Hnn)).
Qed.

(** ** The invariant *)

(** A transaction has done a part of its batch on the rows as they are
    committed, and has its receipt under a key that is still free. *)
Definition session_ok (d : DB) (s : Session) : Prop :=
  match s_pc s with
  | AtReceipt | AtSelect => s_rows s = ∅ ∧ s_receipts s = ∅
  | AtMetrics rest =>
      (∃ ms, job_metrics (s_job s) = ms ++ rest ∧ pg_upd (t_metrics d) ms = Some (s_rows s ∪ t_metrics d) ∧
        ∀ n, is_Some (s_rows s !! n) ↔ n ∈ names ms) ∧
      match s_job s with
      | Keyed c => s_receipts s = {[call_key c := call_fingerprint c]} ∧ t_receipts d !! call_key c = None
      | Plain _ => s_receipts s = ∅
      end
  end.

(** Locks are exclusive. *)
Definition apart (s s' : Session) : Prop := s_rows s ##ₘ s_rows s' ∧ s_receipts s ##ₘ s_receipts s'.
Definition locks_ok (ss : gmap nat Session) : Prop :=
  ∀ i j s s', i ≠ j → ss !! i = Some s → ss !! j = Some s' → apart s s'.

Definition sessions_inv (d0 : DB) (st : State) : Prop :=
  serial d0 (log st) (committed st) ∧
  map_Forall (λ _, session_ok (committed st)) (sessions st) ∧ locks_ok (sessions st) ∧
  Forall (λ j, match j with
    | Keyed c => t_receipts (committed st) !! call_key c = Some (call_fingerprint c) | Plain _ => True end) (answered st) ∧
  omap job_plain (answered st) ⊆+ omap job_plain (log st).

#[export] Instance apart_symmetric : Symmetric apart.
Proof. intros s s' [??]. by split. Qed.

Lemma locks_insert i s ss :
  locks_ok ss → (∀ j s', j ≠ i → ss !! j = Some s' → apart s s') → locks_ok (<[i := s]> ss).
Proof.
  intros Hl Hs j k s1 s2 Hjk. rewrite !lookup_insert. do 2 case_decide; subst; [done| | |by apply Hl].
  - intros [= <-]. by apply Hs.
  - intros H1 [= <-]. symmetry. by apply (Hs j).
Qed.

Lemma locks_delete i ss : locks_ok ss → locks_ok (delete i ss).
Proof. intros Hl j k s1 s2 Hjk [_ ?]%lookup_delete_Some [_ ?]%lookup_delete_Some. by apply (Hl j k). Qed.

(** A transaction that writes no new row or key has the locks it had. *)
Lemma locks_same i s s' ss :
  locks_ok ss → ss !! i = Some s → s_rows s' = s_rows s → s_receipts s' = s_receipts s → locks_ok (<[i := s']> ss).
Proof.
  intros Hl Hs Hr Hk. apply locks_insert; [done|]. intros j s2 Hj H2. unfold apart. rewrite Hr, Hk.
  by apply (Hl i j).
Qed.

Lemma locks_row i s ss n r p :
  locks_ok ss → ss !! i = Some s → free_row i n ss →
  locks_ok (<[i := mkSession (s_job s) p (<[n := r]> (s_rows s)) (s_receipts s)]> ss).
Proof.
  intros Hl Hs Hf. apply locks_insert; [done|]. intros j s2 Hj H2. destruct (Hl i j s s2) as [Hr Hk]; [done..|].
  split; [|done]. cbn. apply map_disjoint_insert_l_2; [by apply (Hf j)|done].
Qed.

Lemma locks_key i s ss k fp p :
  locks_ok ss → ss !! i = Some s → free_key i k ss →
  locks_ok (<[i := mkSession (s_job s) p (s_rows s) (<[k := fp]> (s_receipts s))]> ss).
Proof.
  intros Hl Hs Hf. apply locks_insert; [done|]. intros j s2 Hj H2. destruct (Hl i j s s2) as [Hr Hk]; [done..|].
  split; [done|]. cbn. apply map_disjoint_insert_l_2; [by apply (Hf j)|done].
Qed.

(** A transaction does not see the commit of another. *)
Lemma session_ok_commit d s s' : session_ok d s → apart s s' → session_ok (view d s') s.
Proof.
  unfold session_ok. intros Hs [Hr Hk]. destruct (s_pc s) as [| |rest]; [done|done|].
  destruct Hs as [(ms & Hm & Hu & Hn) Hrec]. split.
  - exists ms. split; [done|]. split; [|done]. apply (pg_upd_overlay ms _ _ _ Hu Hn).
    intros n [r Hin]%Hn. cbn. by rewrite lookup_union_r by (by eapply map_disjoint_Some_l).
  - destruct (s_job s) as [c|ms']; [|done]. destruct Hrec as [Hrec Hfree]. split; [done|]. cbn.
    rewrite lookup_union_r; [done|]. eapply map_disjoint_Some_l; [exact Hk|].
    by rewrite Hrec, lookup_singleton_eq.
Qed.

(** The commit of a transaction is its call, run alone on what is committed. *)
Lemma commit_runs_alone d s : session_ok d s → s_pc s = AtMetrics [] → runs_alone (s_job s) d (view d s).
Proof.
  unfold session_ok. intros Hs Hp. rewrite Hp in Hs. destruct Hs as [(ms & Hm & Hu & _) Hrec].
  rewrite app_nil_r in Hm. apply runs_alone_eq. rewrite Hm. split; [exact Hu|]. unfold view. cbn.
  destruct (s_job s) as [c|ms'].
  - destruct Hrec as [-> Hfree]. split; [done|]. by rewrite insert_union_singleton_l.
  - by rewrite Hrec, map_empty_union.
Qed.

Lemma insertReceipt_eq k fp d tx n :
  insertReceipt k fp d = (tx, n) → (n = 1%Z ∧ t_receipts d !! k = None) ∨ (n = 0%Z ∧ is_Some (t_receipts d !! k)).
Proof. unfold insertReceipt. destruct (t_receipts d !! k); intros [= <- <-]; [by right|by left]. Qed.

Lemma session_ok_upsert d s m rest n stmt tx r :
  session_ok d s → s_pc s = AtMetrics (m :: rest) → statement m = Some (n, stmt) →
  stmt (view d s) = Ok tx → t_metrics tx !! n = Some r →
  session_ok d (mkSession (s_job s) (AtMetrics rest) (<[n := r]> (s_rows s)) (s_receipts s)).
Proof.
  unfold session_ok. intros Hs Hp Hst Hx Hr. rewrite Hp in Hs. cbn [s_pc s_job s_rows s_receipts].
  destruct Hs as [(ms & Hm & Hu & Hn) Hrec]. split; [|done].
  destruct (statement_row _ _ _ _ _ Hst Hx) as (r' & He & ->). cbn in Hr. rewrite lookup_insert_eq in Hr.
  injection Hr as ->. exists (ms ++ [m]). split; [by rewrite <-app_assoc|]. split.
  - by rewrite <-insert_union_l, (pg_upd_snoc _ _ _ _ Hu).
  - intros k. rewrite names_app, elem_of_app, <-Hn. unfold names. cbn [omap list_omap]. rewrite Hst. cbn.
    rewrite list_elem_of_singleton, lookup_insert. case_decide; [subst; split; [by right|by eexists]|].
    split; [by left|]. by intros [?|?].
Qed.

Lemma session_ok_skip d s m rest :
  session_ok d s → s_pc s = AtMetrics (m :: rest) → statement m = None →
  session_ok d (mkSession (s_job s) (AtMetrics rest) (s_rows s) (s_receipts s)).
Proof.
  unfold session_ok. intros Hs Hp Hst. rewrite Hp in Hs. cbn [s_pc s_job s_rows s_receipts].
  destruct Hs as [(ms & Hm & Hu & Hn) Hrec]. split; [|done].
  exists (ms ++ [m]). split; [by rewrite <-app_assoc|]. split.
  - by rewrite (pg_upd_snoc _ _ _ _ Hu), statement_none.
  - intros k. rewrite names_app, elem_of_app, <-Hn. unfold names. cbn [omap list_omap]. rewrite Hst. cbn.
    rewrite elem_of_nil. naive_solver.
Qed.

Lemma sessions_inv_step d0 st st' : session_step st st' → sessions_inv d0 st → sessions_inv d0 st'.
Proof.
  intros Hstep (Hser & Hss & Hl & Hans & Hplain).
  assert (∀ i s s', sessions st !! i = Some s → session_ok (committed st) s' →
    locks_ok (<[i := s']> (sessions st)) → sessions_inv d0 (set_session i s' st)) as Hset.
  { intros i s s' _ Hs' Hl'. split_and!; try done. by apply map_Forall_insert_2. }
  assert (∀ i ok, (∀ j, j ∈ ok → ∃ c, j = Keyed c ∧ t_receipts (committed st) !! call_key c = Some (call_fingerprint c)) →
    sessions_inv d0 (end_session i ok st)) as Hend.
  { intros i ok Hok. split_and!; try done; cbn.
    - by apply map_Forall_delete.
    - by apply locks_delete.
    - apply Forall_app. split; [done|]. apply Forall_forall. intros j (c & -> & Hc)%Hok. exact Hc.
    - rewrite omap_app. replace (omap job_plain ok) with ([] : list (list Metrics)); [by rewrite app_nil_r|].
      symmetry. clear -Hok. induction ok as [|j ok IH]; [done|].
      destruct (Hok j (list_elem_of_here _ _)) as (c & -> & _). cbn. apply IH. intros j Hj. by apply Hok, list_elem_of_further. }
  assert (∀ i s, sessions st !! i = Some s → session_ok (committed st) s) as Hof by (intros i s Hs; by apply (Hss i)).
  destruct Hstep as [st i j Hi|st i s c tx Hi Hj Hp Hf Hx|st i s c tx Hi Hj Hp Hf Hx|st i s c previous Hi Hj Hp Hx
    |st i s m rest Hi Hp Hm|st i s m rest n stmt tx r Hi Hp Hm Hf Hx Hr|st i s m rest n stmt e Hi Hp Hm Hf Hx
    |st i s acknowledged Hi Hp|st i s Hi].
  - split_and!; try done; cbn.
    + apply map_Forall_insert_2; [|done]. destruct j as [c|ms]; cbn; [done|]. split; [|done].
      exists []. split; [done|]. rewrite map_empty_union. split; [done|].
      intros n. rewrite lookup_empty. split; [by intros [? [=]]|by intros ?%not_elem_of_nil].
    + apply locks_insert; [done|]. intros k s' _ _. destruct j; split; apply map_disjoint_empty_l.
  - apply (Hset i s); [done| |by apply locks_key].
    pose proof (Hof i s Hi) as Hs. unfold session_ok in Hs |- *. rewrite Hp in Hs. destruct Hs as [Hr0 Hk0].
    rewrite Hj, Hr0, Hk0. cbn. apply insertReceipt_eq in Hx as [[_ Hx]|[[=] _]].
    cbn in Hx. rewrite Hk0, map_empty_union in Hx. split; [|by rewrite insert_empty].
    exists []. split; [done|]. rewrite map_empty_union. split; [done|].
    intros n. rewrite lookup_empty. split; [by intros [? [=]]|by intros ?%not_elem_of_nil].
  - apply (Hset i s); [done| |by apply (locks_same i s)].
    pose proof (Hof i s Hi) as Hs. unfold session_ok in Hs |- *. by rewrite Hp in Hs.
  - apply Hend. intros j. case_decide as He; [|by intros ?%not_elem_of_nil].
    intros ->%list_elem_of_singleton. exists c. split; [done|]. subst previous.
    pose proof (Hof i s Hi) as Hs. unfold session_ok in Hs. rewrite Hp in Hs. destruct Hs as [_ Hk0].
    cbn in Hx. by rewrite Hk0, map_empty_union in Hx.
  - apply (Hset i s); [done|by apply (session_ok_skip _ _ m), Hm; [apply (Hof i)|]|by apply (locks_same i s)].
  - apply (Hset i s); [done| |by apply locks_row].
    by eapply session_ok_upsert; [by apply (Hof i)|done..].
  - apply Hend. by intros j ?%not_elem_of_nil.
  - pose proof (commit_runs_alone _ s (Hof i s Hi) Hp) as Hrun.
    split_and!; cbn [committed sessions log answered].
    + by eapply serial_snoc.
    + intros k s' [Hk Hs']%lookup_delete_Some. apply session_ok_commit; [by apply (Hof k)|].
      by apply (Hl k i).
    + by apply locks_delete.
    + apply runs_alone_eq in Hrun as [_ Hrun]. apply Forall_app. split.
      * eapply Forall_impl; [exact Hans|]. intros [c|]; [|done]. intros Hc.
        destruct (s_job s) as [c'|]; [|by rewrite Hrun]. destruct Hrun as [Hfree ->].
        rewrite lookup_insert_ne; [done|]. congruence.
      * destruct acknowledged; [|done]. apply Forall_singleton. destruct (s_job s) as [c'|]; [|done].
        destruct Hrun as [_ ->]. by rewrite lookup_insert_eq.
    + rewrite !omap_app. apply submseteq_app; [done|]. destruct acknowledged; [done|]. apply submseteq_nil_l.
  - apply Hend. by intros j ?%not_elem_of_nil.
Qed.

Lemma session_reachable_inv d0 st : session_reachable d0 st → sessions_inv d0 st.
Proof.
  intros Hr. assert (sessions_inv d0 (start d0)) as Hi.
  { split_and!; cbn; [constructor|apply map_Forall_empty|by intros ?|constructor|done]. }
  revert Hi. unfold session_reachable in Hr. generalize dependent (start d0). intros st0 Hr.
  induction Hr as [|st0 st1 st2 Hs _ IH]; [done|]. intros Hi. by eapply IH, sessions_inv_step.
Qed.

(** ** What the order of the commits gives *)

(** A receipt was there before or belongs to a committed call, and stays. *)
Lemma serial_receipts d0 js d k fp :
  serial d0 js d → t_receipts d !! k = Some fp →
  t_receipts d0 !! k = Some fp ∨ ∃ c, Keyed c ∈ js ∧ call_key c = k ∧ call_fingerprint c = fp.
Proof.
  induction 1 as [|js j d d' _ IH Hrun]; [by left|]. intros Hk.
  assert (t_receipts d !! k = Some fp → t_receipts d0 !! k = Some fp ∨
    ∃ c, Keyed c ∈ js ++ [j] ∧ call_key c = k ∧ call_fingerprint c = fp) as Hold.
  { intros [?|(c & Hc & ?)]%IH; [by left|right]. exists c. split; [|done]. apply elem_of_app. by left. }
  apply runs_alone_eq in Hrun as [_ Hrun]. destruct j as [c|ms]; [|apply Hold; by rewrite <-Hrun].
  destruct Hrun as [_ Hrun]. rewrite Hrun, lookup_insert in Hk. case_decide; [|by apply Hold].
  right. exists c. split; [apply elem_of_app; right; apply list_elem_of_here|]. naive_solver.
Qed.

Lemma serial_committed_key d0 js d k : serial d0 js d → k ∈ omap job_key js → is_Some (t_receipts d !! k).
Proof.
  induction 1 as [|js j d d' _ IH Hrun]; [by intros ?%not_elem_of_nil|]. rewrite omap_app, elem_of_app.
  apply runs_alone_eq in Hrun as [_ Hrun]. intros [Hk|Hk].
  - destruct (IH Hk) as [fp Hfp]. destruct j as [c|ms]; [destruct Hrun as [_ ->]|by rewrite Hrun].
    rewrite lookup_insert. case_decide; by eexists.
  - destruct j as [c|ms]; [|by apply not_elem_of_nil in Hk]. apply list_elem_of_singleton in Hk as ->.
    destruct Hrun as [_ ->]. rewrite lookup_insert_eq. by eexists.
Qed.

(** Each key is committed once. *)
Lemma serial_keys d0 js d : serial d0 js d → NoDup (omap job_key js).
Proof.
  induction 1 as [|js j d d' Hs IH Hrun]; [constructor|]. rewrite omap_app.
  destruct j as [c|ms]; cbn; [|by rewrite app_nil_r]. apply NoDup_app. split; [done|].
  split; [|apply NoDup_singleton]. intros k Hk ->%list_elem_of_singleton.
  apply runs_alone_eq in Hrun as (_ & Hfree & _). destruct (serial_committed_key _ _ _ _ Hs Hk) as [fp Hfp].
  by rewrite Hfree in Hfp.
Qed.

(** The value of a counter in the table. *)
Definition counter_row (t : gmap string row) (n : string) : Z :=
  match t !! n with Some r => default 0%Z (r_counter r) | None => 0%Z end.

Lemma effect_stmt_counter ty m t t' n :
  ty n = Counter → metric_ok ty m → effect_stmt (effect_of m) t = Some t' →
  counter_row t' n = (counter_row t n + delta_of n m)%Z.
Proof.
  unfold metric_ok, delta_of, counter_row. intros Hn Hm. destruct (effect_of m) as [k v|k d|]; cbn [effect_stmt].
  - intros [= <-]. rewrite lookup_insert_ne; [lia|]. intros ->. rewrite Hm in Hn. by apply Gauge_Counter.
  - intros He. assert (∃ z, t' = <[k := mkRow Counter None (Some z)]> t ∧
      z = (match t !! k with Some r => default 0 (r_counter r) | None => 0 end + d)%Z) as (z & -> & ->).
    { destruct (t !! k) as [r|]; [case_decide; [|done]|]; injection He as <-; by eexists. }
    rewrite lookup_insert. case_decide; [by subst|lia].
  - intros [= <-]. lia.
Qed.

Lemma pg_upd_counter ty ms t t' n :
  ty n = Counter → Forall (metric_ok ty) ms → pg_upd t ms = Some t' →
  counter_row t' n = (counter_row t n + total_delta n ms)%Z.
Proof.
  intros Hn. revert t. induction ms as [|m ms IH]; intros t Hms; cbn [pg_upd].
  - intros [= <-]. unfold total_delta. cbn. lia.
  - apply Forall_cons in Hms as [Hm Hms]. intros (t1 & He & Hu)%bind_Some. rewrite (IH _ Hms Hu).
    rewrite (effect_stmt_counter ty _ _ _ _ Hn Hm He).
    change (total_delta n (m :: ms)) with (delta_of n m + total_delta n ms)%Z. lia.
Qed.

Lemma serial_counter ty d0 js d n :
  serial d0 js d → ty n = Counter → Forall (λ j, Forall (metric_ok ty) (job_metrics j)) js →
  counter_row (t_metrics d) n =
    (counter_row (t_metrics d0) n + sumZ (map (λ j, total_delta n (job_metrics j)) js))%Z.
Proof.
  intros Hs Hn. induction Hs as [|js j d d' _ IH Hrun]; intros Hok; [cbn; lia|].
  apply Forall_app in Hok as [Hok Hj]. rewrite Forall_singleton in Hj.
  apply runs_alone_eq in Hrun as [Hu _]. rewrite (pg_upd_counter ty _ _ _ _ Hn Hj Hu), (IH Hok), map_app, sumZ_app.
  cbn. lia.
Qed.

(** ** Properties *)

(** C7: concurrent transactions are serializable and count once: in every
    interleaving of the statements of any number of calls, retries and repeated
    deliveries, whatever transactions the server or the connection ends and
    whatever acknowledgements are lost, the database is what the committed
    calls lead to when each runs alone, in the order of their commits, each key
    once; every keyed call that was answered without an error has its receipt,
    from before or from a committed call; the unkeyed calls that were are among
    the committed; and when every name has one type, every counter has grown by
    exactly the deltas of the committed calls. *)
Theorem sessions_serializable d0 st :
  session_reachable d0 st →
  serial d0 (log st) (committed st) ∧ NoDup (omap job_key (log st)) ∧
  (∀ c, Keyed c ∈ answered st →
    t_receipts (committed st) !! call_key c = Some (call_fingerprint c) ∧
    (t_receipts d0 !! call_key c = Some (call_fingerprint c) ∨
     ∃ c', Keyed c' ∈ log st ∧ call_key c' = call_key c ∧ call_fingerprint c' = call_fingerprint c)) ∧
  omap job_plain (answered st) ⊆+ omap job_plain (log st) ∧
  (∀ ty n, ty n = Counter → Forall (λ j, Forall (metric_ok ty) (job_metrics j)) (log st) →
    counter_row (t_metrics (committed st)) n =
      (counter_row (t_metrics d0) n + sumZ (map (λ j, total_delta n (job_metrics j)) (log st)))%Z).
Proof.
  intros (Hs & _ & _ & Ha & Hp)%session_reachable_inv. rewrite Forall_forall in Ha. split_and!; try done.
  - by eapply serial_keys.
  - intros c Hc. pose proof (Ha _ Hc) as Hr. split; [exact Hr|]. by eapply serial_receipts.
  - intros ty n Hn Hok. by eapply serial_counter.
Qed.

(** ** Two deliveries of one batch

    The second waits for the first, whose acknowledgement is lost, and finds its
    receipt. *)
Definition pg_call : call := mkCall "k" "f" [counter_metric "C" 5].
Definition five : row := mkRow Counter None (Some 5%Z).

Definition arrived : Session := begin_session (Keyed pg_call).
Definition inserted : Session := mkSession (Keyed pg_call) (AtMetrics [counter_metric "C" 5]) ∅ (<["k" := "f"]> ∅).
Definition updated : Session := mkSession (Keyed pg_call) (AtMetrics []) (<["C" := five]> ∅) (<["k" := "f"]> ∅).
Definition selecting : Session := mkSession (Keyed pg_call) AtSelect ∅ ∅.

Definition both_inserted : State := set_session 0 inserted (set_session 1 arrived (set_session 0 arrived (start (mkDB ∅ ∅)))).
Definition first_committed : State :=
  mkState (view (mkDB ∅ ∅) updated) (delete 0 (sessions (set_session 0 updated both_inserted))) [Keyed pg_call] [].

(** Nobody outside of [l] has a lock: through the transactions, one by one. *)
Definition unlocked (l : list nat) (P : Session → Prop) (ss : gmap nat Session) : Prop :=
  ∀ k s, k ∉ l → ss !! k = Some s → P s.

Lemma unlocked_insert l j s P ss : j ∈ l ∨ P s → unlocked l P ss → unlocked l P (<[j := s]> ss).
Proof. intros Hs Hss k s' Hk [[<- <-]|[_ H]]%lookup_insert_Some; [by destruct Hs|by apply (Hss k)]. Qed.

Lemma unlocked_delete l j P ss : unlocked (j :: l) P ss → unlocked l P (delete j ss).
Proof. intros Hss k s' Hk [Hj H]%lookup_delete_Some. apply (Hss k); [|done]. by intros [->|]%elem_of_cons. Qed.

Lemma unlocked_empty l P : unlocked l P ∅.
Proof. intros k s _ H. by rewrite lookup_empty in H. Qed.

Lemma unlocked_row i n ss : unlocked [i] (λ s, s_rows s !! n = None) ss → free_row i n ss.
Proof. intros H j s Hj. apply H. by intros ?%list_elem_of_singleton. Qed.
Lemma unlocked_key i k ss : unlocked [i] (λ s, s_receipts s !! k = None) ss → free_key i k ss.
Proof. intros H j s Hj. apply H. by intros ?%list_elem_of_singleton. Qed.

Ltac nobody :=
  first [apply unlocked_row|apply unlocked_key];
  unfold first_committed, both_inserted, set_session, start; cbn [sessions];
  repeat first
    [ apply unlocked_delete
    | apply unlocked_insert;
        [first [solve [left; repeat first [apply list_elem_of_here|apply list_elem_of_further]]|by right]|] ];
  apply unlocked_empty.

Lemma deliveries_reachable :
  session_reachable (mkDB ∅ ∅) (end_session 1 [Keyed pg_call] (set_session 1 selecting first_committed)).
Proof.
  unfold session_reachable.
  eapply rtc_l; [exact (begins (start (mkDB ∅ ∅)) 0 (Keyed pg_call) eq_refl)|].
  eapply rtc_l; [exact (begins (set_session 0 arrived (start (mkDB ∅ ∅))) 1 (Keyed pg_call) eq_refl)|].
  apply (rtc_l _ _ both_inserted).
  { apply (inserts_receipt (set_session 1 arrived (set_session 0 arrived (start (mkDB ∅ ∅)))) 0 arrived pg_call
      (mkDB ∅ (<["k" := "f"]> ∅)) eq_refl eq_refl eq_refl); [nobody|by vm_compute]. }
  apply (rtc_l _ _ (set_session 0 updated both_inserted)).
  { apply (upserts both_inserted 0 inserted (counter_metric "C" 5) [] "C" (upsertCounterQuery "C" Counter 5)
      (mkDB (<["C" := five]> ∅) (<["k" := "f"]> ∅)) five eq_refl eq_refl eq_refl); [nobody|by vm_compute|by vm_compute]. }
  apply (rtc_l _ _ first_committed).
  { exact (commits (set_session 0 updated both_inserted) 0 updated false eq_refl eq_refl). }
  apply (rtc_l _ _ (set_session 1 selecting first_committed)).
  { apply (finds_receipt first_committed 1 arrived pg_call (view (mkDB ∅ ∅) updated) eq_refl eq_refl eq_refl);
      [nobody|by vm_compute]. }
  apply rtc_once. by apply (selects (set_session 1 selecting first_committed) 1 selecting pg_call "f").
Qed.

Lemma sessions_serializable_witness :
  let st := end_session 1 [Keyed pg_call] (set_session 1 selecting first_committed) in
  answered st = [Keyed pg_call] ∧ log st = [Keyed pg_call] ∧ t_receipts (committed st) !! "k" = Some "f" ∧
  counter_row (t_metrics (committed st)) "C" = 5%Z.
Proof.
  intros st. destruct (sessions_serializable (mkDB ∅ ∅) st deliveries_reachable) as (_ & _ & Ha & _ & Hc).
  split; [reflexivity|]. split; [reflexivity|]. split.
  - apply (Ha pg_call). apply list_elem_of_here.
  - rewrite (Hc (λ _, Counter) "C" eq_refl); [reflexivity|]. repeat constructor; by vm_compute.
Defined.

(** ** Two batches in opposite orders

    [updateMetricsTx] writes the rows in the order of the batch.  Each has the row
    that the other needs: the server ends one of them, with an error
    (deadlock_detected, SQLSTATE 40P01) that [retryPostgres] does not repeat. *)
Definition zero_gauge (n : string) : Metrics := gauge_metric n float64_zero.
Definition ab_call : call := mkCall "k1" "f1" [zero_gauge "A"; zero_gauge "B"].
Definition ba_call : call := mkCall "k2" "f2" [zero_gauge "B"; zero_gauge "A"].
Definition gauge_row : row := mkRow Gauge (Some float64_zero) None.

Definition has_A : Session := mkSession (Keyed ab_call) (AtMetrics [zero_gauge "B"]) (<["A" := gauge_row]> ∅) (<["k1" := "f1"]> ∅).
Definition has_B : Session := mkSession (Keyed ba_call) (AtMetrics [zero_gauge "A"]) (<["B" := gauge_row]> ∅) (<["k2" := "f2"]> ∅).
Definition ab_inserted : Session := mkSession (Keyed ab_call) (AtMetrics (call_metrics ab_call)) ∅ (<["k1" := "f1"]> ∅).
Definition ba_inserted : Session := mkSession (Keyed ba_call) (AtMetrics (call_metrics ba_call)) ∅ (<["k2" := "f2"]> ∅).

Definition two (s0 s1 : Session) : State := mkState (mkDB ∅ ∅) (<[0 := s0]> (<[1 := s1]> ∅)) [] [].

Lemma two_0 s s0 s1 : set_session 0 s (two s0 s1) = two s s1.
Proof. unfold set_session, two. cbn. by rewrite insert_insert_eq. Qed.
Lemma two_1 s s0 s1 : set_session 1 s (two s0 s1) = two s0 s.
Proof. unfold set_session, two. cbn. by rewrite insert_insert_ne, insert_insert_eq. Qed.

Ltac two_nobody :=
  first [apply unlocked_row|apply unlocked_key]; unfold two; cbn [sessions];
  repeat (apply unlocked_insert;
    [first [solve [left; repeat first [apply list_elem_of_here|apply list_elem_of_further]]|by right]|]);
  apply unlocked_empty.

Lemma deadlock_reachable : session_reachable (mkDB ∅ ∅) (two has_A has_B).
Proof.
  unfold session_reachable. set (b0 := begin_session (Keyed ab_call)). set (b1 := begin_session (Keyed ba_call)).
  eapply rtc_l; [exact (begins (start (mkDB ∅ ∅)) 1 (Keyed ba_call) eq_refl)|].
  eapply rtc_l; [exact (begins (set_session 1 b1 (start (mkDB ∅ ∅))) 0 (Keyed ab_call) eq_refl)|].
  change (rtc session_step (two b0 b1) (two has_A has_B)).
  apply (rtc_l _ _ (two ab_inserted b1)).
  { rewrite <-(two_0 ab_inserted b0). apply (inserts_receipt (two b0 b1) 0 b0 ab_call (mkDB ∅ (<["k1" := "f1"]> ∅)) eq_refl eq_refl eq_refl);
      [two_nobody|by vm_compute]. }
  apply (rtc_l _ _ (two ab_inserted ba_inserted)).
  { rewrite <-(two_1 ba_inserted _ b1).
    apply (inserts_receipt (two ab_inserted b1) 1 b1 ba_call (mkDB ∅ (<["k2" := "f2"]> ∅)) eq_refl eq_refl eq_refl);
      [two_nobody|by vm_compute]. }
  apply (rtc_l _ _ (two has_A ba_inserted)).
  { rewrite <-(two_0 has_A ab_inserted).
    apply (upserts (two ab_inserted ba_inserted) 0 ab_inserted (zero_gauge "A") [zero_gauge "B"] "A"
      (upsertGaugeQuery "A" Gauge float64_zero) (mkDB (<["A" := gauge_row]> ∅) (<["k1" := "f1"]> ∅)) gauge_row
      eq_refl eq_refl eq_refl); [two_nobody|by vm_compute|by vm_compute]. }
  apply rtc_once. rewrite <-(two_1 has_B _ ba_inserted).
  apply (upserts (two has_A ba_inserted) 1 ba_inserted (zero_gauge "B") [zero_gauge "A"] "B"
    (upsertGaugeQuery "B" Gauge float64_zero) (mkDB (<["B" := gauge_row]> ∅) (<["k2" := "f2"]> ∅)) gauge_row
    eq_refl eq_refl eq_refl); [two_nobody|by vm_compute|by vm_compute].
Qed.

(** Neither can go on. *)
Lemma opposite_orders_deadlock st :
  session_step (two has_A has_B) st →
  (∃ i j, st = set_session i (begin_session j) (two has_A has_B)) ∨
  (∃ i, (i = 0 ∨ i = 1) ∧ st = end_session i [] (two has_A has_B)).
Proof.
  assert (∀ i s, sessions (two has_A has_B) !! i = Some s → (i = 0 ∧ s = has_A) ∨ (i = 1 ∧ s = has_B)) as Hs.
  { cbn. intros i s [[<- <-]|[_ [[<- <-]|[_ H]]%lookup_insert_Some]]%lookup_insert_Some; [by left|by right|].
    by rewrite lookup_empty in H. }
  assert (∀ i s m rest n stmt, sessions (two has_A has_B) !! i = Some s → s_pc s = AtMetrics (m :: rest) →
    statement m = Some (n, stmt) → ¬ free_row i n (sessions (two has_A has_B))) as Hwait.
  { intros i s m rest n stmt [[-> ->]|[-> ->]]%Hs [= <- <-] [= <- _] Hf.
    - by specialize (Hf 1 has_B ltac:(done) eq_refl).
    - by specialize (Hf 0 has_A ltac:(done) eq_refl). }
  inversion 1 as [? i j|? i s c tx Hi ? Hp|? i s c tx Hi ? Hp|? i s c previous Hi ? Hp|? i s m rest Hi Hp Hm
    |? i s m rest n stmt tx r Hi Hp Hm Hf|? i s m rest n stmt e Hi Hp Hm Hf|? i s ack Hi Hp|? i s Hi]; subst.
  - left. by eexists _, _.
  - by apply Hs in Hi as [[-> ->]|[-> ->]].
  - by apply Hs in Hi as [[-> ->]|[-> ->]].
  - by apply Hs in Hi as [[-> ->]|[-> ->]].
  - apply Hs in Hi as [[-> ->]|[-> ->]]; by injection Hp as <- <-.
  - by destruct (Hwait _ _ _ _ _ _ Hi Hp Hm).
  - by destruct (Hwait _ _ _ _ _ _ Hi Hp Hm).
  - by apply Hs in Hi as [[-> ->]|[-> ->]].
  - right. exists i. split; [|done]. apply Hs in Hi as [[-> _]|[-> _]]; [by left|by right].
Qed.
