(* ===== verification/Service.v ===== *)
(** [internal/service/metrics.go]: the business layer over a repository, with the
    optional save callback after each update. *)

From S2P Require Import Prelude GoErrors Metrics GoJson Delivery Repository.

(** A service: its repository, what the type assertions of the code find it to
    implement besides, and [saveOnUpdate], nil in the periodic mode. *)
Record MetricsService (W : Type) : Type := mkService {
  repo : MetricsRepository W;
  batchRepo : option (MetricsBatchRepository W);
  onceRepo : option (IdempotentRepository W);
  saveOnUpdate : option (M W err)
}.
Arguments mkService {W} _ _ _ _.
Arguments repo {W} _.
Arguments batchRepo {W} _.
Arguments onceRepo {W} _.
Arguments saveOnUpdate {W} _.

Section Service.
Context {W : Type} `{Json (list Metrics)}.
Implicit Types s : MetricsService W.

Definition NewMetricsService (r : MetricsRepository W) (b : option (MetricsBatchRepository W))
    (o : option (IdempotentRepository W)) : MetricsService W := mkService r b o None.

Definition SetSaveOnUpdate (f : M W err) s : MetricsService W :=
  mkService (repo s) (batchRepo s) (onceRepo s) (Some f).

Definition save s : M W err :=
  match saveOnUpdate s with Some f => f | None => ret None end.

Definition UpdateGauge s (name : string) (value : float64) : M W err :=
  let! e := @Repository.UpdateGauge W (repo s) name value in
  match e with Some e => ret (Some e) | None => save s end.

Definition UpdateCounter s (name : string) (value : Z) : M W err :=
  let! e := @Repository.UpdateCounter W (repo s) name value in
  match e with Some e => ret (Some e) | None => save s end.

(** The loop for a repository without batches: it stops at the first error. *)
Fixpoint update_each s (metrics : list Metrics) : M W err :=
  match metrics with
  | [] => ret None
  | metric :: metrics =>
      if decide (MType metric = Gauge) then
        match Value metric with
        | Some v =>
            let! e := @Repository.UpdateGauge W (repo s) (ID metric) v in
            match e with Some e => ret (Some e) | None => update_each s metrics end
        | None => update_each s metrics
        end
      else if decide (MType metric = Counter) then
        match Delta metric with
        | Some d =>
            let! e := @Repository.UpdateCounter W (repo s) (ID metric) d in
            match e with Some e => ret (Some e) | None => update_each s metrics end
        | None => update_each s metrics
        end
      else update_each s metrics
  end.

Definition UpdateMetrics s (metrics : list Metrics) : M W err :=
  match batchRepo s with
  | Some b =>
      let! e := @Repository.UpdateMetrics W b metrics in
      match e with Some e => ret (Some e) | None => save s end
  | None =>
      let! e := update_each s metrics in
      match e with Some e => ret (Some e) | None => save s end
  end.

Definition GetGauge s (name : string) : M W (float64 * bool) := @Repository.GetGauge W (repo s) name.
Definition GetCounter s (name : string) : M W (Z * bool) := @Repository.GetCounter W (repo s) name.
Definition GetAllGauges s : M W (gmap string float64) := @Repository.GetAllGauges W (repo s).
Definition GetAllCounters s : M W (gmap string Z) := @Repository.GetAllCounters W (repo s).

Definition UpdateMetricsOnce s (key : string) (metrics : list Metrics) : M W (bool * err) :=
  if decide (metrics = []) then ret (false, None)
  else if decide (key = "") then
    let! e := UpdateMetrics s metrics in ret (true, e)
  else if negb (ValidKey key) then ret (false, Some (Msg "invalid idempotency key"))
  else match onceRepo s with
  | None => ret (false, Some (Msg "storage does not support idempotent batches"))
  | Some o =>
      match Fingerprint metrics with
      | Fail e => ret (false, Some (Wrap "fingerprint metrics" e))
      | Ok fingerprint =>
          let! r := @Repository.UpdateMetricsOnce W o key fingerprint metrics in
          match r with
          | (_, Some e) => ret (false, Some e)
          | (applied, None) => let! e := save s in ret (applied, e)
          end
      end
  end.

(** ** Lemmas *)

(** The keyed path of the method, once its guards are passed. *)
Lemma UpdateMetricsOnce_keyed s o key fp metrics :
  metrics ≠ [] → key ≠ "" → ValidKey key = true → onceRepo s = Some o →
  Fingerprint metrics = Ok fp →
  UpdateMetricsOnce s key metrics =
    bind (@Repository.UpdateMetricsOnce W o key fp metrics) (λ r,
      match r with
      | (_, Some e) => ret (false, Some e)
      | (applied, None) => bind (save s) (λ e, ret (applied, e))
      end).
Proof.
  intros Hm Hk Hv Ho Hf. unfold UpdateMetricsOnce.
  by rewrite decide_False, decide_False, Hv, Ho, Hf by done.
Qed.

(** What a keyed update does to a storage that keeps receipts. *)
Lemma once_service {C} {upd : C → list Metrics → option C} {ledger : W → Ledger C}
    s o {Hspec : @OnceSpec W C o upd ledger} key metrics w :
  onceRepo s = Some o → metrics ≠ [] → key ≠ "" →
  (∀ w1, ledger (save s w1).1 = ledger w1) →
  let '(w', (applied, e)) := UpdateMetricsOnce s key metrics w in
  (ledger w' = ledger w ∨ ∃ fp, Fingerprint metrics = Ok fp ∧
     l_receipts (ledger w) !! key = None ∧ commit upd key fp metrics (ledger w) = Some (ledger w')) ∧
  (e = None → ∃ fp, Fingerprint metrics = Ok fp ∧ l_receipts (ledger w') !! key = Some fp).
Proof.
  intros Ho Hm Hk Hsave. destruct (ValidKey key) eqn:Hv.
  2: { unfold UpdateMetricsOnce. rewrite decide_False, decide_False, Hv by done. simpl. split; [by left|done]. }
  destruct (Fingerprint metrics) as [fp|e] eqn:Hf.
  2: { unfold UpdateMetricsOnce. rewrite decide_False, decide_False, Hv, Ho, Hf by done. simpl. split; [by left|done]. }
  rewrite (UpdateMetricsOnce_keyed s o key fp) by done. unfold bind.
  destruct (@Repository.UpdateMetricsOnce W o key fp metrics w) as [w1 [applied [e|]]] eqn:Hu.
  - simpl. split; [|done].
    destruct (@once_atomic W C o upd ledger _ _ _ _ _ _ _ _ Hu) as [[? _]|[??]]; eauto.
  - pose proof (@once_acknowledged W C o upd ledger _ _ _ _ _ _ _ Hu) as Hack.
    destruct (save s w1) as [w2 e] eqn:Hs. specialize (Hsave w1). rewrite Hs in Hsave.
    simpl in *. rewrite Hsave. split; [|eauto].
    destruct (@once_atomic W C o upd ledger _ _ _ _ _ _ _ _ Hu) as [[? _]|[??]]; eauto.
Qed.

Lemma update_each_content (content : W → Content) s {Hr : @ContentSpec W (repo s) content} metrics w w' :
  update_each s metrics w = (w', None) → content w' = apply_batch (content w) metrics.
Proof.
  revert w. induction metrics as [|m ms IH]; intros w; simpl.
  { munfold. by intros [= <-]. }
  unfold effect_of.
  destruct (decide (MType m = Gauge)); [|destruct (decide (MType m = Counter))].
  - destruct (Value m) as [v|]; [|apply IH]. unfold bind.
    destruct (@Repository.UpdateGauge W (repo s) (ID m) v w) as [w1 [e1|]] eqn:Hu; [done|].
    intros Hw. rewrite (IH _ Hw). by rewrite (@UpdateGauge_content W (repo s) content _ _ _ _ _ Hu).
  - destruct (Delta m) as [d|]; [|apply IH]. unfold bind.
    destruct (@Repository.UpdateCounter W (repo s) (ID m) d w) as [w1 [e1|]] eqn:Hu; [done|].
    intros Hw. rewrite (IH _ Hw). by rewrite (@UpdateCounter_content W (repo s) content _ _ _ _ _ Hu).
  - apply IH.
Qed.

(** ** Properties *)

(** The guards of [UpdateMetricsOnce], in order: an empty batch is a no-op
    reported as not applied, without a save; a batch without a key is the plain
    [UpdateMetrics] reported as applied; a malformed key, a storage without
    receipts and a batch that cannot be fingerprinted are refused before the
    storage is touched. *)
Theorem UpdateMetricsOnce_guards s key metrics w :
  UpdateMetricsOnce s key [] w = (w, (false, None)) ∧
  (metrics ≠ [] → UpdateMetricsOnce s "" metrics w =
    let '(w', e) := UpdateMetrics s metrics w in (w', (true, e))) ∧
  (metrics ≠ [] → key ≠ "" →
    ValidKey key = false ∨ onceRepo s = None ∨ (∃ e, Fingerprint metrics = Fail e) →
    ∃ e, UpdateMetricsOnce s key metrics w = (w, (false, Some e))).
Proof.
  unfold UpdateMetricsOnce. split_and!.
  - done.
  - intros Hm. rewrite decide_False by done. munfold. by destruct (UpdateMetrics s metrics w).
  - intros Hm Hk Hg. rewrite decide_False, decide_False by done.
    destruct (ValidKey key); simpl; [|eexists; done].
    destruct (onceRepo s) as [o|]; [|eexists; done].
    destruct (Fingerprint metrics) as [fp|e]; [|eexists; done].
    destruct Hg as [?|[?|[? ?]]]; done.
Qed.

(** An acknowledged keyed batch is committed and persisted: when
    [UpdateMetricsOnce] returns no error, the storage holds its receipt and the
    save callback has run after that and succeeded, for duplicates too; a
    failed save is reported, and the storage then still holds the receipt, so
    the retry is a duplicate that only repeats the save. *)
Theorem ack_implies_saved {C} {upd : C → list Metrics → option C} {ledger : W → Ledger C}
    s o {Hspec : @OnceSpec W C o upd ledger} key fp metrics w :
  onceRepo s = Some o → metrics ≠ [] → key ≠ "" → ValidKey key = true →
  Fingerprint metrics = Ok fp →
  (∀ w1, ledger (save s w1).1 = ledger w1) →
  let '(w', (applied, e)) := UpdateMetricsOnce s key metrics w in
  (e = None → l_receipts (ledger w') !! key = Some fp ∧
     ∃ w1, l_receipts (ledger w1) !! key = Some fp ∧ save s w1 = (w', None)) ∧
  (ledger w' = ledger w ∨
   l_receipts (ledger w) !! key = None ∧ commit upd key fp metrics (ledger w) = Some (ledger w')) ∧
  (∀ e', (@Repository.UpdateMetricsOnce W o key fp metrics w).2.2 = None →
     e = Some e' → l_receipts (ledger w') !! key = Some fp).
Proof.
  intros Ho Hm Hk Hv Hf Hsave. rewrite (UpdateMetricsOnce_keyed s o key fp) by done. unfold bind.
  destruct (@Repository.UpdateMetricsOnce W o key fp metrics w) as [w1 [applied [e|]]] eqn:Hu.
  - simpl. split_and!; [done| |done].
    destruct (@once_atomic W C o upd ledger _ _ _ _ _ _ _ _ Hu) as [[? _]|[??]]; auto.
  - pose proof (@once_acknowledged W C o upd ledger _ _ _ _ _ _ _ Hu) as Hack.
    destruct (save s w1) as [w2 e] eqn:Hs. specialize (Hsave w1). rewrite Hs in Hsave.
    simpl in *. rewrite Hsave. split_and!.
    + intros ->. split; [done|]. by exists w1.
    + destruct (@once_atomic W C o upd ledger _ _ _ _ _ _ _ _ Hu) as [[? _]|[??]]; auto.
    + done.
Qed.

(** The loop over single updates and the batch operation agree: when the
    service reports success, the content is that of the whole batch applied in
    order, whichever of the two the storage supports, and the save has
    succeeded. *)
Theorem UpdateMetrics_content {content : W → Content}
    s {Hr : @ContentSpec W (repo s) content} metrics w w' :
  (∀ b ms w1 w2, batchRepo s = Some b → @Repository.UpdateMetrics W b ms w1 = (w2, None) →
     content w2 = apply_batch (content w1) ms) →
  (∀ w1, content (save s w1).1 = content w1) →
  UpdateMetrics s metrics w = (w', None) →
  content w' = apply_batch (content w) metrics ∧ ∃ w1, save s w1 = (w', None).
Proof.
  intros Hb Hsave. unfold UpdateMetrics.
  destruct (batchRepo s) as [b|]; unfold bind.
  - destruct (@Repository.UpdateMetrics W b metrics w) as [w1 [e|]] eqn:Hu; [done|].
    intros Hs. split; [|by exists w1]. specialize (Hsave w1). rewrite Hs in Hsave. simpl in Hsave.
    rewrite Hsave. by eapply Hb.
  - destruct (update_each s metrics w) as [w1 [e|]] eqn:Hu; [done|].
    intros Hs. split; [|by exists w1]. specialize (Hsave w1). rewrite Hs in Hsave. simpl in Hsave.
    rewrite Hsave. by apply (update_each_content content s).
Qed.
End Service.
