(* ===== verification/Persistence.v ===== *)
(** [internal/service/persistence.go]: saving the in-memory storage to its file,
    on every update or periodically, and the final save of [Close].

    The sequential part gives the world of the file mode and its callbacks; the
    step relation models the background goroutine [run], the callers of
    [close], and the channels [stop] and [done] between them. *)

From S2P Require Import Prelude GoErrors Metrics GoJson Delivery Repository Memory SaveFile Service.

(** ** The world of the file mode

    [faults] are the file system's answers to the next saves, and [handled] the
    errors given to the [handleError] callback. *)
Record World : Type := mkWorld {
  mem : MemStorage;
  files : FS;
  faults : list Faults;
  handled : list error
}.

Definition on_mem {A} (m : M MemStorage A) : M World A := λ w,
  let '(s, a) := m (mem w) in (mkWorld s (files w) (faults w) (handled w), a).

Definition memRepo : MetricsRepository World := {|
  Repository.UpdateGauge n v := on_mem (Memory.UpdateGauge n v);
  Repository.UpdateCounter n d := on_mem (Memory.UpdateCounter n d);
  Repository.GetGauge n := on_mem (Memory.GetGauge n);
  Repository.GetCounter n := on_mem (Memory.GetCounter n);
  Repository.GetAllGauges := on_mem (λ s, Memory.GetAllGauges (map_to_list (gauges s)) s);
  Repository.GetAllCounters := on_mem (λ s, Memory.GetAllCounters (map_to_list (counters s)) s)
|}.
Definition memBatch : MetricsBatchRepository World :=
  {| Repository.UpdateMetrics ms := on_mem (Memory.UpdateMetrics ms) |}.
Definition memOnce : IdempotentRepository World :=
  {| Repository.UpdateMetricsOnce k fp ms := on_mem (Memory.UpdateMetricsOnce k fp ms) |}.

(** The snapshot of a save; the order of the records is that of the maps'
    entries, which the restoration does not depend on. *)
Definition snapshot (s : MemStorage) : list snapshotRecord :=
  fileSnapshot (map_to_list (gauges s)) (map_to_list (counters s)) (map_to_list (receipts s)) s.

(** The world keeps the promises of the storage in it. *)
#[export] Instance memOnce_spec :
  @OnceSpec World Content memOnce mem_upd (λ w, ledger (mem w)).
Proof.
  constructor; simpl; unfold on_mem.
  - intros key fp ms w w' applied e.
    destruct (Memory.UpdateMetricsOnce key fp ms (mem w)) as [m r] eqn:Hu. intros [= <- ->].
    exact (@once_atomic MemStorage Content _ mem_upd ledger _ key fp ms (mem w) m applied e Hu).
  - intros key fp ms w w' applied.
    destruct (Memory.UpdateMetricsOnce key fp ms (mem w)) as [m r] eqn:Hu. intros [= <- ->].
    exact (@once_acknowledged MemStorage Content _ mem_upd ledger _ key fp ms (mem w) m applied Hu).
Qed.

#[export] Instance memRepo_spec :
  @ContentSpec World memRepo (λ w, content (mem w)).
Proof.
  constructor; simpl; unfold on_mem; simpl.
  - intros n v w w' [= <-]. done.
  - intros n d w w' [= <-]. done.
  - intros n [m fs f h]. unfold Memory.GetGauge, get_or. simpl. by destruct (gauges m !! n).
  - intros n [m fs f h]. unfold Memory.GetCounter, counter_at, get_or. simpl.
    by destruct (counters m !! n).
Qed.

Section Persistence.
Context `{Json (list snapshotRecord)}.

(** [persistence]: the path, whether [handleError] is set; the storage is the
    world's. *)
Record persistence : Type := mkPersistence { p_path : string; p_handles : bool }.

Definition save_with (f : Faults) (p : persistence) (w : World) : World * err :=
  let '(fs, e) := SaveToFile f (snapshot (mem w)) (p_path p) (files w) in
  (mkWorld (mem w) fs (faults w) (handled w), e).

(** [p.save()]: the next answer of the file system; past the script, a working
    one that picks a name of its own. *)
Definition save (p : persistence) : M World err := λ w,
  match faults w with
  | [] => save_with (no_faults (p_path p +:+ ".tmp")) p w
  | f :: fs => save_with f p (mkWorld (mem w) (files w) fs (handled w))
  end.

Definition saveAndHandle (p : persistence) : M World err :=
  let! e := save p in
  match e with
  | Some e' =>
      if p_handles p then
        modify (λ w, mkWorld (mem w) (files w) (faults w) (handled w ++ [e'])) ;; ret e
      else ret e
  | None => ret e
  end.

(** [NewMetricsServiceWithPersistence]: a zero interval saves on every update;
    otherwise the goroutine below saves. *)
Definition NewMetricsServiceWithPersistence (p : persistence) (interval : Z) : MetricsService World :=
  let service := NewMetricsService memRepo (Some memBatch) (Some memOnce) in
  if decide (interval = 0%Z) then SetSaveOnUpdate (saveAndHandle p) service else service.

(** [close] of a caller that is alone, the goroutine waiting or absent: [once]
    runs the final save and keeps its error, which every later call returns. *)
Definition close (p : persistence) : M (World * option err) err := λ '(w, ran),
  match ran with
  | Some e => ((w, ran), e)
  | None => let '(w, e) := save p w in ((w, Some e), e)
  end.

(** [MetricsService.Close]: [persistence] is nil without a file. *)
Definition Close (s_persistence : option persistence) : M (World * option err) err :=
  match s_persistence with
  | None => ret None
  | Some p => close p
  end.

(** ** The goroutines *)

(** Where [run] is: waiting in its [select], inside [saveAndHandle], returned. *)
Inductive background : Type := Waiting | Saving | Exited.

(** How far the first [close] is: [once] not started; waiting on [done] with
    [stop] closed; about to save; finished. *)
Inductive phase : Type := Open | Stopping | Flushing | Closed.

#[export] Instance phase_eq_dec : EqDecision phase.
Proof. solve_decision. Defined.

Record State : Type := mkState {
  world : World;
  bg : background;
  stop : bool;                 (* the channel [stop] is closed *)
  done : bool;                 (* the channel [done] is closed *)
  ph : phase;
  p_err : err;
  blocked : nat;               (* callers of [close] waiting for the first one *)
  returned : list err;         (* what the callers of [close] got *)
  finals : nat                 (* how often the final save ran *)
}.

(** [configurePersistence]: with a zero interval there is no goroutine and [done]
    is closed at once. *)
Definition configurePersistence (sync : bool) (w : World) : State :=
  if sync then mkState w Exited false true Open None 0 [] 0
  else mkState w Waiting false false Open None 0 [] 0.

Definition set_world (w : World) (s : State) : State :=
  mkState w (bg s) (stop s) (done s) (ph s) (p_err s) (blocked s) (returned s) (finals s).

(** [os.CreateTemp] never picks the name of the target. *)
Definition fresh_temp (p : persistence) (f : Faults) : Prop :=
  ∀ t, f_temp f = Ok t → t ≠ p_path p.

(** One step of one goroutine.  Updates and synchronous saves come from
    handlers, which have all finished before [close] is called: both servers
    are shut down before [server.Run] and [serveBoth] flush. *)
Inductive step (p : persistence) : State → State → Prop :=
| step_update s m :
    ph s = Open →
    step p s (set_world (mkWorld m (files (world s)) (faults (world s)) (handled (world s))) s)
| step_sync_save s f :
    ph s = Open → fresh_temp p f →
    step p s (set_world (save_with f p (world s)).1 s)
| step_tick s :
    (* [select] may take the tick even when [stop] is closed *)
    bg s = Waiting →
    step p s (mkState (world s) Saving (stop s) (done s) (ph s) (p_err s) (blocked s)
                (returned s) (finals s))
| step_periodic_save s f :
    bg s = Saving → fresh_temp p f →
    step p s (mkState (save_with f p (world s)).1 Waiting (stop s) (done s) (ph s) (p_err s)
                (blocked s) (returned s) (finals s))
| step_exit s :
    bg s = Waiting → stop s = true →
    step p s (mkState (world s) Exited (stop s) true (ph s) (p_err s) (blocked s)
                (returned s) (finals s))
| step_close_first s :
    ph s = Open →
    step p s (mkState (world s) (bg s) true (done s) Stopping (p_err s) (blocked s)
                (returned s) (finals s))
| step_close_again s :
    ph s ≠ Open →
    step p s (mkState (world s) (bg s) (stop s) (done s) (ph s) (p_err s) (S (blocked s))
                (returned s) (finals s))
| step_done s :
    ph s = Stopping → done s = true →
    step p s (mkState (world s) (bg s) (stop s) (done s) Flushing (p_err s) (blocked s)
                (returned s) (finals s))
| step_final_save s f :
    ph s = Flushing → fresh_temp p f →
    step p s (mkState (save_with f p (world s)).1 (bg s) (stop s) (done s) Closed
                (save_with f p (world s)).2 (blocked s)
                ((save_with f p (world s)).2 :: returned s) (S (finals s)))
| step_return s n :
    ph s = Closed → blocked s = S n →
    step p s (mkState (world s) (bg s) (stop s) (done s) (ph s) (p_err s) n
                (p_err s :: returned s) (finals s)).

Definition steps (p : persistence) : State → State → Prop := rtc (step p).

Definition reachable (p : persistence) (s : State) : Prop :=
  ∃ sync w, steps p (configurePersistence sync w) s.

(** The file holds the encoding of the current storage. *)
Definition file_current (p : persistence) (w : World) : Prop :=
  ∃ text, json_Encode (snapshot (mem w)) = Ok text ∧ files w !! p_path p = Some text.

(** The invariant of the protocol. *)
Definition inv (p : persistence) (s : State) : Prop :=
  (done s = true ↔ bg s = Exited) ∧
  (ph s = Open ↔ stop s = false) ∧
  (ph s = Flushing ∨ ph s = Closed → done s = true) ∧
  match ph s with
  | Closed => finals s = 1 ∧ Forall (λ e, e = p_err s) (returned s) ∧
      (p_err s = None → file_current p (world s))
  | Open => finals s = 0 ∧ returned s = [] ∧ blocked s = 0
  | _ => finals s = 0 ∧ returned s = []
  end.

Lemma inv_init p sync w : inv p (configurePersistence sync w).
Proof. destruct sync; unfold inv; simpl; naive_solver. Qed.

Lemma no_faults_fresh p : fresh_temp p (no_faults (p_path p +:+ ".tmp")).
Proof.
  intros t [= <-] Heq. symmetry in Heq. revert Heq. by apply string_app_ne.
Qed.

(** A successful save makes the file current. *)
Lemma save_with_current f p w :
  fresh_temp p f → (save_with f p w).2 = None → file_current p (save_with f p w).1.
Proof.
  intros Hf. unfold save_with, SaveToFile, file_current.
  destruct (if decide _ then _ else f_mkdir f) as [e|]; [done|].
  destruct (f_temp f) as [t|e] eqn:Ht; [|done]. specialize (Hf t Ht).
  pose proof (write_and_rename_path f t (p_path p) (snapshot (mem w)) (<[t := ""]> (files w))
    (not_eq_sym Hf)) as Hw.
  destruct (write_and_rename f t _ _ _) as [fs e]. simpl. intros ->.
  destruct Hw as (text & Henc & Hp). exists text. split; [done|].
  destruct (f_remove f); [by rewrite lookup_delete_ne|done].
Qed.

(** What a save leaves alone. *)
Lemma save_with_mem f p w : mem (save_with f p w).1 = mem w.
Proof. unfold save_with. by destruct (SaveToFile _ _ _ _). Qed.

Lemma save_mem p w : mem (save p w).1 = mem w.
Proof. unfold save. destruct (faults w); by rewrite save_with_mem. Qed.

Lemma saveAndHandle_mem p w : mem (saveAndHandle p w).1 = mem w.
Proof.
  unfold saveAndHandle, bind. pose proof (save_mem p w) as Hm.
  destruct (save p w) as [w' [e|]]; simpl in *; [destruct (p_handles p)|]; done.
Qed.

(** A successful [saveAndHandle] makes the file current. *)
Lemma saveAndHandle_current p w w' :
  Forall (fresh_temp p) (faults w) → saveAndHandle p w = (w', None) → file_current p w'.
Proof.
  intros Hf. unfold saveAndHandle, bind, save.
  assert (∃ f w0, fresh_temp p f ∧ (match faults w with
    | [] => save_with (no_faults (p_path p +:+ ".tmp")) p w
    | f :: fs => save_with f p (mkWorld (mem w) (files w) fs (handled w)) end) = save_with f p w0)
    as (f & w0 & Hfresh & ->).
  { destruct (faults w) as [|f fs].
    - eexists _, _. split; [apply no_faults_fresh|done].
    - apply Forall_cons in Hf as [Hf _]. by eexists _, _. }
  pose proof (save_with_current f p w0 Hfresh) as Hc.
  destruct (save_with f p w0) as [w1 [e|]]; [by destruct (p_handles p)|].
  intros [= <-]. by apply Hc.
Qed.

Lemma inv_step p s s' : step p s s' → inv p s → inv p s'.
Proof.
  unfold inv. destruct 1 as [s|s|s|s|s|s|s|s|s|s]; destruct s as [w b st dn q pe bl rt fn];
    simpl in *; intros (Hd & Hst & Hfl & Hph); subst.
  all: split_and!; try (try match goal with q0 : phase |- _ => destruct q0 end; intuition congruence).
  - destruct Hph as [_ ->]. by repeat constructor.
  - intros He. by apply save_with_current.
  - constructor; [done|]. apply Hph.
Qed.

Lemma inv_reachable p s : reachable p s → inv p s.
Proof.
  intros (sync & w & Hs). pose proof (inv_init p sync w) as Hi. revert Hi. unfold steps in Hs.
  induction Hs; eauto using inv_step.
Qed.

(** ** Properties *)

(** C16: closing flushes exactly once: whatever the interleaving of the updates,
    the ticker, the periodic saves and any number of callers of [close], once
    the first [close] has finished, the final save has run exactly once, after
    the background goroutine has returned; every caller gets the error of that
    save, and when it is nil the file holds the encoding of the storage. *)
Theorem close_flushes_once p s :
  reachable p s → ph s = Closed →
  bg s = Exited ∧ finals s = 1 ∧ (∀ e, e ∈ returned s → e = p_err s) ∧
  (p_err s = None → file_current p (world s)) ∧
  (∀ s', step p s s' → world s' = world s ∧ finals s' = 1).
Proof.
  intros Hr Hc. destruct (inv_reachable p s Hr) as (Hd & Hst & Hfl & Hph).
  rewrite Hc in Hph. destruct Hph as (Hfin & Hret & Hcur).
  assert (bg s = Exited) as Hbg by (apply Hd, Hfl; by right).
  split_and!; [done|done| |done|].
  - intros e He. rewrite Forall_forall in Hret. by apply Hret.
  - destruct 1; simpl; split; congruence.
Qed.

(** The waiting callers all return once [close] has finished. *)
Lemma drain_blocked p s :
  ph s = Closed → ∃ s', steps p s s' ∧ ph s' = Closed ∧ blocked s' = 0 ∧
    length (returned s') = blocked s + length (returned s).
Proof.
  remember (blocked s) as n eqn:Hn. revert s Hn. induction n as [|n IH]; intros s Hn Hc.
  { exists s. split_and!; [apply rtc_refl|done|done|done]. }
  destruct (IH (mkState (world s) (bg s) (stop s) (done s) (ph s) (p_err s) n
    (p_err s :: returned s) (finals s)) eq_refl Hc) as (s' & Hs & ? & ? & Hl).
  exists s'. split_and!; [|done|done|simpl in Hl; lia].
  eapply rtc_l; [by apply (step_return p s n)|done].
Qed.

(** The first [close] finishes from its waiting state on. *)
Lemma flush_completes p f s :
  fresh_temp p f → ph s = Flushing →
  ∃ s', steps p s s' ∧ ph s' = Closed ∧ blocked s' = 0 ∧
    length (returned s') = S (blocked s + length (returned s)).
Proof.
  intros Hf Hp.
  destruct (drain_blocked p (mkState (save_with f p (world s)).1 (bg s) (stop s) (done s) Closed
    (save_with f p (world s)).2 (blocked s)
    ((save_with f p (world s)).2 :: returned s) (S (finals s))) eq_refl)
    as (s' & Hs & ? & ? & Hl).
  exists s'. split_and!; [|done|done|simpl in Hl; lia].
  eapply rtc_l; [by apply (step_final_save p s f)|done].
Qed.

Lemma stop_completes p f s :
  fresh_temp p f → inv p s → ph s = Stopping → done s = true →
  ∃ s', steps p s s' ∧ ph s' = Closed ∧ blocked s' = 0 ∧
    length (returned s') = S (blocked s + length (returned s)).
Proof.
  intros Hf Hi Hp Hd.
  destruct (flush_completes p f (mkState (world s) (bg s) (stop s) (done s) Flushing (p_err s)
    (blocked s) (returned s) (finals s)) Hf eq_refl) as (s' & Hs & ? & ? & Hl).
  exists s'. split_and!; [|done|done|done]. eapply rtc_l; [by apply step_done|done].
Qed.

(** The goroutine, once [stop] is closed, can always get to its return. *)
Lemma stop_exits p f s :
  fresh_temp p f → inv p s → ph s = Stopping →
  ∃ s', steps p s s' ∧ inv p s' ∧ ph s' = Stopping ∧ done s' = true ∧
    blocked s' = blocked s ∧ returned s' = returned s.
Proof.
  intros Hf. assert (∀ s0, inv p s0 → ph s0 = Stopping → bg s0 = Waiting →
    ∃ s', steps p s0 s' ∧ inv p s' ∧ ph s' = Stopping ∧ done s' = true ∧
      blocked s' = blocked s0 ∧ returned s' = returned s0) as Hw.
  { intros s0 Hi Hp Hb. pose proof Hi as (_ & Hst & _).
    assert (stop s0 = true) as Hstop.
    { destruct (stop s0) eqn:Hs; [done|]. rewrite (proj2 Hst eq_refl) in Hp. done. }
    eexists. split; [apply rtc_once, (step_exit p s0 Hb Hstop)|].
    split; [by eapply inv_step; [apply (step_exit p s0)|]|done]. }
  intros Hi Hp. destruct (bg s) eqn:Hb.
  - by apply Hw.
  - pose proof (step_periodic_save p s f Hb Hf) as Hstep.
    destruct (Hw _ (inv_step p _ _ Hstep Hi) Hp eq_refl) as (s' & Hs' & ? & ? & ? & ? & ?).
    exists s'. split_and!; try done. by eapply rtc_l.
  - exists s. split_and!; [apply rtc_refl|done|done| |done|done].
    destruct Hi as (Hd & _). by apply Hd.
Qed.

(** A save sees the storage and the files alone. *)
Lemma save_with_world f p w w0 :
  mem w0 = mem w → files w0 = files w →
  files (save_with f p w0).1 = files (save_with f p w).1 ∧ (save_with f p w0).2 = (save_with f p w).2.
Proof. unfold save_with. intros -> ->. by destruct (SaveToFile _ _ _ _). Qed.

Lemma save_is_step p w :
  Forall (fresh_temp p) (faults w) →
  ∃ f, fresh_temp p f ∧ files (save p w).1 = files (save_with f p w).1 ∧ (save p w).2 = (save_with f p w).2.
Proof.
  intros Hf. unfold save. destruct (faults w) as [|f fs] eqn:Hw.
  - eexists. split; [apply no_faults_fresh|done].
  - apply Forall_cons in Hf as [Hf _]. exists f. split; [done|]. by apply save_with_world.
Qed.

(** The goroutines behind a [Close] on its own. *)
Lemma Close_steps p s w' ran e :
  inv p s → ph s = Open → bg s ≠ Saving → Forall (fresh_temp p) (faults (world s)) →
  Close (Some p) (world s, None) = ((w', ran), e) →
  ran = Some e ∧ Close (Some p) (w', ran) = ((w', ran), e) ∧
  ∃ s', steps p s s' ∧ ph s' = Closed ∧ bg s' = Exited ∧ p_err s' = e ∧ returned s' = [e] ∧
    mem (world s') = mem w' ∧ files (world s') = files w'.
Proof.
  intros (Hd & _ & _ & Hph) Ho Hb Hf. rewrite Ho in Hph. destruct Hph as (_ & Hret & _).
  destruct (save_is_step p (world s) Hf) as (f & Hff & Hfiles & He).
  pose proof (save_mem p (world s)) as Hmem. cbn. destruct (save p (world s)) as [w1 e1]. cbn in Hfiles, He, Hmem.
  intros [= <- <- <-]. split; [done|]. split; [done|].
  assert (∃ s1, steps p s s1 ∧ ph s1 = Flushing ∧ bg s1 = Exited ∧ world s1 = world s ∧ returned s1 = [])
    as (s1 & Hs1 & Hp1 & Hb1 & Hw1 & Hr1).
  { destruct (bg s) eqn:Hbg; [|done|].
    - eexists. split; [|split; [|split; [|split]]].
      + eapply rtc_l; [by apply (step_close_first p s)|].
        eapply rtc_l; [by apply step_exit|]. apply rtc_once. by apply step_done.
      + done.
      + done.
      + done.
      + exact Hret.
    - eexists. split; [|split; [|split; [|split]]].
      + eapply rtc_l; [by apply (step_close_first p s)|]. apply rtc_once. apply step_done; [done|].
        apply Hd. reflexivity.
      + done.
      + exact Hbg.
      + done.
      + exact Hret. }
  eexists. split; [eapply rtc_r; [exact Hs1|by apply (step_final_save p s1 f)]|]. cbn.
  rewrite Hw1, Hr1, save_with_mem, <-He, <-Hfiles. by split_and!.
Qed.

(** [close] never deadlocks: from every reachable state in which it has been
    called, in the periodic and in the synchronous mode, even while a periodic
    save is running, the goroutines can run to the end of the first call, and
    every caller that has arrived has then returned. *)
Theorem close_can_finish p s :
  reachable p s → ph s ≠ Open →
  ∃ s', steps p s s' ∧ ph s' = Closed ∧ bg s' = Exited ∧ blocked s' = 0 ∧
    length (returned s') =
      blocked s + length (returned s) + (if decide (ph s = Closed) then 0 else 1).
Proof.
  intros Hr Hp. set (f := no_faults (p_path p +:+ ".tmp")).
  pose proof (no_faults_fresh p : fresh_temp p f) as Hf.
  assert (∃ s', steps p s s' ∧ ph s' = Closed ∧ blocked s' = 0 ∧ length (returned s') =
      blocked s + length (returned s) + (if decide (ph s = Closed) then 0 else 1))
    as (s' & Hs & Hc & ? & ?).
  - pose proof (inv_reachable p s Hr) as Hi.
    destruct (ph s) eqn:Hphs; [done| | |].
    + rewrite decide_False by done.
      destruct (stop_exits p f s Hf Hi Hphs) as (s1 & Hs1 & Hi1 & Hp1 & Hd1 & Hb1 & Hr1).
      destruct (stop_completes p f s1 Hf Hi1 Hp1 Hd1) as (s' & Hs' & ? & ? & ?).
      exists s'. split_and!; [|done|done|rewrite <-Hb1, <-Hr1; lia].
      unfold steps in *. by etrans.
    + rewrite decide_False by done.
      destruct (flush_completes p f s Hf Hphs) as (s' & ? & ? & ? & ?).
      exists s'. split_and!; [done|done|done|lia].
    + rewrite decide_True by done.
      destruct (drain_blocked p s Hphs) as (s' & ? & ? & ? & ?).
      exists s'. split_and!; [done|done|done|lia].
  - exists s'. split_and!; try done. destruct Hr as (sync & w & Hr0).
    assert (reachable p s') as Hr'.
    { exists sync, w. unfold steps in *. by etrans. }
    destruct (inv_reachable p s' Hr') as (Hd & _ & Hfl & _). apply Hd, Hfl. by right.
Qed.

(** With a synchronous file storage an acknowledged keyed batch is durable:
    when [UpdateMetricsOnce] of the service returns no error, for the first
    delivery or for a duplicate, the storage holds the receipt and the file
    holds the encoding of that storage, whatever saves failed before. *)
Theorem acknowledged_is_durable `{Json (list Metrics)} p (s : MetricsService World)
    key fp metrics w w' applied :
  onceRepo s = Some memOnce → saveOnUpdate s = Some (saveAndHandle p) →
  Forall (fresh_temp p) (faults w) →
  metrics ≠ [] → key ≠ "" → Fingerprint metrics = Ok fp →
  Service.UpdateMetricsOnce s key metrics w = (w', (applied, None)) →
  receipts (mem w') !! key = Some fp ∧ file_current p w'.
Proof.
  intros Ho Hs Hf Hm Hk Hfp. destruct (ValidKey key) eqn:Hv.
  2: { intros Hu. exfalso. revert Hu. unfold Service.UpdateMetricsOnce.
       by rewrite decide_False, decide_False, Hv by done. }
  rewrite (UpdateMetricsOnce_keyed s memOnce key fp) by done. unfold bind.
  destruct (@Repository.UpdateMetricsOnce World memOnce key fp metrics w)
    as [w1 [a1 [e1|]]] eqn:Hu; [done|].
  assert (faults w1 = faults w ∧ receipts (mem w1) !! key = Some fp) as [Hfl Hrec].
  { pose proof (@once_acknowledged World Content memOnce mem_upd (λ w, ledger (mem w))
      memOnce_spec _ _ _ _ _ _ Hu) as Hr. split; [|done].
    simpl in Hu. unfold on_mem in Hu. destruct (Memory.UpdateMetricsOnce key fp metrics (mem w)).
    by injection Hu as <- _. }
  unfold Service.save. rewrite Hs. destruct (saveAndHandle p w1) as [w2 e] eqn:Hsave.
  intros [= <- <- ->]. pose proof (saveAndHandle_mem p w1) as Hmem.
  rewrite Hsave in Hmem. simpl in Hmem. rewrite Hmem. split; [done|].
  apply (saveAndHandle_current p w1 w2); [by rewrite Hfl|done].
Qed.
End Persistence.

(** ** Witnesses, with the concrete encoders *)

Definition witness_metrics : list Metrics := [counter_metric "PollCount" 5].

(** The first save fails, the second succeeds. *)
Definition witness_world : World :=
  mkWorld NewMemStorage ∅
    [mkFaults None (Ok "m.json.1") None None None (Some (Msg "busy")) true] [].

Definition witness_service : MetricsService World :=
  SetSaveOnUpdate (@saveAndHandle record_codec (mkPersistence "m.json" true))
    (NewMetricsService memRepo (Some memBatch) (Some memOnce)).

Definition witness_fp : string := Eval vm_compute in
  match @Fingerprint metrics_codec witness_metrics with Ok fp => fp | Fail _ => "" end.

Lemma witness_fingerprint : @Fingerprint metrics_codec witness_metrics = Ok witness_fp.
Proof. by vm_compute. Qed.

Definition witness_key : string := "0123456789abcdef0123456789abcdef".

Definition witness_once : M World (bool * err) :=
  @Service.UpdateMetricsOnce World metrics_codec witness_service witness_key witness_metrics.

(** The delivery of the batch, its fingerprint being known. *)
Definition keyed_once : M World (bool * err) :=
  bind (@Repository.UpdateMetricsOnce World memOnce witness_key witness_fp witness_metrics) (λ r,
    match r with
    | (_, Some e) => ret (false, Some e)
    | (applied, None) => bind (Service.save witness_service) (λ e, ret (applied, e))
    end).

Lemma witness_once_keyed : witness_once = keyed_once.
Proof.
  apply (@UpdateMetricsOnce_keyed World metrics_codec); [done|done|done|done|].
  apply witness_fingerprint.
Qed.

(** The world after the first attempt, whose save has failed. *)
Definition witness_failed : World := (keyed_once witness_world).1.

Lemma acknowledged_is_durable_witness :
  let p := mkPersistence "m.json" true in
  length (handled witness_failed) = 1 ∧ files witness_failed !! "m.json" = None ∧
  ∃ w', witness_once witness_failed = (w', (false, None)) ∧
   counters (mem w') !! "PollCount" = Some 5%Z ∧
   @file_current record_codec p w'.
Proof.
  set (p := mkPersistence "m.json" true). cbn zeta.
  split; [by vm_compute|]. split; [by vm_compute|].
  exists (keyed_once witness_failed).1.
  assert (witness_once witness_failed = ((keyed_once witness_failed).1, (false, None))) as Hrun.
  { rewrite witness_once_keyed. by vm_compute. }
  split; [exact Hrun|]. split; [by vm_compute|].
  refine (proj2 (@acknowledged_is_durable record_codec metrics_codec p witness_service
    witness_key witness_fp witness_metrics witness_failed _ false
    eq_refl eq_refl _ _ _ witness_fingerprint Hrun)).
  - vm_compute. constructor.
  - done.
  - done.
Defined.

(** The same call through the general theorem on acknowledgements: the first
    delivery fails in its save, and leaves its receipt. *)
Lemma ack_implies_saved_witness :
  let '(w', (applied, e)) := witness_once witness_world in
  e = Some (Wrap "failed to replace storage file" (Msg "busy")) ∧
  l_receipts (ledger (mem w')) !! witness_key = Some witness_fp.
Proof.
  pose proof (@ack_implies_saved World metrics_codec Content mem_upd (λ w, ledger (mem w))
    witness_service memOnce memOnce_spec witness_key witness_fp
    witness_metrics witness_world eq_refl ltac:(done) ltac:(done) eq_refl witness_fingerprint
    (λ w1, f_equal ledger (@saveAndHandle_mem record_codec (mkPersistence "m.json" true) w1))) as Hack.
  assert ((witness_once witness_world).2.2
    = Some (Wrap "failed to replace storage file" (Msg "busy"))) as He.
  { rewrite witness_once_keyed. by vm_compute. }
  unfold witness_once in *.
  destruct (Service.UpdateMetricsOnce _ _ _ _) as [w' [applied e]]. cbn [fst snd] in He. subst e.
  destruct Hack as (_ & _ & Hack). split; [done|]. by eapply Hack; [vm_compute|].
Defined.

(** A storage without batches: the service goes through single updates. *)
Lemma UpdateMetrics_content_witness :
  let s := NewMetricsService memRepo None None in
  content (mem (@Service.UpdateMetrics World s witness_metrics witness_world).1) =
  apply_batch (content NewMemStorage) witness_metrics.
Proof.
  set (s := NewMetricsService memRepo None None). cbn zeta.
  refine (proj1 (@UpdateMetrics_content World (λ w, content (mem w)) s memRepo_spec
    witness_metrics witness_world _ _ _ _)).
  - done.
  - done.
  - by vm_compute.
Defined.

(** Two callers of [close] during a periodic save. *)
Definition closing_state : State :=
  mkState witness_world Saving true false Stopping None 1 [] 0.

Lemma closing_reachable p : @reachable record_codec p closing_state.
Proof.
  exists false, witness_world. unfold steps.
  eapply rtc_l; [by apply step_tick|]. eapply rtc_l; [by apply step_close_first|].
  eapply rtc_l; [by apply step_close_again|]. apply rtc_refl.
Qed.

Lemma close_can_finish_witness :
  ∃ s', @steps record_codec (mkPersistence "m.json" true) closing_state s' ∧ ph s' = Closed ∧
    length (returned s') = 2.
Proof.
  destruct (@close_can_finish record_codec (mkPersistence "m.json" true) closing_state
    (closing_reachable _) ltac:(done)) as (s' & Hs & Hc & _ & _ & Hl).
  by exists s'.
Defined.

(** The final save of a synchronous service with nothing stored. *)
Definition closed_state (p : persistence) : State :=
  let r := @save_with record_codec (no_faults (p_path p +:+ ".tmp")) p witness_world in
  mkState r.1 Exited true true Closed r.2 0 [r.2] 1.

Lemma close_flushes_once_witness :
  let p := mkPersistence "m.json" true in
  finals (closed_state p) = 1 ∧ @file_current record_codec p (world (closed_state p)).
Proof.
  set (p := mkPersistence "m.json" true). cbn zeta.
  assert (@reachable record_codec p (closed_state p)) as Hr.
  { exists true, witness_world. unfold steps.
    eapply rtc_l; [by apply step_close_first|]. eapply rtc_l; [by apply step_done|].
    eapply rtc_l; [|apply rtc_refl].
    exact (@step_final_save record_codec p (mkState witness_world Exited true true Flushing None 0 [] 0)
      _ eq_refl (no_faults_fresh p)). }
  destruct (@close_flushes_once record_codec p (closed_state p) Hr eq_refl)
    as (_ & Hf & _ & Hcur & _).
  split; [exact Hf|]. apply Hcur. by vm_compute.
Defined.
