(* ===== verification/Durable.v ===== *)
(** Concurrent requests on the in-memory storage with a synchronous file, and
    crashes of the server: [internal/service/metrics.go] and [persistence.go] with
    [StoreInterval] zero.

    [MemStorage] serialises the updates and [persistence.mu] the saves, but a
    request updates and saves in two critical sections, between which others do
    the same, and the server may stop at any moment and restore from the file. *)

From S2P Require Import Prelude GoErrors Metrics GoJson Repository Memory SaveFile.

(** ** Requests *)

(** A keyed batch, an update without a key, or a save alone (that of [close]). *)
Inductive request : Type :=
| Keyed (c : call)
| Plain (ms : list Metrics)
| SaveOnly.

(** The first critical section: the storage after it, whether it was changed, and
    the error that refuses the request. *)
Definition perform (r : request) : M MemStorage (bool * err) :=
  match r with
  | Keyed c => Memory.UpdateMetricsOnce (call_key c) (call_fingerprint c) (call_metrics c)
  | Plain ms => let! e := Memory.UpdateMetrics ms in ret (true, e)
  | SaveOnly => ret (false, None)
  end.

Definition request_metrics (r : request) : list Metrics :=
  match r with Keyed c => call_metrics c | Plain ms => ms | SaveOnly => [] end.

Definition request_key (r : request) : option string :=
  match r with Keyed c => Some (call_key c) | _ => None end.

(** The storage after a history of requests. *)
Definition replay (s : MemStorage) (history : list request) : MemStorage :=
  foldl (λ s r, (perform r s).1) s history.

(** ** Histories *)

Lemma replay_snoc s rs r : replay s (rs ++ [r]) = (perform r (replay s rs)).1.
Proof. unfold replay. by rewrite foldl_app. Qed.

Lemma replay_requests_app s rs rs' : replay s (rs ++ rs') = replay (replay s rs) rs'.
Proof. unfold replay. by rewrite foldl_app. Qed.

Lemma receipts_perform r s :
  receipts (perform r s).1 =
    match r with
    | Keyed c =>
        match receipts s !! call_key c with
        | None => <[call_key c := call_fingerprint c]> (receipts s)
        | Some _ => receipts s
        end
    | _ => receipts s
    end.
Proof.
  destruct r as [c|ms|]; [| |done]; unfold perform, Memory.UpdateMetrics; munfold.
  - rewrite UpdateMetricsOnce_cases. destruct (receipts s !! call_key c); [done|]. cbn.
    by destruct (updateMetricsLocked_content (call_metrics c) s) as [_ ->].
  - by destruct (updateMetricsLocked_content ms s) as [_ ->].
Qed.

(** Receipts stay. *)
Lemma receipts_replay_mono s rs k fp : receipts s !! k = Some fp → receipts (replay s rs) !! k = Some fp.
Proof.
  revert s. induction rs as [|r rs IH]; intros s Hk; [done|]. apply (IH (perform r s).1).
  rewrite receipts_perform. destruct r as [c| |]; [|done|done].
  destruct (receipts s !! call_key c) eqn:Hc; [done|]. rewrite lookup_insert_ne; [done|]. congruence.
Qed.

Lemma receipts_replay_origin s rs k fp :
  receipts (replay s rs) !! k = Some fp →
  receipts s !! k = Some fp ∨ ∃ c, Keyed c ∈ rs ∧ call_key c = k ∧ call_fingerprint c = fp.
Proof.
  induction rs as [|r rs IH] using rev_ind; [by left|]. rewrite replay_snoc, receipts_perform.
  assert (receipts (replay s rs) !! k = Some fp → receipts s !! k = Some fp ∨
    ∃ c, Keyed c ∈ rs ++ [r] ∧ call_key c = k ∧ call_fingerprint c = fp) as Hold.
  { intros [?|(c & Hc & ?)]%IH; [by left|right]. exists c. split; [|done]. apply elem_of_app. by left. }
  destruct r as [c| |]; [|done|done]. destruct (receipts _ !! call_key c); [done|].
  rewrite lookup_insert. case_decide as Heq; [|done]. intros [= <-]. right. exists c.
  split; [|done]. apply elem_of_app. right. by apply list_elem_of_here.
Qed.

Lemma receipts_replay_keyed s rs c : Keyed c ∈ rs → is_Some (receipts (replay s rs) !! call_key c).
Proof.
  intros (l1 & l2 & ->)%list_elem_of_split. rewrite replay_requests_app.
  change (Keyed c :: l2) with ([Keyed c] ++ l2). rewrite replay_requests_app.
  assert (is_Some (receipts (replay (replay s l1) [Keyed c]) !! call_key c)) as [fp Hfp].
  { change (replay ?x [Keyed c]) with (perform (Keyed c) x).1. rewrite receipts_perform.
    destruct (receipts (replay s l1) !! call_key c) eqn:Hc; [by eexists|]. rewrite lookup_insert_eq. by eexists. }
  exists fp. by apply receipts_replay_mono.
Qed.

(** No key comes twice, and none was there before. *)
Definition once (s : MemStorage) (rs : list request) : Prop :=
  NoDup (omap request_key rs) ∧ ∀ k, k ∈ omap request_key rs → receipts s !! k = None.

Lemma once_prefix s rs rs' : once s (rs ++ rs') → once s rs.
Proof.
  unfold once. rewrite omap_app. intros [Hnd Hs]. apply NoDup_app in Hnd as (? & _ & _). split; [done|].
  intros k Hk. apply Hs, elem_of_app. by left.
Qed.

Lemma request_key_elem (rs : list request) k : k ∈ omap request_key rs ↔ ∃ c, Keyed c ∈ rs ∧ call_key c = k.
Proof.
  rewrite list_elem_of_omap. split.
  - intros ([c| |] & Hc & [= <-]). by exists c.
  - intros (c & Hc & <-). by exists (Keyed c).
Qed.

(** A key is free exactly when it is not in the history. *)
Lemma once_free s rs c :
  once s (rs ++ [Keyed c]) → receipts (replay s rs) !! call_key c = None.
Proof.
  intros [Hnd Hs]. rewrite omap_app in Hnd, Hs. cbn in Hnd, Hs.
  destruct (receipts (replay s rs) !! call_key c) as [fp|] eqn:Hk; [|done].
  apply receipts_replay_origin in Hk as [Hk|(d & Hd & Hkd & _)].
  - rewrite Hs in Hk; [done|]. apply elem_of_app. right. by apply list_elem_of_here.
  - apply NoDup_app in Hnd as (_ & Hnd & _). destruct (Hnd (call_key c)); [|by apply list_elem_of_here].
    apply request_key_elem. by exists d.
Qed.

Lemma once_snoc s rs c :
  once s rs → receipts (replay s rs) !! call_key c = None → once s (rs ++ [Keyed c]).
Proof.
  intros [Hnd Hs] Hk. unfold once. rewrite omap_app. cbn.
  assert (call_key c ∉ omap request_key rs) as Hn.
  { intros (d & Hd & Hkd)%request_key_elem. destruct (receipts_replay_keyed s rs d Hd) as [fp Hfp]. congruence. }
  split.
  - apply NoDup_app. split; [done|]. split; [|apply NoDup_singleton].
    intros k Hk' ->%list_elem_of_singleton. done.
  - intros k [Hk'|Hk']%elem_of_app; [by apply Hs|]. apply list_elem_of_singleton in Hk' as ->.
    destruct (receipts s !! call_key c) as [fp|] eqn:Hr; [|done].
    by rewrite (receipts_replay_mono _ rs _ _ Hr) in Hk.
Qed.

Lemma perform_content r s :
  match r with Keyed c => receipts s !! call_key c = None | _ => True end →
  content (perform r s).1 = apply_batch (content s) (request_metrics r).
Proof.
  destruct r as [c|ms|]; [| |done]; unfold perform, Memory.UpdateMetrics; munfold.
  - intros Hk. rewrite UpdateMetricsOnce_cases, Hk.
    exact (proj1 (updateMetricsLocked_content (call_metrics c) s)).
  - intros _. exact (proj1 (updateMetricsLocked_content ms s)).
Qed.

(** Counters have grown by the deltas of the history, each request once. *)
Lemma replay_counters s rs n :
  mem_ok s → once s rs →
  mem_ok (replay s rs) ∧
  counter_at (content (replay s rs)) n =
    wrap64 (counter_at (content s) n + sumZ (map (λ r, total_delta n (request_metrics r)) rs)).
Proof.
  intros Hok. induction rs as [|r rs IH] using rev_ind; intros Ho.
  - cbn. rewrite Z.add_0_r. split; [done|]. symmetry. by apply wrap64_id, counter_at_range.
  - destruct (IH (once_prefix _ _ _ Ho)) as [Hm Hc]. rewrite replay_snoc. unfold mem_ok.
    rewrite perform_content by (destruct r; [by apply once_free|done..]).
    split; [by apply apply_batch_ok|]. rewrite counter_at_batch by done.
    rewrite Hc, map_app, sumZ_app. cbn. rewrite wrap64_add_l. f_equal. lia.
Qed.

(** ** The goroutines of the handlers

    A request is called; updated, that is waiting for [persistence.mu]; holding
    it; and holding it inside [SaveToFile] with the snapshot taken. *)
Inductive thread : Type :=
| Called (r : request)
| Updated (r : request)
| Locked (r : request)
| Saving (r : request) (snapshot : list snapshotRecord).

(** [history] are the requests that changed the storage, [taken] and [saved] what
    of it is in the last snapshot and in the file; [acked] the requests answered
    without an error. *)
Record State : Type := mkState {
  d_mem : MemStorage;
  d_files : FS;
  d_locked : bool;
  d_threads : list thread;
  history : list request;
  taken : list request;
  saved : list request;
  acked : list request
}.

Section Durable.
Context `{!Json (list snapshotRecord)} {clean : list snapshotRecord → Prop}.
Context `{!JsonRoundTrip (list snapshotRecord) clean}.
Variable path : string.
(** The orders in which a restoration ranges over receipts. *)
Variable orders : list snapshotRecord → list (list (string * string)).
Hypothesis orders_good : ∀ rs, orders_of rs (orders rs).
(** The storage the server started with. *)
Variable s0 : MemStorage.
Hypothesis s0_ok : mem_ok s0.
Hypothesis s0_saveable : saveable s0.
(** The batches that the handlers let through change something, and what they
    lead to is in the domain of the encoder. *)
Variable good : list Metrics → Prop.
Hypothesis good_effective : ∀ c, good (call_metrics c) → Exists effective (call_metrics c).
Hypothesis good_clean : ∀ rs go co ro,
  Forall (λ r, good (request_metrics r) ∨ r = SaveOnly) rs →
  range_of go (gauges (replay s0 rs)) → range_of co (counters (replay s0 rs)) →
  range_of ro (receipts (replay s0 rs)) → clean (fileSnapshot go co ro (replay s0 rs)).

Definition admitted (r : request) : Prop := good (request_metrics r) ∨ r = SaveOnly.

Definition start (fs : FS) : State := mkState s0 fs false [] [] [] [] [].

Inductive crash_step : State → State → Prop :=
| request_arrives s r :
    admitted r →
    crash_step s (mkState (d_mem s) (d_files s) (d_locked s) (d_threads s ++ [Called r])
      (history s) (taken s) (saved s) (acked s))
| request_updates s l1 r l2 m applied :
    d_threads s = l1 ++ Called r :: l2 → perform r (d_mem s) = (m, (applied, None)) →
    crash_step s (mkState m (d_files s) (d_locked s) (l1 ++ Updated r :: l2)
      (history s ++ (if applied : bool then [r] else [])) (taken s) (saved s) (acked s))
| request_refused s l1 r l2 m applied e :
    d_threads s = l1 ++ Called r :: l2 → perform r (d_mem s) = (m, (applied, Some e)) →
    crash_step s (mkState m (d_files s) (d_locked s) (l1 ++ l2)
      (history s) (taken s) (saved s) (acked s))
| save_locks s l1 r l2 :
    d_threads s = l1 ++ Updated r :: l2 → d_locked s = false →
    crash_step s (mkState (d_mem s) (d_files s) true (l1 ++ Locked r :: l2)
      (history s) (taken s) (saved s) (acked s))
| save_snapshots s l1 r l2 go co ro :
    d_threads s = l1 ++ Locked r :: l2 →
    range_of go (gauges (d_mem s)) → range_of co (counters (d_mem s)) → range_of ro (receipts (d_mem s)) →
    crash_step s (mkState (d_mem s) (d_files s) (d_locked s)
      (l1 ++ Saving r (fileSnapshot go co ro (d_mem s)) :: l2)
      (history s) (history s) (saved s) (acked s))
| save_done s l1 r l2 snapshot f fs :
    d_threads s = l1 ++ Saving r snapshot :: l2 → (∀ t, f_temp f = Ok t → t ≠ path) →
    SaveToFile f snapshot path (d_files s) = (fs, None) →
    crash_step s (mkState (d_mem s) fs false (l1 ++ l2)
      (history s) (taken s) (taken s) (r :: acked s))
| save_fails s l1 r l2 snapshot f fs e :
    d_threads s = l1 ++ Saving r snapshot :: l2 → (∀ t, f_temp f = Ok t → t ≠ path) →
    SaveToFile f snapshot path (d_files s) = (fs, Some e) →
    crash_step s (mkState (d_mem s) fs false (l1 ++ l2)
      (history s) (taken s) (saved s) (acked s))
| crash s fs m :
    (* the rename is atomic; other files may be left in any state *)
    fs !! path = d_files s !! path → NewMemStorageWithRestore None orders path true fs = Ok m →
    crash_step s (mkState m fs false [] (saved s) (saved s) (saved s) (acked s)).

Definition durable_reachable (fs : FS) (s : State) : Prop := rtc crash_step (start fs) s.

(** ** The invariant *)

(** A history that contains the effect of a request. *)
Definition held (r : request) (rs : list request) : Prop :=
  match r with
  | Keyed c => receipts (replay s0 rs) !! call_key c = Some (call_fingerprint c)
  | Plain _ => r ∈ rs
  | SaveOnly => True
  end.

Definition holder (t : thread) : bool := match t with Locked _ | Saving _ _ => true | _ => false end.

Definition thread_ok (s : State) (t : thread) : Prop :=
  match t with
  | Called r => admitted r
  | Updated r | Locked r => held r (history s)
  | Saving r snapshot =>
      held r (taken s) ∧ saved s `prefix_of` taken s ∧ taken s `prefix_of` history s ∧
      ∃ go co ro, range_of go (gauges (replay s0 (taken s))) ∧ range_of co (counters (replay s0 (taken s))) ∧
        range_of ro (receipts (replay s0 (taken s))) ∧ snapshot = fileSnapshot go co ro (replay s0 (taken s))
  end.

Definition holders (ts : list thread) : nat := length (filter (λ t, holder t = true) ts).

(** The file holds a prefix of the history: the storage is ahead of it. *)
Definition files_ok (s : State) : Prop :=
  NewMemStorageWithRestore None orders path true (d_files s) = Ok (replay s0 (saved s)) ∧
  saved s `prefix_of` history s ∧ Forall (λ r, held r (saved s)) (acked s).

Definition durable_inv (s : State) : Prop :=
  d_mem s = replay s0 (history s) ∧ once s0 (history s) ∧ Forall admitted (history s) ∧
  files_ok s ∧ Forall (thread_ok s) (d_threads s) ∧ holders (d_threads s) = Nat.b2n (d_locked s).

Lemma held_mono r rs rs' : rs `prefix_of` rs' → held r rs → held r rs'.
Proof.
  intros [rest ->]. destruct r as [c| |]; cbn; [|intros ?; apply elem_of_app; by left|done].
  intros Hr. rewrite replay_requests_app. by apply receipts_replay_mono.
Qed.

Lemma perform_held r rs m applied :
  perform r (replay s0 rs) = (m, (applied, None)) →
  m = replay s0 (rs ++ if applied then [r] else []) ∧ held r (rs ++ if applied then [r] else []) ∧
  (once s0 rs → once s0 (rs ++ if applied then [r] else [])).
Proof.
  intros Hp. assert (m = (perform r (replay s0 rs)).1) as Hm by (by rewrite Hp).
  destruct applied.
  - rewrite replay_snoc. split; [done|].
    destruct r as [c|ms|]; [|split; [apply elem_of_app; right; by apply list_elem_of_here|]|done].
    + assert (receipts (replay s0 rs) !! call_key c = None) as Hk.
      { unfold perform in Hp. rewrite UpdateMetricsOnce_cases in Hp. destruct (receipts _ !! call_key c); [|done].
        by injection Hp. }
      split; [|intros Ho; by apply once_snoc].
      cbn. rewrite replay_snoc, receipts_perform, Hk. by rewrite lookup_insert_eq.
    + unfold once. rewrite omap_app. cbn. by rewrite app_nil_r.
  - rewrite app_nil_r. split; [|split; [|done]].
    + destruct r as [c|ms|]; [|done|by injection Hp].
      unfold perform in Hp. rewrite UpdateMetricsOnce_cases in Hp. destruct (receipts _ !! call_key c); [|done].
      by injection Hp.
    + destruct r as [c|ms|]; [|done|done]. unfold perform in Hp. cbn. rewrite UpdateMetricsOnce_cases in Hp.
      destruct (receipts _ !! call_key c) as [fp|]; [|done]. case_decide as Hd; [done|].
      by subst fp.
Qed.

Lemma replay_saveable rs : Forall admitted rs → saveable (replay s0 rs).
Proof.
  induction rs as [|r rs IH] using rev_ind; [done|]. intros [Hrs Hr]%Forall_app.
  rewrite replay_snoc. specialize (IH Hrs). rewrite Forall_singleton in Hr.
  destruct r as [c|ms|]; [|by apply (UpdateMetrics_saveable ms)|done].
  destruct Hr as [Hr|]; [|done]. apply UpdateMetricsOnce_saveable; [by apply good_effective|done].
Qed.

Lemma holders_app ts1 ts2 : holders (ts1 ++ ts2) = holders ts1 + holders ts2.
Proof. unfold holders. by rewrite filter_app, length_app. Qed.

Lemma holders_cons t ts : holders (t :: ts) = Nat.b2n (holder t) + holders ts.
Proof. unfold holders. rewrite filter_cons. by destruct (holder t). Qed.

Lemma holders_none ts : holders ts = 0 → Forall (λ t, holder t = false) ts.
Proof.
  induction ts as [|t ts IH]; [done|]. rewrite holders_cons. destruct (holder t) eqn:Ht; [done|].
  intros H. by constructor; [|apply IH].
Qed.

(** Only the holder of the lock sees what is taken and saved. *)
Lemma thread_ok_frame s s' t : holder t = false → history s' = history s → thread_ok s t → thread_ok s' t.
Proof. intros Ht Hh. destruct t; cbn in *; rewrite ?Hh; done. Qed.

Lemma thread_ok_history s s' t :
  history s `prefix_of` history s' → taken s' = taken s → saved s' = saved s → thread_ok s t → thread_ok s' t.
Proof.
  intros Hh Ht Hs. destruct t as [r|r|r|r snap]; cbn; rewrite ?Ht, ?Hs; [done|by apply held_mono..|].
  intros (? & ? & ? & ?). split_and!; try done. by etrans.
Qed.

Lemma durable_inv_start fs :
  NewMemStorageWithRestore None orders path true fs = Ok s0 → durable_inv (start fs).
Proof.
  intros Hr. unfold durable_inv, files_ok, start. cbn. split_and!; try done; try apply Forall_nil_2.
  split; [apply NoDup_nil_2|by intros k ?%not_elem_of_nil].
Qed.

Lemma perform_refused r s m applied e : perform r s = (m, (applied, Some e)) → m = s.
Proof.
  destruct r as [c|ms|]; [|done|done]. unfold perform. rewrite UpdateMetricsOnce_cases.
  destruct (receipts s !! call_key c); [by intros [= <- _ _]|done].
Qed.

Lemma threads_frame s s' ts :
  history s' = history s → Forall (λ t, holder t = false) ts → Forall (thread_ok s) ts → Forall (thread_ok s') ts.
Proof.
  intros Hs Hh Hok. rewrite Forall_forall in Hh, Hok. apply Forall_forall. intros t Ht.
  eapply thread_ok_frame; [by apply Hh|done|by apply Hok].
Qed.

(** While one holds the lock, the others do not. *)
Lemma others_frame s s' l1 t l2 :
  holder t = true → holders (l1 ++ t :: l2) = Nat.b2n (d_locked s) → history s' = history s →
  Forall (thread_ok s) (l1 ++ t :: l2) →
  thread_ok s t ∧ Forall (thread_ok s') l1 ∧ Forall (thread_ok s') l2 ∧ holders (l1 ++ l2) = 0.
Proof.
  intros Ht Hh Hs. rewrite Forall_app, Forall_cons. intros (H1 & Hok & H2).
  rewrite holders_app, holders_cons, Ht in Hh. destruct (d_locked s); cbn in Hh; [|lia].
  assert (holders l1 = 0 ∧ holders l2 = 0) as [Hl1 Hl2] by lia. rewrite holders_app. split; [done|].
  split_and!; [..|lia].
  - apply (threads_frame s); [done|by apply holders_none|done].
  - apply (threads_frame s); [done|by apply holders_none|done].
Qed.

Lemma durable_inv_step s s' : crash_step s s' → durable_inv s → durable_inv s'.
Proof.
  intros Hs (Hm & Ho & Ha & (Hr & Hp & Hk) & Ht & Hh).
  destruct Hs as [s r Hr'|s l1 r l2 m applied Hl Hpf|s l1 r l2 m applied e Hl Hpf|s l1 r l2 Hl Hlk
    |s l1 r l2 go co ro Hl Hg Hc Hro|s l1 r l2 snap f fs Hl Hf Hsave|s l1 r l2 snap f fs e Hl Hf Hsave|s fs m Hfs Hrest].
  all: try rewrite Hl in Ht, Hh; unfold durable_inv, files_ok;
    cbn [d_mem d_files d_locked d_threads history taken saved acked].
  - split_and!; try done.
    + apply Forall_app. split; [done|]. by apply Forall_singleton.
    + by rewrite holders_app, Hh, Nat.add_0_r.
  - rewrite Hm in Hpf. destruct (perform_held _ _ _ _ Hpf) as (-> & Hheld & Honce).
    rewrite Forall_app, Forall_cons in Ht. destruct Ht as (Ht1 & Hc & Ht2).
    rewrite holders_app, holders_cons in Hh |- *.
    assert (∀ t, thread_ok s t → thread_ok (mkState (replay s0 (history s ++ if applied then [r] else []))
      (d_files s) (d_locked s) (l1 ++ Updated r :: l2) (history s ++ if applied then [r] else [])
      (taken s) (saved s) (acked s)) t) as Hmono.
    { intros t. apply thread_ok_history; [by apply prefix_app_r|done|done]. }
    split_and!; try done.
    + by apply Honce.
    + apply Forall_app. split; [done|]. destruct applied; [by apply Forall_singleton|done].
    + by apply prefix_app_r.
    + rewrite Forall_app, Forall_cons. split_and!; [by eapply Forall_impl|done|by eapply Forall_impl].
  - rewrite (perform_refused _ _ _ _ _ Hpf). rewrite Forall_app, Forall_cons in Ht. destruct Ht as (Ht1 & _ & Ht2).
    rewrite holders_app, holders_cons in Hh. rewrite holders_app. split_and!; try done. by apply Forall_app.
  - rewrite Forall_app, Forall_cons in Ht. destruct Ht as (Ht1 & Hc & Ht2).
    rewrite holders_app, holders_cons in Hh |- *. rewrite Hlk in Hh. cbn in Hh |- *.
    split_and!; try done; [|lia]. rewrite Forall_app, Forall_cons. by split_and!.
  - match goal with |- context [Forall (thread_ok ?x) _] => set (s' := x) end.
    destruct (others_frame s s' l1 (Locked r) l2 eq_refl Hh eq_refl Ht) as (Hc' & H1 & H2 & H0).
    split_and!; try done.
    + rewrite Forall_app, Forall_cons. split_and!; [done| |done]. split_and!; [done|done|done|].
      exists go, co, ro. subst s'. cbn [taken]. by rewrite <-Hm.
    + rewrite holders_app, holders_cons in Hh |- *. done.
  - match goal with |- context [Forall (thread_ok ?x) _] => set (s' := x) end.
    destruct (others_frame s s' l1 (Saving r snap) l2 eq_refl Hh eq_refl Ht) as (Hc' & H1 & H2 & H0).
    destruct Hc' as (Hheld & Hst & Hth & go & co & ro & Hg & Hc & Hro & ->).
    assert (Forall admitted (taken s)) as Hat by (destruct Hth as [rest Hrest]; rewrite Hrest in Ha; by apply Forall_app in Ha as [? _]).
    split_and!; try done.
    + eapply (SaveToFile_restores f go co ro); try done; [by apply replay_saveable|by apply good_clean].
    + constructor; [done|]. eapply Forall_impl; [exact Hk|]. intros x. by apply held_mono.
    + by apply Forall_app.
  - match goal with |- context [Forall (thread_ok ?x) _] => set (s' := x) end.
    destruct (others_frame s s' l1 (Saving r snap) l2 eq_refl Hh eq_refl Ht) as (_ & H1 & H2 & H0).
    split_and!; try done; [|by apply Forall_app].
    rewrite (restore_target _ _ _ _ (d_files s)); [done|]. exact (SaveToFile_target _ _ _ _ _ _ Hf Hsave).
  - rewrite (restore_target _ _ _ _ _ _ Hfs), Hr in Hrest. injection Hrest as <-.
    destruct Hp as [rest Hrest]. rewrite Hrest in Ho, Ha. apply Forall_app in Ha as [Ha _].
    split_and!; try done; [by eapply once_prefix|]. by rewrite (restore_target _ _ _ _ _ _ Hfs).
Qed.

Lemma durable_reachable_inv fs s :
  NewMemStorageWithRestore None orders path true fs = Ok s0 → durable_reachable fs s → durable_inv s.
Proof.
  intros Hfs Hr. pose proof (durable_inv_start fs Hfs) as Hi. revert Hi. unfold durable_reachable in Hr.
  generalize dependent (start fs). intros s1 Hr. induction Hr as [s1|s1 s2 s3 Hs _ IH]; [done|].
  intros Hi. by eapply IH, durable_inv_step.
Qed.

(** C15: acknowledged updates survive crashes, once each: in every interleaving of
    requests, of their saves and of any number of crashes, whatever saves fail,
    the file alone gives back a storage that some of the requests, in the order
    in which they were applied, lead to, each key once; every request answered
    without an error is among them, and every counter has grown, modulo 2^64, by
    exactly their deltas. *)
Theorem acknowledged_survive_crashes fs s fs' :
  NewMemStorageWithRestore None orders path true fs = Ok s0 → durable_reachable fs s →
  fs' !! path = d_files s !! path →
  ∃ m committed, NewMemStorageWithRestore None orders path true fs' = Ok m ∧
    m = replay s0 committed ∧ committed `prefix_of` history s ∧ once s0 committed ∧
    (∀ c, Keyed c ∈ acked s → receipts m !! call_key c = Some (call_fingerprint c) ∧
      (receipts s0 !! call_key c = Some (call_fingerprint c) ∨
       ∃ d, Keyed d ∈ committed ∧ call_key d = call_key c ∧ call_fingerprint d = call_fingerprint c)) ∧
    (∀ ms, Plain ms ∈ acked s → Plain ms ∈ committed) ∧
    (∀ n, get_or 0%Z (counters m) n = wrap64 (get_or 0%Z (counters s0) n +
      sumZ (map (λ r, total_delta n (request_metrics r)) committed))).
Proof.
  intros Hfs Hr Hp. destruct (durable_reachable_inv fs s Hfs Hr) as (_ & Ho & _ & (Hrest & Hpre & Hk) & _).
  rewrite Forall_forall in Hk.
  assert (once s0 (saved s)) as Hos by (destruct Hpre as [rest He]; rewrite He in Ho; by eapply once_prefix).
  exists (replay s0 (saved s)), (saved s). rewrite (restore_target _ _ _ _ _ _ Hp). split_and!; try done.
  - intros c Hc. pose proof (Hk _ Hc) as Hh. split; [exact Hh|]. by apply receipts_replay_origin.
  - intros ms Hms. exact (Hk _ Hms).
  - intros n. exact (proj2 (replay_counters s0 (saved s) n s0_ok Hos)).
Qed.
End Durable.

(** ** Two handlers at once, and a crash

    Both update; the save of the first has both, and the server stops before the
    second has the lock. *)
Definition first_call : call := mkCall "k1" "f1" [counter_metric "C" 1].
Definition second_call : call := mkCall "k2" "f2" [counter_metric "C" 2].

Definition first_mem : MemStorage := Eval vm_compute in (perform (Keyed first_call) NewMemStorage).1.
Definition crash_mem : MemStorage := Eval vm_compute in (perform (Keyed second_call) first_mem).1.

Lemma first_performed : perform (Keyed first_call) NewMemStorage = (first_mem, (true, None)).
Proof. by vm_compute. Qed.
Lemma second_performed : perform (Keyed second_call) first_mem = (crash_mem, (true, None)).
Proof. by vm_compute. Qed.

Definition crash_snapshot : list snapshotRecord :=
  fileSnapshot [] [("C", 3%Z)] [("k1", "f1"); ("k2", "f2")] crash_mem.

Definition crash_orders (rs : list snapshotRecord) : list (list (string * string)) :=
  map (λ r, map_to_list (sr_Receipts r)) rs.

Definition crash_files : FS := Eval vm_compute in (@SaveToFile record_codec (no_faults "t") crash_snapshot "m" ∅).1.

Lemma crash_saved : @SaveToFile record_codec (no_faults "t") crash_snapshot "m" ∅ = (crash_files, None).
Proof. by vm_compute. Qed.

Lemma crash_orders_good rs : orders_of rs (crash_orders rs).
Proof. unfold orders_of, crash_orders. induction rs; simpl; constructor; auto with go. Qed.

Lemma crash_restored : @NewMemStorageWithRestore record_codec None crash_orders "m" true crash_files = Ok crash_mem.
Proof.
  apply (@SaveToFile_restores record_codec (λ _, True) (BinaryJson.codec_ok _) (no_faults "t")
    [] [("C", 3%Z)] [("k1", "f1"); ("k2", "f2")] crash_mem crash_orders "m" ∅ crash_files).
  1-3: by unfold range_of; vm_compute.
  - exact crash_orders_good.
  - right. right. by vm_compute.
  - done.
  - by intros t [= <-].
  - exact crash_saved.
Qed.

(** The states of the run: a storage, the lock, the handlers, and what has been
    updated, is in the snapshot, is in the file, is answered. *)
Definition both : list request := [Keyed first_call; Keyed second_call].
Definition at_run (m : MemStorage) (fs : FS) (locked : bool) (ts : list thread) (n k j : nat) (a : list request) : State :=
  mkState m fs locked ts (take n both) (take k both) (take j both) a.

Definition crashed : State := at_run crash_mem crash_files false [] 2 2 2 [Keyed first_call].

Definition witness_good (ms : list Metrics) : Prop := Exists effective ms.

Abbreviation crash_witness_step :=
  (@crash_step record_codec "m" crash_orders witness_good).

Lemma crash_started : @NewMemStorageWithRestore record_codec None crash_orders "m" true ∅ = Ok NewMemStorage.
Proof. by vm_compute. Qed.

Lemma crashed_reachable :
  @durable_reachable record_codec "m" crash_orders NewMemStorage witness_good ∅ crashed.
Proof.
  unfold durable_reachable.
  assert (∀ n d, witness_good [counter_metric n d]) as Hgood by (intros n d; constructor; by vm_compute).
  set (C1 := Called (Keyed first_call)). set (C2 := Called (Keyed second_call)).
  set (U1 := Updated (Keyed first_call)). set (U2 := Updated (Keyed second_call)).
  apply (rtc_l _ _ (at_run NewMemStorage ∅ false [C1] 0 0 0 [])).
  { apply (request_arrives _ _ _ (start NewMemStorage ∅) (Keyed first_call)). left. apply Hgood. }
  apply (rtc_l _ _ (at_run NewMemStorage ∅ false [C1; C2] 0 0 0 [])).
  { apply (request_arrives _ _ _ (at_run NewMemStorage ∅ false [C1] 0 0 0 []) (Keyed second_call)). left. apply Hgood. }
  apply (rtc_l _ _ (at_run first_mem ∅ false [U1; C2] 1 0 0 [])).
  { exact (request_updates _ _ _ (at_run NewMemStorage ∅ false [C1; C2] 0 0 0 []) [] _ [C2] _ true eq_refl first_performed). }
  apply (rtc_l _ _ (at_run crash_mem ∅ false [U1; U2] 2 0 0 [])).
  { exact (request_updates _ _ _ (at_run first_mem ∅ false [U1; C2] 1 0 0 []) [U1] _ [] _ true eq_refl second_performed). }
  apply (rtc_l _ _ (at_run crash_mem ∅ true [Locked (Keyed first_call); U2] 2 0 0 [])).
  { exact (save_locks _ _ _ (at_run crash_mem ∅ false [U1; U2] 2 0 0 []) [] _ [U2] eq_refl eq_refl). }
  apply (rtc_l _ _ (at_run crash_mem ∅ true [Saving (Keyed first_call) crash_snapshot; U2] 2 2 0 [])).
  { apply (save_snapshots _ _ _ (at_run crash_mem ∅ true [Locked (Keyed first_call); U2] 2 0 0 []) [] _ [U2]
      [] [("C", 3%Z)] [("k1", "f1"); ("k2", "f2")] eq_refl); by unfold range_of; vm_compute. }
  apply (rtc_l _ _ (at_run crash_mem crash_files false [U2] 2 2 2 [Keyed first_call])).
  { apply (save_done _ _ _ (at_run crash_mem ∅ true [Saving (Keyed first_call) crash_snapshot; U2] 2 2 0 [])
      [] _ [U2] crash_snapshot (no_faults "t") crash_files eq_refl); [by intros t [= <-]|exact crash_saved]. }
  apply rtc_once.
  exact (crash _ _ _ (at_run crash_mem crash_files false [U2] 2 2 2 [Keyed first_call]) crash_files crash_mem
    eq_refl crash_restored).
Qed.

Lemma acknowledged_survive_crashes_witness :
  ∃ m, @NewMemStorageWithRestore record_codec None crash_orders "m" true crash_files = Ok m ∧
    receipts m !! "k1" = Some "f1".
Proof.
  destruct (@acknowledged_survive_crashes record_codec (λ _, True) (BinaryJson.codec_ok _) "m" crash_orders
    crash_orders_good NewMemStorage (proj1 NewMemStorage_ok) (proj2 NewMemStorage_ok) witness_good
    (λ _ H, H) (λ _ _ _ _ _ _ _ _, I) ∅ crashed crash_files crash_started crashed_reachable eq_refl)
    as (m & committed & Hm & _ & _ & _ & Hk & _).
  exists m. split; [exact Hm|]. apply (Hk first_call). apply list_elem_of_here.
Defined.
