(* ===== verification/GoHttp.v ===== *)
(** The parts of [net/http] and [strings] the server uses: headers, the
    [ResponseWriter] interface with the server's own writer, and requests.

    A handler only ever calls the methods of the writer it is given, so what it
    answers is a script of such calls; [scripted] says that of a handler, and the
    middleware is verified on scripts. *)

From S2P Require Import Prelude GoErrors GoJson GoCrypto.
From Stdlib Require Import Ascii.

(** ** strings *)

Definition upper_letter (c : ascii) : bool := let b := byte_of c in ((65 <=? b) && (b <=? 90))%Z.
Definition lower_letter (c : ascii) : bool := let b := byte_of c in ((97 <=? b) && (b <=? 122))%Z.
Definition digit (c : ascii) : bool := let b := byte_of c in ((48 <=? b) && (b <=? 57))%Z.
Definition to_lower (c : ascii) : ascii := if upper_letter c then ascii_of (byte_of c + 32) else c.
Definition to_upper (c : ascii) : ascii := if lower_letter c then ascii_of (byte_of c - 32) else c.

(** [strings.ToLower] on ASCII text; other bytes are left as they are. *)
Fixpoint ToLower (s : string) : string :=
  match s with "" => "" | String c s => String (to_lower c) (ToLower s) end.

Definition space (c : ascii) : bool :=
  let b := byte_of c in ((b =? 32) || ((9 <=? b) && (b <=? 13)))%Z.

Fixpoint trim_left (s : string) : string :=
  match s with "" => "" | String c s' => if space c then trim_left s' else s end.

Fixpoint trim_right (s : string) : string :=
  match s with
  | "" => ""
  | String c s =>
      let t := trim_right s in if space c && bool_decide (t = "") then "" else String c t
  end.

(** [strings.TrimSpace], on ASCII text. *)
Definition TrimSpace (s : string) : string := trim_right (trim_left s).

(** [strings.Split(s, sep)] for a separator of one byte. *)
Fixpoint Split (sep : ascii) (s : string) : list string :=
  match s with
  | "" => [""]
  | String c s =>
      if decide (c = sep) then "" :: Split sep s
      else match Split sep s with
           | [] => [String c ""]
           | part :: parts => String c part :: parts
           end
  end.

(** ** Headers *)

Abbreviation header := (gmap string (list string)).

(** The bytes of a token (RFC 7230). *)
Definition token_byte (c : ascii) : bool :=
  upper_letter c || lower_letter c || digit c ||
  existsb (Ascii.eqb c) (String.list_ascii_of_string "!#$%&'*+-.^_`|~").

Fixpoint token (s : string) : bool :=
  match s with "" => true | String c s => token_byte c && token s end.

Fixpoint canonical_loop (upper : bool) (s : string) : string :=
  match s with
  | "" => ""
  | String c s =>
      String (if upper then to_upper c else to_lower c) (canonical_loop (Ascii.eqb c "-") s)
  end.

(** [http.CanonicalHeaderKey] *)
Definition CanonicalHeaderKey (k : string) : string :=
  if token k then canonical_loop true k else k.

Definition Header_Values (k : string) (h : header) : list string :=
  default [] (h !! CanonicalHeaderKey k).
Definition Header_Get (k : string) (h : header) : string :=
  match Header_Values k h with [] => "" | v :: _ => v end.
Definition Header_Set (k v : string) (h : header) : header := <[CanonicalHeaderKey k := [v]]> h.
Definition Header_Add (k v : string) (h : header) : header :=
  <[CanonicalHeaderKey k := Header_Values k h ++ [v]]> h.
Definition Header_Del (k : string) (h : header) : header := delete (CanonicalHeaderKey k) h.

Lemma Header_Values_Set k v h : Header_Values k (Header_Set k v h) = [v].
Proof. unfold Header_Values, Header_Set. by rewrite lookup_insert_eq. Qed.

Lemma Header_Get_Set k v h : Header_Get k (Header_Set k v h) = v.
Proof. unfold Header_Get. by rewrite Header_Values_Set. Qed.

Lemma Header_Values_Set_ne k k' v h :
  CanonicalHeaderKey k ≠ CanonicalHeaderKey k' → Header_Values k (Header_Set k' v h) = Header_Values k h.
Proof. intros Hk. unfold Header_Values, Header_Set. by rewrite lookup_insert_ne. Qed.

Lemma Header_Values_Add_ne k k' v h :
  CanonicalHeaderKey k ≠ CanonicalHeaderKey k' → Header_Values k (Header_Add k' v h) = Header_Values k h.
Proof. intros Hk. unfold Header_Values, Header_Add. by rewrite lookup_insert_ne. Qed.

Lemma Header_Values_Del_ne k k' h :
  CanonicalHeaderKey k ≠ CanonicalHeaderKey k' → Header_Values k (Header_Del k' h) = Header_Values k h.
Proof. intros Hk. unfold Header_Values, Header_Del. by rewrite lookup_delete_ne. Qed.

Lemma Header_Get_Set_ne k k' v h :
  CanonicalHeaderKey k ≠ CanonicalHeaderKey k' → Header_Get k (Header_Set k' v h) = Header_Get k h.
Proof. intros Hk. unfold Header_Get. by rewrite Header_Values_Set_ne. Qed.

Lemma Header_Get_Add_ne k k' v h :
  CanonicalHeaderKey k ≠ CanonicalHeaderKey k' → Header_Get k (Header_Add k' v h) = Header_Get k h.
Proof. intros Hk. unfold Header_Get. by rewrite Header_Values_Add_ne. Qed.

Lemma Header_Get_Del_ne k k' h :
  CanonicalHeaderKey k ≠ CanonicalHeaderKey k' → Header_Get k (Header_Del k' h) = Header_Get k h.
Proof. intros Hk. unfold Header_Get. by rewrite Header_Values_Del_ne. Qed.

Lemma Header_Get_Del k h : Header_Get k (Header_Del k h) = "".
Proof. unfold Header_Get, Header_Values, Header_Del. by rewrite lookup_delete_eq. Qed.

(** ** The response writer

    [Header_of] reads the map of [w.Header()], [with_Header] changes it in
    place. *)
Class ResponseWriter (R : Type) : Type := {
  Header_of : R → header;
  with_Header : (header → header) → R → R;
  WriteHeader : Z → R → R;
  Write : string → R → R
}.

(** Every writer reads back the headers it has changed. *)
Class ResponseWriterSpec (R : Type) `{ResponseWriter R} : Prop :=
  Header_with f w : Header_of (with_Header f w) = f (Header_of w).

Definition StatusOK : Z := 200.
Definition StatusBadRequest : Z := 400.
Definition StatusForbidden : Z := 403.
Definition StatusNotFound : Z := 404.
Definition StatusConflict : Z := 409.
Definition StatusInternalServerError : Z := 500.

Definition SetHeader `{ResponseWriter R} (k v : string) : R → R := with_Header (Header_Set k v).

(** [http.Error] *)
Definition http_Error `{ResponseWriter R} (msg : string) (code : Z) (w : R) : R :=
  Write (msg +:+ newline)
    (WriteHeader code
      (SetHeader "X-Content-Type-Options" "nosniff"
        (SetHeader "Content-Type" "text/plain; charset=utf-8"
          (with_Header (Header_Del "Content-Length") w)))).

(** The server's writer: the status and the headers that were sent, the headers
    that a first [WriteHeader] would send, and the body. *)
Record Response : Type := mkResponse {
  rw_sent : option (Z * header);
  rw_live : header;
  rw_body : string
}.

(** The first call counts; a later one is ignored, and headers changed after it
    are not sent. *)
Definition send_header (code : Z) (w : Response) : Response :=
  match rw_sent w with
  | None => mkResponse (Some (code, rw_live w)) (rw_live w) (rw_body w)
  | Some _ => w
  end.

#[export] Instance Response_writer : ResponseWriter Response := {|
  Header_of := rw_live;
  with_Header f w := mkResponse (rw_sent w) (f (rw_live w)) (rw_body w);
  WriteHeader := send_header;
  Write data w :=
    let w := send_header StatusOK w in mkResponse (rw_sent w) (rw_live w) (rw_body w +:+ data)
|}.

#[export] Instance Response_spec : ResponseWriterSpec Response.
Proof. done. Qed.

(** What the client sees when the handler has returned. *)
Definition rw_status (w : Response) : option Z := fst <$> rw_sent w.
Definition final_status (w : Response) : Z := default StatusOK (rw_status w).
Definition final_header (w : Response) : header := default (rw_live w) (snd <$> rw_sent w).

Definition fresh_response : Response := mkResponse None ∅ "".

(** ** Requests *)

(** A body: the text that reading it yields, the error met after it, [None] for
    its end, and what [Close] returns. *)
Record ReadCloser : Type := mkBody { b_data : string; b_err : err; b_close : err }.

(** [io.NopCloser(bytes.NewReader(data))] *)
Definition NopCloser (data : string) : ReadCloser := mkBody data None None.

(** [URLParam] holds what the router has matched. *)
Record Request : Type := mkRequest {
  Method : string;
  RequestURI : string;
  Path : string;
  URLParam : string → string;
  ReqHeader : header;
  Body : ReadCloser;
  RemoteAddr : string;
  ContextErr : err
}.

Definition set_Body (body : ReadCloser) (r : Request) : Request :=
  mkRequest (Method r) (RequestURI r) (Path r) (URLParam r) (ReqHeader r) body (RemoteAddr r) (ContextErr r).
Definition set_ReqHeader (h : header) (r : Request) : Request :=
  mkRequest (Method r) (RequestURI r) (Path r) (URLParam r) h (Body r) (RemoteAddr r) (ContextErr r).

(** [io.ReadAll] *)
Definition ReadAll (b : ReadCloser) : res string :=
  match b_err b with None => Ok (b_data b) | Some e => Fail e end.

(** [json.NewDecoder(r.Body).Decode(&v)] *)
Definition decode_body {A} `{Json A} (r : Request) : res A :=
  match b_err (Body r) with
  | None => json_Decode (b_data (Body r))
  | Some _ => json_DecodeBroken (b_data (Body r))
  end.

(** [json.NewEncoder(w).Encode(v)]: nothing is written when [v] cannot be
    encoded, and the error is only logged. *)
Definition write_json `{ResponseWriter R} `{Json A} (a : A) (w : R) : R :=
  match json_Encode a with Ok text => Write text w | Fail _ => w end.

(** [http.Handler]: it works with any writer. *)
Definition Handler (W : Type) : Type := ∀ R, ResponseWriter R → R → Request → M W R.

(** ** Scripts of calls *)

Inductive action : Type :=
| ActHeader (f : header → header)
| ActStatus (code : Z)
| ActWrite (data : string).

Definition act `{ResponseWriter R} (a : action) (w : R) : R :=
  match a with
  | ActHeader f => with_Header f w
  | ActStatus code => WriteHeader code w
  | ActWrite data => Write data w
  end.

Definition replay `{ResponseWriter R} (acts : list action) (w : R) : R :=
  foldl (λ w a, act a w) w acts.

Lemma replay_app `{ResponseWriter R} acts1 acts2 (w : R) :
  replay (acts1 ++ acts2) w = replay acts2 (replay acts1 w).
Proof. unfold replay. by rewrite foldl_app. Qed.

Lemma replay_cons `{ResponseWriter R} a acts (w : R) : replay (a :: acts) w = replay acts (act a w).
Proof. done. Qed.

(** What a script amounts to: the changes of the headers, the status of its
    first [WriteHeader] or 200 when it writes first, and the text written. *)
Definition script_header (acts : list action) (h : header) : header :=
  foldl (λ h a, match a with ActHeader f => f h | _ => h end) h acts.

Fixpoint script_status (acts : list action) : option Z :=
  match acts with
  | [] => None
  | ActHeader _ :: acts => script_status acts
  | ActStatus code :: _ => Some code
  | ActWrite _ :: _ => Some StatusOK
  end.

Fixpoint script_body (acts : list action) : string :=
  match acts with
  | [] => ""
  | ActWrite data :: acts => data +:+ script_body acts
  | _ :: acts => script_body acts
  end.

Definition is_header (a : action) : bool := match a with ActHeader _ => true | _ => false end.

(** No header is changed once the status is sent. *)
Fixpoint headers_first (acts : list action) : bool :=
  match acts with
  | [] => true
  | ActHeader _ :: acts => headers_first acts
  | _ :: acts => forallb (negb ∘ is_header) acts
  end.

Lemma script_header_none acts h :
  forallb (negb ∘ is_header) acts = true → script_header acts h = h.
Proof.
  unfold script_header. induction acts as [|a acts IH] in h |- *; [done|]. cbn.
  intros [Ha Hs]%andb_true_iff. destruct a; [done| |]; by apply IH.
Qed.

(** A script on a response that was sent adds to its body. *)
Lemma replay_sent acts sent live body :
  forallb (negb ∘ is_header) acts = true →
  replay acts (mkResponse (Some sent) live body) = mkResponse (Some sent) live (body +:+ script_body acts).
Proof.
  unfold replay. induction acts as [|a acts IH] in body |- *; cbn.
  { by rewrite string_app_nil_r. }
  intros [Ha Hs]%andb_true_iff. destruct a; [done| |]; cbn; rewrite IH by done; [done|].
  by rewrite string_app_assoc.
Qed.

(** A script on a response of which nothing was sent. *)
Lemma replay_fresh acts live :
  headers_first acts = true →
  let w := replay acts (mkResponse None live "") in
  final_status w = default StatusOK (script_status acts) ∧
  final_header w = script_header acts live ∧ rw_body w = script_body acts.
Proof.
  induction acts as [|a acts IH] in live |- *; [done|]. intros Hs. rewrite replay_cons.
  destruct a as [f|code|data]; [by apply IH| |]; cbn in Hs |- *;
    rewrite replay_sent by done;
    (split_and!; [done| |done]); symmetry; by apply script_header_none.
Qed.

(** The writes of a script. *)
Definition is_write (a : action) : bool := match a with ActWrite _ => true | _ => false end.
Definition writes (acts : list action) : list action := List.filter is_write acts.
Definition headers (acts : list action) : list action := List.filter is_header acts.

Lemma script_body_app acts1 acts2 : script_body (acts1 ++ acts2) = script_body acts1 +:+ script_body acts2.
Proof.
  induction acts1 as [|a acts1 IH]; [done|]. destruct a; cbn; [done|done|].
  by rewrite IH, string_app_assoc.
Qed.

Lemma script_body_writes acts : script_body (writes acts) = script_body acts.
Proof. induction acts as [|a acts IH]; [done|]. destruct a; cbn; [done|done|]. by f_equal. Qed.

Lemma script_header_app acts1 acts2 h :
  script_header (acts1 ++ acts2) h = script_header acts2 (script_header acts1 h).
Proof. unfold script_header. by rewrite foldl_app. Qed.

Lemma writes_no_header acts : forallb (negb ∘ is_header) (writes acts) = true.
Proof. induction acts as [|a acts IH]; [done|]. by destruct a. Qed.

(** A script of header changes before another one. *)
Lemma headers_app sets rest h :
  forallb is_header sets = true →
  headers_first (sets ++ rest) = headers_first rest ∧
  script_status (sets ++ rest) = script_status rest ∧
  script_body (sets ++ rest) = script_body rest ∧
  script_header (sets ++ rest) h = script_header rest (script_header sets h).
Proof.
  intros Hs. rewrite script_header_app. split_and!; [| | |done].
  all: induction sets as [|a sets IH]; [done|]; cbn in Hs; apply andb_true_iff in Hs as [Ha Hs];
    destruct a; [by apply IH|done|done].
Qed.

(** Every script splits at the first call that sends the status. *)
Lemma headers_first_split acts :
  headers_first acts = true → ∃ sets rest, acts = sets ++ rest ∧
    forallb is_header sets = true ∧ forallb (negb ∘ is_header) rest = true.
Proof.
  induction acts as [|a acts IH]; [by exists [], []|]. destruct a as [f|c|d]; cbn; intros Hs.
  - destruct (IH Hs) as (sets & rest & -> & ? & ?). by exists (ActHeader f :: sets), rest.
  - by exists [], (ActStatus c :: acts).
  - by exists [], (ActWrite d :: acts).
Qed.

Lemma Header_of_replay `{ResponseWriterSpec R} sets (rw : R) :
  forallb is_header sets = true → Header_of (replay sets rw) = script_header sets (Header_of rw).
Proof.
  induction sets as [|a sets IH] in rw |- *; [done|]. intros [Ha Hs]%andb_true_iff.
  destruct a as [f| |]; [|done|done]. rewrite replay_cons, IH by done. cbn. by rewrite Header_with.
Qed.

(** A handler's effect on the world and its script on a request, for every
    writer that holds the headers [h0]. *)
Definition runs {W} (h : Handler W) (r : Request) (w : W) (h0 : header) (w' : W)
    (acts : list action) : Prop :=
  headers_first acts = true ∧
  ∀ R (RW : ResponseWriter R) (RWS : ResponseWriterSpec R) (rw : R),
    Header_of rw = h0 → h R RW rw r w = (w', replay acts rw).

(** The handler does nothing else with its writer than call its methods. *)
Definition scripted {W} (h : Handler W) : Prop := ∀ r w h0, ∃ w' acts, runs h r w h0 w' acts.

(** What the client sees of a run. *)
Lemma runs_fresh {W} (h : Handler W) r (w w' : W) acts :
  runs h r w ∅ w' acts →
  ∃ rw, h Response Response_writer fresh_response r w = (w', rw) ∧
    final_status rw = default StatusOK (script_status acts) ∧
    final_header rw = script_header acts ∅ ∧ rw_body rw = script_body acts.
Proof.
  intros [Hf Hrun]. eexists. split; [by apply Hrun; [apply _|]|]. by apply replay_fresh.
Qed.

(** The script of [http.Error] and of a JSON answer. *)
Definition error_script (msg : string) (code : Z) : list action :=
  [ActHeader (Header_Del "Content-Length");
   ActHeader (Header_Set "Content-Type" "text/plain; charset=utf-8");
   ActHeader (Header_Set "X-Content-Type-Options" "nosniff");
   ActStatus code; ActWrite (msg +:+ newline)].

Definition json_script `{Json A} (a : A) : list action :=
  ActHeader (Header_Set "Content-Type" "application/json") ::
  match json_Encode a with Ok text => [ActWrite text] | Fail _ => [] end.

Lemma replay_error_script `{ResponseWriter R} msg code (rw : R) :
  replay (error_script msg code) rw = http_Error msg code rw.
Proof. done. Qed.

Lemma replay_json_script `{ResponseWriter R} `{Json A} (a : A) (rw : R) :
  replay (json_script a) rw = write_json a (SetHeader "Content-Type" "application/json" rw).
Proof. unfold json_script, write_json. by destruct (json_Encode a). Qed.

Lemma headers_first_json `{Json A} (a : A) : headers_first (json_script a) = true.
Proof. unfold json_script. by destruct (json_Encode a). Qed.
