(* ===== verification/GoStrconv.v ===== *)
(** The conversions of [strconv] the program uses: [ParseInt] and [FormatInt]
    in base 10, and the interface of the floating-point ones. *)

From S2P Require Import Prelude GoErrors GoCrypto.
From Stdlib Require Import Ascii.

Definition ErrSyntax : error := Sentinel "invalid syntax".
Definition ErrRange : error := Sentinel "value out of range".

Definition maxUint64 : Z := 2 ^ 64 - 1.

(** ** Integers *)

Definition digit_of (c : ascii) : option Z :=
  let b := byte_of c in
  if ((48 <=? b) && (b <=? 57))%Z then Some (b - 48)%Z else None.

Definition digit_char (d : Z) : ascii := ascii_of (48 + d).

(** The loop of [ParseUint] in base 10; an overflow ends it at once. *)
Fixpoint ParseUint_loop (s : list ascii) (n : Z) : res Z :=
  match s with
  | [] => Ok n
  | c :: s =>
      match digit_of c with
      | None => Fail ErrSyntax
      | Some d =>
          if (maxUint64 / 10 + 1 <=? n)%Z then Fail ErrRange
          else if (maxUint64 <? n * 10 + d)%Z then Fail ErrRange
          else ParseUint_loop s (n * 10 + d)
      end
  end.

Definition ParseUint (s : list ascii) : res Z :=
  match s with [] => Fail ErrSyntax | _ => ParseUint_loop s 0 end.

Definition split_sign (l : list ascii) : bool * list ascii :=
  match l with
  | [] => (false, [])
  | c :: l' =>
      if decide (c = "+"%char) then (false, l')
      else if decide (c = "-"%char) then (true, l')
      else (false, l)
  end.

(** [ParseInt(s, 10, 64)] *)
Definition ParseInt (s : string) : res Z :=
  let '(neg, digits) := split_sign (String.list_ascii_of_string s) in
  match ParseUint digits with
  | Fail e => Fail e
  | Ok un =>
      if neg then if (2 ^ 63 <? un)%Z then Fail ErrRange else Ok (- un)%Z
      else if (2 ^ 63 <=? un)%Z then Fail ErrRange else Ok un
  end.

(** The decimal digits of a natural number, the last one first; 20 are enough
    for 64 bits. *)
Fixpoint digits (fuel : nat) (n : Z) : list Z :=
  match fuel with
  | O => []
  | S fuel => if (n <? 10)%Z then [n] else (n mod 10)%Z :: digits fuel (n / 10)
  end.

Definition format_nat (n : Z) : list ascii := map digit_char (rev (digits 20 n)).

(** [FormatInt(i, 10)] *)
Definition FormatInt (i : Z) : string :=
  String.string_of_list_ascii
    (if (i <? 0)%Z then "-"%char :: format_nat (- i) else format_nat i).

(** ** Lemmas *)

Lemma digit_of_char d : (0 ≤ d ≤ 9)%Z → digit_of (digit_char d) = Some d.
Proof.
  intros Hd. assert (d ∈ [0; 1; 2; 3; 4; 5; 6; 7; 8; 9]%Z) as Hin.
  { rewrite !elem_of_cons. lia. }
  repeat (apply elem_of_cons in Hin as [->|Hin]; [by vm_compute|]).
  by apply not_elem_of_nil in Hin.
Qed.

Definition horner (n : Z) (ds : list Z) : Z := foldl (λ n d, n * 10 + d)%Z n ds.

Lemma horner_ge n ds : (0 ≤ n)%Z → Forall (λ d, 0 ≤ d ≤ 9)%Z ds → (n ≤ horner n ds)%Z.
Proof.
  unfold horner. revert n. induction ds as [|d ds IH]; intros n Hn Hds; simpl; [lia|].
  apply Forall_cons in Hds as [Hd Hds]. etrans; [|apply IH; [lia|done]]. lia.
Qed.

Lemma ParseUint_loop_digits ds n :
  (0 ≤ n)%Z → Forall (λ d, 0 ≤ d ≤ 9)%Z ds → (horner n ds ≤ maxUint64)%Z →
  ParseUint_loop (map digit_char ds) n = Ok (horner n ds).
Proof.
  revert n. induction ds as [|d ds IH]; intros n Hn Hds Hmax; simpl; [done|].
  apply Forall_cons in Hds as [Hd Hds]. rewrite digit_of_char by done.
  change (horner n (d :: ds)) with (horner (n * 10 + d) ds) in *.
  pose proof (horner_ge (n * 10 + d) ds ltac:(lia) Hds).
  unfold maxUint64 in *.
  destruct (Z.leb_spec ((2 ^ 64 - 1) / 10 + 1) n) as [Hc|_].
  { change ((2 ^ 64 - 1) / 10 + 1)%Z with 1844674407370955162%Z in Hc. lia. }
  destruct (Z.ltb_spec (2 ^ 64 - 1) (n * 10 + d)); [lia|]. apply IH; [lia|done|done].
Qed.

Lemma digits_range fuel n : (0 ≤ n)%Z → Forall (λ d, 0 ≤ d ≤ 9)%Z (digits fuel n).
Proof.
  revert n. induction fuel as [|fuel IH]; intros n Hn; simpl; [constructor|].
  destruct (Z.ltb_spec n 10); constructor; [lia|constructor| |].
  - pose proof (Z.mod_pos_bound n 10). lia.
  - apply IH. by apply Z.div_pos.
Qed.

Lemma digits_value fuel n :
  (0 ≤ n < 10 ^ Z.of_nat fuel)%Z → horner 0 (rev (digits fuel n)) = n.
Proof.
  revert n. induction fuel as [|fuel IH]; intros n Hn; [simpl in *; lia|].
  cbn [digits]. destruct (Z.ltb_spec n 10) as [|Hge]; [unfold horner; simpl; lia|].
  cbn [rev]. unfold horner in *. rewrite foldl_app, IH.
  - simpl. pose proof (Z.div_mod n 10). lia.
  - rewrite Nat2Z.inj_succ, Z.pow_succ_r in Hn by lia.
    split; [apply Z.div_pos; lia|]. apply Z.div_lt_upper_bound; lia.
Qed.

Lemma digits_nonempty fuel n : digits (S fuel) n ≠ [].
Proof. simpl. by destruct (n <? 10)%Z. Qed.

Lemma ParseUint_format n : (0 ≤ n ≤ maxUint64)%Z → ParseUint (format_nat n) = Ok n.
Proof.
  intros Hn. unfold ParseUint, format_nat.
  destruct (map digit_char (rev (digits 20 n))) as [|c l] eqn:Hl.
  { apply map_eq_nil in Hl. apply (f_equal (@rev Z)) in Hl. rewrite rev_involutive in Hl.
    by apply digits_nonempty in Hl. }
  assert (horner 0 (rev (digits 20 n)) = n) as Hv.
  { apply digits_value. unfold maxUint64 in Hn. simpl. lia. }
  rewrite <-Hl. rewrite ParseUint_loop_digits; [by rewrite Hv|lia| |rewrite Hv; lia].
  apply Forall_rev, digits_range. lia.
Qed.

(** A formatted number starts with a digit, not a sign. *)
Lemma format_nat_head n : (0 ≤ n)%Z →
  ∃ d l, format_nat n = digit_char d :: l ∧ (0 ≤ d ≤ 9)%Z.
Proof.
  intros Hn. unfold format_nat. pose proof (Forall_rev (digits_range 20 n Hn)) as Hr.
  destruct (rev (digits 20 n)) as [|d l] eqn:Hl.
  { apply (f_equal (@rev Z)) in Hl. rewrite rev_involutive in Hl. by apply digits_nonempty in Hl. }
  apply Forall_cons in Hr as [Hd _]. by exists d, (map digit_char l).
Qed.

Lemma digit_char_sign d : (0 ≤ d ≤ 9)%Z → digit_char d ≠ "+"%char ∧ digit_char d ≠ "-"%char.
Proof.
  intros Hd. pose proof (digit_of_char d Hd) as Hc.
  split; intros Heq; rewrite Heq in Hc; by vm_compute in Hc.
Qed.

Lemma split_sign_format i : (0 ≤ i)%Z → split_sign (format_nat i) = (false, format_nat i).
Proof.
  intros Hi. destruct (format_nat_head i Hi) as (d & l & -> & Hd).
  destruct (digit_char_sign d Hd) as [Hp Hm]. simpl. by rewrite !decide_False by done.
Qed.

(** Formatting and parsing an [int64] are inverse. *)
Lemma ParseInt_FormatInt i : in_int64 i → ParseInt (FormatInt i) = Ok i.
Proof.
  unfold in_int64, int64_min, int64_max. intros Hi. unfold ParseInt, FormatInt.
  rewrite String.list_ascii_of_string_of_list_ascii.
  destruct (Z.ltb_spec i 0) as [Hneg|Hpos].
  - unfold split_sign. rewrite decide_False, decide_True by done.
    rewrite ParseUint_format by (unfold maxUint64; lia).
    destruct (Z.ltb_spec (2 ^ 63) (- i)); [lia|]. f_equal. lia.
  - rewrite split_sign_format, ParseUint_format by (unfold maxUint64; lia).
    destruct (Z.leb_spec (2 ^ 63) i); [lia|done].
Qed.

(** What is parsed is an [int64]. *)
Lemma ParseUint_loop_nonneg l n z : (0 ≤ n)%Z → ParseUint_loop l n = Ok z → (0 ≤ z)%Z.
Proof.
  revert n. induction l as [|c l IH]; intros n Hn; simpl; [by intros [= <-]|].
  destruct (digit_of c) as [d|] eqn:Hd; [|done].
  assert (0 ≤ d)%Z.
  { unfold digit_of in Hd. destruct (_ && _) eqn:Hr; [|done]. injection Hd as <-.
    apply andb_true_iff in Hr as [Hr _]. apply Z.leb_le in Hr. lia. }
  destruct (_ <=? _)%Z; [done|]. destruct (_ <? _)%Z; [done|]. apply IH. lia.
Qed.

Lemma ParseInt_range s z : ParseInt s = Ok z → in_int64 z.
Proof.
  unfold ParseInt, in_int64, int64_min, int64_max.
  destruct (split_sign _) as [neg ds]. destruct (ParseUint ds) as [un|e] eqn:Hu; [|done].
  assert (0 ≤ un)%Z.
  { unfold ParseUint in Hu. destruct ds; [done|]. by eapply ParseUint_loop_nonneg in Hu. }
  destruct neg.
  - destruct (Z.ltb_spec (2 ^ 63) un); [done|]. intros [= <-]. lia.
  - destruct (Z.leb_spec (2 ^ 63) un); [done|]. intros [= <-]. lia.
Qed.

(** ** Floating-point numbers

    [ParseFloat(s, 64)] and [FormatFloat(f, 'f', -1, 64)], with what the
    documentation says of them: the shortest text parses back to the number,
    and the spellings of NaN are accepted. *)
Class FloatText : Type := {
  ParseFloat : string → res float64;
  FormatFloat : float64 → string
}.

Class FloatTextSpec `{FloatText} : Prop := {
  ParseFloat_FormatFloat f : ParseFloat (FormatFloat f) = Ok f;
  ParseFloat_NaN : ParseFloat "NaN" = Ok S754_nan
}.
