(* ===== verification/GoFlag.v ===== *)
(** The parts of Go's [flag] the programs use, with the conversions of flag
    texts: integers in any base ([ParseInt(s, 0, 64)]) and booleans. *)

From S2P Require Import Prelude GoErrors GoCrypto GoHttp GoStrconv.
From Stdlib Require Import Ascii.

(** A sequence of calls that return at the first error. *)
Notation "'let?' x := c 'in' k" := (match c with Ok x => k | Fail e => Fail e end)
  (at level 200, x pattern, c at level 99, k at level 200) : go_scope.

(** ** Integers in base 0 *)

(** The value of a digit or letter. *)
Definition digit_value (c : ascii) : option Z :=
  let b := byte_of (to_lower c) in
  if ((48 <=? b) && (b <=? 57))%Z then Some (b - 48)%Z
  else if ((97 <=? b) && (b <=? 122))%Z then Some (b - 87)%Z else None.

Definition underscore : ascii := "_"%char.

(** The base that a prefix announces, and the text after it. *)
Definition base_prefix (s : list ascii) : Z * list ascii :=
  match s with
  | z :: s' =>
      if decide (z = "0"%char) then
        match s' with
        | p :: ((_ :: _) as rest) =>
            if decide (to_lower p = "b"%char) then (2%Z, rest)
            else if decide (to_lower p = "o"%char) then (8%Z, rest)
            else if decide (to_lower p = "x"%char) then (16%Z, rest)
            else (8%Z, s')
        | _ => (8%Z, s')
        end
      else (10%Z, s)
  | [] => (10%Z, [])
  end.

(** The loop of [ParseUint]: the number, and whether an underscore was seen. *)
Fixpoint ParseUint0_loop (base : Z) (s : list ascii) (n : Z) (underscores : bool) : res (Z * bool) :=
  match s with
  | [] => Ok (n, underscores)
  | c :: s =>
      if decide (c = underscore) then ParseUint0_loop base s n true
      else match digit_value c with
      | None => Fail ErrSyntax
      | Some d =>
          if (base <=? d)%Z then Fail ErrSyntax
          else if (maxUint64 / base + 1 <=? n)%Z then Fail ErrRange
          else if (maxUint64 <? n * base + d)%Z then Fail ErrRange
          else ParseUint0_loop base s (n * base + d) underscores
      end
  end.

(** [underscoreOK] after its sign: underscores only between digits, a base prefix
    counting as a digit. *)
Inductive seen : Type := SawStart | SawDigit | SawUnderscore | SawOther.

Fixpoint underscore_loop (hex : bool) (s : list ascii) (saw : seen) : bool :=
  match s with
  | [] => match saw with SawUnderscore => false | _ => true end
  | c :: s =>
      if digit c || hex && match digit_value c with Some d => (d <? 16)%Z | None => false end
      then underscore_loop hex s SawDigit
      else if decide (c = underscore) then
        match saw with SawDigit => underscore_loop hex s SawUnderscore | _ => false end
      else match saw with SawUnderscore => false | _ => underscore_loop hex s SawOther end
  end.

Definition underscoreOK (s : list ascii) : bool :=
  match s with
  | z :: p :: s' =>
      if decide (z = "0"%char) then
        if decide (to_lower p = "x"%char) then underscore_loop true s' SawDigit
        else if decide (to_lower p = "b"%char ∨ to_lower p = "o"%char)
        then underscore_loop false s' SawDigit
        else underscore_loop false s SawStart
      else underscore_loop false s SawStart
  | _ => underscore_loop false s SawStart
  end.

Definition ParseUint0 (s : list ascii) : res Z :=
  match s with
  | [] => Fail ErrSyntax
  | _ =>
      let '(base, digits) := base_prefix s in
      match ParseUint0_loop base digits 0 false with
      | Fail e => Fail e
      | Ok (n, underscores) => if underscores && negb (underscoreOK s) then Fail ErrSyntax else Ok n
      end
  end.

(** [ParseInt(s, 0, 64)] *)
Definition ParseInt0 (s : string) : res Z :=
  let '(neg, digits) := split_sign (String.list_ascii_of_string s) in
  match ParseUint0 digits with
  | Fail e => Fail e
  | Ok un =>
      if neg then if (2 ^ 63 <? un)%Z then Fail ErrRange else Ok (- un)%Z
      else if (2 ^ 63 <=? un)%Z then Fail ErrRange else Ok un
  end.

Definition ParseBool (s : string) : res bool :=
  if decide (s ∈ ["1"; "t"; "T"; "TRUE"; "true"; "True"]) then Ok true
  else if decide (s ∈ ["0"; "f"; "F"; "FALSE"; "false"; "False"]) then Ok false
  else Fail ErrSyntax.

Definition FormatBool (b : bool) : string := if b then "true" else "false".

(** ** Flag sets

    A flag is bound to a variable, which two flags may share; [actual] holds the
    names that were set. *)
Inductive flag_value : Type :=
| VString (s : string)
| VInt (i : Z)
| VBool (b : bool).

Record FlagSet : Type := mkFlagSet {
  formal : gmap string string;          (* flag name to variable *)
  variables : gmap string flag_value;
  actual : gset string
}.

Definition no_flags : FlagSet := mkFlagSet ∅ ∅ ∅.

(** [flag.String], [Int], [Bool] and [StringVar]. *)
Definition Var (name variable : string) (v : flag_value) (f : FlagSet) : FlagSet :=
  mkFlagSet (<[name := variable]> (formal f)) (<[variable := v]> (variables f)) (actual f).

Definition Lookup (name : string) (f : FlagSet) : option flag_value :=
  variable ← formal f !! name; variables f !! variable.

(** [Value.Set] of the three kinds. *)
Definition parse_value (kind : flag_value) (text : string) : res flag_value :=
  match kind with
  | VString _ => Ok (VString text)
  | VInt _ => match ParseInt0 text with Ok i => Ok (VInt i) | Fail _ => Fail (Msg "parse error") end
  | VBool _ => match ParseBool text with Ok b => Ok (VBool b) | Fail _ => Fail (Msg "parse error") end
  end.

Definition Set_ (name text : string) (f : FlagSet) : res FlagSet :=
  match formal f !! name with
  | None => Fail (Msg "no such flag")
  | Some variable =>
      match variables f !! variable with
      | None => Fail (Msg "no such flag")
      | Some kind =>
          match parse_value kind text with
          | Fail e => Fail e
          | Ok v => Ok (mkFlagSet (formal f) (<[variable := v]> (variables f)) ({[name]} ∪ actual f))
          end
      end
  end.

(** What an argument is to the parser. *)
Inductive argument : Type :=
| NotFlag
| BadSyntax
| FlagArg (name : string) (value : option string).

(** A name up to its first equals sign, which is not its first byte. *)
Fixpoint split_equals (s : string) : string * option string :=
  match s with
  | "" => ("", None)
  | String c s =>
      if decide (c = "="%char) then ("", Some s)
      else let '(name, value) := split_equals s in (String c name, value)
  end.

Definition flag_name (name : string) : argument :=
  match name with
  | "" => BadSyntax
  | String c rest =>
      if decide (c = "-"%char ∨ c = "="%char) then BadSyntax
      else let '(name, value) := split_equals rest in FlagArg (String c name) value
  end.

Definition read_argument (s : string) : argument :=
  match s with
  | String d (String c rest) =>
      if decide (d = "-"%char) then
        if decide (c = "-"%char) then if decide (rest = "") then NotFlag else flag_name rest
        else flag_name (String c rest)
      else NotFlag
  | _ => NotFlag
  end.

(** [flag.Parse] on the arguments: the program exits on an error, and with
    success after printing the help. *)
Definition exit_usage : error := Sentinel "exit status 2".
Definition exit_help : error := Sentinel "exit status 0".

Fixpoint Parse (args : list string) (f : FlagSet) : res FlagSet :=
  match args with
  | [] => Ok f
  | s :: rest =>
      match read_argument s with
      | NotFlag => Ok f
      | BadSyntax => Fail exit_usage
      | FlagArg name value =>
          match Lookup name f, value with
          | None, _ => Fail (if decide (name ∈ ["help"; "h"]) then exit_help else exit_usage)
          | Some _, Some value =>
              match Set_ name value f with Ok f => Parse rest f | Fail _ => Fail exit_usage end
          | Some (VBool _), None =>
              match Set_ name "true" f with Ok f => Parse rest f | Fail _ => Fail exit_usage end
          | Some _, None =>
              match rest with
              | [] => Fail exit_usage
              | value :: rest =>
                  match Set_ name value f with Ok f => Parse rest f | Fail _ => Fail exit_usage end
              end
          end
      end
  end.

(** ** Lemmas *)

Lemma digits_last fuel n l d : (0 < n)%Z → (n < 10 ^ Z.of_nat fuel)%Z → digits fuel n = l ++ [d] → (0 < d)%Z.
Proof.
  revert n l. induction fuel as [|fuel IH]; intros n l Hn Hlt; [simpl in Hlt; lia|].
  cbn [digits]. destruct (Z.ltb_spec n 10) as [Hs|Hge].
  - intros Heq. destruct l as [|x l]; simplify_eq/=; [done|]. by destruct l.
  - destruct l as [|x l]; intros Heq; injection Heq as Hx Heq.
    + exfalso. destruct fuel as [|fuel]; [simpl in Hlt; lia|]. by apply digits_nonempty in Heq.
    + apply (IH (n / 10)%Z l); [|apply Z.div_lt_upper_bound; [lia|]|done].
      * apply Z.div_str_pos. lia.
      * rewrite Nat2Z.inj_succ, Z.pow_succ_r in Hlt by lia. lia.
Qed.

Lemma digit_value_char d : (0 ≤ d ≤ 9)%Z →
  digit_value (digit_char d) = Some d ∧ digit_char d ≠ underscore ∧ (digit_char d = "0"%char ↔ d = 0%Z).
Proof.
  intros Hd. assert (d ∈ [0; 1; 2; 3; 4; 5; 6; 7; 8; 9]%Z) as Hin.
  { rewrite !elem_of_cons. lia. }
  repeat (apply elem_of_cons in Hin as [->|Hin]; [by vm_compute|]).
  by apply not_elem_of_nil in Hin.
Qed.

Lemma ParseUint0_loop_digits ds n u :
  (0 ≤ n)%Z → Forall (λ d, 0 ≤ d ≤ 9)%Z ds → (horner n ds ≤ maxUint64)%Z →
  ParseUint0_loop 10 (map digit_char ds) n u = Ok (horner n ds, u).
Proof.
  revert n. induction ds as [|d ds IH]; intros n Hn Hds Hmax; cbn [map ParseUint0_loop]; [done|].
  apply Forall_cons in Hds as [Hd Hds]. destruct (digit_value_char d Hd) as (-> & Hu & _).
  rewrite decide_False by done.
  change (horner n (d :: ds)) with (horner (n * 10 + d) ds) in *.
  pose proof (horner_ge (n * 10 + d) ds ltac:(lia) Hds). unfold maxUint64 in *.
  destruct (Z.leb_spec 10 d); [lia|].
  destruct (Z.leb_spec ((2 ^ 64 - 1) / 10 + 1) n) as [Hc|_].
  { change ((2 ^ 64 - 1) / 10 + 1)%Z with 1844674407370955162%Z in Hc. lia. }
  destruct (Z.ltb_spec (2 ^ 64 - 1) (n * 10 + d)); [lia|]. apply IH; [lia|done|done].
Qed.

(** A decimal text without leading zeros is read in base 10. *)
Lemma ParseUint0_format n : (0 ≤ n ≤ maxUint64)%Z → ParseUint0 (format_nat n) = Ok n.
Proof.
  intros Hn. assert (n < 10 ^ Z.of_nat 20)%Z as Hlt by (unfold maxUint64 in Hn; simpl; lia).
  destruct (decide (n = 0%Z)) as [->|Hne]; [by vm_compute|].
  unfold ParseUint0, format_nat.
  assert (Forall (λ d, 0 ≤ d ≤ 9)%Z (rev (digits 20 n))) as Hr by (apply Forall_rev, digits_range; lia).
  pose proof (digits_value 20 n ltac:(lia)) as Hv.
  destruct (rev (digits 20 n)) as [|d l] eqn:Hl; [simpl in Hv; lia|].
  assert (0 < d)%Z as Hd.
  { apply (digits_last 20 n (rev l)); [lia|done|].
    rewrite <-(rev_involutive (digits 20 n)), Hl. done. }
  pose proof (Forall_inv Hr) as Hd9. destruct (digit_value_char d Hd9) as (_ & _ & Hz).
  cbn [map base_prefix]. rewrite decide_False by (rewrite Hz; lia).
  change (digit_char d :: map digit_char l) with (map digit_char (d :: l)).
  rewrite ParseUint0_loop_digits by (done || lia || (rewrite Hv; lia)).
  by rewrite Hv.
Qed.

(** What [Itoa] writes, a flag reads back. *)
Lemma ParseInt0_FormatInt i : in_int64 i → ParseInt0 (FormatInt i) = Ok i.
Proof.
  unfold in_int64, int64_min, int64_max. intros Hi. unfold ParseInt0, FormatInt.
  rewrite String.list_ascii_of_string_of_list_ascii.
  destruct (Z.ltb_spec i 0) as [Hneg|Hpos].
  - unfold split_sign. rewrite decide_False, decide_True by done.
    rewrite ParseUint0_format by (unfold maxUint64; lia).
    destruct (Z.ltb_spec (2 ^ 63) (- i)); [lia|]. f_equal. lia.
  - rewrite split_sign_format, ParseUint0_format by (unfold maxUint64; lia).
    destruct (Z.leb_spec (2 ^ 63) i); [lia|done].
Qed.

Lemma digit_value_nonneg c d : digit_value c = Some d → (0 ≤ d)%Z.
Proof.
  unfold digit_value. destruct (_ && _) eqn:Ha.
  - intros [= <-]. apply andb_true_iff in Ha as [Ha _]. apply Z.leb_le in Ha. lia.
  - clear Ha. destruct (_ && _) eqn:Ha; [|done]. intros [= <-].
    apply andb_true_iff in Ha as [Ha _]. apply Z.leb_le in Ha. lia.
Qed.

Lemma ParseUint0_loop_nonneg base l n u z u' :
  (0 ≤ base)%Z → (0 ≤ n)%Z → ParseUint0_loop base l n u = Ok (z, u') → (0 ≤ z)%Z.
Proof.
  intros Hb. revert n u. induction l as [|c l IH]; intros n u Hn; cbn [ParseUint0_loop]; [by intros [= <-]|].
  case_decide; [by apply IH|]. destruct (digit_value c) as [d|] eqn:Hd; [|done].
  apply digit_value_nonneg in Hd. destruct (_ <=? d)%Z; [done|].
  destruct (_ <=? n)%Z; [done|]. destruct (_ <? _)%Z; [done|]. apply IH. nia.
Qed.

(** What a flag reads is an [int64]. *)
Lemma ParseInt0_range s z : ParseInt0 s = Ok z → in_int64 z.
Proof.
  unfold ParseInt0, in_int64, int64_min, int64_max.
  destruct (split_sign _) as [neg ds]. destruct (ParseUint0 ds) as [un|e] eqn:Hu; [|done].
  assert (0 ≤ un)%Z.
  { unfold ParseUint0 in Hu. destruct ds as [|c ds]; [done|].
    destruct (base_prefix (c :: ds)) as [base l] eqn:Hbp.
    destruct (ParseUint0_loop base l 0 false) as [[m u]|] eqn:Hloop; [|done].
    apply ParseUint0_loop_nonneg in Hloop; [|clear Hloop Hu|lia].
    - destruct (_ && _); [done|]. by injection Hu as <-.
    - unfold base_prefix in Hbp. repeat case_decide; simplify_eq/=; try lia;
        destruct ds as [|p [|q ds]]; repeat case_decide; simplify_eq/=; lia. }
  destruct neg.
  - destruct (Z.ltb_spec (2 ^ 63) un); [done|]. intros [= <-]. lia.
  - destruct (Z.leb_spec (2 ^ 63) un); [done|]. intros [= <-]. lia.
Qed.

Lemma ParseBool_FormatBool b : ParseBool (FormatBool b) = Ok b.
Proof. by destruct b. Qed.

(** ** Flag sets: lemmas

    The names, the variables behind them and their types never change. *)
Definition zero_of (v : flag_value) : flag_value :=
  match v with VString _ => VString "" | VInt _ => VInt 0 | VBool _ => VBool false end.

Definition shape (f : FlagSet) : gmap string string * gmap string flag_value :=
  (formal f, zero_of <$> variables f).

(** The flag has a variable of its own. *)
Definition owns (f : FlagSet) (name : string) : Prop :=
  formal f !! name = Some name ∧ map_Forall (λ n x, x = name → n = name) (formal f).

#[export] Instance owns_dec f name : Decision (owns f name).
Proof. unfold owns. apply _. Defined.

Definition assign (name : string) (v : flag_value) (f : FlagSet) : FlagSet :=
  mkFlagSet (formal f) (<[name := v]> (variables f)) ({[name]} ∪ actual f).

Lemma parse_value_kind k text v : parse_value k text = Ok v → zero_of v = zero_of k.
Proof.
  destruct k; simpl; [by intros [= <-]| |];
    [destruct (ParseInt0 text)|destruct (ParseBool text)]; by intros; simplify_eq.
Qed.

Lemma Set_cases name text f f' :
  Set_ name text f = Ok f' →
  ∃ x k v, formal f !! name = Some x ∧ variables f !! x = Some k ∧ parse_value k text = Ok v ∧
    f' = mkFlagSet (formal f) (<[x := v]> (variables f)) ({[name]} ∪ actual f).
Proof.
  unfold Set_. destruct (formal f !! name) as [x|]; [|done].
  destruct (variables f !! x) as [k|] eqn:Hk; [|done].
  destruct (parse_value k text) as [v|] eqn:Hv; [|done]. intros [= <-]. by exists x, k, v.
Qed.

Lemma shape_insert f x k v :
  variables f !! x = Some k → zero_of v = zero_of k →
  zero_of <$> <[x := v]> (variables f) = zero_of <$> variables f.
Proof.
  intros Hk Hz. rewrite fmap_insert, Hz. apply insert_id. by rewrite lookup_fmap, Hk.
Qed.

Lemma Set_shape name text f f' : Set_ name text f = Ok f' → shape f' = shape f.
Proof.
  intros (x & k & v & _ & Hk & Hv & ->)%Set_cases. unfold shape. simpl.
  f_equal. eapply shape_insert; [done|]. by eapply parse_value_kind.
Qed.

Lemma owns_shape f f' name : shape f' = shape f → owns f name → owns f' name.
Proof. intros [= Hf _]. unfold owns. by rewrite Hf. Qed.

(** A variable of its own changes only with its flag. *)
Lemma Set_untouched name text f f' x :
  owns f x → Set_ name text f = Ok f' → x ∉ actual f' →
  variables f' !! x = variables f !! x ∧ x ∉ actual f.
Proof.
  intros [_ Hown] (y & k & v & Hy & _ & _ & ->)%Set_cases. simpl. intros Hx.
  apply not_elem_of_union in Hx as [Hne Hx]. split; [|done]. apply lookup_insert_ne.
  intros ->. apply Hne. rewrite (Hown name x Hy eq_refl). set_solver.
Qed.

Definition step_to (f f' : FlagSet) : Prop := ∃ name text, Set_ name text f = Ok f'.

Lemma Parse_steps args f f' : Parse args f = Ok f' → rtc step_to f f'.
Proof.
  remember (length args) as n eqn:Hn. revert args f Hn.
  induction (lt_wf n) as [n _ IH]; intros args f -> H.
  assert (∀ name text rest, length rest < length args →
    match Set_ name text f with Ok f => Parse rest f | Fail _ => Fail exit_usage end = Ok f' →
    rtc step_to f f') as Hstep.
  { intros name text rest Hlt. destruct (Set_ name text f) as [f1|] eqn:Hs; [|done].
    intros Hp. eapply rtc_l; [by exists name, text|]. by eapply (IH (length rest)). }
  destruct args as [|s rest]; simpl in H; [by injection H as <-|].
  destruct (read_argument s) as [| |name value]; [by injection H as <-|done|].
  destruct (Lookup name f) as [k|]; [|done].
  destruct value as [value|]; [destruct k; (eapply Hstep; [|done]; simpl; lia)|].
  destruct k; [|  |eapply Hstep; [|done]; simpl; lia];
    (destruct rest as [|value rest]; [done|]; eapply Hstep; [|done]; simpl; lia).
Qed.

(** What [Parse] leaves of a flag that does not occur. *)
Lemma Parse_spec args f f' :
  Parse args f = Ok f' →
  shape f' = shape f ∧ actual f ⊆ actual f' ∧
  (∀ x, owns f x → x ∉ actual f' → variables f' !! x = variables f !! x).
Proof.
  intros H%Parse_steps.
  induction H as [f|f f1 f2 (name & text & Hs) _ (IH1 & IH2 & IH3)]; [done|].
  pose proof (Set_shape _ _ _ _ Hs) as Hsh. split; [congruence|]. split.
  { apply Set_cases in Hs as (x & k & v & _ & _ & _ & ->). simpl in IH2. set_solver. }
  intros x Hx Hn. rewrite IH3 by (done || by eapply owns_shape).
  eapply Set_untouched; [done..|]. set_solver.
Qed.
