(* ===== verification/Config.v ===== *)
(** The configuration of both programs ([src/internal/config]): defaults, a JSON
    file, explicit flags and the environment, in that order of precedence. *)

From S2P Require Import Prelude GoErrors GoCrypto GoJson GoHttp GoStrconv GoFlag Retry.
From Stdlib Require Import Ascii.

(** ** What the code relies on

    [time.ParseDuration] in nanoseconds. *)
Class DurationText : Type := ParseDuration : string → res Z.

(** A duration is an [int64], and so is what [encoding/json] stores in an
    [int]; the file's object is decoded to its raw members. *)
Class ConfigTextSpec `{DurationText} `{Json Z} : Prop := {
  ParseDuration_range s d : ParseDuration s = Ok d → in_int64 d;
  json_int_range s z : json_Unmarshal (A:=Z) s = Ok z → in_int64 z
}.

(** ** Validation ([duration.go], [grpc.go], and the helpers of the loaders) *)

Definition validateSeconds (seconds : Z) : err :=
  if (int64_max / Second <? seconds)%Z then Some (Msg "exceeds maximum supported duration") else None.

Definition validateGRPCSecurity (address key cryptoKey : string) : err :=
  if decide (address ≠ "" ∧ (key ≠ "" ∨ cryptoKey ≠ ""))
  then Some (Msg "gRPC does not support KEY/-k or CRYPTO_KEY/-crypto-key; use HTTP for signed/encrypted requests or explicitly clear these settings")
  else None.

(** [strings.HasPrefix] and [TrimPrefix] of a prefix that is there. *)
Fixpoint after_prefix (prefix s : string) : option string :=
  match prefix, s with
  | "", _ => Some s
  | String p prefix, String c s => if decide (p = c) then after_prefix prefix s else None
  | String _ _, "" => None
  end.

Definition normalizeListenAddr (addr : string) : string :=
  match after_prefix "http://" addr with
  | Some rest => rest
  | None => match after_prefix "https://" addr with Some rest => rest | None => addr end
  end.

Definition normalizeServerURL (addr : string) : string :=
  match after_prefix "http://" addr, after_prefix "https://" addr with
  | None, None => "http://" +:+ addr
  | _, _ => addr
  end.

(** [strconv.Atoi] is [ParseInt(s, 10, 0)]. *)
Definition parseNonNegativeSeconds (value : string) : res Z :=
  match ParseInt value with
  | Fail e => Fail (Wrap "must be an integer value in seconds" e)
  | Ok seconds => if (seconds <? 0)%Z then Fail (Msg "must be non-negative") else Ok seconds
  end.

Definition parsePositiveSeconds (value : string) : res Z :=
  match ParseInt value with
  | Fail e => Fail (Wrap "must be an integer value in seconds" e)
  | Ok seconds => if (seconds <=? 0)%Z then Fail (Msg "must be positive") else Ok seconds
  end.

(** ** The JSON file ([file.go]) *)

Record fileOption : Type := mkOption {
  field : string;
  flag : string;
  env : list string;
  duration : bool
}.

(** The process: its arguments after the program's name, its environment, and
    [os.ReadFile]. *)
Record Process : Type := mkProcess {
  arguments : list string;
  environment : gmap string string;
  ReadFile : string → res string
}.

Definition LookupEnv (p : Process) (name : string) : option string := environment p !! name.

(** Both flags are bound to the one variable [path]. *)
Definition configFileFlags (f : FlagSet) : FlagSet :=
  Var "config" "path" (VString "") (Var "c" "path" (VString "") f).

Section config.
Context `{!DurationText} `{!Json (option (gmap string string))} `{!Json string} `{!Json Z} `{!Json bool}.

Definition fileFlagValue (raw : string) (option : fileOption) (f : FlagSet) : res string :=
  if decide (raw = "null") then Fail (Msg "null is not a configuration value")
  else if duration option then
    match json_Unmarshal (A:=string) raw with
    | Fail e => Fail (Wrap "expected duration string" e)
    | Ok value =>
        match ParseDuration value with
        | Fail e => Fail (Wrap "parse duration" e)
        | Ok d =>
            if decide (Z.rem d Second ≠ 0)%Z
            then Fail (Msg "duration must be a whole number of seconds")
            else Ok (FormatInt (Z.quot d Second))
        end
    end
  else match Lookup (flag option) f with
  | Some (VString _) => json_Unmarshal (A:=string) raw
  | Some (VInt _) => let? value := json_Unmarshal (A:=Z) raw in Ok (FormatInt value)
  | Some (VBool _) => let? value := json_Unmarshal (A:=bool) raw in Ok (FormatBool value)
  | None => Fail (Sentinel "nil pointer dereference")
  end.

Definition overridden (p : Process) (option : fileOption) : bool :=
  existsb (λ name, bool_decide (is_Some (LookupEnv p name))) (env option).

(** One round of the loop over the options. *)
Definition apply_option (p : Process) (fields : gmap string string) (explicit : gset string)
    (option : fileOption) (f : FlagSet) : FlagSet * err :=
  match fields !! field option with
  | None => (f, None)
  | Some raw =>
      if decide (flag option ∈ explicit) then (f, None)
      else if overridden p option then (f, None)
      else match fileFlagValue raw option f with
      | Fail e => (f, Some (Wrap "config field" e))
      | Ok value =>
          match Set_ (flag option) value f with
          | Fail e => (f, Some (Wrap "config field" e))
          | Ok f => (f, None)
          end
      end
  end.

Fixpoint apply_options (p : Process) (fields : gmap string string) (explicit : gset string)
    (options : list fileOption) (f : FlagSet) : FlagSet * err :=
  match options with
  | [] => (f, None)
  | option :: options =>
      match apply_option p fields explicit option f with
      | (f, Some e) => (f, Some e)
      | (f, None) => apply_options p fields explicit options f
      end
  end.

(** The members of the file, [None] without a file. *)
Definition read_fields (p : Process) (path : string) : res (option (gmap string string)) :=
  let path := default path (LookupEnv p "CONFIG") in
  if decide (path = "") then Ok None
  else match ReadFile p path with
  | Fail e => Fail (Wrap "read config" e)
  | Ok data =>
      match json_Unmarshal (A:=option (gmap string string)) data with
      | Fail e => Fail (Wrap "decode config" e)
      | Ok None => Fail (Msg "config must be a JSON object")
      | Ok (Some fields) => Ok (Some fields)
      end
  end.

Definition applyFile (p : Process) (path : string) (options : list fileOption) (f : FlagSet)
  : FlagSet * err :=
  match read_fields p path with
  | Fail e => (f, Some e)
  | Ok None => (f, None)
  | Ok (Some fields) =>
      if decide (dom fields ⊆ list_to_set (map field options))
      then apply_options p fields (actual f) options f
      else (f, Some (Msg "unknown config field"))
  end.

(** ** The loaders ([server.go], [agent.go]) *)

Definition text (f : FlagSet) (x : string) : string :=
  match variables f !! x with Some (VString s) => s | _ => "" end.
Definition number (f : FlagSet) (x : string) : Z :=
  match variables f !! x with Some (VInt i) => i | _ => 0%Z end.
Definition switch (f : FlagSet) (x : string) : bool :=
  match variables f !! x with Some (VBool b) => b | _ => false end.

(** [if value, ok := os.LookupEnv(name); ok { setting = value }] *)
Definition or_env (p : Process) (name setting : string) : string :=
  match LookupEnv p name with Some value => value | None => setting end.

Record ServerConfig : Type := mkServerConfig {
  Address : string;
  GRPCAddress : string;
  GRPCTLSCert : string;
  GRPCTLSKey : string;
  StoreInterval : Z;
  FileStoragePath : string;
  FileStorageEnabled : bool;
  Restore : bool;
  DatabaseDSN : string;
  Key : string;
  CryptoKey : string;
  AuditFile : string;
  AuditURL : string;
  TrustedSubnet : string
}.

Definition own_flag (name : string) (v : flag_value) (f : FlagSet) : FlagSet := Var name name v f.

Definition server_flags : FlagSet :=
  let f := own_flag "grpc-address" (VString "") no_flags in
  let f := own_flag "grpc-tls-cert" (VString "") f in
  let f := own_flag "grpc-tls-key" (VString "") f in
  let f := own_flag "a" (VString "localhost:8080") f in
  let f := own_flag "i" (VInt 300) f in
  let f := own_flag "f" (VString "metrics-storage.json") f in
  let f := own_flag "r" (VBool true) f in
  let f := own_flag "d" (VString "") f in
  let f := own_flag "k" (VString "") f in
  let f := own_flag "crypto-key" (VString "") f in
  let f := own_flag "audit-file" (VString "") f in
  let f := own_flag "audit-url" (VString "") f in
  let f := own_flag "t" (VString "") f in
  configFileFlags f.

Definition server_options : list fileOption := [
  mkOption "grpc_address" "grpc-address" ["GRPC_ADDRESS"] false;
  mkOption "grpc_tls_cert" "grpc-tls-cert" ["GRPC_TLS_CERT"] false;
  mkOption "grpc_tls_key" "grpc-tls-key" ["GRPC_TLS_KEY"] false;
  mkOption "address" "a" ["ADDRESS"] false;
  mkOption "store_interval" "i" ["STORE_INTERVAL"] true;
  mkOption "store_file" "f" ["FILE_STORAGE_PATH"; "STORE_FILE"] false;
  mkOption "restore" "r" ["RESTORE"] false;
  mkOption "database_dsn" "d" ["DATABASE_DSN"] false;
  mkOption "key" "k" ["KEY"] false;
  mkOption "crypto_key" "crypto-key" ["CRYPTO_KEY"] false;
  mkOption "audit_file" "audit-file" ["AUDIT_FILE"] false;
  mkOption "audit_url" "audit-url" ["AUDIT_URL"] false;
  mkOption "trusted_subnet" "t" ["TRUSTED_SUBNET"] false
].

Definition LoadServerConfig (p : Process) : res ServerConfig :=
  let? f := Parse (arguments p) server_flags in
  match applyFile p (text f "path") server_options f with
  | (_, Some e) => Fail e
  | (f, None) =>
      let fileStorageFlagSet := bool_decide ("f" ∈ actual f) in
      let? storeInterval := match LookupEnv p "STORE_INTERVAL" with
        | Some value => parseNonNegativeSeconds value
        | None => Ok (number f "i")
        end in
      let path := text f "f" in
      let enabled := fileStorageFlagSet && bool_decide (path ≠ "") in
      let '(path, enabled) := match LookupEnv p "STORE_FILE" with
        | Some value => (value, bool_decide (value ≠ ""))
        | None => (path, enabled)
        end in
      let '(path, enabled) := match LookupEnv p "FILE_STORAGE_PATH" with
        | Some value => (value, bool_decide (value ≠ ""))
        | None => (path, enabled)
        end in
      let? restore := match LookupEnv p "RESTORE" with
        | Some value =>
            match ParseBool value with
            | Fail e => Fail (Wrap "RESTORE must be boolean" e)
            | Ok parsed => Ok parsed
            end
        | None => Ok (switch f "r")
        end in
      let cfg := {|
        GRPCAddress := or_env p "GRPC_ADDRESS" (text f "grpc-address");
        Address := or_env p "ADDRESS" (text f "a");
        StoreInterval := storeInterval;
        FileStoragePath := path;
        FileStorageEnabled := enabled;
        Restore := restore;
        DatabaseDSN := or_env p "DATABASE_DSN" (text f "d");
        Key := or_env p "KEY" (text f "k");
        CryptoKey := or_env p "CRYPTO_KEY" (text f "crypto-key");
        AuditFile := or_env p "AUDIT_FILE" (text f "audit-file");
        AuditURL := or_env p "AUDIT_URL" (text f "audit-url");
        TrustedSubnet := or_env p "TRUSTED_SUBNET" (text f "t");
        GRPCTLSCert := or_env p "GRPC_TLS_CERT" (text f "grpc-tls-cert");
        GRPCTLSKey := or_env p "GRPC_TLS_KEY" (text f "grpc-tls-key")
      |} in
      if (StoreInterval cfg <? 0)%Z then Fail (Msg "store interval must be non-negative")
      else match validateSeconds (StoreInterval cfg) with
      | Some e => Fail e
      | None =>
          if decide (GRPCAddress cfg ≠ "" ∧ (GRPCTLSCert cfg = "" ∨ GRPCTLSKey cfg = ""))
          then Fail (Msg "gRPC requires GRPC_TLS_CERT/-grpc-tls-cert and GRPC_TLS_KEY/-grpc-tls-key")
          else match validateGRPCSecurity (GRPCAddress cfg) (Key cfg) (CryptoKey cfg) with
          | Some e => Fail e
          | None => Ok {|
              Address := normalizeListenAddr (Address cfg);
              GRPCAddress := GRPCAddress cfg;
              GRPCTLSCert := GRPCTLSCert cfg;
              GRPCTLSKey := GRPCTLSKey cfg;
              StoreInterval := StoreInterval cfg;
              FileStoragePath := FileStoragePath cfg;
              FileStorageEnabled := FileStorageEnabled cfg;
              Restore := Restore cfg;
              DatabaseDSN := DatabaseDSN cfg;
              Key := Key cfg;
              CryptoKey := CryptoKey cfg;
              AuditFile := AuditFile cfg;
              AuditURL := AuditURL cfg;
              TrustedSubnet := TrustedSubnet cfg
            |}
          end
      end
  end.

Record AgentConfig : Type := mkAgentConfig {
  agent_Address : string;
  agent_GRPCAddress : string;
  agent_GRPCTLSCA : string;
  agent_ReportInterval : Z;
  agent_PollInterval : Z;
  agent_RateLimit : Z;
  agent_Key : string;
  agent_CryptoKey : string
}.

Definition agent_flags : FlagSet :=
  let f := own_flag "grpc-address" (VString "") no_flags in
  let f := own_flag "grpc-tls-ca" (VString "") f in
  let f := own_flag "a" (VString "localhost:8080") f in
  let f := own_flag "r" (VInt 10) f in
  let f := own_flag "p" (VInt 2) f in
  let f := own_flag "l" (VInt 1) f in
  let f := own_flag "k" (VString "") f in
  let f := own_flag "crypto-key" (VString "") f in
  configFileFlags f.

Definition agent_options : list fileOption := [
  mkOption "grpc_address" "grpc-address" ["GRPC_ADDRESS"] false;
  mkOption "grpc_tls_ca" "grpc-tls-ca" ["GRPC_TLS_CA"] false;
  mkOption "address" "a" ["ADDRESS"] false;
  mkOption "report_interval" "r" ["REPORT_INTERVAL"] true;
  mkOption "poll_interval" "p" ["POLL_INTERVAL"] true;
  mkOption "rate_limit" "l" ["RATE_LIMIT"] false;
  mkOption "key" "k" ["KEY"] false;
  mkOption "crypto_key" "crypto-key" ["CRYPTO_KEY"] false
].

Definition LoadAgentConfig (p : Process) : res AgentConfig :=
  let? f := Parse (arguments p) agent_flags in
  match applyFile p (text f "path") agent_options f with
  | (_, Some e) => Fail e
  | (f, None) =>
      let? reportInterval := match LookupEnv p "REPORT_INTERVAL" with
        | Some value => parsePositiveSeconds value
        | None => Ok (number f "r")
        end in
      let? pollInterval := match LookupEnv p "POLL_INTERVAL" with
        | Some value => parsePositiveSeconds value
        | None => Ok (number f "p")
        end in
      let? rateLimit := match LookupEnv p "RATE_LIMIT" with
        | Some value =>
            match ParseInt value with
            | Fail e => Fail (Wrap "RATE_LIMIT must be an integer" e)
            | Ok parsed => Ok parsed
            end
        | None => Ok (number f "l")
        end in
      let address := or_env p "ADDRESS" (text f "a") in
      let grpcAddress := or_env p "GRPC_ADDRESS" (text f "grpc-address") in
      let key := or_env p "KEY" (text f "k") in
      let cryptoKey := or_env p "CRYPTO_KEY" (text f "crypto-key") in
      if (pollInterval <=? 0)%Z then Fail (Msg "poll interval must be positive")
      else if (reportInterval <=? 0)%Z then Fail (Msg "report interval must be positive")
      else if (rateLimit <=? 0)%Z then Fail (Msg "rate limit must be positive")
      else match validateSeconds pollInterval with
      | Some e => Fail e
      | None =>
          match validateSeconds reportInterval with
          | Some e => Fail e
          | None =>
              match validateGRPCSecurity grpcAddress key cryptoKey with
              | Some e => Fail e
              | None => Ok {|
                  agent_Address := normalizeServerURL address;
                  agent_GRPCAddress := grpcAddress;
                  agent_GRPCTLSCA := or_env p "GRPC_TLS_CA" (text f "grpc-tls-ca");
                  agent_ReportInterval := reportInterval;
                  agent_PollInterval := pollInterval;
                  agent_RateLimit := rateLimit;
                  agent_Key := key;
                  agent_CryptoKey := cryptoKey
                |}
              end
          end
      end
  end.

(** ** What a member of the file means

    The code writes each value as a text and lets [flag.Set] read it back;
    [member] is the value itself. *)
Definition ok {A} (r : res A) : option A := match r with Ok a => Some a | Fail _ => None end.

Definition member_text (raw : string) : option string :=
  if decide (raw = "null") then None else ok (json_Unmarshal (A:=string) raw).
Definition member_number (raw : string) : option Z :=
  if decide (raw = "null") then None else ok (json_Unmarshal (A:=Z) raw).
Definition member_switch (raw : string) : option bool :=
  if decide (raw = "null") then None else ok (json_Unmarshal (A:=bool) raw).
Definition member_seconds (raw : string) : option Z :=
  value ← member_text raw;
  d ← ok (ParseDuration value);
  if decide (Z.rem d Second = 0)%Z then Some (Z.quot d Second) else None.

Definition member (o : fileOption) (kind : flag_value) (raw : string) : option flag_value :=
  if duration o then VInt <$> member_seconds raw
  else match kind with
  | VString _ => VString <$> member_text raw
  | VInt _ => VInt <$> member_number raw
  | VBool _ => VBool <$> member_switch raw
  end.

(** The raw member that the loop uses for an option. *)
Definition used (p : Process) (fields : gmap string string) (explicit : gset string)
    (o : fileOption) : option string :=
  if bool_decide (flag o ∈ explicit) || overridden p o then None
  else fields !! field o.

(** An option of a flag set: its flag has its own variable, of a type that fits. *)
Definition fits (f : FlagSet) (o : fileOption) (kind : flag_value) : Prop :=
  owns f (flag o) ∧ (zero_of <$> variables f) !! flag o = Some kind ∧
  (duration o = true → kind = VInt 0).

Lemma fits_shape f f' o kind : shape f' = shape f → fits f o kind → fits f' o kind.
Proof.
  intros Hs (Ho & Hk & Hd). split; [by eapply owns_shape|]. injection Hs as _ Hv. by rewrite Hv.
Qed.

Lemma assign_shape f o kind v :
  fits f o kind → zero_of v = kind → shape (assign (flag o) v f) = shape f.
Proof.
  intros (_ & Hk & _) Hv. unfold shape. cbn. f_equal. rewrite lookup_fmap in Hk.
  destruct (variables f !! flag o) as [k|] eqn:Hf; [|done]. injection Hk as Hk.
  eapply shape_insert; [done|congruence].
Qed.

Context `{!ConfigTextSpec}.

Lemma member_kind o kind raw v : (duration o = true → kind = VInt 0) → kind = zero_of kind →
  member o kind raw = Some v → zero_of v = kind.
Proof.
  unfold member. intros Hd Hz Hm.
  destruct (duration o); [rewrite Hd by done|destruct kind];
    apply fmap_Some in Hm as (x & _ & ->); done.
Qed.

Lemma quot_second d : in_int64 d → in_int64 (Z.quot d Second).
Proof. unfold in_int64, int64_min, int64_max, Second. intros Hd. Z.to_euclidean_division_equations. lia. Qed.

(** The text that is handed to [flag.Set] sets the flag to the member. *)
Lemma fileFlagValue_member o f kind raw :
  fits f o kind → kind = zero_of kind →
  match fileFlagValue raw o f with
  | Fail _ => member o kind raw = None
  | Ok t => ∃ v, member o kind raw = Some v ∧ Set_ (flag o) t f = Ok (assign (flag o) v f)
  end.
Proof.
  intros ([Hown _] & Hk & Hd) Hz.
  unfold fileFlagValue, Set_, Lookup, member, member_seconds, member_text, member_number, member_switch.
  rewrite lookup_fmap in Hk. rewrite Hown. csimpl.
  destruct (variables f !! flag o) as [k|]; [|done]. injection Hk as Hk.
  destruct (decide (raw = "null")) as [->|Hnull]; [destruct (duration o); [done|by destruct kind]|].
  destruct (duration o).
  - rewrite Hd in Hk by done. destruct k as [|i|]; try done.
    destruct (json_Unmarshal raw) as [value|]; csimpl; [|done].
    destruct (ParseDuration value) as [d|] eqn:Hp; csimpl; [|done].
    destruct (decide (Z.rem d Second ≠ 0)%Z) as [Hne|He]; [by rewrite decide_False|].
    rewrite decide_True by lia.
    rewrite ParseInt0_FormatInt by (eapply quot_second, ParseDuration_range, Hp). eauto.
  - destruct k; simpl in Hk; subst kind; (destruct (json_Unmarshal raw) as [value|] eqn:Hj; csimpl; [|done]).
    + eauto.
    + rewrite ParseInt0_FormatInt by (eapply json_int_range, Hj). eauto.
    + rewrite ParseBool_FormatBool. eauto.
Qed.

(** One option: the file's value is stored, or it is not one of the flag's type. *)
Lemma apply_option_spec p fields ex o f kind :
  fits f o kind → kind = zero_of kind →
  match apply_option p fields ex o f with
  | (f', None) =>
      match used p fields ex o with
      | None => f' = f
      | Some raw => ∃ v, member o kind raw = Some v ∧ f' = assign (flag o) v f
      end
  | (_, Some _) => ∃ raw, used p fields ex o = Some raw ∧ member o kind raw = None
  end.
Proof.
  intros Hf Hz. unfold apply_option, used.
  destruct (fields !! field o) as [raw|]; [|by destruct (_ || _)].
  destruct (decide (flag o ∈ ex)) as [Hin|Hnin]; [by rewrite bool_decide_true|].
  rewrite bool_decide_false by done. cbn [orb]. destruct (overridden p o); [done|].
  pose proof (fileFlagValue_member o f kind raw Hf Hz) as Hm.
  destruct (fileFlagValue raw o f) as [t|e]; [|by eauto].
  destruct Hm as (v & Hm & ->). eauto.
Qed.

(** What the loop leaves in the set. *)
Definition settled (p : Process) (fields : gmap string string) (ex : gset string)
    (f f' : FlagSet) (o : fileOption) : Prop :=
  match used p fields ex o with
  | None => variables f' !! flag o = variables f !! flag o ∧ (flag o ∈ actual f' ↔ flag o ∈ actual f)
  | Some raw => ∃ k v, zero_of <$> variables f !! flag o = Some k ∧ member o k raw = Some v ∧
      variables f' !! flag o = Some v ∧ flag o ∈ actual f'
  end.

Definition well_typed (f : FlagSet) (options : list fileOption) : Prop :=
  NoDup (map flag options) ∧ Forall (λ o, ∃ kind, kind = zero_of kind ∧ fits f o kind) options.

Lemma apply_options_spec p fields ex options f :
  well_typed f options →
  match apply_options p fields ex options f with
  | (f', None) =>
      Forall (settled p fields ex f f') options ∧
      ∀ x, x ∉ map flag options → variables f' !! x = variables f !! x ∧ (x ∈ actual f' ↔ x ∈ actual f)
  | (_, Some _) => ∃ o kind raw, o ∈ options ∧ fits f o kind ∧ used p fields ex o = Some raw ∧
      member o kind raw = None
  end.
Proof.
  intros [Hnd Hw]. revert f Hnd Hw.
  induction options as [|o options IH]; intros f Hnd Hw; [by simpl|].
  cbn [apply_options]. apply NoDup_cons in Hnd as [Hno Hnd].
  apply Forall_cons in Hw as [(kind & Hz & Hf) Hw].
  pose proof (apply_option_spec p fields ex o f kind Hf Hz) as Ho.
  destruct (apply_option p fields ex o f) as [f1 [e|]].
  { destruct Ho as (raw & Hu & Hm). exists o, kind, raw. split; [by left|done]. }
  assert (shape f1 = shape f ∧ settled p fields ex f f1 o ∧
    ∀ x, x ≠ flag o → variables f1 !! x = variables f !! x ∧ (x ∈ actual f1 ↔ x ∈ actual f))
    as (Hsh & Hset & Hother).
  { unfold settled. destruct (used p fields ex o) as [raw|]; [|by subst f1].
    destruct Ho as (v & Hm & ->).
    pose proof Hf as (_ & Hk & Hd). rewrite lookup_fmap in Hk.
    split; [by eapply assign_shape, member_kind|]. cbn. split.
    - exists kind, v. rewrite lookup_insert_eq. repeat split; [done..|set_solver].
    - intros x Hx. rewrite lookup_insert_ne by done. split; [done|set_solver]. }
  assert (Forall (λ o, ∃ kind, kind = zero_of kind ∧ fits f1 o kind) options) as Hw1.
  { eapply Forall_impl; [exact Hw|]. intros o' (k & Hk & Hf'). exists k. split; [done|].
    by eapply fits_shape. }
  specialize (IH f1 Hnd Hw1). destruct (apply_options p fields ex options f1) as [f2 [e|]].
  { destruct IH as (o' & k & raw & Hin & Hf' & Hu & Hm). exists o', k, raw.
    split; [by right|]. split; [by eapply fits_shape|done]. }
  destruct IH as [IH1 IH2]. split; [constructor|].
  - destruct (IH2 (flag o) Hno) as [Hv Ha]. unfold settled in *.
    destruct (used p fields ex o); rewrite ?Hv; [|by rewrite Ha].
    destruct Hset as (k & v & ? & ? & ? & ?). exists k, v. by rewrite Ha.
  - apply Forall_forall. intros o' Hin.
    rewrite Forall_forall in IH1. specialize (IH1 o' Hin).
    destruct (Hother (flag o')) as [Hv Ha].
    { intros Heq. apply Hno. rewrite <-Heq. by apply list_elem_of_fmap_2. }
    unfold settled in *. rewrite Hv in IH1.
    destruct (used p fields ex o'); [done|by rewrite Ha in IH1].
  - intros x Hx. apply not_elem_of_cons in Hx as [Hne Hx].
    destruct (IH2 x Hx) as [-> ->]. by apply Hother.
Qed.

(** ** The effective settings

    The first source that gives a value wins. *)
Definition file_fields (p : Process) (path : string) : gmap string string :=
  match read_fields p path with Ok (Some fields) => fields | _ => ∅ end.

Fixpoint first {A} (sources : list (option A)) (d : A) : A :=
  match sources with
  | [] => d
  | Some a :: _ => a
  | None :: sources => first sources d
  end.

Definition given (parsed : FlagSet) (name : string) : option flag_value :=
  if decide (name ∈ actual parsed) then variables parsed !! name else None.
Definition as_text (v : flag_value) : string := match v with VString s => s | _ => "" end.
Definition as_number (v : flag_value) : Z := match v with VInt i => i | _ => 0%Z end.
Definition as_switch (v : flag_value) : bool := match v with VBool b => b | _ => false end.

(** A flag set as the loaders make it, before the arguments are parsed. *)
Definition fresh_flags (f : FlagSet) (options : list fileOption) : Prop :=
  actual f = ∅ ∧ well_typed f options.

Lemma well_typed_shape f f' options : shape f' = shape f → well_typed f options → well_typed f' options.
Proof.
  intros Hs [Hnd Hw]. split; [done|]. eapply Forall_impl; [exact Hw|].
  intros o (k & Hz & Hf). exists k. split; [done|]. by eapply fits_shape.
Qed.

Lemma applyFile_settled p options flags parsed f' :
  fresh_flags flags options → Parse (arguments p) flags = Ok parsed →
  applyFile p (text parsed "path") options parsed = (f', None) →
  Forall (settled p (file_fields p (text parsed "path")) (actual parsed) parsed f') options.
Proof.
  intros [_ Hw] (Hsh & _ & _)%Parse_spec Happly.
  eapply well_typed_shape in Hw; [|done].
  unfold applyFile, file_fields in *.
  destruct (read_fields p _) as [[fields|]|]; [| |done].
  - case_decide; [|done].
    pose proof (apply_options_spec p fields (actual parsed) options parsed Hw) as Hopt.
    rewrite Happly in Hopt. apply Hopt.
  - injection Happly as <-. apply Forall_forall. intros o _. unfold settled, used.
    rewrite lookup_empty. by destruct (_ || _).
Qed.

(** The value of a flag after the file: its own, else the file's, else its default. *)
Lemma effective_value p options flags parsed f' o d :
  fresh_flags flags options → Parse (arguments p) flags = Ok parsed →
  applyFile p (text parsed "path") options parsed = (f', None) →
  o ∈ options → overridden p o = false → variables flags !! flag o = Some d →
  let member := file_fields p (text parsed "path") !! field o ≫= member o (zero_of d) in
  variables f' !! flag o = Some (first [given parsed (flag o); member] d) ∧
  (flag o ∈ actual f' ↔ is_Some (given parsed (flag o)) ∨ is_Some member) ∧
  (∀ v, given parsed (flag o) = Some v → zero_of v = zero_of d).
Proof.
  intros Hfresh Hparse Happly Hin Hov Hd.
  pose proof (applyFile_settled p options flags parsed f' Hfresh Hparse Happly) as Hs.
  rewrite Forall_forall in Hs. specialize (Hs o Hin).
  destruct Hfresh as [_ [_ Hw]]. rewrite Forall_forall in Hw.
  destruct (Hw o Hin) as (k & _ & Hown & _ & _).
  apply Parse_spec in Hparse as (Hsh & _ & Hun). injection Hsh as _ Hz.
  assert (zero_of <$> variables parsed !! flag o = Some (zero_of d)) as Hk.
  { by rewrite <-lookup_fmap, Hz, lookup_fmap, Hd. }
  unfold settled, used, given in *. rewrite Hov, orb_false_r in Hs. case_bool_decide as Hex.
  - rewrite decide_True by done. destruct Hs as [-> Ha].
    destruct (variables parsed !! flag o) as [v|]; [|done]. injection Hk as Hk. csimpl.
    split; [done|]. split; [rewrite Ha; split; eauto|]. by intros ? [= <-].
  - rewrite decide_False by done. rewrite Hun, Hd in * by done.
    destruct (file_fields p _ !! field o) as [raw|]; csimpl.
    + destruct Hs as (k' & v & Hk' & Hm & Hv & Ha). injection Hk' as <-. rewrite Hm. csimpl.
      split; [done|]. split; [split; eauto|done].
    + destruct Hs as [Hv Ha]. split; [done|]. split; [|done]. rewrite Ha.
      split; [done|]. by intros [[]|[]].
Qed.

Definition flag_text (parsed : FlagSet) (name : string) : option string := as_text <$> given parsed name.
Definition flag_number (parsed : FlagSet) (name : string) : option Z := as_number <$> given parsed name.
Definition flag_switch (parsed : FlagSet) (name : string) : option bool := as_switch <$> given parsed name.

Section effective.
Context (p : Process) (options : list fileOption) (flags parsed f' : FlagSet).
Context (Hfresh : fresh_flags flags options) (Hparse : Parse (arguments p) flags = Ok parsed).
Context (Happly : applyFile p (text parsed "path") options parsed = (f', None)).
Let file : gmap string string := file_fields p (text parsed "path").

Lemma overridden_single fld flg name d : overridden p (mkOption fld flg [name] d) = bool_decide (is_Some (LookupEnv p name)).
Proof. cbn. apply orb_false_r. Qed.

Lemma or_env_text fld flg name d :
  mkOption fld flg [name] false ∈ options → variables flags !! flg = Some (VString d) →
  or_env p name (text f' flg) =
    first [LookupEnv p name; flag_text parsed flg; file !! fld ≫= member_text] d.
Proof.
  intros Hin Hd. unfold or_env. destruct (LookupEnv p name) as [value|] eqn:Hn; [done|].
  destruct (effective_value p options flags parsed f' _ (VString d) Hfresh Hparse Happly Hin) as (Hv & _);
    [by rewrite overridden_single, Hn|done|].
  unfold text. cbn [flag field] in Hv. rewrite Hv. unfold flag_text. cbn [first].
  destruct (given parsed flg) as [v|]; [by destruct v|]. csimpl.
  destruct (file !! fld) as [raw|] eqn:Hf; unfold file in Hf; rewrite Hf; csimpl; [|done].
  unfold member. cbn. by destruct (member_text raw).
Qed.

Lemma effective_number fld flg name d dur :
  mkOption fld flg [name] dur ∈ options → variables flags !! flg = Some (VInt d) →
  LookupEnv p name = None →
  number f' flg = first [flag_number parsed flg;
    file !! fld ≫= if dur then member_seconds else member_number] d.
Proof.
  intros Hin Hd Hn.
  destruct (effective_value p options flags parsed f' _ (VInt d) Hfresh Hparse Happly Hin) as (Hv & _);
    [by rewrite overridden_single, Hn|done|].
  unfold number. cbn [flag field] in Hv. rewrite Hv. unfold flag_number. cbn [first].
  destruct (given parsed flg) as [v|]; [by destruct v|]. csimpl.
  destruct (file !! fld) as [raw|] eqn:Hf; unfold file in Hf; rewrite Hf; csimpl; [|done].
  unfold member. cbn. destruct dur; [by destruct (member_seconds raw)|by destruct (member_number raw)].
Qed.

Lemma effective_switch fld flg name d :
  mkOption fld flg [name] false ∈ options → variables flags !! flg = Some (VBool d) →
  LookupEnv p name = None →
  switch f' flg = first [flag_switch parsed flg; file !! fld ≫= member_switch] d.
Proof.
  intros Hin Hd Hn.
  destruct (effective_value p options flags parsed f' _ (VBool d) Hfresh Hparse Happly Hin) as (Hv & _);
    [by rewrite overridden_single, Hn|done|].
  unfold switch. cbn [flag field] in Hv. rewrite Hv. unfold flag_switch. cbn [first].
  destruct (given parsed flg) as [v|]; [by destruct v|]. csimpl.
  destruct (file !! fld) as [raw|] eqn:Hf; unfold file in Hf; rewrite Hf; csimpl; [|done].
  unfold member. cbn. by destruct (member_switch raw).
Qed.

(** The path of the storage file, and whether a source other than the default
    gave it. *)
Lemma effective_path fld flg name1 name2 d :
  mkOption fld flg [name1; name2] false ∈ options → variables flags !! flg = Some (VString d) →
  LookupEnv p name1 = None → LookupEnv p name2 = None →
  text f' flg = first [flag_text parsed flg; file !! fld ≫= member_text] d ∧
  bool_decide (flg ∈ actual f') && bool_decide (text f' flg ≠ "") =
    bool_decide (first [flag_text parsed flg; file !! fld ≫= member_text] "" ≠ "").
Proof.
  intros Hin Hd Hn1 Hn2.
  destruct (effective_value p options flags parsed f' _ (VString d) Hfresh Hparse Happly Hin)
    as (Hv & Ha & Hz); [cbn; by rewrite Hn1, Hn2|done|].
  unfold text. cbn [flag field] in *. rewrite Hv. unfold flag_text. rewrite (bool_decide_ext _ _ Ha).
  cbn [first]. destruct (given parsed flg) as [v|] eqn:Hg; csimpl.
  { specialize (Hz v eq_refl). destruct v; [|done..]. done. }
  unfold file. destruct (file_fields p _ !! fld) as [raw|]; csimpl; [|done].
  unfold member. cbn. by destruct (member_text raw).
Qed.

End effective.

Lemma server_flags_fresh : fresh_flags server_flags server_options.
Proof.
  split; [done|]. split; [apply (bool_decide_unpack _); vm_compute; exact I|].
  repeat apply Forall_cons_2; try apply Forall_nil_2; eexists;
    (split; [|split; [apply (bool_decide_unpack _); vm_compute; exact I|]; split; [vm_compute; reflexivity|]]);
    done.
Qed.

Lemma agent_flags_fresh : fresh_flags agent_flags agent_options.
Proof.
  split; [done|]. split; [apply (bool_decide_unpack _); vm_compute; exact I|].
  repeat apply Forall_cons_2; try apply Forall_nil_2; eexists;
    (split; [|split; [apply (bool_decide_unpack _); vm_compute; exact I|]; split; [vm_compute; reflexivity|]]);
    done.
Qed.

(** Membership in the option lists, and the defaults of the flags. *)
Ltac option_in := repeat first [apply list_elem_of_here | apply list_elem_of_further].
Ltac default_is := vm_compute; reflexivity.

(** Case analysis on the first call of a hypothesis [h : (let? x := c in k) = Ok r]. *)
Ltac next_call h x e :=
  cbv beta iota zeta in h;
  match type of h with
  | match ?c with Ok _ => _ | Fail _ => _ end = _ => destruct c as [x|] eqn:e; [|discriminate h]
  end.

(** C33: every setting of the server comes from the first source that gives it:
    the environment, an explicit flag, the file, the default; file storage is
    enabled exactly when a source other than the default gives a path that is
    not empty. *)
Theorem LoadServerConfig_effective p cfg :
  LoadServerConfig p = Ok cfg →
  ∃ parsed, Parse (arguments p) server_flags = Ok parsed ∧
  let file := file_fields p (text parsed "path") in
  let from env flag field := first [LookupEnv p env; flag_text parsed flag; file !! field ≫= member_text] in
  let path := [LookupEnv p "FILE_STORAGE_PATH"; LookupEnv p "STORE_FILE"; flag_text parsed "f";
               file !! "store_file" ≫= member_text] in
  Address cfg = normalizeListenAddr (from "ADDRESS" "a" "address" "localhost:8080") ∧
  GRPCAddress cfg = from "GRPC_ADDRESS" "grpc-address" "grpc_address" "" ∧
  GRPCTLSCert cfg = from "GRPC_TLS_CERT" "grpc-tls-cert" "grpc_tls_cert" "" ∧
  GRPCTLSKey cfg = from "GRPC_TLS_KEY" "grpc-tls-key" "grpc_tls_key" "" ∧
  StoreInterval cfg = first [LookupEnv p "STORE_INTERVAL" ≫= ok ∘ parseNonNegativeSeconds;
    flag_number parsed "i"; file !! "store_interval" ≫= member_seconds] 300%Z ∧
  FileStoragePath cfg = first path "metrics-storage.json" ∧
  FileStorageEnabled cfg = bool_decide (first path "" ≠ "") ∧
  Restore cfg = first [LookupEnv p "RESTORE" ≫= ok ∘ ParseBool; flag_switch parsed "r";
    file !! "restore" ≫= member_switch] true ∧
  DatabaseDSN cfg = from "DATABASE_DSN" "d" "database_dsn" "" ∧
  Key cfg = from "KEY" "k" "key" "" ∧
  CryptoKey cfg = from "CRYPTO_KEY" "crypto-key" "crypto_key" "" ∧
  AuditFile cfg = from "AUDIT_FILE" "audit-file" "audit_file" "" ∧
  AuditURL cfg = from "AUDIT_URL" "audit-url" "audit_url" "" ∧
  TrustedSubnet cfg = from "TRUSTED_SUBNET" "t" "trusted_subnet" "".
Proof.
  unfold LoadServerConfig. destruct (Parse (arguments p) server_flags) as [parsed|] eqn:Hparse; [|done].
  destruct (applyFile p _ server_options parsed) as [f' [e|]] eqn:Happly; [done|].
  intros Hcfg. exists parsed. split; [done|]. cbv zeta.
  pose proof (or_env_text p server_options server_flags parsed f' server_flags_fresh Hparse Happly) as Ht.
  pose proof (effective_number p server_options server_flags parsed f' server_flags_fresh Hparse Happly
    "store_interval" "i" "STORE_INTERVAL" 300 true) as Hi.
  pose proof (effective_switch p server_options server_flags parsed f' server_flags_fresh Hparse Happly
    "restore" "r" "RESTORE" true) as Hr.
  pose proof (effective_path p server_options server_flags parsed f' server_flags_fresh Hparse Happly
    "store_file" "f" "FILE_STORAGE_PATH" "STORE_FILE" "metrics-storage.json") as Hf.
  repeat (rewrite <-Ht; [|option_in|default_is]). clear Ht.
  next_call Hcfg i Ei.
  match type of Hcfg with (let '(_, _) := ?c in _) = _ => destruct c as [path0 enabled0] eqn:Ep0 end.
  match type of Hcfg with (let '(_, _) := ?c in _) = _ => destruct c as [path enabled] eqn:Ep end.
  next_call Hcfg r Er.
  cbv beta iota zeta in Hcfg.
  destruct (_ <? 0)%Z; [discriminate Hcfg|]. destruct (validateSeconds _); [discriminate Hcfg|].
  destruct (decide (GRPCAddress _ ≠ "" ∧ _)); [discriminate Hcfg|].
  destruct (validateGRPCSecurity _ _ _); [discriminate Hcfg|].
  injection Hcfg as <-.
  cbn [Address GRPCAddress GRPCTLSCert GRPCTLSKey StoreInterval FileStoragePath FileStorageEnabled
    Restore DatabaseDSN Key CryptoKey AuditFile AuditURL TrustedSubnet].
  split_and!; try reflexivity.
  - destruct (LookupEnv p "STORE_INTERVAL") as [v|]; csimpl.
    + by rewrite Ei.
    + injection Ei as <-. apply Hi; [option_in|default_is|done].
  - destruct (LookupEnv p "FILE_STORAGE_PATH") as [v|]; [by injection Ep as <- <-|].
    injection Ep as <- <-.
    destruct (LookupEnv p "STORE_FILE") as [v|]; injection Ep0 as <- <-; [done|].
    apply Hf; [option_in|default_is|done|done].
  - destruct (LookupEnv p "FILE_STORAGE_PATH") as [v|]; [by injection Ep as <- <-|].
    injection Ep as <- <-.
    destruct (LookupEnv p "STORE_FILE") as [v|]; injection Ep0 as <- <-; [done|].
    apply Hf; [option_in|default_is|done|done].
  - destruct (LookupEnv p "RESTORE") as [v|]; csimpl.
    + destruct (ParseBool v); [|done]. by injection Er as <-.
    + injection Er as <-. apply Hr; [option_in|default_is|done].
Qed.

(** Every setting of the agent comes from the first source that gives it:
    the environment, an explicit flag, the file, the default. *)
Theorem LoadAgentConfig_effective p cfg :
  LoadAgentConfig p = Ok cfg →
  ∃ parsed, Parse (arguments p) agent_flags = Ok parsed ∧
  let file := file_fields p (text parsed "path") in
  let from env flag field := first [LookupEnv p env; flag_text parsed flag; file !! field ≫= member_text] in
  agent_Address cfg = normalizeServerURL (from "ADDRESS" "a" "address" "localhost:8080") ∧
  agent_GRPCAddress cfg = from "GRPC_ADDRESS" "grpc-address" "grpc_address" "" ∧
  agent_GRPCTLSCA cfg = from "GRPC_TLS_CA" "grpc-tls-ca" "grpc_tls_ca" "" ∧
  agent_ReportInterval cfg = first [LookupEnv p "REPORT_INTERVAL" ≫= ok ∘ parsePositiveSeconds;
    flag_number parsed "r"; file !! "report_interval" ≫= member_seconds] 10%Z ∧
  agent_PollInterval cfg = first [LookupEnv p "POLL_INTERVAL" ≫= ok ∘ parsePositiveSeconds;
    flag_number parsed "p"; file !! "poll_interval" ≫= member_seconds] 2%Z ∧
  agent_RateLimit cfg = first [LookupEnv p "RATE_LIMIT" ≫= ok ∘ ParseInt;
    flag_number parsed "l"; file !! "rate_limit" ≫= member_number] 1%Z ∧
  agent_Key cfg = from "KEY" "k" "key" "" ∧
  agent_CryptoKey cfg = from "CRYPTO_KEY" "crypto-key" "crypto_key" "".
Proof.
  unfold LoadAgentConfig. destruct (Parse (arguments p) agent_flags) as [parsed|] eqn:Hparse; [|done].
  destruct (applyFile p _ agent_options parsed) as [f' [e|]] eqn:Happly; [done|].
  intros Hcfg. exists parsed. split; [done|]. cbv zeta.
  pose proof (or_env_text p agent_options agent_flags parsed f' agent_flags_fresh Hparse Happly) as Ht.
  pose proof (effective_number p agent_options agent_flags parsed f' agent_flags_fresh Hparse Happly) as Hi.
  repeat (rewrite <-Ht; [|option_in|default_is]). clear Ht.
  next_call Hcfg report Er. next_call Hcfg poll Ep. next_call Hcfg rate El.
  cbv beta iota zeta in Hcfg.
  do 3 (destruct (_ <=? 0)%Z; [discriminate Hcfg|]). do 2 (destruct (validateSeconds _); [discriminate Hcfg|]).
  destruct (validateGRPCSecurity _ _ _); [discriminate Hcfg|].
  injection Hcfg as <-. cbn [agent_Address agent_GRPCAddress agent_GRPCTLSCA agent_ReportInterval
    agent_PollInterval agent_RateLimit agent_Key agent_CryptoKey].
  split_and!; try reflexivity.
  - destruct (LookupEnv p "REPORT_INTERVAL") as [v|] eqn:He; csimpl; [by rewrite Er|].
    injection Er as <-. apply (Hi "report_interval" "r" "REPORT_INTERVAL" 10%Z true);
      [option_in|default_is|done].
  - destruct (LookupEnv p "POLL_INTERVAL") as [v|] eqn:He; csimpl; [by rewrite Ep|].
    injection Ep as <-. apply (Hi "poll_interval" "p" "POLL_INTERVAL" 2%Z true);
      [option_in|default_is|done].
  - destruct (LookupEnv p "RATE_LIMIT") as [v|] eqn:He; csimpl.
    + destruct (ParseInt v); [|done]. by injection El as <-.
    + injection El as <-. apply (Hi "rate_limit" "l" "RATE_LIMIT" 1%Z false);
        [option_in|default_is|done].
Qed.

(** ** What a loaded configuration guarantees *)

Lemma validateSeconds_fits n : (0 ≤ n)%Z → validateSeconds n = None →
  in_int64 (n * Second) ∧ wrap64 (n * Second) = (n * Second)%Z.
Proof.
  unfold validateSeconds. intros Hn. destruct (Z.ltb_spec (int64_max / Second) n) as [|Hle]; [done|].
  intros _. assert (in_int64 (n * Second)) as Hin; [|split; [done|by apply wrap64_id]].
  change (int64_max / Second)%Z with 9223372036%Z in Hle.
  unfold in_int64, int64_min, int64_max, Second. lia.
Qed.

Lemma validateGRPCSecurity_ok address key cryptoKey :
  validateGRPCSecurity address key cryptoKey = None ↔ (address ≠ "" → key = "" ∧ cryptoKey = "").
Proof.
  unfold validateGRPCSecurity. case_decide as Hd; split; try done.
  - intros H'. exfalso. destruct Hd as [Ha Hk]. destruct (H' Ha). naive_solver.
  - intros _ Ha. destruct (decide (key = "")), (decide (cryptoKey = "")); naive_solver.
Qed.

Lemma LoadServerConfig_guarantees p cfg :
  LoadServerConfig p = Ok cfg →
  (0 ≤ StoreInterval cfg)%Z ∧ validateSeconds (StoreInterval cfg) = None ∧
  (GRPCAddress cfg ≠ "" → GRPCTLSCert cfg ≠ "" ∧ GRPCTLSKey cfg ≠ "" ∧ Key cfg = "" ∧ CryptoKey cfg = "").
Proof.
  unfold LoadServerConfig. destruct (Parse _ _); [|done]. destruct (applyFile _ _ _ _) as [f' [e|]]; [done|].
  intros Hcfg. next_call Hcfg i Ei.
  match type of Hcfg with (let '(_, _) := ?c in _) = _ => destruct c as [path0 enabled0] end.
  match type of Hcfg with (let '(_, _) := ?c in _) = _ => destruct c as [path enabled] end.
  next_call Hcfg r Er. cbv beta iota zeta in Hcfg.
  match type of Hcfg with context [(StoreInterval ?c <? 0)%Z] => set (cfg0 := c) in * end.
  destruct (Z.ltb_spec (StoreInterval cfg0) 0) as [|Hi]; [discriminate Hcfg|].
  destruct (validateSeconds (StoreInterval cfg0)) eqn:Hv; [discriminate Hcfg|].
  destruct (decide (GRPCAddress cfg0 ≠ "" ∧ _)) as [|Htls]; [discriminate Hcfg|].
  destruct (validateGRPCSecurity _ _ _) eqn:Hs; [discriminate Hcfg|].
  injection Hcfg as <-. cbn [StoreInterval GRPCAddress GRPCTLSCert GRPCTLSKey Key CryptoKey].
  split; [done|]. split; [done|]. intros Ha.
  destruct (proj1 (validateGRPCSecurity_ok _ _ _) Hs Ha) as [Hk Hc].
  split_and!; [..|done|done]; intros Heq; apply Htls; auto.
Qed.

Lemma LoadAgentConfig_guarantees p cfg :
  LoadAgentConfig p = Ok cfg →
  (0 < agent_PollInterval cfg)%Z ∧ (0 < agent_ReportInterval cfg)%Z ∧ (0 < agent_RateLimit cfg)%Z ∧
  validateSeconds (agent_PollInterval cfg) = None ∧ validateSeconds (agent_ReportInterval cfg) = None ∧
  agent_Address cfg ≠ "" ∧
  (agent_GRPCAddress cfg ≠ "" → agent_Key cfg = "" ∧ agent_CryptoKey cfg = "").
Proof.
  unfold LoadAgentConfig. destruct (Parse _ _); [|done]. destruct (applyFile _ _ _ _) as [f' [e|]]; [done|].
  intros Hcfg. next_call Hcfg report Er. next_call Hcfg poll Ep. next_call Hcfg rate El.
  cbv beta iota zeta in Hcfg.
  destruct (Z.leb_spec poll 0); [discriminate Hcfg|]. destruct (Z.leb_spec report 0); [discriminate Hcfg|].
  destruct (Z.leb_spec rate 0); [discriminate Hcfg|].
  destruct (validateSeconds poll) eqn:?; [discriminate Hcfg|].
  destruct (validateSeconds report) eqn:?; [discriminate Hcfg|].
  destruct (validateGRPCSecurity _ _ _) eqn:Hs; [discriminate Hcfg|].
  injection Hcfg as <-. cbn [agent_PollInterval agent_ReportInterval agent_RateLimit agent_Address
    agent_GRPCAddress agent_Key agent_CryptoKey].
  split_and!; try done.
  - unfold normalizeServerURL. destruct (or_env p "ADDRESS" _); [done|]. by repeat case_match.
  - by apply validateGRPCSecurity_ok.
Qed.

(** C34: an interval that was accepted can be multiplied by a second: the product
    is an [int64] and does not wrap around. *)
Theorem configured_durations_fit p :
  (∀ cfg, LoadServerConfig p = Ok cfg →
    (0 ≤ StoreInterval cfg)%Z ∧ in_int64 (StoreInterval cfg * Second) ∧
    wrap64 (StoreInterval cfg * Second) = (StoreInterval cfg * Second)%Z) ∧
  (∀ cfg, LoadAgentConfig p = Ok cfg →
    (0 < agent_PollInterval cfg)%Z ∧ in_int64 (agent_PollInterval cfg * Second) ∧
    wrap64 (agent_PollInterval cfg * Second) = (agent_PollInterval cfg * Second)%Z ∧
    (0 < agent_ReportInterval cfg)%Z ∧ in_int64 (agent_ReportInterval cfg * Second) ∧
    wrap64 (agent_ReportInterval cfg * Second) = (agent_ReportInterval cfg * Second)%Z).
Proof.
  split; intros cfg Hcfg.
  - destruct (LoadServerConfig_guarantees p cfg Hcfg) as (Hi & Hv & _).
    split; [done|]. by apply validateSeconds_fits.
  - destruct (LoadAgentConfig_guarantees p cfg Hcfg) as (Hp & Hr & _ & Hvp & Hvr & _).
    destruct (validateSeconds_fits (agent_PollInterval cfg)), (validateSeconds_fits (agent_ReportInterval cfg));
      done || lia || auto.
Qed.

Lemma used_inv p fields ex o raw :
  used p fields ex o = Some raw → fields !! field o = Some raw ∧ flag o ∉ ex ∧ overridden p o = false.
Proof.
  unfold used. case_bool_decide; [done|]. by destruct (overridden p o).
Qed.

(** C35: the file is accepted exactly when it can be read as an object whose
    members are all known and, where neither a flag nor the environment
    overrides them, of the type of their option. *)
Theorem applyFile_accepts p path options f :
  well_typed f options →
  (∃ f', applyFile p path options f = (f', None)) ↔
    read_fields p path = Ok None ∨
    ∃ fields, read_fields p path = Ok (Some fields) ∧
      (∀ name, is_Some (fields !! name) → name ∈ map field options) ∧
      (∀ o kind raw, o ∈ options → fits f o kind → fields !! field o = Some raw →
        flag o ∉ actual f → overridden p o = false → is_Some (member o kind raw)).
Proof.
  intros Hw. unfold applyFile. destruct (read_fields p path) as [[fields|]|e]; [|split; eauto|].
  - case_decide as Hk.
    + pose proof (apply_options_spec p fields (actual f) options f Hw) as Ho.
      destruct (apply_options p fields (actual f) options f) as [f' [e|]].
      * split; [by intros [? [=]]|]. intros [[=]|(? & [= <-] & _ & Hall)]. exfalso.
        destruct Ho as (o & kind & raw & Hin & Hf & Hu & Hm).
        destruct (used_inv _ _ _ _ _ Hu) as (? & ? & ?).
        destruct (Hall o kind raw) as [? ?]; [done..|congruence].
      * split; [|by eauto]. intros _. right. exists fields. split; [done|]. destruct Ho as [Ho _].
        split; [intros name Hn; apply elem_of_dom in Hn; apply Hk, elem_of_list_to_set in Hn; done|].
        intros o kind raw Hin (Hown & Hkind & _) Hraw Hex Hov.
        rewrite Forall_forall in Ho. specialize (Ho o Hin). unfold settled, used in Ho.
        rewrite bool_decide_false, Hov, Hraw in Ho by done. cbn [orb] in Ho.
        destruct Ho as (k & v & Hk' & Hm & _). rewrite lookup_fmap in Hkind. exists v. congruence.
    + split; [by intros [? [=]]|]. intros [[=]|(? & [= <-] & Hnames & _)]. exfalso. apply Hk.
      intros name Hn. apply elem_of_list_to_set, Hnames. by apply elem_of_dom.
  - split; [by intros [? [=]]|]. by intros [[=]|(? & [=] & _)].
Qed.

End config.

(** ** Witnesses

    Member texts are taken as they are, an object is a list [name=value;...],
    and a duration is written in nanoseconds. *)
Definition split_member (s : string) : string * string :=
  let '(name, value) := split_equals s in (name, default "" value).

Definition json_of {A} (read : string → res A) : Json A := {|
  json_Marshal _ := Fail (Msg "not used");
  json_Unmarshal := read;
  json_Decode := read;
  json_DecodeBroken := read
|}.

#[local] Instance witness_object : Json (option (gmap string string)) :=
  json_of (λ s, Ok (Some (list_to_map (map split_member (Split ";" s))))).
#[local] Instance witness_string : Json string := json_of Ok.
#[local] Instance witness_int : Json Z := json_of ParseInt.
#[local] Instance witness_bool : Json bool := json_of ParseBool.
#[local] Instance witness_duration : DurationText := ParseInt.

#[local] Instance witness_texts : ConfigTextSpec.
Proof. constructor; apply ParseInt_range. Qed.

Definition witness_process : Process :=
  mkProcess ["-a"; "http://flag:1"; "-k=secret"; "--config"; "file"]
    {["KEY" := "env"; "STORE_INTERVAL" := "60"]}
    (λ name, if decide (name = "file")
             then Ok "address=file:1;store_interval=5000000000;store_file=saved;restore=false"
             else Fail (Msg "no such file")).

Definition witness_config : res ServerConfig := Eval vm_compute in LoadServerConfig witness_process.

Lemma LoadServerConfig_effective_witness :
  ∃ cfg, LoadServerConfig witness_process = Ok cfg ∧ Address cfg = "flag:1" ∧ Key cfg = "env" ∧
    StoreInterval cfg = 60%Z ∧ FileStoragePath cfg = "saved" ∧ FileStorageEnabled cfg = true ∧
    Restore cfg = false ∧
    ∃ parsed, Parse (arguments witness_process) server_flags = Ok parsed ∧
      TrustedSubnet cfg = first [LookupEnv witness_process "TRUSTED_SUBNET"; flag_text parsed "t";
        file_fields witness_process (text parsed "path") !! "trusted_subnet" ≫= member_text] "".
Proof.
  assert (LoadServerConfig witness_process = witness_config) as Hc by (vm_compute; reflexivity).
  unfold witness_config in Hc. eexists. split; [exact Hc|].
  do 6 (split; [reflexivity|]).
  destruct (LoadServerConfig_effective _ _ Hc) as (parsed & Hp & Hall).
  exists parsed. split; [exact Hp|]. cbv zeta in Hall. apply Hall.
Defined.

Definition witness_agent : Process :=
  mkProcess ["-p"; "0x3"] {["CONFIG" := "file"; "RATE_LIMIT" := "4"]}
    (λ name, Ok "address=https://file:1;report_interval=5000000000;rate_limit=7").

Definition witness_agent_config : res AgentConfig := Eval vm_compute in LoadAgentConfig witness_agent.

Lemma LoadAgentConfig_effective_witness :
  ∃ cfg, LoadAgentConfig witness_agent = Ok cfg ∧ agent_Address cfg = "https://file:1" ∧
    agent_PollInterval cfg = 3%Z ∧ agent_ReportInterval cfg = 5%Z ∧ agent_RateLimit cfg = 4%Z ∧
    ∃ parsed, Parse (arguments witness_agent) agent_flags = Ok parsed ∧
      agent_Key cfg = first [LookupEnv witness_agent "KEY"; flag_text parsed "k";
        file_fields witness_agent (text parsed "path") !! "key" ≫= member_text] "".
Proof.
  assert (LoadAgentConfig witness_agent = witness_agent_config) as Hc by (vm_compute; reflexivity).
  unfold witness_agent_config in Hc. eexists. split; [exact Hc|].
  do 4 (split; [reflexivity|]).
  destruct (LoadAgentConfig_effective _ _ Hc) as (parsed & Hp & Hall).
  exists parsed. split; [exact Hp|]. cbv zeta in Hall. apply Hall.
Defined.

Lemma configured_durations_fit_witness :
  ∃ cfg, LoadServerConfig witness_process = Ok cfg ∧ in_int64 (StoreInterval cfg * Second).
Proof.
  assert (LoadServerConfig witness_process = witness_config) as Hc by (vm_compute; reflexivity).
  unfold witness_config in Hc. eexists. split; [exact Hc|].
  apply (proj1 (configured_durations_fit witness_process) _ Hc).
Defined.

Lemma applyFile_accepts_witness :
  read_fields witness_process "file" = Ok None ∨
  ∃ fields, read_fields witness_process "file" = Ok (Some fields) ∧
    (∀ name, is_Some (fields !! name) → name ∈ map field server_options) ∧
    (∀ o kind raw, o ∈ server_options → fits server_flags o kind → fields !! field o = Some raw →
      flag o ∉ actual server_flags → overridden witness_process o = false → is_Some (member o kind raw)).
Proof.
  apply (applyFile_accepts witness_process "file" server_options server_flags (proj2 server_flags_fresh)).
  eexists. vm_compute. reflexivity.
Defined.
