(* ===== verification/Lifecycle.v ===== *)
(** [internal/server]: serving over HTTP, or over HTTP and gRPC, until the context
    is cancelled or a transport fails; then draining the transports and flushing
    the storage once.

    The goroutines of [serve] and [serveBoth] are step relations; a transport is
    what the code relies on of [http.Server] and [grpc.Server]. *)

From S2P Require Import Prelude GoErrors.

Definition ErrServerClosed : error := Sentinel "http: Server closed".
Definition ErrServerStopped : error := Sentinel "grpc: the server has been stopped".

(** ** Transports

    [Serve] accepts requests on an open listener until it returns; a call of
    [Shutdown] or [GracefulStop] makes it return, waits until no handler runs,
    and returns after that.  [active] counts the running handlers. *)
Record Transport : Type := mkTransport {
  opened : bool;      (* the listener was given to [Serve] *)
  serving : bool;     (* [Serve] has not returned *)
  stopping : bool;    (* [Shutdown] has been called *)
  drained : bool;     (* [Shutdown] has returned *)
  active : nat
}.

Definition unopened : Transport := mkTransport false false false false 0.
Definition accepting : Transport := mkTransport true true false false 0.
Definition returned (t : Transport) : Transport := mkTransport (opened t) false (stopping t) (drained t) (active t).
Definition stop (t : Transport) : Transport := mkTransport (opened t) (serving t) true (drained t) (active t).
Definition drain (t : Transport) : Transport := mkTransport (opened t) (serving t) true true (active t).

(** A request begins on a connection that the drain has not closed, or ends. *)
Inductive traffic : Transport → Transport → Prop :=
| request_begins t : opened t = true → drained t = false →
    traffic t (mkTransport true (serving t) (stopping t) false (S (active t)))
| request_ends t n : active t = S n →
    traffic t (mkTransport (opened t) (serving t) (stopping t) (drained t) n).

(** What [Serve] may return: an error of the listener, or after the stop what
    the package documents ([closed]). *)
Definition serve_returns (closed : list err) (t : Transport) (e : err) : Prop :=
  serving t = true ∧ if stopping t then e ∈ closed else e ≠ None.

Definition http_closed : list err := [Some ErrServerClosed].
Definition grpc_closed : list err := [None; Some ErrServerStopped].

(** [if errors.Is(err, ...Closed) { err = nil }] *)
Definition unclosed (targets : list string) (e : err) : err :=
  if existsb (λ target, Is target e) targets then None else e.

Definition quiet (t : Transport) : Prop := active t = 0 ∧ (opened t = true → drained t = true).

Lemma quiet_stays t t' : quiet t → ¬ traffic t t'.
Proof. intros [Ha Hd] Ht. destruct Ht as [t Ho Hn|t n Hn]; [|congruence]. rewrite Hd in Hn; done. Qed.

Lemma traffic_same t t' : traffic t t' →
  opened t' = opened t ∧ serving t' = serving t ∧ stopping t' = stopping t ∧ drained t' = drained t.
Proof. by destruct 1; simplify_eq/=. Qed.

Module Http.

(** ** HTTP only: [Run] and [serve]

    The program counter of [Run], with the local variables that are live. *)
Inductive pc : Type :=
| Listening
| Selecting
| Stopping (serveErr : err)
| Receiving (shutdownErr : err)
| Flushing (serveErr shutdownErr : err)
| Returned (e : err).

Definition closed_names : list string := ["http: Server closed"].

(** [results] is the channel; [outcome], [shutdown], [flushed] and [listened] record
    what [Serve], [Shutdown], [flush] and [net.Listen] returned. *)
Record State : Type := mkState {
  srv : Transport;
  results : list err;
  ctxDone : bool;
  at_ : pc;
  outcome : list err;
  shutdown : err;
  flushed : list err;
  listened : err       (* the error of [net.Listen] *)
}.

Definition init : State := mkState unopened [] false Listening [] None [] None.

Definition goto (l : pc) (s : State) : State :=
  mkState (srv s) (results s) (ctxDone s) l (outcome s) (shutdown s) (flushed s) (listened s).
Definition with_srv (t : Transport) (s : State) : State :=
  mkState t (results s) (ctxDone s) (at_ s) (outcome s) (shutdown s) (flushed s) (listened s).

Inductive serve_step : State → State → Prop :=
| listen_fails s e f :
    at_ s = Listening →
    serve_step s (mkState (srv s) (results s) (ctxDone s) (Returned (errors_Join [Some (Wrap "listen" e); f]))
              (outcome s) (shutdown s) (f :: flushed s) (Some e))
| listens s :
    (* and starts the goroutine *)
    at_ s = Listening → serve_step s (goto Selecting (with_srv accepting s))
| cancel s :
    serve_step s (mkState (srv s) (results s) true (at_ s) (outcome s) (shutdown s) (flushed s) (listened s))
| request s t :
    traffic (srv s) t → serve_step s (with_srv t s)
| goroutine s e :
    serve_returns http_closed (srv s) e →
    serve_step s (mkState (returned (srv s)) (results s ++ [e]) (ctxDone s) (at_ s) (outcome s ++ [e])
              (shutdown s) (flushed s) (listened s))
| select_ctx s :
    at_ s = Selecting → ctxDone s = true →
    serve_step s (goto (Stopping None) (with_srv (stop (srv s)) s))
| select_result s e es :
    at_ s = Selecting → results s = e :: es →
    serve_step s (mkState (stop (srv s)) es (ctxDone s) (Stopping e) (outcome s) (shutdown s) (flushed s) (listened s))
| Shutdown_returns s serveErr e :
    at_ s = Stopping serveErr → active (srv s) = 0 →
    serve_step s (mkState (drain (srv s)) (results s) (ctxDone s)
              match serveErr with
              | None => Receiving e
              | Some _ => Flushing (unclosed closed_names serveErr) e
              end (outcome s) e (flushed s) (listened s))
| receive s shutdownErr e es :
    at_ s = Receiving shutdownErr → results s = e :: es →
    serve_step s (mkState (srv s) es (ctxDone s) (Flushing (unclosed closed_names e) shutdownErr)
              (outcome s) (shutdown s) (flushed s) (listened s))
| flush s serveErr shutdownErr f :
    at_ s = Flushing serveErr shutdownErr →
    serve_step s (mkState (srv s) (results s) (ctxDone s) (Returned (errors_Join [serveErr; shutdownErr; f]))
              (outcome s) (shutdown s) (f :: flushed s) (listened s)).

Definition reachable (s : State) : Prop := rtc serve_step init s.

(** What the calls of [net.Listen], [Serve] and [Shutdown] returned, an orderly stop
    being no error; [Run] reports them and what [flush] returned. *)
Definition call_errors (s : State) : list err :=
  option_map (Wrap "listen") (listened s) :: map (unclosed closed_names) (outcome s) ++ [shutdown s].
Definition reported (s : State) : err := errors_Join (call_errors s ++ flushed s).

(** [Serve] sends one result, an error. *)
Definition pending (serving : bool) (outcome : list err) : Prop :=
  if serving then outcome = [] else ∃ e, outcome = [Some e].

(** Only a run that has returned may have failed to listen. *)
Definition listening_ok (s : State) : Prop := match at_ s with Returned _ => True | _ => listened s = None end.

Lemma serve_step_listening s s' : serve_step s s' → listening_ok s → listening_ok s'.
Proof.
  unfold listening_ok. destruct 1 as [s e f Hat|s Hat|s|s t Ht|s e He|s Hat Hc|s e es Hat Hr|s [se|] e Hat Ha|s se e es Hat Hr|s a b f Hat];
    cbn; by rewrite ?Hat.
Qed.

(** The protocol: where each result is, and what has been drained. *)
Definition inv (s : State) : Prop :=
  match at_ s with
  | Listening => srv s = unopened ∧ results s = [] ∧ outcome s = [] ∧ shutdown s = None ∧ flushed s = []
  | Selecting => opened (srv s) = true ∧ stopping (srv s) = false ∧ drained (srv s) = false ∧
      flushed s = [] ∧ outcome s = results s ∧
      pending (serving (srv s)) (outcome s)
  | Stopping None => opened (srv s) = true ∧ stopping (srv s) = true ∧ drained (srv s) = false ∧
      flushed s = [] ∧ outcome s = results s ∧
      pending (serving (srv s)) (outcome s)
  | Stopping (Some e) => opened (srv s) = true ∧ flushed s = [] ∧ outcome s = [Some e] ∧
      serving (srv s) = false ∧ results s = []
  | Receiving e => stopping (srv s) = true ∧ quiet (srv s) ∧ flushed s = [] ∧ shutdown s = e ∧
      outcome s = results s ∧ pending (serving (srv s)) (outcome s)
  | Flushing e1 e2 => quiet (srv s) ∧ flushed s = [] ∧ shutdown s = e2 ∧ serving (srv s) = false ∧
      ∃ e, outcome s = [e] ∧ unclosed closed_names e = e1
  | Returned r => quiet (srv s) ∧ serving (srv s) = false ∧ ∃ f, flushed s = [f] ∧
      r = reported s
  end.

Lemma serve_closed t : serving t = true → stopping t = true → serve_returns http_closed t (Some ErrServerClosed).
Proof. intros Hs Ht. split; [done|]. rewrite Ht. apply list_elem_of_here. Qed.

Lemma http_result t e outcome :
  serve_returns http_closed t e → pending (serving t) outcome → pending false (outcome ++ [e]).
Proof.
  intros [-> He]. unfold pending. intros ->.
  destruct (stopping t), e as [e|]; try done; [by exists e| |by exists e].
  apply list_elem_of_singleton in He. done.
Qed.

Lemma serve_step_inv s s' : serve_step s s' → listening_ok s → inv s → inv s'.
Proof.
  unfold listening_ok. intros Hstep Hlis. destruct Hstep as [s e f Hat|s Hat|s|s t Ht|s e He|s Hat Hc|s e es Hat Hr|s se e Hat Ha|s se e es Hat Hr|s a b f Hat];
    unfold inv; cbn [at_ goto with_srv srv results outcome shutdown flushed listened].
  - rewrite Hat. intros (-> & _ & -> & -> & ->). split; [done|]. split; [done|]. by exists f.
  - rewrite Hat. intros (_ & Hr & Ho & _ & ->). cbn. by rewrite Hr, Ho.
  - done.
  - destruct (traffic_same _ _ Ht) as (-> & -> & -> & ->).
    destruct (at_ s) as [| |[e|]|e|a b|r]; intros Hi; try done.
    + destruct Hi as (Hu & _). rewrite Hu in Ht. by destruct (quiet_stays unopened t).
    + destruct Hi as (_ & Hq & _). by destruct (quiet_stays _ _ Hq Ht).
    + destruct Hi as (Hq & _). by destruct (quiet_stays _ _ Hq Ht).
    + destruct Hi as (Hq & _). by destruct (quiet_stays _ _ Hq Ht).
  - pose proof (proj1 He) as Hs. destruct (at_ s) as [| |[x|]|x|a b|r]; intros Hi; cbn.
    + destruct Hi as (Hu & _). by rewrite Hu in Hs.
    + destruct Hi as (? & ? & ? & ? & Heq & Hp). rewrite <-Heq. split_and!; try done. by eapply http_result.
    + destruct Hi as (_ & _ & _ & Hn & _). congruence.
    + destruct Hi as (? & ? & ? & ? & Heq & Hp). rewrite <-Heq. split_and!; try done. by eapply http_result.
    + destruct Hi as (? & ? & ? & ? & Heq & Hp). rewrite <-Heq. split_and!; try done. by eapply http_result.
    + destruct Hi as (_ & _ & _ & Hn & _). congruence.
    + destruct Hi as (_ & Hn & _). congruence.
  - rewrite Hat. intros (? & ? & ? & ? & ? & ?). done.
  - rewrite Hat, Hr. intros (? & ? & ? & ? & Ho & Hp). unfold pending in Hp.
    destruct (serving (srv s)) eqn:Hs; [congruence|]. destruct Hp as [x Hx].
    rewrite Ho in Hx. injection Hx as -> ->. cbn. by rewrite Ho.
  - rewrite Hat. destruct se as [x|].
    + intros (? & ? & Ho & ? & ?). split; [done|]. split_and!; try done. by exists (Some x).
    + intros (? & ? & ? & ? & ? & ?). done.
  - rewrite Hat, Hr. intros (? & ? & ? & ? & Ho & Hp). unfold pending in Hp.
    destruct (serving (srv s)) eqn:Hs; [congruence|]. destruct Hp as [x Hx].
    rewrite Ho in Hx. injection Hx as -> ->. split_and!; try done. by exists (Some x).
  - rewrite Hat. intros (? & Hf & Hsh & ? & x & Ho & Hu). split_and!; try done.
    exists f. rewrite Hf. split; [done|]. rewrite Hat in Hlis. unfold reported, call_errors.
    cbn [outcome shutdown flushed listened]. by rewrite Hlis, Ho, Hsh, <-Hu.
Qed.

Lemma serve_reachable_inv s : reachable s → listening_ok s ∧ inv s.
Proof.
  unfold reachable. intros H. assert (listening_ok init ∧ inv init) as Hi by done. revert Hi.
  induction H as [s|s s1 s2 Hs _ IH]; [done|]. intros [Hl Hi].
  apply IH. split; [by eapply serve_step_listening|by eapply serve_step_inv].
Qed.

(** The storage is flushed once, when no handler runs and none will, and the
    result reports every error. *)
Lemma Run_flushes s :
  reachable s →
  (flushed s = [] ∨ ∃ f r, flushed s = [f] ∧ at_ s = Returned r) ∧
  (flushed s ≠ [] → active (srv s) = 0 ∧ ∀ t, ¬ traffic (srv s) t) ∧
  (∀ r, at_ s = Returned r → ∃ f, flushed s = [f] ∧ r = errors_Join (call_errors s ++ [f])).
Proof.
  intros [_ Hi]%serve_reachable_inv. unfold inv in Hi.
  destruct (at_ s) as [| |[e|]|e|a b|r] eqn:Hat; try (split; [left; tauto|]; split; [tauto|done]).
  destruct Hi as (Hq & _ & f & Hf & Hr). split; [right; by exists f, r|].
  split; [intros _; split; [apply Hq|intros t; by apply quiet_stays]|].
  intros ? [= <-]. exists f. split; [done|]. rewrite Hr. unfold reported. by rewrite Hf.
Qed.

Lemma requests_end s : ∃ s', rtc serve_step s s' ∧ active (srv s') = 0 ∧ at_ s' = at_ s ∧ results s' = results s ∧
  serving (srv s') = serving (srv s) ∧ stopping (srv s') = stopping (srv s).
Proof.
  remember (active (srv s)) as n eqn:Hn. revert s Hn. induction n as [|n IH]; intros s Hn; [by exists s|].
  pose proof (request s _ (request_ends (srv s) n (eq_sym Hn))) as Hs.
  destruct (IH (with_srv (mkTransport (opened (srv s)) (serving (srv s)) (stopping (srv s))
    (drained (srv s)) n) s) eq_refl) as (s' & Hr & Ha & He). exists s'.
  split; [by eapply rtc_l|]. by split.
Qed.

Definition returns (s : State) : Prop := ∃ s' r, rtc serve_step s s' ∧ at_ s' = Returned r.

Lemma returns_step s s' : rtc serve_step s s' → returns s' → returns s.
Proof. intros Hs (s2 & r & Hr & Ha). exists s2, r. split; [by etrans|done]. Qed.

Lemma flushing_returns s a b : at_ s = Flushing a b → returns s.
Proof. intros Hat. eexists _, _. split; [apply rtc_once; by eapply (flush s a b None)|done]. Qed.

Lemma stopping_returns s e : inv s → at_ s = Stopping e → returns s.
Proof.
  intros Hi Hat. destruct (requests_end s) as (s1 & Hr & Ha & Hat1 & Hres & Hserv & Hstop).
  eapply returns_step; [exact Hr|]. rewrite Hat in Hat1.
  pose proof (Shutdown_returns s1 e None Hat1 Ha) as Hsh.
  eapply returns_step; [by apply rtc_once|]. clear Hsh.
  unfold inv in Hi. rewrite Hat in Hi. destruct e as [e|]; [by eapply flushing_returns|].
  destruct Hi as (_ & Hst & _ & _ & Ho & Hp). unfold pending in Hp.
  destruct (serving (srv s)) eqn:Hs.
  - eapply returns_step; [apply rtc_once, (goroutine _ (Some ErrServerClosed));
      apply serve_closed; cbn; congruence|].
    eapply returns_step; [apply rtc_once; eapply receive; [done|]|by eapply flushing_returns].
    cbn. by rewrite Hres, <-Ho, Hp.
  - destruct Hp as [x Hx]. rewrite Ho in Hx.
    eapply returns_step; [apply rtc_once; eapply receive; [done|]|by eapply flushing_returns].
    cbn. by rewrite Hres, Hx.
Qed.

(** From every reachable state the server can still return. *)
Lemma Run_can_return s : reachable s → returns s.
Proof.
  intros Hreach. destruct (serve_reachable_inv s Hreach) as [Hlis Hi].
  destruct (at_ s) as [| |e|e|a b|r] eqn:Hat.
  - eexists _, _. split; [apply rtc_once; by eapply (listen_fails s ErrServerClosed None)|done].
  - pose proof (cancel s) as Hc. eapply returns_step; [by apply rtc_once|].
    eapply returns_step; [apply rtc_once, select_ctx; done|].
    eapply stopping_returns; [|done].
    eapply serve_step_inv; [apply select_ctx; done|by eapply serve_step_listening|]. by eapply serve_step_inv.
  - by eapply stopping_returns.
  - unfold inv in Hi. rewrite Hat in Hi. destruct Hi as (Hst & _ & _ & _ & Ho & Hp).
    unfold pending in Hp. destruct (serving (srv s)) eqn:Hs.
    + eapply returns_step; [apply rtc_once, (goroutine _ (Some ErrServerClosed)); by apply serve_closed|].
      eapply returns_step; [apply rtc_once; eapply receive; [done|]|by eapply flushing_returns].
      cbn. by rewrite <-Ho, Hp.
    + destruct Hp as [x Hx]. rewrite Ho in Hx.
      eapply returns_step; [apply rtc_once; by eapply receive|by eapply flushing_returns].
  - by eapply flushing_returns.
  - by exists s, r.
Qed.

End Http.

Module Both.

(** ** HTTP and gRPC: [RunWithGRPC] and [serveBoth] *)
Inductive pc : Type :=
| Listening
| ListeningRPC
| Selecting
| Draining (first : err) (remaining : nat)
| Collecting (errs : list err) (remaining : nat)
| Flushing (errs : list err)
| Returned (e : err).

Definition closed_names : list string :=
  ["http: Server closed"; "grpc: the server has been stopped"].

Record State : Type := mkState {
  http : Transport;
  rpc : Transport;
  results : list err;
  ctxDone : bool;
  at_ : pc;
  outcome : list err;    (* what the two [Serve] calls returned *)
  shutdownErr : err;
  flushed : list err;
  listened : err         (* the error of the [net.Listen] that failed *)
}.

Definition init : State := mkState unopened unopened [] false Listening [] None [] None.

Definition goto (l : pc) (s : State) : State :=
  mkState (http s) (rpc s) (results s) (ctxDone s) l (outcome s) (shutdownErr s) (flushed s) (listened s).
Definition with_http (t : Transport) (s : State) : State :=
  mkState t (rpc s) (results s) (ctxDone s) (at_ s) (outcome s) (shutdownErr s) (flushed s) (listened s).
Definition with_rpc (t : Transport) (s : State) : State :=
  mkState (http s) t (results s) (ctxDone s) (at_ s) (outcome s) (shutdownErr s) (flushed s) (listened s).
Definition with_shutdownErr (e : err) (s : State) : State :=
  mkState (http s) (rpc s) (results s) (ctxDone s) (at_ s) (outcome s) e (flushed s) (listened s).
Definition send (e : err) (s : State) : State :=
  mkState (http s) (rpc s) (results s ++ [e]) (ctxDone s) (at_ s) (outcome s ++ [e]) (shutdownErr s) (flushed s) (listened s).
Definition take_result (es : list err) (s : State) : State :=
  mkState (http s) (rpc s) es (ctxDone s) (at_ s) (outcome s) (shutdownErr s) (flushed s) (listened s).
Definition finish (r f : err) (s : State) : State :=
  mkState (http s) (rpc s) (results s) (ctxDone s) (Returned r) (outcome s) (shutdownErr s) (f :: flushed s) (listened s).
Definition fail_listen (e : error) (s : State) : State :=
  mkState (http s) (rpc s) (results s) (ctxDone s) (at_ s) (outcome s) (shutdownErr s) (flushed s) (Some e).

Inductive serveBoth_step : State → State → Prop :=
| listen_fails s e f :
    at_ s = Listening → serveBoth_step s (finish (errors_Join [Some e; f]) f (fail_listen e s))
| listens s : at_ s = Listening → serveBoth_step s (goto ListeningRPC s)
| listen_rpc_fails s e f :
    (* the HTTP listener is closed *)
    at_ s = ListeningRPC → serveBoth_step s (finish (errors_Join [Some e; f]) f (fail_listen e s))
| listens_rpc s :
    at_ s = ListeningRPC → serveBoth_step s (goto Selecting (with_http accepting (with_rpc accepting s)))
| cancel s :
    serveBoth_step s (mkState (http s) (rpc s) (results s) true (at_ s) (outcome s) (shutdownErr s) (flushed s) (listened s))
| http_request s t : traffic (http s) t → serveBoth_step s (with_http t s)
| rpc_request s t : traffic (rpc s) t → serveBoth_step s (with_rpc t s)
| http_goroutine s e :
    serve_returns http_closed (http s) e → serveBoth_step s (send e (with_http (returned (http s)) s))
| rpc_goroutine s e :
    serve_returns grpc_closed (rpc s) e → serveBoth_step s (send e (with_rpc (returned (rpc s)) s))
| select_ctx s : at_ s = Selecting → ctxDone s = true → serveBoth_step s (goto (Draining None 2) s)
| select_result s e es :
    at_ s = Selecting → results s = e :: es → serveBoth_step s (goto (Draining e 1) (take_result es s))
| Shutdown_called s e n :
    at_ s = Draining e n → stopping (http s) = false → serveBoth_step s (with_http (stop (http s)) s)
| GracefulStop_called s e n :
    at_ s = Draining e n → stopping (rpc s) = false → serveBoth_step s (with_rpc (stop (rpc s)) s)
| Shutdown_returns s e n r :
    at_ s = Draining e n → stopping (http s) = true → drained (http s) = false → active (http s) = 0 →
    serveBoth_step s (with_shutdownErr r (with_http (drain (http s)) s))
| GracefulStop_returns s e n :
    at_ s = Draining e n → stopping (rpc s) = true → drained (rpc s) = false → active (rpc s) = 0 →
    serveBoth_step s (with_rpc (drain (rpc s)) s)
| waited s e n :
    at_ s = Draining e n → drained (http s) = true → drained (rpc s) = true →
    serveBoth_step s (goto (Collecting [e; shutdownErr s] n) s)
| collect s errs n e es :
    at_ s = Collecting errs (S n) → results s = e :: es →
    serveBoth_step s (goto (Collecting (errs ++ [e]) n) (take_result es s))
| collected s errs :
    at_ s = Collecting errs 0 → serveBoth_step s (goto (Flushing (map (unclosed closed_names) errs)) s)
| flush s errs f :
    at_ s = Flushing errs → serveBoth_step s (finish (errors_Join (errs ++ [f])) f s).

Definition reachable (s : State) : Prop := rtc serveBoth_step init s.

(** The errors among results, those of an orderly stop apart. *)
Definition live (l : list err) : list error := omap (unclosed closed_names) l.

(** Every error but that of [flush]. *)
Definition call_errors (s : State) : list error := option_list (listened s) ++ live (outcome s ++ [shutdownErr s]).

(** Only a run that has returned may have failed to listen. *)
Definition listening_ok (s : State) : Prop := match at_ s with Returned _ => True | _ => listened s = None end.

Lemma serveBoth_step_listening s s' : serveBoth_step s s' → listening_ok s → listening_ok s'.
Proof.
  unfold listening_ok. destruct 1 as [s e f Hat|s Hat|s e f Hat|s Hat|s|s t Ht|s t Ht|s e He|s e He|s Hat Hc
    |s e es Hat Hr|s e n Hat Hst|s e n Hat Hst|s e n r Hat Hst Hd Ha|s e n Hat Hst Hd Ha|s e n Hat Hh Hp
    |s errs n e es Hat Hr|s errs Hat|s errs f Hat]; cbn; by rewrite ?Hat.
Qed.

Definition both_quiet (s : State) : Prop := quiet (http s) ∧ quiet (rpc s).

Definition owed (s : State) : nat :=
  Nat.b2n (serving (http s)) + Nat.b2n (serving (rpc s)) + length (results s).

(** A transport that is drained has no handler left. *)
Definition sound (t : Transport) : Prop := drained t = true → stopping t = true ∧ active t = 0.

Definition inv (s : State) : Prop :=
  sound (http s) ∧ sound (rpc s) ∧
  match at_ s with
  | Listening | ListeningRPC => http s = unopened ∧ rpc s = unopened ∧ results s = [] ∧ outcome s = [] ∧
      flushed s = [] ∧ shutdownErr s = None
  | Selecting => flushed s = [] ∧ owed s = 2 ∧ live (results s) ≡ₚ live (outcome s) ∧
      stopping (http s) = false ∧ stopping (rpc s) = false
  | Draining e n => flushed s = [] ∧ owed s = n ∧ live (e :: results s) ≡ₚ live (outcome s)
  | Collecting errs n => both_quiet s ∧ stopping (http s) = true ∧ stopping (rpc s) = true ∧
      flushed s = [] ∧ owed s = n ∧
      live (errs ++ results s) ≡ₚ live (outcome s ++ [shutdownErr s])
  | Flushing errs => both_quiet s ∧ flushed s = [] ∧ owed s = 0 ∧
      omap id errs ≡ₚ live (outcome s ++ [shutdownErr s])
  | Returned r => both_quiet s ∧ owed s = 0 ∧ ∃ f, flushed s = [f] ∧
      ∃ errs, r = errors_Join (errs ++ [f]) ∧ omap id errs ≡ₚ call_errors s
  end.

Lemma live_app l1 l2 : live (l1 ++ l2) = live l1 ++ live l2.
Proof. apply omap_app. Qed.

Lemma live_map l : omap id (map (unclosed closed_names) l) = live l.
Proof. unfold live. induction l as [|e l IH]; [done|]. cbn. rewrite IH. done. Qed.

Lemma sound_traffic t t' : sound t → traffic t t' → sound t'.
Proof. unfold sound. intros Hs Ht. destruct Ht; cbn; [done|]. intros Hd. destruct (Hs Hd). congruence. Qed.

Lemma sound_stop t : sound t → sound (stop t).
Proof. unfold sound. cbn. naive_solver. Qed.

Lemma sound_quiet t : sound t → drained t = true → quiet t.
Proof. intros Hs Hd. destruct (Hs Hd). by split. Qed.

Lemma serveBoth_step_inv_traffic s t (isrpc : bool) :
  traffic (if isrpc then rpc s else http s) t → inv s → inv (if isrpc then with_rpc t s else with_http t s).
Proof.
  intros Ht. destruct (traffic_same _ _ Ht) as (Ho & Hs & Hst & Hd).
  intros (H1 & H2 & Hi).
  assert (sound t) by (destruct isrpc; [exact (sound_traffic _ _ H2 Ht)|exact (sound_traffic _ _ H1 Ht)]).
  unfold inv, both_quiet, owed in *.
  destruct isrpc; cbn [http rpc at_ results outcome flushed shutdownErr with_rpc with_http] in *;
    (split; [done|]; split; [done|]); destruct (at_ s) as [| | |e n|errs n|errs|r];
    rewrite ?Ho, ?Hs, ?Hst; try done;
    exfalso;
    first [destruct Hi as ((Hqh & Hqr) & _);
           first [exact (quiet_stays _ _ Hqr Ht) | exact (quiet_stays _ _ Hqh Ht)]
          |destruct Hi as (Hh & Hr & _); rewrite ?Hh, ?Hr in Ht; by apply (quiet_stays unopened t)].
Qed.

(** A result that is sent comes from a transport that served. *)
Lemma send_owed t e closed es n :
  serve_returns closed t e →
  Nat.b2n (serving (returned t)) + n + length (es ++ [e]) = Nat.b2n (serving t) + n + length es.
Proof. intros [Hs _]. rewrite Hs, length_app. cbn. lia. Qed.

Lemma live_snoc l l' e : live l ≡ₚ live l' → live (l ++ [e]) ≡ₚ live (l' ++ [e]).
Proof. intros H. by rewrite !live_app, H. Qed.

Lemma serveBoth_step_inv_send s e (isrpc : bool) :
  serve_returns (if isrpc then grpc_closed else http_closed) (if isrpc then rpc s else http s) e →
  inv s → inv (send e (if isrpc then with_rpc (returned (rpc s)) s else with_http (returned (http s)) s)).
Proof.
  intros He. pose proof (proj1 He) as Hs. intros (H1 & H2 & Hi).
  unfold inv, both_quiet, owed in *.
  destruct isrpc; cbn [http rpc at_ results outcome flushed shutdownErr with_rpc with_http send returned
    serving stopping] in *; (split; [done|]; split; [done|]);
    rewrite Hs in Hi; destruct (at_ s) as [| | |e0 n|errs n|errs|r]; cbn [Nat.b2n] in *.
  all: try (destruct Hi as (Hh & Hr & _); rewrite ?Hh, ?Hr in Hs; done).
  all: rewrite ?length_app; cbn [length].
  all: decompose [and] Hi; split_and!; try done; try lia.
  all: try by apply live_snoc.
  all: try by apply (live_snoc (_ :: results _)).
  all: match goal with H : live (_ ++ results _) ≡ₚ _ |- _ =>
    rewrite app_assoc, live_app, H, !live_app; solve_Permutation end.
Qed.

Lemma serveBoth_step_inv s s' : serveBoth_step s s' → listening_ok s → inv s → inv s'.
Proof.
  unfold listening_ok. intros Hstep Hlis. destruct Hstep as [s e f Hat|s Hat|s e f Hat|s Hat|s|s t Ht|s t Ht|s e He|s e He|s Hat Hc
    |s e es Hat Hr|s e n Hat Hst|s e n Hat Hst|s e n r Hat Hst Hd Ha|s e n Hat Hst Hd Ha|s e n Hat Hh Hp
    |s errs n e es Hat Hr|s errs Hat|s errs f Hat].
  - unfold inv. rewrite Hat. intros (H1 & H2 & Hh & Hp & Hr & Ho & Hf & Hsh).
    unfold both_quiet, owed, call_errors. cbn. rewrite Hh, Hp, Hr, Hf, Ho, Hsh. split_and!; try done.
    exists f. split; [done|]. by exists [Some e].
  - unfold inv. rewrite Hat. done.
  - unfold inv. rewrite Hat. intros (H1 & H2 & Hh & Hp & Hr & Ho & Hf & Hsh).
    unfold both_quiet, owed, call_errors. cbn. rewrite Hh, Hp, Hr, Hf, Ho, Hsh. split_and!; try done.
    exists f. split; [done|]. by exists [Some e].
  - unfold inv, owed. rewrite Hat. intros (H1 & H2 & _ & _ & Hr & Ho & Hf & Hsh).
    cbn. rewrite Hr, Ho. split_and!; done.
  - done.
  - by apply (serveBoth_step_inv_traffic s t false).
  - by apply (serveBoth_step_inv_traffic s t true).
  - by apply (serveBoth_step_inv_send s e false).
  - by apply (serveBoth_step_inv_send s e true).
  - unfold inv, owed. rewrite Hat. intros (H1 & H2 & Hf & Ho & Hl & _). done.
  - unfold inv, owed. rewrite Hat, Hr. cbn. intros (H1 & H2 & Hf & Ho & Hl & _).
    split_and!; try done. lia.
  - unfold inv, owed. rewrite Hat. cbn. rewrite Hat. intros (H1 & H2 & Hi).
    split_and!; [by apply sound_stop|done|apply Hi..].
  - unfold inv, owed. rewrite Hat. cbn. rewrite Hat. intros (H1 & H2 & Hi).
    split_and!; [done|by apply sound_stop|apply Hi..].
  - unfold inv, owed. rewrite Hat. cbn. rewrite Hat. intros (H1 & H2 & Hi).
    split_and!; [done|done|apply Hi..].
  - unfold inv, owed. rewrite Hat. cbn. rewrite Hat. intros (H1 & H2 & Hi).
    split_and!; [done|done|apply Hi..].
  - unfold inv, owed, both_quiet. rewrite Hat. cbn. intros (H1 & H2 & Hf & Ho & Hl).
    destruct (H1 Hh), (H2 Hp).
    split_and!; try done; try by apply sound_quiet.
    change (live ([e] ++ results s) ≡ₚ live (outcome s)) in Hl.
    change (live ([e] ++ [shutdownErr s] ++ results s) ≡ₚ live (outcome s ++ [shutdownErr s])).
    rewrite !live_app in *. rewrite <-Hl. solve_Permutation.
  - unfold inv, owed, both_quiet. rewrite Hat, Hr. cbn. intros (H1 & H2 & Hq & ? & ? & Hf & Ho & Hl).
    split_and!; try done; [apply Hq|apply Hq|lia|]. by rewrite <-app_assoc.
  - unfold inv, owed, both_quiet. rewrite Hat. cbn. intros (H1 & H2 & Hq & ? & ? & Hf & Ho & Hl).
    assert (results s = []) as Hr by (apply length_zero_iff_nil; lia).
    rewrite Hr, app_nil_r in Hl. split_and!; try done; [apply Hq|apply Hq|]. by rewrite live_map.
  - unfold inv, owed, both_quiet. rewrite Hat. cbn. intros (H1 & H2 & Hq & Hf & Ho & Hl).
    split_and!; try done; [apply Hq|apply Hq|]. exists f. rewrite Hf. split; [done|].
    exists errs. split; [done|]. rewrite Hat in Hlis. unfold call_errors. cbn. by rewrite Hlis.
Qed.

Definition protocol (s : State) : Prop := listening_ok s ∧ inv s.

Lemma protocol_step s s' : serveBoth_step s s' → protocol s → protocol s'.
Proof. intros Hs [Hl Hi]. split; [by eapply serveBoth_step_listening|by eapply serveBoth_step_inv]. Qed.

Lemma serveBoth_reachable_inv s : reachable s → protocol s.
Proof.
  unfold reachable. intros Hr. assert (protocol init) as Hi by (unfold protocol, listening_ok, inv, sound; cbn; done). revert Hi.
  induction Hr as [s|s s1 s2 Hs _ IH]; [done|]. intros Hi. by eapply IH, protocol_step.
Qed.

(** The storage is flushed once, when neither transport runs a handler nor will,
    and the result reports every error. *)
Lemma RunWithGRPC_flushes s :
  reachable s →
  (flushed s = [] ∨ ∃ f r, flushed s = [f] ∧ at_ s = Returned r) ∧
  (flushed s ≠ [] → active (http s) = 0 ∧ active (rpc s) = 0 ∧
    ∀ t, ¬ traffic (http s) t ∧ ¬ traffic (rpc s) t) ∧
  (∀ r, at_ s = Returned r → ∃ f, flushed s = [f] ∧
    ∃ errs, r = errors_Join (errs ++ [f]) ∧ omap id errs ≡ₚ call_errors s).
Proof.
  intros (_ & _ & _ & Hi)%serveBoth_reachable_inv.
  destruct (at_ s) as [| | |e n|errs n|errs|r]; try (split; [left; tauto|]; split; [tauto|done]).
  destruct Hi as ([Hh Hr] & _ & f & Hf & He). split; [right; by exists f, r|].
  split; [intros _; split; [apply Hh|split; [apply Hr|intros t; split; by apply quiet_stays]]|].
  intros ? [= <-]. by exists f.
Qed.

Definition idle (t : Transport) : Transport :=
  mkTransport (opened t) (serving t) (stopping t) (drained t) 0.

Lemma http_requests_end s : rtc serveBoth_step s (with_http (idle (http s)) s).
Proof.
  remember (active (http s)) as n eqn:Hn. revert s Hn.
  induction n as [|n IH]; intros s Hn; [destruct s as [[]]; cbn in Hn; by subst|].
  pose proof (http_request s _ (request_ends (http s) n (eq_sym Hn))) as Hs.
  eapply rtc_l; [exact Hs|].
  exact (IH (with_http (mkTransport (opened (http s)) (serving (http s)) (stopping (http s)) (drained (http s)) n) s)
    eq_refl).
Qed.

Lemma rpc_requests_end s : rtc serveBoth_step s (with_rpc (idle (rpc s)) s).
Proof.
  remember (active (rpc s)) as n eqn:Hn. revert s Hn.
  induction n as [|n IH]; intros s Hn; [destruct s as [? []]; cbn in Hn; by subst|].
  pose proof (rpc_request s _ (request_ends (rpc s) n (eq_sym Hn))) as Hs.
  eapply rtc_l; [exact Hs|].
  exact (IH (with_rpc (mkTransport (opened (rpc s)) (serving (rpc s)) (stopping (rpc s)) (drained (rpc s)) n) s)
    eq_refl).
Qed.

(** Each of the two goroutines of the drain can finish. *)
Lemma Shutdown_can_return s e n :
  at_ s = Draining e n → drained (http s) = false →
  ∃ s', rtc serveBoth_step s s' ∧ at_ s' = Draining e n ∧ drained (http s') = true ∧ rpc s' = rpc s.
Proof.
  intros Hat Hd.
  assert (∃ s1, rtc serveBoth_step s s1 ∧ at_ s1 = Draining e n ∧ stopping (http s1) = true ∧
    drained (http s1) = false ∧ rpc s1 = rpc s) as (s1 & Hr1 & Hat1 & Hs1 & Hd1 & Hp1).
  { destruct (stopping (http s)) eqn:Hst; [by exists s|].
    eexists. split; [by apply rtc_once; eapply Shutdown_called|]. done. }
  eexists. split; [|split; [|split]].
  - etrans; [exact Hr1|]. eapply rtc_r; [apply http_requests_end|].
    by eapply (Shutdown_returns _ e n None).
  - done.
  - done.
  - done.
Qed.

Lemma GracefulStop_can_return s e n :
  at_ s = Draining e n → drained (rpc s) = false →
  ∃ s', rtc serveBoth_step s s' ∧ at_ s' = Draining e n ∧ drained (rpc s') = true ∧ http s' = http s.
Proof.
  intros Hat Hd.
  assert (∃ s1, rtc serveBoth_step s s1 ∧ at_ s1 = Draining e n ∧ stopping (rpc s1) = true ∧
    drained (rpc s1) = false ∧ http s1 = http s) as (s1 & Hr1 & Hat1 & Hs1 & Hd1 & Hp1).
  { destruct (stopping (rpc s)) eqn:Hst; [by exists s|].
    eexists. split; [by apply rtc_once; eapply GracefulStop_called|]. done. }
  eexists. split; [|split; [|split]].
  - etrans; [exact Hr1|]. eapply rtc_r; [apply rpc_requests_end|].
    by eapply (GracefulStop_returns _ e n).
  - done.
  - done.
  - done.
Qed.

Lemma steps_inv s s' : rtc serveBoth_step s s' → protocol s → protocol s'.
Proof. induction 1; eauto using protocol_step. Qed.

Definition returns (s : State) : Prop := ∃ s' r, rtc serveBoth_step s s' ∧ at_ s' = Returned r.

Lemma returns_steps s s' : rtc serveBoth_step s s' → returns s' → returns s.
Proof. intros Hs (s2 & r & Hr & Ha). exists s2, r. split; [by etrans|done]. Qed.

(** A result that is owed can be received. *)
Lemma result_can_come s errs n :
  protocol s → at_ s = Collecting errs (S n) →
  ∃ s' e es, rtc serveBoth_step s s' ∧ at_ s' = Collecting errs (S n) ∧ results s' = e :: es.
Proof.
  intros (_ & _ & _ & Hi) Hat. rewrite Hat in Hi. destruct Hi as (_ & Hsh & Hsr & _ & Ho & _).
  destruct (results s) as [|e es] eqn:Hres; [|by exists s, e, es].
  unfold owed in Ho. rewrite Hres in Ho. cbn [length] in Ho.
  destruct (serving (http s)) eqn:Hh.
  - exists (send (Some ErrServerClosed) (with_http (returned (http s)) s)), (Some ErrServerClosed), [].
    split; [|cbn; by rewrite Hres]. apply rtc_once, http_goroutine. split; [done|].
    rewrite Hsh. apply list_elem_of_here.
  - destruct (serving (rpc s)) eqn:Hp; [|cbn in Ho; lia].
    exists (send None (with_rpc (returned (rpc s)) s)), None, [].
    split; [|cbn; by rewrite Hres]. apply rtc_once, rpc_goroutine. split; [done|].
    rewrite Hsr. apply list_elem_of_here.
Qed.

Lemma collecting_returns n s errs : protocol s → at_ s = Collecting errs n → returns s.
Proof.
  revert s errs. induction n as [|n IH]; intros s errs Hi Hat.
  - eapply returns_steps; [apply rtc_once; by apply collected|].
    eexists _, _. split; [apply rtc_once; by eapply (flush _ _ None)|done].
  - destruct (result_can_come s errs n Hi Hat) as (s1 & e & es & Hr & Hat1 & Hres).
    eapply returns_steps; [exact Hr|].
    pose proof (collect s1 errs n e es Hat1 Hres) as Hc.
    eapply returns_steps; [by apply rtc_once|].
    eapply IH; [|done]. eapply protocol_step; [exact Hc|]. by eapply steps_inv.
Qed.

Lemma draining_returns s e n : protocol s → at_ s = Draining e n → returns s.
Proof.
  intros Hi Hat.
  assert (∃ s1, rtc serveBoth_step s s1 ∧ at_ s1 = Draining e n ∧ drained (http s1) = true) as (s1 & Hr1 & Hat1 & Hh1).
  { destruct (drained (http s)) eqn:Hd; [by exists s|].
    destruct (Shutdown_can_return s e n Hat Hd) as (s1 & ? & ? & ? & _). by exists s1. }
  assert (∃ s2, rtc serveBoth_step s1 s2 ∧ at_ s2 = Draining e n ∧ drained (http s2) = true ∧ drained (rpc s2) = true)
    as (s2 & Hr2 & Hat2 & Hh2 & Hp2).
  { destruct (drained (rpc s1)) eqn:Hd; [by exists s1|].
    destruct (GracefulStop_can_return s1 e n Hat1 Hd) as (s2 & ? & ? & ? & Heq). exists s2. by rewrite Heq. }
  eapply returns_steps; [by etrans|].
  pose proof (waited s2 e n Hat2 Hh2 Hp2) as Hw.
  eapply returns_steps; [by apply rtc_once|].
  eapply collecting_returns; [|done]. eapply protocol_step; [exact Hw|]. eapply steps_inv; [|done]. by etrans.
Qed.

(** From every reachable state the server can still return. *)
Lemma RunWithGRPC_can_return s : reachable s → returns s.
Proof.
  intros Hi%serveBoth_reachable_inv. destruct (at_ s) as [| | |e n|errs n|errs|r] eqn:Hat.
  - eexists _, _. split; [apply rtc_once; by eapply (listen_fails s ErrServerClosed None)|done].
  - eexists _, _. split; [apply rtc_once; by eapply (listen_rpc_fails s ErrServerClosed None)|done].
  - pose proof (cancel s) as Hc. eapply returns_steps; [by apply rtc_once|].
    set (s1 := mkState (http s) (rpc s) (results s) true (at_ s) (outcome s) (shutdownErr s) (flushed s) (listened s)) in *.
    pose proof (select_ctx s1 Hat eq_refl) as Hsel.
    eapply returns_steps; [by apply rtc_once|].
    eapply draining_returns; [|done]. eapply protocol_step; [exact Hsel|]. by eapply protocol_step.
  - by eapply draining_returns.
  - by eapply collecting_returns.
  - eexists _, _. split; [apply rtc_once; by eapply (flush _ _ None)|done].
  - by exists s, r.
Qed.

End Both.

(** ** The whole of [RunWithGRPC]

    A nil gRPC server gives the HTTP-only lifecycle. *)
Inductive Run : Type :=
| HttpOnly (s : Http.State)
| WithGRPC (s : Both.State).

Definition RunWithGRPC (rpc : bool) (r : Run) : Prop :=
  match r with
  | HttpOnly s => rpc = false ∧ Http.reachable s
  | WithGRPC s => rpc = true ∧ Both.reachable s
  end.

Definition transports (r : Run) : list Transport :=
  match r with HttpOnly s => [Http.srv s] | WithGRPC s => [Both.http s; Both.rpc s] end.

(** What [flush] returned, call by call. *)
Definition flushes (r : Run) : list err :=
  match r with HttpOnly s => Http.flushed s | WithGRPC s => Both.flushed s end.

Definition result (r : Run) : option err :=
  match r with
  | HttpOnly s => match Http.at_ s with Http.Returned e => Some e | _ => None end
  | WithGRPC s => match Both.at_ s with Both.Returned e => Some e | _ => None end
  end.

(** The errors of the calls of [net.Listen], [Serve] and [Shutdown], an orderly stop
    being none. *)
Definition call_errors (r : Run) : list error :=
  match r with HttpOnly s => omap id (Http.call_errors s) | WithGRPC s => Both.call_errors s end.

Inductive run_step : Run → Run → Prop :=
| http_step s s' : Http.serve_step s s' → run_step (HttpOnly s) (HttpOnly s')
| both_step s s' : Both.serveBoth_step s s' → run_step (WithGRPC s) (WithGRPC s').

Lemma errors_Join_none_live errs f : errors_Join (errs ++ [f]) = None ↔ omap id errs = [] ∧ f = None.
Proof.
  unfold errors_Join. rewrite omap_app. destruct f as [f|]; cbn.
  - split; [|by intros [? [=]]]. by destruct (omap id errs).
  - rewrite app_nil_r. split; [by destruct (omap id errs)|]. by intros [-> _].
Qed.

(** What a server that returned has flushed and reports. *)
Lemma Run_reports rpc r e :
  RunWithGRPC rpc r → result r = Some e →
  ∃ f errs, flushes r = [f] ∧ e = errors_Join (errs ++ [f]) ∧ omap id errs ≡ₚ call_errors r.
Proof.
  destruct r as [s|s]; cbn; intros [_ Hr] He.
  - destruct (Http.Run_flushes s Hr) as (_ & _ & H3). destruct (Http.at_ s); try done. injection He as ->.
    destruct (H3 e eq_refl) as (f & Hf & ->). by exists f, (Http.call_errors s).
  - destruct (Both.RunWithGRPC_flushes s Hr) as (_ & _ & H3). destruct (Both.at_ s); try done. injection He as ->.
    destruct (H3 e eq_refl) as (f & Hf & errs & -> & Hp). by exists f, errs.
Qed.

(** C17: in every interleaving the storage is flushed at most once, and only when
    no handler of either transport runs or can start; a server that returned
    has flushed, and returns the join of every error: those of the listeners, of
    [Serve] and of [Shutdown] that are no orderly stop, all of them and no others,
    and then that of the flush; so it returns nil exactly when no call failed. *)
Theorem drains_then_flushes rpc r :
  RunWithGRPC rpc r →
  (flushes r = [] ∨ ∃ f e, flushes r = [f] ∧ result r = Some e) ∧
  (flushes r ≠ [] → Forall (λ t, active t = 0 ∧ ∀ t', ¬ traffic t t') (transports r)) ∧
  (∀ e, result r = Some e → ∃ f errs, flushes r = [f] ∧
    e = errors_Join (errs ++ [f]) ∧ omap id errs ≡ₚ call_errors r ∧
    (e = None ↔ call_errors r = [] ∧ f = None)).
Proof.
  intros Hrun. split; [|split].
  - destruct r as [s|s]; destruct Hrun as [_ Hr]; cbn.
    + destruct (Http.Run_flushes s Hr) as ([|(f & e & Hf & Ha)] & _); [by left|right]. exists f, e. by rewrite Ha.
    + destruct (Both.RunWithGRPC_flushes s Hr) as ([|(f & e & Hf & Ha)] & _); [by left|right]. exists f, e. by rewrite Ha.
  - destruct r as [s|s]; destruct Hrun as [_ Hr]; cbn; intros Hf.
    + destruct (Http.Run_flushes s Hr) as (_ & H2 & _). destruct (H2 Hf). by repeat constructor.
    + destruct (Both.RunWithGRPC_flushes s Hr) as (_ & H2 & _). destruct (H2 Hf) as (? & ? & Ht).
      repeat constructor; try done; intros t; by destruct (Ht t).
  - intros e He. destruct (Run_reports rpc r e Hrun He) as (f & errs & Hf & -> & Hp).
    exists f, errs. split_and!; try done. rewrite errors_Join_none_live. apply and_iff_compat_r.
    split; intros Hn; rewrite Hn in Hp; [by symmetry in Hp; apply Permutation_nil_r in Hp|by apply Permutation_nil_r in Hp].
Qed.

(** From every reachable state the server can still return: no goroutine or
    channel of the shutdown can deadlock. *)
Theorem server_can_return rpc r :
  RunWithGRPC rpc r → ∃ r' e, rtc run_step r r' ∧ result r' = Some e.
Proof.
  destruct r as [s|s]; cbn; intros [_ Hr].
  - destruct (Http.Run_can_return s Hr) as (s' & e & Hs & Ha). exists (HttpOnly s'), e.
    split; [|cbn; by rewrite Ha]. clear -Hs. induction Hs; [done|]. eapply rtc_l; [by constructor|done].
  - destruct (Both.RunWithGRPC_can_return s Hr) as (s' & e & Hs & Ha). exists (WithGRPC s'), e.
    split; [|cbn; by rewrite Ha]. clear -Hs. induction Hs; [done|]. eapply rtc_l; [by constructor|done].
Qed.

(** ** Witnesses

    The gRPC listener fails while an HTTP request runs. *)
Definition lost_listener : error := Msg "accept: too many open files".

Lemma witness_run :
  Both.reachable (Both.mkState (mkTransport true true true false 1) (mkTransport true false true false 0)
    [] false (Both.Draining (Some lost_listener) 1) [Some lost_listener] None [] None).
Proof.
  unfold Both.reachable.
  eapply rtc_l; [by apply Both.listens|]. eapply rtc_l; [by apply Both.listens_rpc|].
  eapply rtc_l; [by apply Both.http_request, request_begins|].
  eapply rtc_l; [by apply (Both.rpc_goroutine _ (Some lost_listener))|].
  eapply rtc_l; [by eapply Both.select_result|].
  eapply rtc_l; [by eapply Both.Shutdown_called|]. eapply rtc_l; [by eapply Both.GracefulStop_called|].
  apply rtc_refl.
Qed.

Definition disk_full : error := Msg "write m.json: no space left on device".

(** The flush fails too. *)
Lemma witness_finished :
  ∃ s e, Both.reachable s ∧ Both.flushed s = [Some disk_full] ∧ Both.at_ s = Both.Returned e ∧
    Both.call_errors s = [lost_listener].
Proof.
  eexists _, _. split; [|split; [|split]].
  - unfold Both.reachable. etrans; [exact witness_run|].
    eapply rtc_l; [by eapply Both.http_request, request_ends|].
    eapply rtc_l; [by eapply (Both.Shutdown_returns _ _ _ None)|].
    eapply rtc_l; [by eapply Both.GracefulStop_returns|].
    eapply rtc_l; [by eapply Both.waited|].
    eapply rtc_l; [by apply (Both.http_goroutine _ (Some ErrServerClosed)); split; [done|apply list_elem_of_here]|].
    eapply rtc_l; [by eapply Both.collect|]. eapply rtc_l; [by eapply Both.collected|].
    apply rtc_once. by eapply (Both.flush _ _ (Some disk_full)).
  - done.
  - done.
  - done.
Qed.

Lemma drains_then_flushes_witness :
  ∃ s, RunWithGRPC true (WithGRPC s) ∧ flushes (WithGRPC s) = [Some disk_full] ∧
    result (WithGRPC s) = Some (Some (Joined [lost_listener; disk_full])) ∧
    active (Both.http s) = 0 ∧ active (Both.rpc s) = 0.
Proof.
  destruct witness_finished as (s & e & Hr & Hf & Ha & Hc). exists s.
  assert (RunWithGRPC true (WithGRPC s)) as Hrun by done.
  assert (result (WithGRPC s) = Some e) as He by (cbn; by rewrite Ha).
  pose proof (drains_then_flushes true (WithGRPC s) Hrun) as (_ & Hd & Hres).
  split; [exact Hrun|]. split; [exact Hf|]. split.
  - destruct (Hres e He) as (f & errs & Hf' & -> & Hp & _). rewrite He. cbn in Hf', Hp. rewrite Hf in Hf'.
    injection Hf' as <-. rewrite Hc in Hp. apply Permutation_singleton_r in Hp.
    unfold errors_Join. rewrite omap_app, Hp. done.
  - cbn in Hd. rewrite Hf in Hd. specialize (Hd ltac:(discriminate)).
    apply Forall_cons in Hd as [[H1 _] Hd]. apply Forall_cons in Hd as [[H2 _] _]. split; [exact H1|exact H2].
Defined.

Lemma server_can_return_witness :
  ∃ r e, rtc run_step (WithGRPC (Both.mkState (mkTransport true true true false 1)
    (mkTransport true false true false 0) [] false (Both.Draining (Some lost_listener) 1)
    [Some lost_listener] None [] None)) r ∧ result r = Some e.
Proof. apply (server_can_return true). split; [reflexivity|exact witness_run]. Defined.
