(* ===== verification/Linter.v ===== *)
(** [cmd/linter]: the analyzer that reports [panic], and the functions that end
    the process outside of [main.main]. *)

From S2P Require Import Prelude.

(** ** Syntax trees

    What the analyzer looks at of [go/ast]: function declarations and literals,
    calls, and everything else. *)
Inductive expr : Type :=
| Ident (id : positive)
| SelectorExpr (sel : positive)
| ParenExpr (x : expr)
| OtherExpr.

Inductive kind : Type :=
| FuncDecl (name : string) (recv : bool)
| FuncLit
| CallExpr (pos : Z) (fn : expr)
| OtherNode.

(** A node and its children, in the order of [ast.Walk]. *)
Inductive node : Type := Node (k : kind) (children : list node).

(** [types.Object]s: builtins; functions with their package, if any, and whether
    they have a receiver; the rest. *)
Inductive object : Type :=
| Builtin (name : string)
| Func (pkg : option string) (name : string) (recv : bool)
| OtherObject.

Record Pass : Type := mkPass {
  Pkg_Name : string;
  Files : list node;
  Uses : positive → option object
}.

(** A diagnostic is reported at the position of the call. *)
Inductive diagnostic : Type :=
| PanicForbidden (pos : Z)
| ExitForbidden (pos : Z) (path name : string).

(** [ast.Unparen] *)
Fixpoint Unparen (e : expr) : expr := match e with ParenExpr x => Unparen x | _ => e end.

(** ** The visitor *)
Record visitor : Type := mkVisitor { v_pass : Pass; inMain : bool }.

Definition is_main (p : Pass) (name : string) (recv : bool) : bool :=
  bool_decide (Pkg_Name p = "main") && bool_decide (name = "main") && negb recv.

Definition exit_function (path name : string) : bool :=
  bool_decide (path = "os" ∧ name = "Exit") ||
  bool_decide (path = "log" ∧ name ∈ ["Fatal"; "Fatalf"; "Fatalln"]).

(** [Visit] returns the visitor for the children and what it reports. *)
Definition Visit (v : visitor) (k : kind) : visitor * list diagnostic :=
  match k with
  | FuncDecl name recv => (mkVisitor (v_pass v) (is_main (v_pass v) name recv), [])
  | FuncLit => (mkVisitor (v_pass v) false, [])
  | CallExpr pos fn =>
      let object := match Unparen fn with
        | Ident id => Uses (v_pass v) id
        | SelectorExpr sel => Uses (v_pass v) sel
        | _ => None
        end in
      let panics := match object with
        | Some (Builtin name) => if decide (name = "panic") then [PanicForbidden pos] else []
        | _ => []
        end in
      match object with
      | Some (Func (Some path) name recv) =>
          if inMain v then (v, panics)
          else if recv then (v, panics)
          else if exit_function path name then (v, panics ++ [ExitForbidden pos path name])
          else (v, panics)
      | _ => (v, panics)
      end
  | OtherNode => (v, [])
  end.

(** [ast.Walk] *)
Fixpoint Walk (v : visitor) (n : node) : list diagnostic :=
  match n with
  | Node k children =>
      let '(v, reports) := Visit v k in
      reports ++ (fix walk_list (l : list node) : list diagnostic :=
        match l with [] => [] | n :: l => Walk v n ++ walk_list l end) children
  end.

Definition run (p : Pass) : list diagnostic :=
  concat (map (Walk (mkVisitor p false)) (Files p)).

(** ** What is forbidden

    Every node of a tree in source order, with the kinds of the nodes around it,
    the innermost first. *)
Fixpoint occurrences (around : list kind) (n : node) : list (list kind * kind) :=
  match n with
  | Node k children =>
      (around, k) :: (fix all (l : list node) : list (list kind * kind) :=
        match l with [] => [] | n :: l => occurrences (k :: around) n ++ all l end) children
  end.

(** The function a piece of code belongs to: the innermost declaration or literal. *)
Fixpoint scope (around : list kind) : option kind :=
  match around with
  | [] => None
  | FuncDecl name recv :: _ => Some (FuncDecl name recv)
  | FuncLit :: _ => Some FuncLit
  | _ :: around => scope around
  end.

Definition main_scope (p : Pass) (around : list kind) : Prop :=
  Pkg_Name p = "main" ∧ scope around = Some (FuncDecl "main" false).

#[export] Instance kind_eq_dec : EqDecision kind.
Proof.
  assert (EqDecision expr) by (intros x y; unfold Decision; repeat decide equality).
  intros x y. unfold Decision. repeat decide equality; apply Z.eq_dec.
Defined.

#[export] Instance main_scope_dec p around : Decision (main_scope p around).
Proof. unfold main_scope. apply _. Defined.

(** What a name that is called refers to. *)
Definition callee (p : Pass) (fn : expr) : option object :=
  match Unparen fn with Ident id => Uses p id | SelectorExpr id => Uses p id | _ => None end.

Definition forbidden (p : Pass) (around : list kind) (k : kind) : option diagnostic :=
  match k with
  | CallExpr pos fn =>
      match callee p fn with
      | Some (Builtin name) => if decide (name = "panic") then Some (PanicForbidden pos) else None
      | Some (Func (Some path) name false) =>
          if decide (((path, name) ∈ [("os", "Exit"); ("log", "Fatal"); ("log", "Fatalf"); ("log", "Fatalln")]) ∧
                     ¬ main_scope p around)
          then Some (ExitForbidden pos path name) else None
      | _ => None
      end
  | _ => None
  end.

(** ** The visitor finds what is forbidden *)

(** The flag of the visitor is the scope of the node it is at. *)
Definition tracks (p : Pass) (around : list kind) (v : visitor) : Prop :=
  v_pass v = p ∧ (inMain v = true ↔ main_scope p around).

Lemma exit_function_spec path name :
  exit_function path name = true ↔
  (path, name) ∈ [("os", "Exit"); ("log", "Fatal"); ("log", "Fatalf"); ("log", "Fatalln")].
Proof.
  unfold exit_function. rewrite orb_true_iff, !bool_decide_eq_true, !elem_of_cons, !elem_of_nil. naive_solver.
Qed.

Lemma Visit_tracks p around v k :
  tracks p around v → tracks p (k :: around) (Visit v k).1.
Proof.
  intros [<- Hm]. destruct k as [name recv| |pos fn|]; cbn [Visit].
  - split; [done|]. cbn. unfold is_main, main_scope. cbn.
    rewrite !andb_true_iff, !bool_decide_eq_true, negb_true_iff. naive_solver.
  - split; [done|]. cbn. unfold main_scope. cbn. naive_solver.
  - assert ((Visit v (CallExpr pos fn)).1 = v) as Hv.
    { cbn [Visit]. repeat case_match; done. }
    cbn [Visit] in Hv. rewrite Hv. by split.
  - by split.
Qed.

Lemma Visit_reports p around v k :
  tracks p around v → (Visit v k).2 = option_list (forbidden p around k).
Proof.
  intros [<- Hm]. destruct k as [name recv| |pos fn|]; [done|done| |done].
  cbn [Visit]. unfold forbidden, callee.
  destruct (match Unparen fn with Ident id => _ | _ => _ end) as [[name|[path|] name [|]|]|]; try done.
  - by case_decide.
  - by destruct (inMain v).
  - destruct (inMain v) eqn:Hin.
    + rewrite decide_False; [done|]. intros [_ Hn]. by apply Hn, Hm.
    + destruct (exit_function path name) eqn:He.
      * rewrite decide_True; [done|]. split; [by apply exit_function_spec|].
        intros Hn. by apply Hm in Hn.
      * rewrite decide_False; [done|]. intros [Hn _]. apply exit_function_spec in Hn. congruence.
Qed.

Lemma node_induction (P : node → Prop) :
  (∀ k children, Forall P children → P (Node k children)) → ∀ n, P n.
Proof.
  intros Hnode. fix IH 1. intros [k children]. apply Hnode.
  induction children as [|n children IHc]; constructor; [apply IH|exact IHc].
Qed.

Lemma Walk_children v l :
  (fix walk_list (l : list node) : list diagnostic :=
     match l with [] => [] | n :: l => Walk v n ++ walk_list l end) l = concat (map (Walk v) l).
Proof. induction l as [|n l IH]; [done|]. cbn. by rewrite IH. Qed.

Lemma occurrences_children around l :
  (fix all (l : list node) : list (list kind * kind) :=
     match l with [] => [] | n :: l => occurrences around n ++ all l end) l = concat (map (occurrences around) l).
Proof. induction l as [|n l IH]; [done|]. cbn. by rewrite IH. Qed.

Definition reported (p : Pass) (o : list kind * kind) : option diagnostic := forbidden p o.1 o.2.

Lemma Walk_reports p n : ∀ around v, tracks p around v →
  Walk v n = omap (reported p) (occurrences around n).
Proof.
  induction n as [k children IH] using node_induction. intros around v Hv.
  cbn [Walk occurrences]. destruct (Visit v k) as [v' reports] eqn:Hvis.
  pose proof (Visit_tracks p around v k Hv) as Hv'. pose proof (Visit_reports p around v k Hv) as Hr.
  rewrite Hvis in Hv', Hr. cbn [fst snd] in Hv', Hr. subst reports.
  rewrite Walk_children, occurrences_children. csimpl.
  assert (concat (map (Walk v') children) = omap (reported p) (concat (map (occurrences (k :: around)) children))) as ->.
  { induction IH as [|n l Hn _ IHl]; [done|]. csimpl. rewrite omap_app. f_equal; [by apply Hn|exact IHl]. }
  unfold reported at 2. cbn. by destruct (forbidden p around k).
Qed.

(** C40: the analyzer reports, in source order, the calls of [panic] and the calls
    that end the process outside the body of [main.main], closures in it
    included, and nothing else. *)
Theorem run_reports_forbidden p :
  run p = omap (reported p) (concat (map (occurrences []) (Files p))).
Proof.
  unfold run. induction (Files p) as [|f l IH]; [done|]. csimpl. rewrite omap_app. f_equal; [|exact IH].
  apply Walk_reports. split; [done|]. unfold main_scope. cbn. naive_solver.
Qed.
