(* ===== verification/LinterFixtures.v ===== *)
(** The packages of [cmd/linter/testdata], which the tests of the analyzer run it
    on: their syntax trees, the objects their names refer to, and the
    diagnostics that their [want] comments ask for, line by line. *)

From S2P Require Import Prelude Linter.

(** The text of a diagnostic, and the line of the call. *)
Definition message (d : diagnostic) : Z * string :=
  match d with
  | PanicForbidden pos => (pos, "builtin panic is forbidden")
  | ExitForbidden pos path name => (pos, path +:+ "." +:+ name +:+ " is forbidden outside main.main")
  end.

(** Names of the same object share a number: its place in the list. *)
Definition uses (objects : list object) (id : positive) : option object := objects !! pred (Pos.to_nat id).

(** Declarations and statements, down to the calls: a call has the callee and its
    arguments below it, a statement its expression. *)
Definition leaf : node := Node OtherNode [].
Definition file (decls : list node) : node := Node OtherNode decls.
Definition func (name : string) (body : list node) : node := Node (FuncDecl name false) [leaf; leaf; Node OtherNode body].
Definition method (name : string) (body : list node) : node :=
  Node (FuncDecl name true) [leaf; leaf; leaf; Node OtherNode body].
Definition closure (body : list node) : node := Node FuncLit [leaf; Node OtherNode body].
Definition call (line : Z) (fn : expr) : node := Node OtherNode [Node (CallExpr line fn) [leaf; leaf]].
Definition call_closure (line : Z) (body : list node) : node :=
  Node OtherNode [Node (CallExpr line OtherExpr) [closure body]].

Definition log_Fatal : object := Func (Some "log") "Fatal" false.
Definition os_Exit : object := Func (Some "os") "Exit" false.
Definition panic : object := Builtin "panic".

(** ** entry: a program *)
Definition entry : Pass := mkPass "main" [file [
  func "main" [
    call 9 (SelectorExpr 1);
    call 10 (SelectorExpr 2);
    call 11 (SelectorExpr 3);
    call 12 (SelectorExpr 4);
    call 13 (Ident 5);
    call_closure 14 [
      call 15 (SelectorExpr 4);
      call 16 (SelectorExpr 1)];
    call 18 (SelectorExpr 4)];
  func "helper" [
    call 22 (SelectorExpr 4);
    call 23 (SelectorExpr 1);
    call 24 (Ident 5)];
  func "init" [
    call 28 (SelectorExpr 4)];
  leaf;
  method "main" [
    call 34 (SelectorExpr 4)]]]
  (uses [log_Fatal; Func (Some "log") "Fatalf" false; Func (Some "log") "Fatalln" false; os_Exit; panic]).

Example entry_wants :
  map message (run entry) = [
    (13%Z, "builtin panic is forbidden");
    (15%Z, "os.Exit is forbidden outside main.main");
    (16%Z, "log.Fatal is forbidden outside main.main");
    (22%Z, "os.Exit is forbidden outside main.main");
    (23%Z, "log.Fatal is forbidden outside main.main");
    (24%Z, "builtin panic is forbidden");
    (28%Z, "os.Exit is forbidden outside main.main");
    (34%Z, "os.Exit is forbidden outside main.main")].
Proof. reflexivity. Qed.

(** ** library: renamed imports, a [main] that is not the program's, a package variable *)
Definition library : Pass := mkPass "library" [file [
  func "main" [
    call 9 (SelectorExpr 1);
    call 10 (SelectorExpr 2)];
  func "calls" [
    call 14 (SelectorExpr 3);
    call 15 (SelectorExpr 4);
    call 16 (ParenExpr (SelectorExpr 2));
    call 17 (ParenExpr (Ident 5));
    call 18 (SelectorExpr 2);
    call 19 (SelectorExpr 1);
    call 20 (SelectorExpr 6)];
  Node OtherNode [leaf; closure [
    call 24 (SelectorExpr 2)]]]]
  (uses [log_Fatal; os_Exit; Func (Some "log") "Fatalf" false; Func (Some "log") "Fatalln" false; panic;
         Func (Some "log") "Print" false]).

Example library_wants :
  map message (run library) = [
    (9%Z, "log.Fatal is forbidden outside main.main");
    (10%Z, "os.Exit is forbidden outside main.main");
    (14%Z, "log.Fatalf is forbidden outside main.main");
    (15%Z, "log.Fatalln is forbidden outside main.main");
    (16%Z, "os.Exit is forbidden outside main.main");
    (17%Z, "builtin panic is forbidden");
    (18%Z, "os.Exit is forbidden outside main.main");
    (19%Z, "log.Fatal is forbidden outside main.main");
    (24%Z, "os.Exit is forbidden outside main.main")].
Proof. reflexivity. Qed.

(** ** dotimports: the functions without their packages *)
Definition dotimports : Pass := mkPass "dotimports" [file [
  func "calls" [
    call 9 (Ident 1);
    call 10 (Ident 2)]]]
  (uses [log_Fatal; os_Exit]).

Example dotimports_wants :
  map message (run dotimports) = [
    (9%Z, "log.Fatal is forbidden outside main.main");
    (10%Z, "os.Exit is forbidden outside main.main")].
Proof. reflexivity. Qed.

(** ** shadow: functions and methods of the same names *)
Definition shadow : Pass := mkPass "shadow" [file [
  func "panic" [];
  leaf;
  method "Fatal" [];
  method "Exit" [];
  func "calls" [
    call 13 (Ident 1);
    Node OtherNode [leaf; leaf];
    call 15 (SelectorExpr 2);
    Node OtherNode [leaf; leaf];
    call 17 (SelectorExpr 3);
    call 18 (SelectorExpr 4)]]]
  (uses [Func (Some "shadow") "panic" false; Func (Some "shadow") "Fatal" true; Func (Some "shadow") "Exit" true;
         Func (Some "testing") "Fatal" true]).

Example shadow_wants_nothing : run shadow = [].
Proof. reflexivity. Qed.
