(* ===== verification/Pool.v ===== *)
(** [internal/pool]: reuse of objects through [sync.Pool].

    [sync.Pool] gives no order and may drop what it holds at any time; callers own
    the objects they have got until they put them back. *)

From S2P Require Import Prelude GoErrors Metrics.

Section pool.
Context {T : Type} (Reset : T → T) (newObject : option T).

(** The objects in memory, the references [items] holds, and those the callers
    own.  [newObject], when there is one, allocates an object in its initial
    state. *)
Record State : Type := mkState {
  memory : gmap positive T;
  items : list positive;
  owned : list positive
}.

(** [New] *)
Definition New (memory : gmap positive T) : State := mkState memory [] [].

(** [p.items.New] *)
Definition allocate (s : State) : State * option positive :=
  match newObject with
  | None => (s, None)
  | Some object =>
      let l := fresh (dom (memory s)) in
      (mkState (<[l := object]> (memory s)) (items s) (l :: owned s), Some l)
  end.

(** [Get], for the choice of [sync.Pool]: one of its items, or none. *)
Definition Get (choice : option nat) (s : State) : State * option positive :=
  match choice with
  | None => allocate s
  | Some i =>
      match items s !! i with
      | Some l => (mkState (memory s) (delete i (items s)) (l :: owned s), Some l)
      | None => allocate s
      end
  end.

Definition Put (l : positive) (s : State) : State :=
  mkState (alter Reset l (memory s)) (l :: items s) (filter (λ l', l' ≠ l) (owned s)).

(** The callers, and the garbage collector. *)
Inductive step : State → State → Prop :=
| step_Get s choice : step s (Get choice s).1
| step_use s l x : l ∈ owned s → step s (mkState (<[l := x]> (memory s)) (items s) (owned s))
| step_Put s l : l ∈ owned s → step s (Put l s)
| step_collect s i : step s (mkState (memory s) (delete i (items s)) (owned s))
| step_allocate s l x :
    (* elsewhere in the program *)
    memory s !! l = None → step s (mkState (<[l := x]> (memory s)) (items s) (owned s)).

Definition reachable (s : State) : Prop := ∃ m, rtc step (New m) s.

(** What [Reset] and the factory promise. *)
Context (initial : T → Prop).
Hypothesis Reset_initial : ∀ x, initial (Reset x).
Hypothesis newObject_initial : ∀ x, newObject = Some x → initial x.

(** Each reference is in one place, and what the pool holds has been reset. *)
Definition inv (s : State) : Prop :=
  NoDup (items s ++ owned s) ∧
  (∀ l, l ∈ items s ++ owned s → is_Some (memory s !! l)) ∧
  (∀ l, l ∈ items s → ∃ x, memory s !! l = Some x ∧ initial x).

Lemma filter_out_perm (l : positive) L : NoDup L → l ∈ L → L ≡ₚ l :: filter (λ l', l' ≠ l) L.
Proof.
  induction L as [|x L IH]; intros Hnd Hin; [by apply not_elem_of_nil in Hin|].
  apply NoDup_cons in Hnd as [Hx Hnd]. rewrite filter_cons.
  destruct (decide (x = l)) as [->|Hne].
  - rewrite decide_False by naive_solver. f_equiv.
    clear IH Hnd Hin. induction L as [|y L IH]; [done|].
    rewrite filter_cons, decide_True by (intros ->; apply Hx, list_elem_of_here).
    f_equiv. apply IH. intros Hy. by apply Hx, list_elem_of_further.
  - rewrite decide_True by done. apply elem_of_cons in Hin as [->|Hin]; [done|].
    rewrite (IH Hnd Hin) at 1. by rewrite Permutation_swap.
Qed.

Lemma inv_perm m items1 owned1 items2 owned2 :
  items2 ++ owned2 ≡ₚ items1 ++ owned1 → (∀ l, l ∈ items2 → l ∈ items1) →
  inv (mkState m items1 owned1) → inv (mkState m items2 owned2).
Proof.
  intros Hp Hsub (Hnd & Hm & Hi). unfold inv in *. cbn in *. rewrite Hp.
  split; [done|]. split; [|by eauto]. intros l. rewrite Hp. apply Hm.
Qed.

Lemma allocate_inv s : inv s → inv (allocate s).1.
Proof.
  intros (Hnd & Hm & Hi). unfold allocate. destruct newObject as [x|]; [|done]. cbn.
  set (l := fresh (dom (memory s))).
  assert (memory s !! l = None) as Hl by (apply not_elem_of_dom, is_fresh).
  assert (l ∉ items s ++ owned s) as Hnl.
  { intros Hin. destruct (Hm l Hin) as [? ?]. congruence. }
  unfold inv. cbn. rewrite <-Permutation_middle.
  split; [by constructor|]. split.
  - intros l' Hin. rewrite <-Permutation_middle in Hin. apply elem_of_cons in Hin as [->|Hin];
      [by rewrite lookup_insert_eq|].
    rewrite lookup_insert_ne by (by intros ->). by apply Hm.
  - intros l' Hin. rewrite lookup_insert_ne; [by apply Hi|].
    intros <-. apply Hnl, elem_of_app. by left.
Qed.

Lemma delete_subset (i : nat) (L : list positive) l : l ∈ delete i L → l ∈ L.
Proof. apply sublist_subseteq, sublist_delete. Qed.

Lemma Get_inv choice s : inv s → inv (Get choice s).1.
Proof.
  intros Hinv. unfold Get. destruct choice as [i|]; [|by apply allocate_inv].
  destruct (items s !! i) as [l|] eqn:Hl; [|by apply allocate_inv]. cbn.
  apply (inv_perm (memory s) (items s) (owned s)); [|apply delete_subset|by destruct s].
  rewrite (delete_Permutation (items s) i l Hl) at 2. cbn. by rewrite Permutation_middle.
Qed.

Lemma Put_inv l s : l ∈ owned s → inv s → inv (Put l s).
Proof.
  intros Hl (Hnd & Hm & Hi). pose proof Hnd as (Hn1 & Hn2 & Hn3)%NoDup_app.
  unfold inv, Put. cbn.
  assert (l :: items s ++ filter (λ l', l' ≠ l) (owned s) ≡ₚ items s ++ owned s) as Hp.
  { rewrite (filter_out_perm l (owned s) Hn3 Hl) at 2. by rewrite <-Permutation_middle. }
  rewrite Hp. split; [done|]. split.
  - intros l'. rewrite Hp. intros Hin. destruct (Hm l' Hin) as [x Hx].
    rewrite lookup_alter. case_decide; subst; rewrite Hx; by eexists.
  - intros l'. rewrite elem_of_cons. intros [->|Hin].
    + destruct (Hm l) as [x Hx]; [apply elem_of_app; by right|].
      rewrite lookup_alter_eq, Hx. eexists. by split.
    + rewrite lookup_alter_ne; [by apply Hi|]. intros <-. by apply (Hn2 l Hin).
Qed.

Lemma pool_step_inv s s' : step s s' → inv s → inv s'.
Proof.
  destruct 1 as [s choice|s l x Hl|s l Hl|s i|s l x Hl]; [by apply Get_inv| |by apply Put_inv| |].
  - intros (Hnd & Hm & Hi). pose proof Hnd as (Hn1 & Hn2 & Hn3)%NoDup_app.
    split; [done|]. cbn. split.
    + intros l' Hin. rewrite lookup_insert. case_decide; [by eexists|]. by apply Hm.
    + intros l' Hin. rewrite lookup_insert_ne; [by apply Hi|]. intros <-. by apply (Hn2 l Hin).
  - intros (Hnd & Hm & Hi). pose proof Hnd as (Hn1 & Hn2 & Hn3)%NoDup_app.
    unfold inv. cbn. split; [|split].
    + apply NoDup_app. split; [eapply sublist_NoDup; [exact Hn1|apply sublist_delete]|]. split; [|done].
      intros l' Hin%delete_subset. by apply Hn2.
    + intros l' [Hin%delete_subset|Hin]%elem_of_app; apply Hm, elem_of_app; auto.
    + intros l' Hin%delete_subset. by apply Hi.
  - intros (Hnd & Hm & Hi). split; [done|]. cbn. split.
    + intros l' Hin. rewrite lookup_insert. case_decide; [by eexists|]. by apply Hm.
    + intros l' Hin. rewrite lookup_insert_ne; [by apply Hi|]. intros <-.
      destruct (Hm l) as [? ?]; [apply elem_of_app; by left|]. congruence.
Qed.

(** An object that [Get] returns is in its initial state and owned by nobody
    else, neither a caller nor the pool; [Get] returns nil only without a
    factory. *)
Theorem Get_fresh_or_reset s choice s' r :
  reachable s → Get choice s = (s', r) →
  match r with
  | Some l => l ∉ owned s ∧ NoDup (owned s') ∧ l ∉ items s' ∧ ∃ x, memory s' !! l = Some x ∧ initial x
  | None => newObject = None ∧ s' = s
  end.
Proof.
  intros (m & Hsteps) HG.
  assert (inv s) as Hinv.
  { assert (inv (New m)) as H0.
    { split; [constructor|]. split; intros l Hl; by apply not_elem_of_nil in Hl. }
    clear HG. induction Hsteps; eauto using pool_step_inv. }
  pose proof (Get_inv choice s Hinv) as Hinv'. rewrite HG in Hinv'. cbn in Hinv'.
  destruct Hinv as (Hnd & Hm & Hi). destruct Hinv' as (Hnd' & _ & _).
  apply NoDup_app in Hnd as (_ & Hdis & _). apply NoDup_app in Hnd' as (_ & Hdis' & Hnd').
  assert (allocate s = (s', r) → match r with
    | Some l => l ∉ owned s ∧ NoDup (owned s') ∧ l ∉ items s' ∧ ∃ x, memory s' !! l = Some x ∧ initial x
    | None => newObject = None ∧ s' = s end) as Halloc.
  { unfold allocate. destruct newObject as [x|]; [|by intros [= <- <-]].
    intros Heq. injection Heq as <- <-.
    assert (memory s !! fresh (dom (memory s)) = None) as Hl by (apply not_elem_of_dom, is_fresh).
    split.
    { intros Hin. destruct (Hm (fresh (dom (memory s)))) as [? Hx]; [apply elem_of_app; by right|]. congruence. }
    split; [done|]. split.
    { intros Hin. apply (Hdis' _ Hin), list_elem_of_here. }
    exists x. cbn. rewrite lookup_insert_eq. split; [done|]. by apply newObject_initial. }
  unfold Get in HG. destruct choice as [i|]; [|by apply Halloc].
  destruct (items s !! i) as [l|] eqn:Hl; [|by apply Halloc].
  injection HG as <- <-. apply list_elem_of_lookup_2 in Hl.
  split; [by apply Hdis|]. split; [done|]. split; [|by apply Hi].
  intros Hin. apply (Hdis' _ Hin), list_elem_of_here.
Qed.

End pool.

(** ** A pool of metric records *)
Definition blank : Metrics := mkMetrics "" "" None None "".

Definition witness_state : State (T:=Metrics) :=
  Put zeroed 1 (mkState {[1%positive := counter_metric "polls" 5]} [] [1%positive]).

Lemma witness_reachable : reachable zeroed (Some blank) witness_state.
Proof.
  exists ∅. eapply rtc_l; [apply (step_Get _ _ _ None)|].
  eapply rtc_l; [apply (step_use _ _ _ 1%positive (counter_metric "polls" 5)); apply list_elem_of_here|].
  apply rtc_once, (step_Put zeroed (Some blank) _ 1%positive), list_elem_of_here.
Qed.

Lemma Get_fresh_or_reset_witness :
  ∃ s' l, Get (Some blank) (Some 0) witness_state = (s', Some l) ∧ l ∉ owned witness_state ∧
    ∃ m, memory s' !! l = Some m ∧ m = zeroed m.
Proof.
  destruct (Get (Some blank) (Some 0) witness_state) as [s' r] eqn:HG.
  assert (∀ m, zeroed m = zeroed (zeroed m)) as Hz by (intros [? ? [] [] ?]; reflexivity).
  assert (∀ m, Some blank = Some m → m = zeroed m) as Hb by (intros m [= <-]; reflexivity).
  pose proof (Get_fresh_or_reset zeroed (Some blank) (λ m, m = zeroed m) Hz Hb
    witness_state (Some 0) s' r witness_reachable HG) as H.
  assert (r = Some 1%positive) as -> by (vm_compute in HG; congruence).
  exists s', 1%positive. split; [reflexivity|]. destruct H as (H1 & _ & _ & m & H2 & H3).
  split; [exact H1|]. exists m. split; [exact H2|exact H3].
Defined.
