(* ===== verification/GoNet.v ===== *)
(** The parts of [net] the program uses: [SplitHostPort], and the interface of
    addresses and subnets. *)

From S2P Require Import Prelude GoErrors.
From Stdlib Require Import Ascii.

(** ** Strings as byte slices *)

Abbreviation text := (list ascii).

(** [bytealg.IndexByteString] and [LastIndexByteString]. *)
Fixpoint index_byte (l : text) (c : ascii) : option nat :=
  match l with
  | [] => None
  | x :: l => if decide (x = c) then Some 0 else S <$> index_byte l c
  end.

Fixpoint last_index_byte (l : text) (c : ascii) : option nat :=
  match l with
  | [] => None
  | x :: l =>
      match last_index_byte l c with
      | Some i => Some (S i)
      | None => if decide (x = c) then Some 0 else None
      end
  end.

Definition colon : ascii := ":"%char.
Definition lbracket : ascii := "["%char.
Definition rbracket : ascii := "]"%char.

Definition missingPort : error := Msg "missing port in address".
Definition tooManyColons : error := Msg "too many colons in address".

(** [j] and [k] are where the search for stray brackets starts. *)
Definition split_checked (hostport host : text) (i j k : nat) : res (text * text) :=
  match index_byte (drop j hostport) lbracket with
  | Some _ => Fail (Msg "unexpected '[' in address")
  | None =>
      match index_byte (drop k hostport) rbracket with
      | Some _ => Fail (Msg "unexpected ']' in address")
      | None => Ok (host, drop (S i) hostport)
      end
  end.

Definition SplitHostPort (hostport : text) : res (text * text) :=
  match last_index_byte hostport colon with
  | None => Fail missingPort
  | Some i =>
      if decide (head hostport = Some lbracket) then
        match index_byte hostport rbracket with
        | None => Fail (Msg "missing ']' in address")
        | Some e =>
            if decide (S e = length hostport) then Fail missingPort
            else if decide (S e = i) then
              split_checked hostport (drop 1 (take e hostport)) i 1 (S e)
            else if decide (hostport !! S e = Some colon) then Fail tooManyColons
            else Fail missingPort
        end
      else
        let host := take i hostport in
        match index_byte host colon with
        | Some _ => Fail tooManyColons
        | None => split_checked hostport host i 0 0
        end
  end.

(** ** Addresses *)

(** [net.ParseIP], [net.ParseCIDR] and [IPNet.Contains]; [None] is the nil
    address, which no subnet contains. *)
Class Net : Type := {
  IP : Type;
  IPNet : Type;
  ParseIP : string → option IP;
  ParseCIDR : string → res IPNet;
  Contains : IPNet → option IP → bool
}.

Class NetSpec `{Net} : Prop := { Contains_nil n : Contains n None = false }.

(** ** Lemmas *)

Lemma index_byte_None l c : index_byte l c = None ↔ c ∉ l.
Proof.
  induction l as [|x l IH]; simpl; [by split; [intros _; apply not_elem_of_nil|]|].
  rewrite elem_of_cons. destruct (decide (x = c)) as [->|Hne]; [naive_solver|].
  rewrite fmap_None, IH. naive_solver.
Qed.

Lemma index_byte_app l1 l2 c : c ∉ l1 → index_byte (l1 ++ c :: l2) c = Some (length l1).
Proof.
  induction l1 as [|x l1 IH]; simpl; intros Hc; [by rewrite decide_True|].
  rewrite elem_of_cons in Hc. rewrite decide_False by naive_solver.
  by rewrite IH by naive_solver.
Qed.

Lemma last_index_byte_None l c : c ∉ l → last_index_byte l c = None.
Proof.
  induction l as [|x l IH]; simpl; [done|]. rewrite elem_of_cons. intros Hc.
  rewrite IH by naive_solver. by rewrite decide_False by naive_solver.
Qed.

Lemma last_index_byte_app l1 l2 c :
  c ∉ l2 → last_index_byte (l1 ++ c :: l2) c = Some (length l1).
Proof.
  intros Hc. induction l1 as [|x l1 IH]; simpl; [|by rewrite IH].
  by rewrite last_index_byte_None, decide_True.
Qed.

Lemma drop_app_cons {A} (l1 l2 : list A) x : drop (S (length l1)) (l1 ++ x :: l2) = l2.
Proof. induction l1 as [|y l1 IH]; simpl; [done|]. apply IH. Qed.

(** A plain host: no colon and no bracket. *)
Lemma SplitHostPort_plain host port :
  colon ∉ host → colon ∉ port → lbracket ∉ host ++ colon :: port →
  rbracket ∉ host ++ colon :: port →
  SplitHostPort (host ++ colon :: port) = Ok (host, port).
Proof.
  intros Hh Hp Hl Hr. unfold SplitHostPort.
  rewrite last_index_byte_app by done. rewrite decide_False.
  2: { intros Hhd. apply Hl. destruct (host ++ colon :: port); [done|].
       injection Hhd as ->. by apply elem_of_cons; left. }
  rewrite take_app_length, (proj2 (index_byte_None host colon) Hh).
  unfold split_checked. rewrite drop_0.
  rewrite (proj2 (index_byte_None _ lbracket)), (proj2 (index_byte_None _ rbracket)) by done.
  by rewrite drop_app_cons.
Qed.

(** A bracketed host, as for IPv6 addresses. *)
Lemma SplitHostPort_brackets host port :
  lbracket ∉ host → rbracket ∉ host → colon ∉ port → lbracket ∉ port → rbracket ∉ port →
  SplitHostPort (lbracket :: host ++ rbracket :: colon :: port) = Ok (host, port).
Proof.
  intros Hlh Hrh Hcp Hlp Hrp. unfold SplitHostPort.
  assert (last_index_byte (lbracket :: host ++ rbracket :: colon :: port) colon
    = Some (S (S (length host)))) as ->.
  { change (lbracket :: host ++ rbracket :: colon :: port)
      with ((lbracket :: host) ++ [rbracket] ++ colon :: port).
    rewrite app_assoc, last_index_byte_app by done. rewrite length_app. simpl. f_equal. lia. }
  rewrite decide_True by done.
  assert (index_byte (lbracket :: host ++ rbracket :: colon :: port) rbracket
    = Some (S (length host))) as ->.
  { cbn [index_byte]. rewrite decide_False by done. by rewrite index_byte_app. }
  rewrite decide_False by (simpl; rewrite length_app; simpl; lia). rewrite decide_True by done.
  unfold split_checked. cbn [take drop]. rewrite take_app_length.
  rewrite (proj2 (index_byte_None _ lbracket)).
  2: { rewrite drop_0, elem_of_app, !elem_of_cons. naive_solver. }
  rewrite drop_app_cons.
  rewrite (proj2 (index_byte_None _ rbracket)).
  2: { rewrite elem_of_cons. naive_solver. }
  do 2 f_equal.
  clear. induction host as [|y host IH]; [done|]. apply IH.
Qed.
