(* ===== verification/Encryption.v ===== *)
(** [internal/encryption]: the framing of encrypted bodies and the loading of
    keys.  RSA-OAEP, AES-GCM, PEM and X.509 are interfaces, with the documented
    laws of the ciphers. *)

From S2P Require Import Prelude GoErrors GoNet.
From Stdlib Require Import Ascii.

Definition Header : string := "X-Metrics-Encryption".
Definition Algorithm : string := "rsa-oaep-aes256-gcm-v1".

(** [rsa.PublicKey]: the modulus may be nil. *)
Record PublicKey : Type := mkPublicKey { pk_N : option Z; pk_E : Z }.

(** [rsa.PrivateKey]: the public part and the secret exponent. *)
Record PrivateKey : Type := mkPrivateKey { sk_PublicKey : PublicKey; sk_D : Z }.

(** [big.Int.BitLen] *)
Definition BitLen (n : Z) : Z := if decide (n = 0)%Z then 0 else Z.log2 (Z.abs n) + 1.

(** [key.Size()]: the length of the modulus in bytes. *)
Definition Size (k : PublicKey) : nat :=
  match pk_N k with Some n => Z.to_nat ((BitLen n + 7) / 8) | None => 0 end.

Definition invalid_key : error :=
  Msg "RSA key must have at least 2048 bits and a valid public exponent".

Definition validatePublicKey (key : option PublicKey) : err :=
  match key with
  | None => Some invalid_key
  | Some k =>
      match pk_N k with
      | None => Some invalid_key
      | Some n =>
          if ((BitLen n <? 2048) || (pk_E k <? 3) || (Z.rem (pk_E k) 2 =? 0))%Z
          then Some invalid_key else None
      end
  end.

(** The ciphers.  [EncryptOAEP] takes the random bytes it uses; the hash is
    SHA-256 throughout.  A block cipher, and the GCM of one, is the key it was
    made with. *)
Class Ciphers : Type := {
  EncryptOAEP : text → PublicKey → text → string → res text;
  DecryptOAEP : PrivateKey → text → string → res text;
  aes_NewCipher : text → res text;
  cipher_NewGCM : text → res text;
  NonceSize : nat;
  Overhead : nat;
  Seal : text → text → text → text → text;      (* key, nonce, plaintext, additional data *)
  Open : text → text → text → text → res text
}.

(** What the documentation promises: a key of 32 bytes makes an AES-256-GCM;
    OAEP decryption inverts encryption under the matching key (a [PrivateKey] is
    a pair that [key_Validate] has accepted, when it is loaded), the ciphertext
    being as long as the modulus; GCM is deterministic, and opens exactly what
    was sealed with the same key, nonce and additional data. *)
Class CiphersSpec `{Ciphers} : Prop := {
  NewCipher_32 key : length key = 32 → aes_NewCipher key = Ok key;
  NewGCM_block block : length block = 32 → cipher_NewGCM block = Ok block;
  oaep_length rnd pk m label c : EncryptOAEP rnd pk m label = Ok c → length c = Size pk;
  oaep_inverse rnd sk m label c :
    EncryptOAEP rnd (sk_PublicKey sk) m label = Ok c → DecryptOAEP sk c label = Ok m;
  seal_length key nonce p a : length (Seal key nonce p a) = length p + Overhead;
  open_seal key nonce p a : Open key nonce (Seal key nonce p a) a = Ok p;
  open_sealed key nonce c a p : Open key nonce c a = Ok p → c = Seal key nonce p a
}.

Section Encryption.
Context `{Ciphers}.

Definition newGCM (key : text) : res text :=
  match aes_NewCipher key with
  | Fail e => Fail (Wrap "create AES cipher" e)
  | Ok block =>
      match cipher_NewGCM block with
      | Fail e => Fail (Wrap "create GCM" e)
      | Ok gcm => Ok gcm
      end
  end.

Lemma newGCM_32 `{!CiphersSpec} key : length key = 32 → newGCM key = Ok key.
Proof. intros Hk. unfold newGCM. by rewrite NewCipher_32, NewGCM_block. Qed.

(** The random bytes of one encryption: the session key, those of OAEP, the
    nonce; reading the first and the last can fail. *)
Record Random : Type := mkRandom {
  rnd_session : res text;
  rnd_oaep : text;
  rnd_nonce : res text
}.

Definition version : ascii := ascii_of_nat 1.

Definition Encrypt (rnd : Random) (key : option PublicKey) (body : text) : res text :=
  match key, validatePublicKey key with
  | _, Some e => Fail e
  | None, None => Fail invalid_key
  | Some key, None =>
      match rnd_session rnd with
      | Fail e => Fail (Wrap "generate session key" e)
      | Ok sessionKey =>
          match EncryptOAEP (rnd_oaep rnd) key sessionKey Algorithm with
          | Fail e => Fail (Wrap "encrypt session key" e)
          | Ok wrapped =>
              match newGCM sessionKey with
              | Fail e => Fail e
              | Ok gcm =>
                  let header := version :: wrapped in
                  match rnd_nonce rnd with
                  | Fail e => Fail (Wrap "generate nonce" e)
                  | Ok nonce =>
                      let output := header ++ nonce in
                      Ok (output ++ Seal gcm nonce body header)
                  end
              end
          end
      end
  end.

Definition Decrypt (key : option PrivateKey) (body : text) : res text :=
  match key with
  | None => Fail (Msg "private key is required")
  | Some key =>
      match validatePublicKey (Some (sk_PublicKey key)) with
      | Some e => Fail e
      | None =>
          let headerSize := 1 + Size (sk_PublicKey key) in
          if decide (length body < headerSize ∨ body !! 0 ≠ Some version)
          then Fail (Msg "invalid encrypted body")
          else
            match DecryptOAEP key (drop 1 (take headerSize body)) Algorithm with
            | Fail e => Fail (Wrap "decrypt session key" e)
            | Ok sessionKey =>
                if decide (length sessionKey ≠ 32) then Fail (Msg "invalid session key length")
                else match newGCM sessionKey with
                | Fail e => Fail e
                | Ok gcm =>
                    if decide (length body < headerSize + NonceSize + Overhead)
                    then Fail (Msg "truncated encrypted body")
                    else
                      let nonceEnd := headerSize + NonceSize in
                      match Open gcm (drop headerSize (take nonceEnd body)) (drop nonceEnd body)
                              (take headerSize body) with
                      | Fail e => Fail (Wrap "decrypt body" e)
                      | Ok plain => Ok plain
                      end
                end
            end
      end
  end.

(** ** Keys (keys.go)

    The files, PEM and the X.509 parsers; a parser returns [None] for a key
    that is not RSA. *)
Record KeyFiles : Type := mkKeyFiles {
  kf_ReadFile : string → res text;
  pem_Decode : text → option (string * text);    (* the type and the bytes of the block *)
  ParsePKIXPublicKey : text → res (option PublicKey);
  ParsePKCS1PublicKey : text → res PublicKey;
  ParsePKCS8PrivateKey : text → res (option PrivateKey);
  ParsePKCS1PrivateKey : text → res PrivateKey;
  key_Validate : PrivateKey → err
}.

Definition readPEM (kf : KeyFiles) (path : string) : res (string * text) :=
  match kf_ReadFile kf path with
  | Fail e => Fail (Wrap "read key file" e)
  | Ok data =>
      match pem_Decode kf data with
      | None => Fail (Msg "key file does not contain PEM data")
      | Some block => Ok block
      end
  end.

Definition LoadPublicKey (kf : KeyFiles) (path : string) : res (option PublicKey) :=
  if decide (path = "") then Ok None
  else match readPEM kf path with
  | Fail e => Fail e
  | Ok (type, bytes) =>
      let parsed :=
        if decide (type = "PUBLIC KEY") then
          match ParsePKIXPublicKey kf bytes with
          | Fail e => Fail (Wrap "parse public key" e)
          | Ok None => Fail (Msg "public key must be RSA")
          | Ok (Some key) => Ok key
          end
        else if decide (type = "RSA PUBLIC KEY") then
          match ParsePKCS1PublicKey kf bytes with
          | Fail e => Fail (Wrap "parse RSA public key" e)
          | Ok key => Ok key
          end
        else Fail (Msg "unsupported public key PEM type") in
      match parsed with
      | Fail e => Fail e
      | Ok key =>
          match validatePublicKey (Some key) with
          | Some e => Fail e
          | None => Ok (Some key)
          end
      end
  end.

(** [key.Precompute()] changes nothing the program sees. *)
Definition LoadPrivateKey (kf : KeyFiles) (path : string) : res (option PrivateKey) :=
  if decide (path = "") then Ok None
  else match readPEM kf path with
  | Fail e => Fail e
  | Ok (type, bytes) =>
      let parsed :=
        if decide (type = "PRIVATE KEY") then
          match ParsePKCS8PrivateKey kf bytes with
          | Fail e => Fail (Wrap "parse private key" e)
          | Ok None => Fail (Msg "private key must be RSA")
          | Ok (Some key) => Ok key
          end
        else if decide (type = "RSA PRIVATE KEY") then
          match ParsePKCS1PrivateKey kf bytes with
          | Fail e => Fail (Wrap "parse RSA private key" e)
          | Ok key => Ok key
          end
        else Fail (Msg "unsupported private key PEM type") in
      match parsed with
      | Fail e => Fail e
      | Ok key =>
          match validatePublicKey (Some (sk_PublicKey key)) with
          | Some e => Fail e
          | None =>
              match key_Validate kf key with
              | Some e => Fail (Wrap "validate private key" e)
              | None => Ok (Some key)
              end
          end
      end
  end.

(** A key that was loaded is fit for use: [Encrypt] and [Decrypt] never refuse
    it. *)
Lemma LoadPublicKey_valid kf path key :
  LoadPublicKey kf path = Ok (Some key) → validatePublicKey (Some key) = None.
Proof.
  unfold LoadPublicKey. case_decide; [done|].
  destruct (readPEM kf path) as [[type bytes]|]; [|done].
  destruct (if decide (type = "PUBLIC KEY") then _ else _) as [k|]; [|done].
  destruct (validatePublicKey (Some k)) eqn:Hv; [done|]. by intros [= <-].
Qed.

Lemma LoadPrivateKey_valid kf path key :
  LoadPrivateKey kf path = Ok (Some key) → validatePublicKey (Some (sk_PublicKey key)) = None.
Proof.
  unfold LoadPrivateKey. case_decide; [done|].
  destruct (readPEM kf path) as [[type bytes]|]; [|done].
  destruct (if decide (type = "PRIVATE KEY") then _ else _) as [k|]; [|done].
  destruct (validatePublicKey (Some (sk_PublicKey k))) eqn:Hv; [done|].
  destruct (key_Validate kf k); [done|]. by intros [= <-].
Qed.


(** The random bytes are as long as the code asks for. *)
Definition random_ok (rnd : Random) : Prop :=
  (∀ k, rnd_session rnd = Ok k → length k = 32) ∧
  (∀ n, rnd_nonce rnd = Ok n → length n = NonceSize).

(** What is encrypted is decrypted; see [Decrypt_Encrypt]. *)
Lemma encrypted_body `{!CiphersSpec} rnd sk body :
  random_ok rnd →
  match Encrypt rnd (Some (sk_PublicKey sk)) body with
  | Ok c => Decrypt (Some sk) c = Ok body ∧
      length c = 1 + Size (sk_PublicKey sk) + NonceSize + length body + Overhead
  | Fail _ =>
      validatePublicKey (Some (sk_PublicKey sk)) ≠ None ∨
      (∃ e, rnd_session rnd = Fail e) ∨ (∃ e, rnd_nonce rnd = Fail e) ∨
      (∃ k e, rnd_session rnd = Ok k ∧
         EncryptOAEP (rnd_oaep rnd) (sk_PublicKey sk) k Algorithm = Fail e)
  end.
Proof.
  intros [Hs Hn]. unfold Encrypt.
  destruct (validatePublicKey (Some (sk_PublicKey sk))) as [e|] eqn:Hv; [by left|].
  destruct (rnd_session rnd) as [k|e] eqn:Hk; [|right; left; by exists e].
  destruct (EncryptOAEP _ _ _ _) as [wrapped|e] eqn:Ho; [|do 3 right; by exists k, e].
  rewrite newGCM_32 by auto. destruct (rnd_nonce rnd) as [nonce|e] eqn:Hno; [|do 2 right; left; by exists e].
  pose proof (oaep_length _ _ _ _ _ Ho) as Hlen. specialize (Hn nonce eq_refl).
  specialize (Hs k eq_refl).
  split.
  2: { rewrite !length_app, seal_length. simpl. lia. }
  unfold Decrypt. rewrite Hv.
  set (body' := (version :: wrapped) ++ nonce ++ Seal k nonce body (version :: wrapped)).
  assert (((version :: wrapped) ++ nonce) ++ Seal k nonce body (version :: wrapped) = body') as ->.
  { by rewrite <-app_assoc. }
  assert (length (version :: wrapped) = 1 + Size (sk_PublicKey sk)) as Hh by (simpl; lia).
  rewrite decide_False.
  2: { intros [Hl|Hb]; [|done]. unfold body' in Hl. rewrite length_app in Hl. lia. }
  rewrite <-Hh. unfold body' at 1. rewrite take_app_length. cbn [drop]. rewrite drop_0.
  rewrite (oaep_inverse _ _ _ _ _ Ho), decide_False, newGCM_32 by (done || tauto).
  rewrite decide_False.
  2: { unfold body'. rewrite !length_app, seal_length. lia. }
  rewrite <-Hn, <-length_app. unfold body'. rewrite app_assoc, take_app_length, drop_app_length.
  rewrite drop_app_length, <-app_assoc, take_app_length. by rewrite open_seal.
Qed.

(** ** Properties *)

(** C29: what [Encrypt] produces under a public key, [Decrypt] turns back into the
    body under the private key it belongs to; encryption fails only for an
    unfit key, a failed source of randomness or a failed OAEP. *)
Theorem Decrypt_Encrypt `{!CiphersSpec} rnd sk body :
  random_ok rnd →
  match Encrypt rnd (Some (sk_PublicKey sk)) body with
  | Ok c => Decrypt (Some sk) c = Ok body ∧
      length c = 1 + Size (sk_PublicKey sk) + NonceSize + length body + Overhead
  | Fail _ =>
      validatePublicKey (Some (sk_PublicKey sk)) ≠ None ∨
      (∃ e, rnd_session rnd = Fail e) ∨ (∃ e, rnd_nonce rnd = Fail e) ∨
      (∃ k e, rnd_session rnd = Ok k ∧
         EncryptOAEP (rnd_oaep rnd) (sk_PublicKey sk) k Algorithm = Fail e)
  end.
Proof. apply encrypted_body. Qed.

(** C30: [Decrypt] accepts nothing but the wire format, for every input: version
    byte 1, an RSA block of the modulus' length that decrypts to a key of 32
    bytes, a nonce, and the ciphertext GCM makes of the result with the header
    as additional data: header, nonce and plaintext determine the body. *)
Theorem Decrypt_accepts `{!CiphersSpec} sk body plain :
  Decrypt (Some sk) body = Ok plain →
  ∃ wrapped sessionKey nonce,
    body = version :: wrapped ++ nonce ++ Seal sessionKey nonce plain (version :: wrapped) ∧
    length wrapped = Size (sk_PublicKey sk) ∧ length nonce = NonceSize ∧ length sessionKey = 32 ∧
    DecryptOAEP sk wrapped Algorithm = Ok sessionKey ∧
    validatePublicKey (Some (sk_PublicKey sk)) = None.
Proof.
  unfold Decrypt. destruct (validatePublicKey _) as [e|] eqn:Hv; [done|].
  destruct (decide _) as [|Hfmt]; [done|].
  assert (1 + Size (sk_PublicKey sk) ≤ length body) as Hl by (destruct (decide (length body < 1 + Size (sk_PublicKey sk))); [by destruct Hfmt; left|lia]).
  assert (body !! 0 = Some version) as Hver.
  { destruct (decide (body !! 0 = Some version)); [done|]. by destruct Hfmt; right. }
  destruct body as [|v body]; [done|]. injection Hver as ->.
  change (take (1 + Size (sk_PublicKey sk)) (version :: body))
    with (version :: take (Size (sk_PublicKey sk)) body).
  set (n := Size (sk_PublicKey sk)) in *. cbn [drop] in *. rewrite drop_0.
  destruct (DecryptOAEP sk (take n body) Algorithm) as [k|e] eqn:Ho; [|done].
  destruct (decide (length k ≠ 32)) as [|Hk]; [done|]. apply dec_stable in Hk.
  rewrite newGCM_32 by done.
  destruct (decide _) as [|Hl2]; [done|]. simpl in Hl, Hl2.
  change (1 + n + NonceSize) with (S (n + NonceSize)). change (1 + n) with (S n).
  cbn [take drop].
  destruct (Open k _ _ _) as [p|e] eqn:Hopen; [|done]. intros [= ->].
  apply open_sealed in Hopen.
  exists (take n body), k, (drop n (take (n + NonceSize) body)). rewrite <-Hopen.
  split_and!; try done.
  - f_equal. rewrite <-(take_drop n body) at 1. f_equal.
    rewrite <-(take_drop NonceSize (drop n body)) at 1. rewrite drop_drop, skipn_firstn_comm.
    do 2 f_equal. lia.
  - rewrite length_take. lia.
  - rewrite length_drop, length_take. lia.
Qed.
End Encryption.

(** ** A concrete cipher

    Transparent, with the framing of the real ones: OAEP pads a session key to
    the modulus' length, GCM appends 16 zero bytes. *)
Definition zero : ascii := ascii_of_nat 0.

Definition clear_ciphers : Ciphers := {|
  EncryptOAEP _ pk m _ :=
    if decide (length m = 32 ∧ 32 ≤ Size pk) then Ok (m ++ replicate (Size pk - 32) zero)
    else Fail (Msg "message too long for RSA key size");
  DecryptOAEP _ c _ := Ok (take 32 c);
  aes_NewCipher key := if decide (length key = 32) then Ok key else Fail (Msg "invalid key size");
  cipher_NewGCM block := Ok block;
  NonceSize := 12;
  Overhead := 16;
  Seal _ _ p _ := p ++ replicate 16 zero;
  Open _ _ c _ :=
    if decide (16 ≤ length c ∧ drop (length c - 16) c = replicate 16 zero)
    then Ok (take (length c - 16) c) else Fail (Msg "message authentication failed")
|}.

Lemma clear_ciphers_ok : @CiphersSpec clear_ciphers.
Proof.
  constructor; cbn [EncryptOAEP DecryptOAEP aes_NewCipher cipher_NewGCM NonceSize Overhead Seal Open clear_ciphers].
  - intros key Hk. by rewrite decide_True.
  - done.
  - intros rnd pk m label c. case_decide as Hm; [|done]. intros [= <-].
    rewrite length_app, length_replicate. lia.
  - intros rnd sk m label c. case_decide as Hm; [|done]. intros [= <-].
    destruct Hm as [<- _]. by rewrite take_app_length.
  - intros key nonce p a. by rewrite length_app, length_replicate.
  - intros key nonce p a. rewrite length_app, length_replicate.
    replace (length p + 16 - 16) with (length p) by lia.
    rewrite drop_app_length, take_app_length, decide_True; [done|]. split; [lia|done].
  - intros key nonce c a p. case_decide as Hc; [|done]. intros [= <-]. destruct Hc as [_ <-].
    by rewrite take_drop.
Qed.

Definition witness_public : PublicKey := mkPublicKey (Some (2 ^ 2047)%Z) 65537.
Definition witness_private : PrivateKey := mkPrivateKey witness_public 3.
Definition witness_random : Random :=
  mkRandom (Ok (replicate 32 zero)) [] (Ok (replicate 12 zero)).

Lemma Decrypt_Encrypt_witness :
  match @Encrypt clear_ciphers witness_random (Some witness_public) ["m"%char] with
  | Ok c => @Decrypt clear_ciphers (Some witness_private) c = Ok ["m"%char]
  | Fail _ => False
  end.
Proof.
  assert (@random_ok clear_ciphers witness_random) as Hr by (split; by intros ? [= <-]).
  pose proof (@Decrypt_Encrypt clear_ciphers clear_ciphers_ok witness_random witness_private
    ["m"%char] Hr) as Hrt.
  change (sk_PublicKey witness_private) with witness_public in Hrt.
  destruct (@Encrypt clear_ciphers witness_random (Some witness_public) ["m"%char]) eqn:He.
  - by apply Hrt.
  - by vm_compute in He.
Defined.

Lemma Decrypt_accepts_witness :
  match @Encrypt clear_ciphers witness_random (Some witness_public) ["m"%char] with
  | Ok c => ∃ wrapped nonce, c = version :: wrapped ++ nonce ++ ["m"%char] ++ replicate 16 zero ∧
      length wrapped = 256
  | Fail _ => False
  end.
Proof.
  destruct (@Encrypt clear_ciphers witness_random (Some witness_public) ["m"%char]) as [c|] eqn:He;
    [|by vm_compute in He].
  assert (@Decrypt clear_ciphers (Some witness_private) c = Ok ["m"%char]) as Hd.
  { assert (Ok c = Ok c) as Hc by done. rewrite <-He in Hc at 1. vm_compute in Hc.
    injection Hc as <-. by vm_compute. }
  destruct (@Decrypt_accepts clear_ciphers clear_ciphers_ok witness_private c _ Hd)
    as (wrapped & k & nonce & -> & Hl & _).
  exists wrapped, nonce. split; [done|]. rewrite Hl. by vm_compute.
Defined.
