(* ===== verification/Middleware.v ===== *)
(** [internal/middleware]: the filters and the response writers around the HTTP
    handlers.

    A middleware is a function on handlers; the writers that wrap another writer
    are records that embed it, as the Go structs do. *)

From S2P Require Import Prelude GoErrors GoHttp GoNet Signature Encryption.
From Stdlib Require Import Ascii.

(** [compress/gzip].  [gzip_NewReader] takes the text and the error of the
    stream it reads, and gives those of the stream it yields with the error of
    its [Close]. *)
Class GzipCodec : Type := {
  gzip_compress : string → string;
  gzip_NewReader : string → err → res (string * err * err)
}.

(** What is compressed is read back. *)
Class GzipSpec `{GzipCodec} : Prop :=
  gzip_round s : gzip_NewReader (gzip_compress s) None = Ok (s, None, None).

(** ** logging.go *)

Record loggingResponseWriter (R : Type) : Type := mkLogging {
  lw_ResponseWriter : R;
  lw_statusCode : Z;
  lw_size : Z;
  lw_wroteHeader : bool
}.
Arguments mkLogging {R} _ _ _ _.
Arguments lw_ResponseWriter {R} _.
Arguments lw_statusCode {R} _.
Arguments lw_size {R} _.
Arguments lw_wroteHeader {R} _.

Definition newLoggingResponseWriter {R} (w : R) : loggingResponseWriter R :=
  mkLogging w StatusOK 0 false.

(** Writing on the wrapped writer does not fail in the model, so that it takes
    the whole body. *)
#[export] Instance logging_writer `{ResponseWriter R} : ResponseWriter (loggingResponseWriter R) := {|
  Header_of w := Header_of (lw_ResponseWriter w);
  with_Header f w :=
    mkLogging (with_Header f (lw_ResponseWriter w)) (lw_statusCode w) (lw_size w) (lw_wroteHeader w);
  WriteHeader statusCode w :=
    if lw_wroteHeader w then w
    else mkLogging (WriteHeader statusCode (lw_ResponseWriter w)) statusCode (lw_size w) true;
  Write body w :=
    mkLogging (Write body (lw_ResponseWriter w))
      (if lw_wroteHeader w then lw_statusCode w else StatusOK)
      (lw_size w + Z.of_nat (String.length body)) true
|}.

(** What a line of the log tells. *)
Record LogEntry : Type := mkLogEntry {
  le_method : string; le_uri : string; le_duration : Z; le_status : Z; le_size : Z
}.

(** ** gzip.go *)

Fixpoint contains_token (parts : list string) (token : string) : bool :=
  match parts with
  | [] => false
  | part :: parts =>
      if decide (TrimSpace part = ToLower token) then true else contains_token parts token
  end.

Definition headerContainsToken (headerValue token : string) : bool :=
  contains_token (Split ","%char (ToLower headerValue)) token.

Definition canCompressContentType (contentType : string) : bool :=
  String.prefix "application/json" contentType || String.prefix "text/html" contentType.

(** Reading goes to the decompressor; closing closes both, and the first error
    counts. *)
Definition gzipReadCloser (reader : string * err * err) (body : ReadCloser) : ReadCloser :=
  let '(text, readErr, readerErr) := reader in
  mkBody text readErr (match readerErr with Some e => Some e | None => b_close body end).

(** [gw_writer] is the text written so far to the [gzip.Writer]. *)
Record gzipResponseWriter (R : Type) : Type := mkGzipWriter {
  gw_ResponseWriter : R;
  gw_acceptsGzip : bool;
  gw_wroteHeader : bool;
  gw_compressing : bool;
  gw_writer : option string
}.
Arguments mkGzipWriter {R} _ _ _ _ _.
Arguments gw_ResponseWriter {R} _.
Arguments gw_acceptsGzip {R} _.
Arguments gw_wroteHeader {R} _.
Arguments gw_compressing {R} _.
Arguments gw_writer {R} _.

Definition newGzipResponseWriter {R} (w : R) (acceptsGzip : bool) : gzipResponseWriter R :=
  mkGzipWriter w acceptsGzip false false None.

(** The headers of a compressed answer. *)
Definition compressed_headers (h : header) : header :=
  Header_Del "Content-Length" (Header_Add "Vary" "Accept-Encoding"
    (Header_Set "Content-Encoding" "gzip" h)).

Definition gzip_WriteHeader `{ResponseWriter R} (statusCode : Z) (g : gzipResponseWriter R)
  : gzipResponseWriter R :=
  if gw_wroteHeader g then g
  else
    let contentType := Header_Get "Content-Type" (Header_of (gw_ResponseWriter g)) in
    if gw_acceptsGzip g && canCompressContentType contentType then
      mkGzipWriter
        (WriteHeader statusCode (with_Header compressed_headers (gw_ResponseWriter g)))
        (gw_acceptsGzip g) true true (Some "")
    else
      mkGzipWriter (WriteHeader statusCode (gw_ResponseWriter g))
        (gw_acceptsGzip g) true (gw_compressing g) (gw_writer g).

Definition gzip_Write `{ResponseWriter R} (body : string) (g : gzipResponseWriter R)
  : gzipResponseWriter R :=
  let g := if gw_wroteHeader g then g else gzip_WriteHeader StatusOK g in
  if gw_compressing g then
    mkGzipWriter (gw_ResponseWriter g) (gw_acceptsGzip g) (gw_wroteHeader g) (gw_compressing g)
      (Some (default "" (gw_writer g) +:+ body))
  else
    mkGzipWriter (Write body (gw_ResponseWriter g)) (gw_acceptsGzip g) (gw_wroteHeader g)
      (gw_compressing g) (gw_writer g).

#[export] Instance gzip_writer `{ResponseWriter R} : ResponseWriter (gzipResponseWriter R) := {|
  Header_of g := Header_of (gw_ResponseWriter g);
  with_Header f g :=
    mkGzipWriter (with_Header f (gw_ResponseWriter g)) (gw_acceptsGzip g) (gw_wroteHeader g)
      (gw_compressing g) (gw_writer g);
  WriteHeader := gzip_WriteHeader;
  Write := gzip_Write
|}.

(** [Close]: the compressed bytes reach the wrapped writer, at the latest here. *)
Definition gzip_Close `{GzipCodec} `{ResponseWriter R} (g : gzipResponseWriter R) : R :=
  match gw_writer g with
  | Some text => Write (gzip_compress text) (gw_ResponseWriter g)
  | None => gw_ResponseWriter g
  end.

(** ** hash.go *)

Record hashResponseWriter (R : Type) : Type := mkHashWriter {
  hw_ResponseWriter : R;
  hw_body : string;
  hw_statusCode : Z;
  hw_wroteHeader : bool
}.
Arguments mkHashWriter {R} _ _ _ _.
Arguments hw_ResponseWriter {R} _.
Arguments hw_body {R} _.
Arguments hw_statusCode {R} _.
Arguments hw_wroteHeader {R} _.

Definition newHashResponseWriter {R} (w : R) : hashResponseWriter R := mkHashWriter w "" StatusOK false.

#[export] Instance hash_writer `{ResponseWriter R} : ResponseWriter (hashResponseWriter R) := {|
  Header_of w := Header_of (hw_ResponseWriter w);
  with_Header f w :=
    mkHashWriter (with_Header f (hw_ResponseWriter w)) (hw_body w) (hw_statusCode w) (hw_wroteHeader w);
  WriteHeader statusCode w :=
    if hw_wroteHeader w then w
    else mkHashWriter (hw_ResponseWriter w) (hw_body w) statusCode true;
  Write body w :=
    mkHashWriter (hw_ResponseWriter w) (hw_body w +:+ body)
      (if hw_wroteHeader w then hw_statusCode w else StatusOK) true
|}.

Definition hash_flush `{ResponseWriter R} (key : string) (w : hashResponseWriter R) : R :=
  Write (hw_body w) (WriteHeader (hw_statusCode w)
    (SetHeader Signature.Header (Calculate (hw_body w) key) (hw_ResponseWriter w))).

Definition requestRequiresSignature (method : string) : bool :=
  negb (bool_decide (method = "GET") || bool_decide (method = "HEAD") || bool_decide (method = "OPTIONS")).

(** The request with its body put back, and whether the signature is right. *)
Definition verifyRequestSignature (r : Request) (key : string) : Request * bool :=
  match ReadAll (Body r), b_close (Body r) with
  | Ok body, None =>
      (set_Body (NopCloser body) r, Verify body key (Header_Get Signature.Header (ReqHeader r)))
  | _, _ => (r, false)
  end.

(** ** The middleware *)

Section Middleware.
Context {W : Type} `{GzipCodec} `{Net} `{Ciphers}.
(** The clock, and the logger that writes an entry. *)
Variable now : M W Z.
Variable logger : option (LogEntry → M W unit).

Definition RequestLogger (next : Handler W) : Handler W := λ R _ w r,
  let! start := now in
  let! lrw := next _ logging_writer (newLoggingResponseWriter w) r in
  let! finish := now in
  match logger with
  | None => ret tt
  | Some info => info (mkLogEntry (Method r) (RequestURI r) (finish - start) (lw_statusCode lrw) (lw_size lrw))
  end ;;
  ret (lw_ResponseWriter lrw).

(** subnet.go *)
Definition TrustedSubnet (cidr : string) : res (Handler W → Handler W) :=
  match
    if decide (cidr = "") then Ok None
    else match ParseCIDR cidr with
         | Fail e => Fail (Wrap "parse trusted subnet" e)
         | Ok parsed => Ok (Some parsed)
         end
  with
  | Fail e => Fail e
  | Ok None => Ok (λ next, next)
  | Ok (Some subnet) => Ok (λ next R _ w r,
      match Header_Values "X-Real-IP" (ReqHeader r) with
      | [value] =>
          if Contains subnet (ParseIP value) then next R _ w r
          else ret (http_Error "Forbidden" StatusForbidden w)
      | _ => ret (http_Error "Forbidden" StatusForbidden w)
      end)
  end.

(** encryption.go *)
Definition maxEncryptedBody : Z := Z.shiftl 16 20.

(** [io.ReadAll(http.MaxBytesReader(w, r.Body, 16<<20))] *)
Definition ReadAll_max (b : ReadCloser) : res string :=
  if (maxEncryptedBody <? Z.of_nat (String.length (b_data b)))%Z
  then Fail (Msg "http: request body too large") else ReadAll b.

Definition Decrypt (key : option PrivateKey) (next : Handler W) : Handler W := λ R _ w r,
  let algorithm := Header_Get Encryption.Header (ReqHeader r) in
  let refuse := ret (http_Error "invalid encrypted request" StatusBadRequest w) in
  if decide (algorithm = "") then next R _ w r
  else if decide (algorithm ≠ Algorithm ∨ key = None) then refuse
  else match ReadAll_max (Body r) with
  | Fail _ => refuse
  | Ok body =>
      match Encryption.Decrypt key (String.list_ascii_of_string body) with
      | Fail _ => refuse
      | Ok plain =>
          next R _ w (set_ReqHeader
            (Header_Del Encryption.Header (Header_Del "Content-Length" (ReqHeader r)))
            (set_Body (NopCloser (String.string_of_list_ascii plain)) r))
      end
  end.

(** gzip.go *)
Definition Gzip (next : Handler W) : Handler W := λ R _ w r,
  match
    if headerContainsToken (Header_Get "Content-Encoding" (ReqHeader r)) "gzip" then
      match gzip_NewReader (b_data (Body r)) (b_err (Body r)) with
      | Fail _ => None
      | Ok reader =>
          Some (set_Body (gzipReadCloser reader (Body r)) r)
      end
    else Some r
  with
  | None => ret (WriteHeader StatusBadRequest w)
  | Some r =>
      let! gzipWriter := next _ gzip_writer
        (newGzipResponseWriter w (headerContainsToken (Header_Get "Accept-Encoding" (ReqHeader r)) "gzip")) r in
      ret (gzip_Close gzipWriter)
  end.

(** hash.go *)
Definition HashSHA256 (key : string) (next : Handler W) : Handler W :=
  if decide (key = "") then next
  else λ R _ w r,
    let responseWriter := newHashResponseWriter w in
    let '(r, verified) :=
      if requestRequiresSignature (Method r) &&
         negb (bool_decide (Header_Get Signature.Header (ReqHeader r) = ""))
      then verifyRequestSignature r key else (r, true) in
    if negb verified then ret (hash_flush key (WriteHeader StatusBadRequest responseWriter))
    else
      let! responseWriter := next _ hash_writer responseWriter r in
      ret (hash_flush key responseWriter).

(** The stack of [cmd/server]: [router.Use], the first one outermost; the
    subnet and the decryption only when they are configured. *)
Definition server_stack (trustedSubnet : option (Handler W → Handler W)) (privateKey : option PrivateKey)
    (key : string) (mux : Handler W) : Handler W :=
  let handler := Gzip (HashSHA256 key mux) in
  let handler := match privateKey with Some _ => Decrypt privateKey handler | None => handler end in
  let handler := match trustedSubnet with Some filter => filter handler | None => handler end in
  RequestLogger handler.

(** ** Lemmas: the wrapping writers on scripts *)

#[local] Instance logging_spec `{ResponseWriterSpec R} : ResponseWriterSpec (loggingResponseWriter R).
Proof. intros f w. exact (Header_with f (lw_ResponseWriter w)). Qed.
#[local] Instance gzip_spec `{ResponseWriterSpec R} : ResponseWriterSpec (gzipResponseWriter R).
Proof. intros f w. exact (Header_with f (gw_ResponseWriter w)). Qed.
#[local] Instance hash_spec `{ResponseWriterSpec R} : ResponseWriterSpec (hashResponseWriter R).
Proof. intros f w. exact (Header_with f (hw_ResponseWriter w)). Qed.

Lemma hash_replay `{ResponseWriter R} acts (rw : R) body status wrote :
  replay acts (mkHashWriter rw body status wrote) =
    mkHashWriter (replay (headers acts) rw) (body +:+ script_body acts)
      (if wrote then status else default status (script_status acts))
      (wrote || negb (forallb is_header acts)).
Proof.
  induction acts as [|a acts IH] in rw, body, status, wrote |- *.
  { unfold replay. cbn. rewrite string_app_nil_r. by destruct wrote. }
  rewrite replay_cons. destruct a as [f|code|data]; cbn [act with_Header WriteHeader Write hash_writer
    hw_ResponseWriter hw_body hw_statusCode hw_wroteHeader].
  - rewrite IH. by destruct wrote.
  - destruct wrote; rewrite IH; cbn; [done|]. done.
  - rewrite IH. cbn. rewrite string_app_assoc. by destruct wrote.
Qed.

Lemma logging_replay_wrote `{ResponseWriter R} rest (rw : R) status size :
  forallb (negb ∘ is_header) rest = true →
  replay rest (mkLogging rw status size true) =
    mkLogging (replay (writes rest) rw) status
      (size + Z.of_nat (String.length (script_body rest))) true.
Proof.
  induction rest as [|a rest IH] in rw, size |- *; intros Hr.
  { unfold replay. cbn. f_equal. lia. }
  apply andb_true_iff in Hr as [Ha Hr]. rewrite replay_cons.
  destruct a as [f|code|data]; [done| |]; cbn [act WriteHeader Write logging_writer
    lw_ResponseWriter lw_statusCode lw_size lw_wroteHeader]; rewrite IH by done; [done|].
  cbn [writes List.filter is_write script_body]. rewrite replay_cons, string_length_app.
  cbn [act]. f_equal. lia.
Qed.

Lemma logging_replay_headers `{ResponseWriter R} sets (rw : R) status size wrote :
  forallb is_header sets = true →
  replay sets (mkLogging rw status size wrote) = mkLogging (replay sets rw) status size wrote.
Proof.
  induction sets as [|a sets IH] in rw |- *; [done|]. intros [Ha Hs]%andb_true_iff.
  destruct a as [f| |]; [|done|done]. rewrite !replay_cons. by rewrite <-IH.
Qed.

Lemma gzip_replay_headers `{ResponseWriter R} sets (rw : R) a wrote c t :
  forallb is_header sets = true →
  replay sets (mkGzipWriter rw a wrote c t) = mkGzipWriter (replay sets rw) a wrote c t.
Proof.
  induction sets as [|x sets IH] in rw |- *; [done|]. intros [Ha Hs]%andb_true_iff.
  destruct x as [f| |]; [|done|done]. rewrite !replay_cons. by rewrite <-IH.
Qed.

Lemma gzip_replay_compressing `{ResponseWriter R} rest (rw : R) a t :
  forallb (negb ∘ is_header) rest = true →
  replay rest (mkGzipWriter rw a true true (Some t)) =
    mkGzipWriter rw a true true (Some (t +:+ script_body rest)).
Proof.
  induction rest as [|x rest IH] in t |- *; intros Hr.
  { unfold replay. cbn. by rewrite string_app_nil_r. }
  apply andb_true_iff in Hr as [Hx Hr]. rewrite replay_cons.
  destruct x as [f|code|data]; [done| |]; cbn; rewrite IH by done; [done|].
  by rewrite string_app_assoc.
Qed.

Lemma gzip_replay_plain `{ResponseWriter R} rest (rw : R) a :
  forallb (negb ∘ is_header) rest = true →
  replay rest (mkGzipWriter rw a true false None) =
    mkGzipWriter (replay (writes rest) rw) a true false None.
Proof.
  induction rest as [|x rest IH] in rw |- *; [done|]. intros [Hx Hr]%andb_true_iff.
  rewrite replay_cons. destruct x as [f|code|data]; [done| |]; cbn; by rewrite IH.
Qed.

(** ** What each middleware does to a request and to an answer *)

(** The request that the signature check passes on, [None] when it refuses. *)
Definition hash_request (key : string) (r : Request) : option Request :=
  if decide (key = "") then Some r
  else if requestRequiresSignature (Method r) &&
          negb (bool_decide (Header_Get Signature.Header (ReqHeader r) = ""))
  then let '(r, verified) := verifyRequestSignature r key in if verified then Some r else None
  else Some r.

Definition gzip_request (r : Request) : option Request :=
  if headerContainsToken (Header_Get "Content-Encoding" (ReqHeader r)) "gzip" then
    match gzip_NewReader (b_data (Body r)) (b_err (Body r)) with
    | Fail _ => None
    | Ok reader =>
        Some (set_Body (gzipReadCloser reader (Body r)) r)
    end
  else Some r.

Definition decrypt_request (key : option PrivateKey) (r : Request) : option Request :=
  let algorithm := Header_Get Encryption.Header (ReqHeader r) in
  if decide (algorithm = "") then Some r
  else if decide (algorithm ≠ Algorithm ∨ key = None) then None
  else match ReadAll_max (Body r) with
  | Fail _ => None
  | Ok body =>
      match Encryption.Decrypt key (String.list_ascii_of_string body) with
      | Fail _ => None
      | Ok plain =>
          Some (set_ReqHeader
            (Header_Del Encryption.Header (Header_Del "Content-Length" (ReqHeader r)))
            (set_Body (NopCloser (String.string_of_list_ascii plain)) r))
      end
  end.

Definition subnet_admits (subnet : IPNet) (r : Request) : bool :=
  match Header_Values "X-Real-IP" (ReqHeader r) with
  | [value] => Contains subnet (ParseIP value)
  | _ => false
  end.

(** The status that two scripts send. *)
Definition sends (acts : list action) : Z := default StatusOK (script_status acts).

Lemma HashSHA256_runs key next r r' w h0 w' acts :
  hash_request key r = Some r' → runs next r' w h0 w' acts →
  ∃ acts', runs (HashSHA256 key next) r w h0 w' acts' ∧ sends acts' = sends acts ∧
    script_body acts' = script_body acts ∧
    script_header acts' h0 = (if decide (key = "") then script_header acts h0
      else Header_Set Signature.Header (Calculate (script_body acts) key) (script_header acts h0)).
Proof.
  unfold hash_request, HashSHA256. case_decide as Hk; [intros [= <-] Hr; by exists acts|].
  intros Hreq [Hf Hrun].
  exists (headers acts ++ [ActHeader (Header_Set Signature.Header (Calculate (script_body acts) key));
    ActStatus (sends acts); ActWrite (script_body acts)]).
  assert (forallb is_header (headers acts) = true) as Hh.
  { clear. induction acts as [|[] acts IH]; done. }
  destruct (headers_app (headers acts) [ActHeader (Header_Set Signature.Header (Calculate (script_body acts) key));
    ActStatus (sends acts); ActWrite (script_body acts)] h0 Hh) as (Hfirst & Hst & Hb & Hhd).
  unfold sends at 2. rewrite Hst, Hb, Hhd. cbn [script_status script_body script_header foldl].
  rewrite string_app_nil_r. split_and!; [|done|done|].
  - split; [by rewrite Hfirst|]. intros R RW RWS rw Hrw. unfold bind.
    assert ((if requestRequiresSignature (Method r) &&
         negb (bool_decide (Header_Get Signature.Header (ReqHeader r) = ""))
      then verifyRequestSignature r key else (r, true)) = (r', true)) as ->.
    { destruct (_ && _); [|by simplify_eq]. by destruct (verifyRequestSignature r key) as [r1 [|]]; simplify_eq. }
    cbn [negb]. rewrite (Hrun _ _ _ (newHashResponseWriter rw)) by done.
    unfold newHashResponseWriter. rewrite hash_replay. unfold ret, hash_flush.
    cbn [hw_body hw_statusCode hw_ResponseWriter]. by rewrite replay_app.
  - f_equal. clear. unfold script_header. induction acts as [|a acts IH] in h0 |- *; [done|].
    destruct a; cbn; apply IH.
Qed.

(** A refused signature: the answer is 400, and it is signed. *)
Lemma HashSHA256_refuses key next r (w : W) h0 :
  hash_request key r = None →
  runs (HashSHA256 key next) r w h0 w
    [ActHeader (Header_Set Signature.Header (Calculate "" key)); ActStatus StatusBadRequest; ActWrite ""].
Proof.
  unfold hash_request, HashSHA256. case_decide as Hk; [done|]. intros Hreq. split; [done|].
  intros R RW RWS rw Hrw. destruct (_ && _); [|done].
  by destruct (verifyRequestSignature r key) as [r1 [|]].
Qed.

(** The first call that sends the status decides between compression and the
    calls as they are. *)
Lemma gzip_replay_first `{ResponseWriter R} a rest (rw : R) accepts :
  forallb (negb ∘ is_header) (a :: rest) = true →
  gzip_Close (replay (a :: rest) (mkGzipWriter rw accepts false false None)) =
    if accepts && canCompressContentType (Header_Get "Content-Type" (Header_of rw)) then
      replay [ActHeader compressed_headers; ActStatus (default StatusOK (script_status (a :: rest)));
        ActWrite (gzip_compress (script_body (a :: rest)))] rw
    else replay (ActStatus (default StatusOK (script_status (a :: rest))) :: writes (a :: rest)) rw.
Proof.
  intros [Ha Hr]%andb_true_iff. rewrite replay_cons.
  destruct a as [f|c|d]; [done| |]; cbn [act WriteHeader Write gzip_writer];
    unfold gzip_Write, gzip_WriteHeader; cbn [gw_wroteHeader gw_acceptsGzip gw_ResponseWriter];
    destruct (accepts && _);
    cbn [gw_compressing gw_writer gw_wroteHeader gw_acceptsGzip gw_ResponseWriter default];
    by rewrite ?gzip_replay_compressing, ?gzip_replay_plain by done.
Qed.

Lemma Gzip_runs next r r' w h0 w' acts :
  gzip_request r = Some r' → runs next r' w h0 w' acts →
  ∃ acts' (compressed : bool), runs (Gzip next) r w h0 w' acts' ∧ sends acts' = sends acts ∧
    (if compressed then script_body acts' = gzip_compress (script_body acts) ∧
       script_header acts' h0 = compressed_headers (script_header acts h0)
     else script_body acts' = script_body acts ∧ script_header acts' h0 = script_header acts h0) ∧
    (compressed = true → headerContainsToken (Header_Get "Accept-Encoding" (ReqHeader r)) "gzip" = true).
Proof.
  intros Hreq [Hf Hrun]. destruct (headers_first_split acts Hf) as (sets & rest & -> & Hs & Hr).
  destruct (headers_app sets rest h0 Hs) as (_ & Hst & Hb & Hhd).
  unfold sends. rewrite Hst, Hb, Hhd, (script_header_none rest) by done.
  set (accepts := headerContainsToken (Header_Get "Accept-Encoding" (ReqHeader r)) "gzip").
  assert (ReqHeader r' = ReqHeader r) as Hrh.
  { unfold gzip_request in Hreq. destruct (headerContainsToken _ _); [|by simplify_eq].
    destruct (gzip_NewReader _ _) as [reader|]; by simplify_eq. }
  assert (∀ R (RW : ResponseWriter R) (RWS : ResponseWriterSpec R) (rw : R), Header_of rw = h0 →
    Gzip next R RW rw r w = (w', gzip_Close (replay rest
      (mkGzipWriter (replay sets rw) accepts false false None)))) as Hgz.
  { intros R RW RWS rw Hrw. unfold Gzip. fold (gzip_request r). rewrite Hreq. unfold bind. rewrite Hrh.
    fold accepts. rewrite (Hrun _ _ _ (newGzipResponseWriter rw accepts)) by done.
    unfold newGzipResponseWriter, ret. by rewrite replay_app, gzip_replay_headers. }
  destruct rest as [|a rest].
  { exists sets, false. destruct (headers_app sets [] h0 Hs) as (Hf' & Hst' & Hb' & Hhd').
    rewrite app_nil_r in *. rewrite Hst', Hb'. by split_and!. }
  set (z := accepts && canCompressContentType (Header_Get "Content-Type" (script_header sets h0))).
  set (code := default StatusOK (script_status (a :: rest))).
  remember (script_body (a :: rest)) as body eqn:Hbody.
  destruct (headers_app sets (ActHeader compressed_headers :: ActStatus code ::
    [ActWrite (gzip_compress body)]) h0 Hs) as (Hfz & Hsz & Hbz & Hhz).
  destruct (headers_app sets (ActStatus code :: writes (a :: rest)) h0 Hs) as (Hfp & Hsp & Hbp & Hhp).
  destruct z eqn:Hz; unfold z in Hz; clear z.
  - exists (sets ++ ActHeader compressed_headers :: ActStatus code ::
      [ActWrite (gzip_compress body)]), true.
    rewrite Hsz, Hbz, Hhz. cbn [script_status script_body script_header foldl].
    rewrite string_app_nil_r. split_and!; try done; [|by apply andb_true_iff in Hz as [? _]].
    split; [by rewrite Hfz|]. intros R RW RWS rw Hrw. rewrite Hgz, replay_app by done. f_equal.
    rewrite gzip_replay_first, Header_of_replay, Hrw, Hz by done. by subst body.
  - exists (sets ++ ActStatus code :: writes (a :: rest)), false.
    rewrite Hsp, Hbp, Hhp. cbn [script_status]. split_and!; try done.
    + split; [by rewrite Hfp; apply writes_no_header|]. intros R RW RWS rw Hrw.
      rewrite Hgz, replay_app by done. f_equal. by rewrite gzip_replay_first, Header_of_replay, Hrw, Hz.
    + subst body. apply script_body_writes.
    + unfold script_header. cbn [foldl]. apply script_header_none, writes_no_header.
Qed.

Lemma Gzip_refuses next r (w : W) h0 :
  gzip_request r = None → runs (Gzip next) r w h0 w [ActStatus StatusBadRequest].
Proof.
  intros Hreq. split; [done|]. intros R RW RWS rw Hrw. unfold Gzip. fold (gzip_request r).
  by rewrite Hreq.
Qed.

Lemma Decrypt_runs key next r r' (w w' : W) h0 acts :
  decrypt_request key r = Some r' → runs next r' w h0 w' acts → runs (Decrypt key next) r w h0 w' acts.
Proof.
  intros Hreq [Hf Hrun]. split; [done|]. intros R RW RWS rw Hrw. unfold Decrypt. revert Hreq.
  unfold decrypt_request. case_decide; [intros [= ->]; by apply Hrun|]. case_decide; [done|].
  destruct (ReadAll_max (Body r)) as [body|]; [|done].
  destruct (Encryption.Decrypt key _) as [plain|]; [|done]. intros [= <-]. by apply Hrun.
Qed.

Lemma Decrypt_refuses key next r (w : W) h0 :
  decrypt_request key r = None →
  runs (Decrypt key next) r w h0 w (error_script "invalid encrypted request" StatusBadRequest).
Proof.
  intros Hreq. split; [done|]. intros R RW RWS rw Hrw. unfold Decrypt. revert Hreq.
  unfold decrypt_request. case_decide; [done|]. case_decide; [done|].
  destruct (ReadAll_max (Body r)) as [body|]; [|done].
  by destruct (Encryption.Decrypt key _) as [plain|].
Qed.

(** The world after the log line of an answer, [start] being the time at which
    the request came and [w] the world when the handler has returned. *)
Definition logged (r : Request) (start status size : Z) (w : W) : W :=
  let '(w, finish) := now w in
  match logger with
  | None => w
  | Some info => (info (mkLogEntry (Method r) (RequestURI r) (finish - start) status size) w).1
  end.

Lemma RequestLogger_runs next r w h0 w' acts :
  runs next r (now w).1 h0 w' acts →
  ∃ acts', runs (RequestLogger next) r w h0
      (logged r (now w).2 (sends acts) (Z.of_nat (String.length (script_body acts))) w') acts' ∧
    sends acts' = sends acts ∧ script_body acts' = script_body acts ∧
    script_header acts' h0 = script_header acts h0.
Proof.
  intros [Hf Hrun]. destruct (headers_first_split acts Hf) as (sets & rest & -> & Hs & Hr).
  assert (∀ R (RW : ResponseWriter R) (RWS : ResponseWriterSpec R) (rw : R), Header_of rw = h0 →
    RequestLogger next R RW rw r w =
      let lrw := replay rest (mkLogging (replay sets rw) StatusOK 0 false) in
      (logged r (now w).2 (lw_statusCode lrw) (lw_size lrw) w', lw_ResponseWriter lrw)) as Hlog.
  { intros R RW RWS rw Hrw. unfold RequestLogger, bind, logged. destruct (now w) as [w1 start].
    cbn [fst snd] in *. rewrite (Hrun _ _ _ (newLoggingResponseWriter rw)) by done.
    unfold newLoggingResponseWriter. rewrite replay_app, logging_replay_headers by done.
    destruct (now w') as [w2 finish]. destruct logger as [info|]; [|done].
    unfold ret. cbv zeta. by destruct (info _ w2) as [w3 []]. }
  destruct (headers_app sets rest h0 Hs) as (_ & Hst & Hb & Hhd). unfold sends. rewrite Hst, Hb, Hhd.
  destruct rest as [|a rest].
  { exists sets. destruct (headers_app sets [] h0 Hs) as (Hf' & Hst' & Hb' & Hhd').
    rewrite app_nil_r in *. rewrite Hst', Hb', Hhd'. by split_and!. }
  apply andb_true_iff in Hr as [Ha Hr].
  assert (headers_first (a :: writes rest) = true) as Hfa.
  { destruct a; [done| |]; apply writes_no_header. }
  destruct (headers_app sets (a :: writes rest) h0 Hs) as (Hf' & Hst' & Hb' & Hhd').
  exists (sets ++ a :: writes rest). rewrite Hst', Hb', Hhd'. split_and!.
  - split; [by rewrite Hf'|]. intros R RW RWS rw Hrw. rewrite Hlog by done. rewrite replay_app.
    rewrite !replay_cons. destruct a as [f|c|d]; [done| |];
      cbn [act WriteHeader Write logging_writer lw_ResponseWriter lw_statusCode lw_size lw_wroteHeader];
      rewrite logging_replay_wrote by done; cbn [lw_statusCode lw_size lw_ResponseWriter]; [done|].
    cbn [script_status script_body default]. rewrite string_length_app. f_equal. f_equal. lia.
  - by destruct a.
  - destruct a as [f|c|d]; [done| |]; cbn [script_body]; by rewrite script_body_writes.
  - rewrite (script_header_none (a :: writes rest)), (script_header_none (a :: rest)); [done| |];
      apply andb_true_iff; split; try done. apply writes_no_header.
Qed.

(** The stack for the settings of the server; an unreadable subnet stops its
    start. *)
Definition build_stack (cidr : string) (privateKey : option PrivateKey) (key : string)
    (mux : Handler W) : res (Handler W) :=
  if decide (cidr = "") then Ok (server_stack None privateKey key mux)
  else match TrustedSubnet cidr with
  | Fail e => Fail e
  | Ok filter => Ok (server_stack (Some filter) privateKey key mux)
  end.

(** The request that reaches the router, [None] when the stack refuses it. *)
Definition admitted (cidr : string) (r : Request) : bool :=
  if decide (cidr = "") then true
  else match ParseCIDR cidr with Ok subnet => subnet_admits subnet r | Fail _ => false end.

Definition decoded_request (privateKey : option PrivateKey) (key : string) (r : Request) : option Request :=
  r ← match privateKey with Some _ => decrypt_request privateKey r | None => Some r end;
  r ← gzip_request r;
  hash_request key r.

Definition server_request (cidr : string) (privateKey : option PrivateKey) (key : string) (r : Request)
  : option Request :=
  if admitted cidr r then decoded_request privateKey key r else None.

(** The body of an answer as a client reads it. *)
Definition client_body (w : Response) : res string :=
  if decide (Header_Get "Content-Encoding" (final_header w) = "gzip") then
    match gzip_NewReader (rw_body w) None with
    | Ok (text, None, _) => Ok text
    | Ok (_, Some e, _) | Fail e => Fail e
    end
  else Ok (rw_body w).

(** The headers of an answer before its compression. *)
Definition signed_headers (key body : string) (h : header) : header :=
  if decide (key = "") then h else Header_Set Signature.Header (Calculate body key) h.

Lemma decoded_request_accepts privateKey key r r' :
  decoded_request privateKey key r = Some r' →
  ∃ r1, match privateKey with Some _ => decrypt_request privateKey r | None => Some r end = Some r1 ∧
    Header_Get "Accept-Encoding" (ReqHeader r1) = Header_Get "Accept-Encoding" (ReqHeader r) ∧
    ∃ r2, gzip_request r1 = Some r2 ∧ hash_request key r2 = Some r'.
Proof.
  unfold decoded_request. intros (r1 & Hr1 & (r2 & Hr2 & Hr')%bind_Some)%bind_Some.
  exists r1. split; [done|]. split; [|by exists r2].
  destruct privateKey as [sk|]; [|by simplify_eq]. revert Hr1. unfold decrypt_request.
  case_decide; [by intros [= ->]|]. case_decide; [done|].
  destruct (ReadAll_max (Body r)) as [body|]; [|done].
  destruct (Encryption.Decrypt _ _) as [plain|]; [|done]. intros [= <-]. cbn [ReqHeader set_ReqHeader].
  by rewrite !Header_Get_Del_ne by (by vm_compute).
Qed.

Lemma TrustedSubnet_runs cidr filter next r (w w' : W) h0 acts :
  cidr ≠ "" → TrustedSubnet cidr = Ok filter → admitted cidr r = true →
  runs next r w h0 w' acts → runs (filter next) r w h0 w' acts.
Proof.
  intros Hc. unfold TrustedSubnet, admitted. rewrite !decide_False by done.
  destruct (ParseCIDR cidr) as [subnet|]; [|done]. intros [= <-] Ha [Hf Hrun]. split; [done|].
  intros R RW RWS rw Hrw. unfold subnet_admits in Ha.
  destruct (Header_Values "X-Real-IP" (ReqHeader r)) as [|v [|v' vs]]; [done| |done].
  rewrite Ha. by apply Hrun.
Qed.

Lemma TrustedSubnet_refuses cidr filter next r (w : W) h0 :
  cidr ≠ "" → TrustedSubnet cidr = Ok filter → admitted cidr r = false →
  runs (filter next) r w h0 w (error_script "Forbidden" StatusForbidden).
Proof.
  intros Hc. unfold TrustedSubnet, admitted. rewrite !decide_False by done.
  destruct (ParseCIDR cidr) as [subnet|]; [|done]. intros [= <-] Ha. split; [done|].
  intros R RW RWS rw Hrw. unfold subnet_admits in Ha.
  destruct (Header_Values "X-Real-IP" (ReqHeader r)) as [|v [|v' vs]]; [done| |done].
  by rewrite Ha.
Qed.

(** What surrounds the decryption, given what is inside the subnet filter. *)
Lemma build_stack_runs cidr privateKey key mux handler r w h0 w' acts :
  build_stack cidr privateKey key mux = Ok handler → admitted cidr r = true →
  runs (match privateKey with
        | Some _ => Decrypt privateKey (Gzip (HashSHA256 key mux))
        | None => Gzip (HashSHA256 key mux)
        end) r (now w).1 h0 w' acts →
  ∃ acts', runs handler r w h0
      (logged r (now w).2 (sends acts) (Z.of_nat (String.length (script_body acts))) w') acts' ∧
    sends acts' = sends acts ∧ script_body acts' = script_body acts ∧
    script_header acts' h0 = script_header acts h0.
Proof.
  unfold build_stack. intros Hb Ha Hrun. destruct (decide (cidr = "")) as [|Hc].
  - injection Hb as <-. unfold server_stack. by apply RequestLogger_runs.
  - destruct (TrustedSubnet cidr) as [filter|] eqn:Ht; [|done]. injection Hb as <-.
    unfold server_stack. apply RequestLogger_runs. by eapply TrustedSubnet_runs.
Qed.

(** An admitted request: the script of the router, signed and compressed. *)
Lemma stack_runs cidr privateKey key mux handler r r' w h0 w' acts :
  build_stack cidr privateKey key mux = Ok handler →
  server_request cidr privateKey key r = Some r' → runs mux r' (now w).1 h0 w' acts →
  ∃ acts' (compressed : bool), runs handler r w h0
      (logged r (now w).2 (sends acts') (Z.of_nat (String.length (script_body acts'))) w') acts' ∧
    sends acts' = sends acts ∧
    let h := signed_headers key (script_body acts) (script_header acts h0) in
    (if compressed then script_body acts' = gzip_compress (script_body acts) ∧
       script_header acts' h0 = compressed_headers h
     else script_body acts' = script_body acts ∧ script_header acts' h0 = h) ∧
    (compressed = true → headerContainsToken (Header_Get "Accept-Encoding" (ReqHeader r)) "gzip" = true).
Proof.
  unfold server_request. intros Hb Hreq Hrun. destruct (admitted cidr r) eqn:Ha; [|done].
  destruct (decoded_request_accepts _ _ _ _ Hreq) as (r1 & Hr1 & Hacc & r2 & Hr2 & Hr3).
  destruct (HashSHA256_runs _ _ _ _ _ _ _ _ Hr3 Hrun) as (acts1 & Hrun1 & Hs1 & Hb1 & Hh1).
  destruct (Gzip_runs _ _ _ _ _ _ _ Hr2 Hrun1) as (acts2 & z & Hrun2 & Hs2 & Hbh & Hz).
  destruct (build_stack_runs _ _ _ _ _ _ w h0 w' acts2 Hb Ha) as (acts3 & Hrun3 & Hs3 & Hb3 & Hh3).
  { destruct privateKey; [by eapply Decrypt_runs|by simplify_eq]. }
  exists acts3, z. cbv zeta. unfold signed_headers. rewrite <-Hh1, Hs3, Hb3, Hh3, Hs2, Hs1.
  rewrite Hacc, Hb1 in *. rewrite Hs2, Hs1 in Hrun3. by split_and!.
Qed.

(** A refused request answers with an error and leaves its log line only. *)
Lemma stack_refused cidr privateKey key mux handler r w :
  build_stack cidr privateKey key mux = Ok handler →
  server_request cidr privateKey key r = None →
  ∃ rw, handler Response Response_writer fresh_response r w =
      (logged r (now w).2 (final_status rw) (Z.of_nat (String.length (rw_body rw))) (now w).1, rw) ∧
    final_status rw = if admitted cidr r then StatusBadRequest else StatusForbidden.
Proof.
  intros Hb Hreq.
  assert (∃ w' acts, runs handler r w ∅ w' acts ∧
    w' = logged r (now w).2 (sends acts) (Z.of_nat (String.length (script_body acts))) (now w).1 ∧
    sends acts = if admitted cidr r then StatusBadRequest else StatusForbidden) as (w' & acts & Hrun & -> & Hs).
  2: { destruct (runs_fresh _ _ _ _ _ Hrun) as (rw & Heq & Hst & _ & Hbd). exists rw.
       unfold sends in *. by rewrite Heq, Hst, Hbd. }
  revert Hreq. unfold server_request. destruct (admitted cidr r) eqn:Ha; intros Hreq.
  - assert (∃ acts, runs (match privateKey with
        | Some _ => Decrypt privateKey (Gzip (HashSHA256 key mux))
        | None => Gzip (HashSHA256 key mux)
        end) r (now w).1 ∅ (now w).1 acts ∧ sends acts = StatusBadRequest) as (acts & Hrun & Hs).
    { unfold decoded_request in Hreq.
      destruct (match privateKey with Some _ => _ | None => _ end) as [r1|] eqn:Hr1.
      2: { destruct privateKey as [sk|]; [|done]. eexists. split; [by apply Decrypt_refuses|done]. }
      assert (∃ acts, runs (Gzip (HashSHA256 key mux)) r1 (now w).1 ∅ (now w).1 acts ∧
        sends acts = StatusBadRequest) as (acts & Hrun & Hs).
      { cbn in Hreq. destruct (gzip_request r1) as [r2|] eqn:Hr2.
        - destruct (Gzip_runs _ _ _ _ _ _ _ Hr2 (HashSHA256_refuses key mux r2 (now w).1 ∅ Hreq))
            as (acts & z & Hrun & Hs & _). by exists acts.
        - eexists. split; [by apply Gzip_refuses|done]. }
      exists acts. split; [|done]. destruct privateKey; [by eapply Decrypt_runs|by simplify_eq]. }
    destruct (build_stack_runs _ _ _ _ _ _ w _ _ _ Hb Ha Hrun) as (acts' & Hrun' & Hs' & Hb' & _).
    eexists _, acts'. split; [exact Hrun'|]. by rewrite Hs', Hb', Hs.
  - unfold build_stack in Hb. assert (cidr ≠ "") as Hc.
    { intros ->. unfold admitted in Ha. by rewrite decide_True in Ha. }
    rewrite decide_False in Hb by done. destruct (TrustedSubnet cidr) as [filter|] eqn:Ht; [|done].
    injection Hb as <-. unfold server_stack.
    destruct (RequestLogger_runs _ r w ∅ _ _ (TrustedSubnet_refuses cidr filter
      (match privateKey with
       | Some _ => Decrypt privateKey (Gzip (HashSHA256 key mux))
       | None => Gzip (HashSHA256 key mux)
       end) r (now w).1 ∅ Hc Ht Ha)) as (acts' & Hrun' & Hs' & Hb' & _).
    eexists _, acts'. split; [exact Hrun'|]. by rewrite Hs', Hb'.
Qed.
(** ** Properties *)

(** The names of the headers that the stack sets itself. *)
Definition stack_headers : list string :=
  map CanonicalHeaderKey ["Content-Encoding"; "Vary"; "Content-Length"; Signature.Header].

(** C11: The middleware is transparent: when the stack admits a request, the world
    changes as the router alone changes it on the decrypted, decompressed and
    verified request, and the client sees the router's status, its headers and,
    once decompressed, its body; the answer is compressed only for a client
    that accepts it, and carries the signature of the uncompressed body when a
    key is set; and the log gets one line, with the status and the number of
    bytes that were sent. *)
Theorem stack_transparent `{!GzipSpec} cidr privateKey key mux handler r r' w w' rw :
  scripted mux → build_stack cidr privateKey key mux = Ok handler →
  server_request cidr privateKey key r = Some r' →
  mux Response Response_writer fresh_response r' (now w).1 = (w', rw) →
  Header_Get "Content-Encoding" (final_header rw) = "" →
  ∃ rw', handler Response Response_writer fresh_response r w =
      (logged r (now w).2 (final_status rw') (Z.of_nat (String.length (rw_body rw'))) w', rw') ∧
    final_status rw' = final_status rw ∧
    client_body rw' = Ok (rw_body rw) ∧
    (Header_Get "Content-Encoding" (final_header rw') ≠ "" →
       headerContainsToken (Header_Get "Accept-Encoding" (ReqHeader r)) "gzip" = true) ∧
    (key ≠ "" → Header_Get Signature.Header (final_header rw') = Calculate (rw_body rw) key) ∧
    (∀ k, CanonicalHeaderKey k ∉ stack_headers →
       Header_Values k (final_header rw') = Header_Values k (final_header rw)).
Proof.
  intros Hmux Hb Hreq Hrw Hce. destruct (Hmux r' (now w).1 ∅) as (w1 & acts & Hrun).
  destruct (runs_fresh _ _ _ _ _ Hrun) as (rw1 & Heq & Hst & Hhd & Hbd).
  rewrite Hrw in Heq. injection Heq as <- <-.
  destruct (stack_runs _ _ _ _ _ _ _ w _ _ _ Hb Hreq Hrun) as (acts' & z & Hrun' & Hs' & Hbh & Hz).
  destruct (runs_fresh _ _ _ _ _ Hrun') as (rw' & Heq' & Hst' & Hhd' & Hbd').
  exists rw'. unfold sends in *. rewrite Heq', Hst', Hbd'. split; [done|]. split; [by rewrite Hst|].
  unfold client_body. rewrite Hhd', Hbd'. rewrite <-Hhd, <-Hbd in Hbh. cbv zeta in Hbh.
  assert (Header_Get "Content-Encoding" (signed_headers key (rw_body rw) (final_header rw)) = "") as Hce'.
  { unfold signed_headers. case_decide; [done|]. by rewrite Header_Get_Set_ne by (by vm_compute). }
  assert (∀ k, CanonicalHeaderKey k ∉ stack_headers →
    Header_Values k (signed_headers key (rw_body rw) (final_header rw)) = Header_Values k (final_header rw)) as Hother.
  { intros k Hk. unfold signed_headers. case_decide; [done|]. apply Header_Values_Set_ne.
    intros Heqk. apply Hk. rewrite Heqk. by repeat constructor. }
  assert (key ≠ "" → Header_Get Signature.Header (signed_headers key (rw_body rw) (final_header rw))
    = Calculate (rw_body rw) key) as Hsig.
  { intros Hk. unfold signed_headers. rewrite decide_False by done. apply Header_Get_Set. }
  destruct z; destruct Hbh as [-> ->].
  - unfold compressed_headers. split_and!.
    + rewrite Header_Get_Del_ne, Header_Get_Add_ne, Header_Get_Set by (by vm_compute).
      rewrite decide_True by done. by rewrite gzip_round.
    + intros _. by apply Hz.
    + intros Hk. rewrite Header_Get_Del_ne, Header_Get_Add_ne, Header_Get_Set_ne by (by vm_compute).
      by apply Hsig.
    + intros k Hk. pose proof Hk as Hk'. unfold stack_headers in Hk. cbn [map] in Hk.
      rewrite !not_elem_of_cons in Hk. destruct Hk as (? & ? & ? & ? & _).
      rewrite Header_Values_Del_ne, Header_Values_Add_ne, Header_Values_Set_ne by done.
      by apply Hother.
  - split_and!; [by rewrite Hce'| |done|done]. by rewrite Hce'.
Qed.

(** C12: A request the stack refuses never reaches the router, and leaves no trace
    but its log line: 403 for an address outside of the subnet, and 400 for a
    body that cannot be decrypted or decompressed or whose signature is
    wrong. *)
Theorem stack_refuses cidr privateKey key mux handler r w :
  build_stack cidr privateKey key mux = Ok handler →
  server_request cidr privateKey key r = None →
  ∃ rw, handler Response Response_writer fresh_response r w =
      (logged r (now w).2 (final_status rw) (Z.of_nat (String.length (rw_body rw))) (now w).1, rw) ∧
    final_status rw = if admitted cidr r then StatusBadRequest else StatusForbidden.
Proof. apply stack_refused. Qed.
End Middleware.

(** ** A concrete compressor: a mark in front of the text *)
Definition mark_gzip : GzipCodec := {|
  gzip_compress s := String "z" s;
  gzip_NewReader s e :=
    match s with
    | String c s => if decide (c = "z"%char) then Ok (s, e, None) else Fail (Msg "gzip: invalid header")
    | "" => Fail (Msg "EOF")
    end
|}.

Lemma mark_gzip_ok : @GzipSpec mark_gzip.
Proof. by intros s. Qed.
