(* ===== verification/Auditing.v ===== *)
(** [internal/audit/audit.go]: audit events, the notifier and its two observers. *)

From S2P Require Import Prelude GoErrors GoJson GoNet Memory SaveFile.
From Stdlib Require Import Ascii.

(** [Event]; the field names differ from those of the other records. *)
Record Event : Type := mkEvent {
  Timestamp : Z;
  ev_Metrics : list string;
  IPAddress : string
}.

#[export] Instance Event_eq_dec : EqDecision Event.
Proof. solve_decision. Defined.

Definition requestIP (remoteAddr : string) : string :=
  match SplitHostPort (String.list_ascii_of_string remoteAddr) with
  | Ok (host, _) => String.string_of_list_ascii host
  | Fail _ => remoteAddr
  end.

(** [now] is what [time.Now().Unix()] returns. *)
Definition NewEvent (now : Z) (metricNames : list string) (remoteAddr : string) : Event :=
  mkEvent now metricNames (requestIP remoteAddr).

(** ** The notifier

    An observer is called with the error of its context, [ctx.Err()], and an
    event. *)
Section Notifier.
Context {W : Type}.

Definition Observer : Type := err → Event → M W err.

Record Notifier : Type := mkNotifier { observers : list Observer }.

Definition NewNotifier (obs : list Observer) : Notifier := mkNotifier obs.

Definition Subscribe (observer : option Observer) (n : Notifier) : Notifier :=
  match observer with
  | Some o => mkNotifier (observers n ++ [o])
  | None => n
  end.

Fixpoint notify_loop (obs : list Observer) (ctx : err) (event : Event) (result : err) : M W err :=
  match obs with
  | [] => ret result
  | observer :: obs =>
      let! e := observer ctx event in
      match e with
      | Some _ => notify_loop obs ctx event (errors_Join [result; e])
      | None => notify_loop obs ctx event result
      end
  end.

Definition Notify (n : Notifier) (ctx : err) (event : Event) : M W err :=
  notify_loop (observers n) ctx event None.

(** A nil notifier is [None]. *)
Definition Enabled (n : option Notifier) : bool :=
  match n with Some n => bool_decide (0 < length (observers n)) | None => false end.
End Notifier.
Arguments Observer W : clear implicits.
Arguments Notifier W : clear implicits.

(** ** The file observer *)

(** What the calls of one notification return. *)
Record AuditFaults : Type := mkAuditFaults {
  a_mkdir : err;
  a_open : err;
  a_write : option (string * error)  (* a failed write and the bytes that got through *)
}.

Record FileObserver : Type := NewFileObserver { fo_path : string }.

(** The append of [O_APPEND] to a file that [O_CREATE] may have created. *)
Definition append_file (path data : string) (fs : FS) : FS :=
  <[path := default "" (fs !! path) +:+ data]> fs.

Definition FileObserver_Notify `{Json Event} (o : FileObserver) (f : AuditFaults)
    (ctx : err) (event : Event) : M FS err := λ fs,
  match ctx with
  | Some e => (fs, Some e)
  | None =>
      match json_Marshal event with
      | Fail e => (fs, Some (Wrap "marshal audit event" e))
      | Ok data =>
          let data := data +:+ newline in
          let dir := filepath_Dir (fo_path o) in
          match (if decide (dir = ".") then None else a_mkdir f) with
          | Some e => (fs, Some (Wrap "create audit directory" e))
          | None =>
              match a_open f with
              | Some e => (fs, Some (Wrap "open audit file" e))
              | None =>
                  match a_write f with
                  | Some (partial, e) =>
                      (append_file (fo_path o) partial fs, Some (Wrap "write audit event" e))
                  | None => (append_file (fo_path o) data fs, None)
                  end
              end
          end
      end
  end.

(** ** The HTTP observer *)

(** The HTTP client: the request it can build for a URL, and what sending one
    returns, a status code or an error. *)
Record HTTPClient (W : Type) : Type := mkHTTPClient {
  http_NewRequest : string → string → err;         (* the URL and the body *)
  http_Do : string → string → M W (res Z)
}.
Arguments mkHTTPClient {W} _ _.
Arguments http_NewRequest {W} _ _ _.
Arguments http_Do {W} _ _ _ _.

Record HTTPObserver (W : Type) : Type := NewHTTPObserver {
  ho_url : string;
  ho_client : HTTPClient W
}.
Arguments NewHTTPObserver {W} _ _.
Arguments ho_url {W} _.
Arguments ho_client {W} _.

Definition HTTPObserver_Notify {W} `{Json Event} (o : HTTPObserver W) : Observer W :=
  λ ctx event,
  match json_Marshal event with
  | Fail e => ret (Some (Wrap "marshal audit event" e))
  | Ok data =>
      match http_NewRequest (ho_client o) (ho_url o) data with
      | Some e => ret (Some (Wrap "create audit request" e))
      | None =>
          let! resp := http_Do (ho_client o) (ho_url o) data in
          match resp with
          | Fail e => ret (Some (Wrap "send audit event" e))
          | Ok statusCode =>
              if ((statusCode <? 200) || (300 <=? statusCode))%Z
              then ret (Some (Msg "unexpected audit response status"))
              else ret None
          end
      end
  end.

(** ** Lemmas *)

(** The calls a notification makes, in order, and their errors. *)
Fixpoint notify_run {W} (obs : list (Observer W)) (ctx : err) (event : Event) (w : W)
  : W * list err :=
  match obs with
  | [] => (w, [])
  | o :: obs =>
      let '(w1, e) := o ctx event w in
      let '(w2, es) := notify_run obs ctx event w1 in (w2, e :: es)
  end.

Lemma notify_loop_run {W} (obs : list (Observer W)) ctx event result w :
  let '(w', e) := notify_loop obs ctx event result w in
  let '(w'', es) := notify_run obs ctx event w in
  w' = w'' ∧ (e = None ↔ result = None ∧ Forall (λ e, e = None) es) ∧
  ∀ target, Is target e = Is target result || existsb (Is target) es.
Proof.
  revert result w. induction obs as [|o obs IH]; intros result w; simpl.
  { split_and!; [done|split; [by split; [|constructor]|by intros [? _]]|].
    intros target. by rewrite orb_false_r. }
  unfold bind. destruct (o ctx event w) as [w1 [e1|]].
  - specialize (IH (errors_Join [result; Some e1]) w1).
    destruct (notify_loop obs ctx event (errors_Join [result; Some e1]) w1) as [w' e'].
    destruct (notify_run obs ctx event w1) as [w'' es].
    destruct IH as (-> & Hnil & His). split_and!; [done| |].
    + rewrite Hnil, errors_Join_nil2, Forall_cons. naive_solver.
    + intros target. rewrite His, Is_Join. simpl. rewrite orb_false_r. by rewrite orb_assoc.
  - specialize (IH result w1). destruct (notify_loop obs ctx event result w1) as [w' e'].
    destruct (notify_run obs ctx event w1) as [w'' es].
    destruct IH as (-> & Hnil & His). split_and!; [done| |done].
    rewrite Hnil, Forall_cons. naive_solver.
Qed.

(** The lines of the log: what successful notifications append. *)
Definition event_line `{Json Event} (ev : Event) : string :=
  match json_Encode ev with Ok line => line | Fail _ => "" end.

Definition concat_lines (ls : list string) : string := foldr String.append "" ls.

(** One notification: nothing, or an append to the file and to no other. *)
Lemma FileObserver_Notify_cases `{Json Event} o f ctx ev fs :
  let '(fs', e) := FileObserver_Notify o f ctx ev fs in
  match e with
  | None => ctx = None ∧ fs' = append_file (fo_path o) (event_line ev) fs
  | Some _ => fs' = fs ∨ ∃ partial, fs' = append_file (fo_path o) partial fs
  end.
Proof.
  unfold FileObserver_Notify, event_line, json_Encode. destruct ctx as [e|]; [by left|].
  destruct (json_Marshal ev) as [data|e]; [|by left].
  destruct (if decide _ then _ else a_mkdir f); [by left|].
  destruct (a_open f); [by left|]. destruct (a_write f) as [[partial e]|]; [|done].
  right. by exists partial.
Qed.

(** A sequence of notifications of one observer, each with its faults and its
    context. *)
Fixpoint notify_all `{Json Event} (o : FileObserver) (calls : list (AuditFaults * err * Event))
    (fs : FS) : FS * list err :=
  match calls with
  | [] => (fs, [])
  | (f, ctx, ev) :: calls =>
      let '(fs1, e) := FileObserver_Notify o f ctx ev fs in
      let '(fs2, es) := notify_all o calls fs1 in (fs2, e :: es)
  end.

(** ** Properties *)

(** [Notify] calls every observer exactly once, in the order of their
    subscription, whatever the earlier ones returned; its error is nil exactly
    when all of them returned nil, and otherwise matches every error any of
    them returned. *)
Theorem Notify_every_observer {W} (n : Notifier W) ctx event w :
  let '(w', e) := Notify n ctx event w in
  let '(w'', es) := notify_run (observers n) ctx event w in
  w' = w'' ∧ length es = length (observers n) ∧
  (e = None ↔ Forall (λ e, e = None) es) ∧
  (∀ target, Is target e = existsb (Is target) es).
Proof.
  pose proof (notify_loop_run (observers n) ctx event None w) as Hrun. unfold Notify.
  assert (∀ obs w, length (notify_run (W := W) obs ctx event w).2 = length obs) as Hlen.
  { intros obs. induction obs as [|o obs IH]; intros v; simpl; [done|].
    destruct (o ctx event v) as [v1 e1]. specialize (IH v1).
    destruct (notify_run obs ctx event v1). simpl in *. by rewrite IH. }
  specialize (Hlen (observers n) w).
  destruct (notify_loop (observers n) ctx event None w) as [w' e].
  destruct (notify_run (observers n) ctx event w) as [w'' es].
  destruct Hrun as (-> & Hnil & His). split_and!; [done|done| |].
  - rewrite Hnil. naive_solver.
  - intros target. by rewrite His.
Qed.

(** The audit log is append-only: whatever fails in a sequence of
    notifications, the content before it is a prefix of the content after it
    and no other file changes; when every write that is reached is complete,
    the log grows by exactly the lines of the events acknowledged with a nil
    error, in order. *)
Theorem audit_log_appends `{Json Event} o calls fs :
  let '(fs', es) := notify_all o calls fs in
  (∃ added, default "" (fs' !! fo_path o) = default "" (fs !! fo_path o) +:+ added) ∧
  (∀ k, k ≠ fo_path o → fs' !! k = fs !! k) ∧
  (Forall (λ c, a_write c.1.1 = None) calls →
   default "" (fs' !! fo_path o) = default "" (fs !! fo_path o) +:+
     concat_lines (omap (λ ce, match ce.2 with None => Some (event_line ce.1.2) | Some _ => None end)
       (zip calls es))).
Proof.
  revert fs. induction calls as [|[[f ctx] ev] calls IH]; intros fs; simpl.
  { split_and!; [by exists ""; rewrite string_app_nil_r|done|]. by rewrite string_app_nil_r. }
  pose proof (FileObserver_Notify_cases o f ctx ev fs) as Hc.
  assert (a_write f = None → (FileObserver_Notify o f ctx ev fs).2 ≠ None →
    (FileObserver_Notify o f ctx ev fs).1 = fs) as Hw.
  { unfold FileObserver_Notify. intros ->. destruct ctx; [done|].
    destruct (json_Marshal ev); [|done]. destruct (if decide _ then _ else a_mkdir f); [done|].
    by destruct (a_open f). }
  destruct (FileObserver_Notify o f ctx ev fs) as [fs1 e]. specialize (IH fs1).
  destruct (notify_all o calls fs1) as [fs2 es]. destruct IH as ((added & Hadd) & Hoth & Hlines).
  assert (∃ a, fs1 = append_file (fo_path o) a fs ∨ fs1 = fs) as (a & Ha).
  { destruct e; [destruct Hc as [->|[p ->]]|destruct Hc as [_ ->]]; first [by exists ""; right|by eexists; left]. }
  split_and!.
  - rewrite Hadd. destruct Ha as [->| ->]; [|by eexists].
    unfold append_file. rewrite lookup_insert_eq. simpl. eexists. by rewrite string_app_assoc.
  - intros k Hk. rewrite Hoth by done. destruct Ha as [->| ->]; [|done].
    unfold append_file. by rewrite lookup_insert_ne.
  - intros [Hf Hfs]%Forall_cons. rewrite Hlines by done. destruct e as [e|]; simpl.
    + cbn [fst snd] in Hw. by rewrite Hw.
    + destruct Hc as [_ ->]. unfold append_file. rewrite lookup_insert_eq. simpl.
      by rewrite string_app_assoc.
Qed.

(** The address of an event is the host of the remote address, without its
    port and without the brackets of an IPv6 address; an address that has no
    port is kept as it is. *)
Theorem requestIP_spec now names (host port : text) :
  colon ∉ port → lbracket ∉ port → rbracket ∉ port → lbracket ∉ host → rbracket ∉ host →
  IPAddress (NewEvent now names (String.string_of_list_ascii (lbracket :: host ++ rbracket :: colon :: port)))
    = String.string_of_list_ascii host ∧
  (colon ∉ host →
   IPAddress (NewEvent now names (String.string_of_list_ascii (host ++ colon :: port)))
     = String.string_of_list_ascii host ∧
   IPAddress (NewEvent now names (String.string_of_list_ascii host)) = String.string_of_list_ascii host).
Proof.
  intros Hcp Hlp Hrp Hlh Hrh. unfold NewEvent, requestIP. simpl IPAddress.
  rewrite !String.list_ascii_of_string_of_list_ascii.
  rewrite SplitHostPort_brackets by done. split; [done|]. intros Hch.
  rewrite SplitHostPort_plain; [|done|done| |].
  2,3: rewrite elem_of_app, elem_of_cons; naive_solver.
  split; [done|]. unfold SplitHostPort. by rewrite last_index_byte_None.
Qed.

Lemma requestIP_spec_witness :
  IPAddress (NewEvent 0 [] "[::1]:8080") = "::1" ∧ IPAddress (NewEvent 0 [] "127.0.0.1:8080") = "127.0.0.1".
Proof.
  assert (∀ (c : ascii) l, forallb (λ x, negb (bool_decide (x = c))) l = true → c ∉ l) as Hnot.
  { intros c l. induction l as [|x l IH]; simpl; [intros _; apply not_elem_of_nil|].
    intros [Hx Hl]%andb_true_iff. rewrite elem_of_cons. intros [->|Hin]; [|by apply IH].
    by rewrite bool_decide_true in Hx. }
  split.
  - refine (proj1 (requestIP_spec 0 [] (String.list_ascii_of_string "::1")
      (String.list_ascii_of_string "8080") _ _ _ _ _)); by apply Hnot.
  - refine (proj1 (proj2 (requestIP_spec 0 [] (String.list_ascii_of_string "127.0.0.1")
      (String.list_ascii_of_string "8080") _ _ _ _ _) _)); by apply Hnot.
Defined.
