(* ===== verification/Handler.v ===== *)
(** [internal/handler/metrics.go]: the HTTP handlers over the service. *)

From S2P Require Import Prelude GoErrors Metrics GoJson GoHttp GoStrconv Delivery Repository Service Auditing.

Section Handler.
Context {W : Type} `{Json Metrics} `{Json (list Metrics)} `{FloatText}.
(** The clock, and the execution of the page template on the two maps: the text
    it writes and its error. *)
Variable now : M W Z.
Variable Execute : gmap string float64 → gmap string Z → string * err.

Record MetricsHandler : Type := mkHandler {
  service : MetricsService W;
  db : option (M W err);               (* PingContext *)
  auditor : option (Observer W)
}.

Definition NewMetricsHandler (s : MetricsService W) : MetricsHandler := mkHandler s None None.
Definition NewMetricsHandlerWithDB (s : MetricsService W) (d : option (M W err)) : MetricsHandler :=
  mkHandler s d None.
Definition NewMetricsHandlerWithDBAndAudit (s : MetricsService W) (d : option (M W err))
    (a : option (Observer W)) : MetricsHandler := mkHandler s d a.

Definition audit (h : MetricsHandler) (r : Request) (metricNames : list string) : M W unit :=
  match auditor h with
  | None => ret tt
  | Some notify =>
      if decide (length metricNames = 0) then ret tt
      else
        let! t := now in
        let! e := notify (ContextErr r) (NewEvent t metricNames (RemoteAddr r)) in
        ret tt
  end.

Definition metricNames (metrics : list Metrics) : list string :=
  foldl (λ names m, names ++ [ID m]) [] metrics.

Definition validateUpdateMetric (metric : Metrics) : Z :=
  if decide (ID metric = "") then StatusNotFound
  else if decide (MType metric = Gauge) then
    match Value metric with None => StatusBadRequest | Some _ => StatusOK end
  else if decide (MType metric = Counter) then
    match Delta metric with None => StatusBadRequest | Some _ => StatusOK end
  else StatusBadRequest.

Definition UpdateMetric `{ResponseWriter R} (h : MetricsHandler) (w : R) (r : Request)
  : M W R :=
  let metricType := URLParam r "type" in
  let metricName := URLParam r "name" in
  let metricValue := URLParam r "value" in
  if decide (metricName = "") then ret (WriteHeader StatusNotFound w)
  else if decide (metricType = Gauge) then
    match ParseFloat metricValue with
    | Fail _ => ret (WriteHeader StatusBadRequest w)
    | Ok value =>
        let! e := UpdateGauge (service h) metricName value in
        match e with
        | Some _ => ret (http_Error "failed to store metrics" StatusInternalServerError w)
        | None => audit h r [metricName] ;; ret (WriteHeader StatusOK w)
        end
    end
  else if decide (metricType = Counter) then
    match ParseInt metricValue with
    | Fail _ => ret (WriteHeader StatusBadRequest w)
    | Ok value =>
        let! e := UpdateCounter (service h) metricName value in
        match e with
        | Some _ => ret (http_Error "failed to store metrics" StatusInternalServerError w)
        | None => audit h r [metricName] ;; ret (WriteHeader StatusOK w)
        end
    end
  else ret (WriteHeader StatusBadRequest w).

(** The result is the response so far and whether the batch was accepted. *)
Definition storeBatch `{ResponseWriter R} (h : MetricsHandler) (w : R) (r : Request)
    (metrics : list Metrics) : M W (R * bool) :=
  match
    match Header_Values Delivery.Header (ReqHeader r) with
    | [] => Some ""
    | [key] => if ValidKey key then Some key else None
    | _ => None
    end
  with
  | None => ret (http_Error "invalid idempotency key" StatusBadRequest w, false)
  | Some key =>
      let! ae := UpdateMetricsOnce (service h) key metrics in
      match ae with
      | (_, Some e) =>
          if errors_Is ErrConflict_text e then ret (http_Error (Error e) StatusConflict w, false)
          else ret (http_Error "failed to store metrics" StatusInternalServerError w, false)
      | (applied, None) =>
          (if (applied : bool) then audit h r (metricNames metrics) else ret tt) ;; ret (w, true)
      end
  end.

Definition UpdateMetricJSON `{ResponseWriter R} (h : MetricsHandler) (w : R) (r : Request)
  : M W R :=
  match (decode_body r : res Metrics) with
  | Fail _ => ret (WriteHeader StatusBadRequest w)
  | Ok metric =>
      let statusCode := validateUpdateMetric metric in
      if decide (statusCode ≠ StatusOK) then ret (WriteHeader statusCode w)
      else
        let! wb := storeBatch h w r [metric] in
        if negb wb.2 then ret wb.1
        else ret (write_json metric (SetHeader "Content-Type" "application/json" wb.1))
  end.

(** The loop over the batch: the status of the first metric that is refused. *)
Fixpoint validate_all (metrics : list Metrics) : option Z :=
  match metrics with
  | [] => None
  | metric :: metrics =>
      let statusCode := validateUpdateMetric metric in
      if decide (statusCode ≠ StatusOK) then Some statusCode else validate_all metrics
  end.

Definition UpdateMetricsJSON `{ResponseWriter R} (h : MetricsHandler) (w : R) (r : Request)
  : M W R :=
  match (decode_body r : res (list Metrics)) with
  | Fail _ => ret (WriteHeader StatusBadRequest w)
  | Ok metrics =>
      match validate_all metrics with
      | Some statusCode => ret (WriteHeader statusCode w)
      | None =>
          let! wb := storeBatch h w r metrics in
          if negb wb.2 then ret wb.1
          else ret (write_json metrics (SetHeader "Content-Type" "application/json" wb.1))
      end
  end.

Definition GetValue `{ResponseWriter R} (h : MetricsHandler) (w : R) (r : Request) : M W R :=
  let metricType := URLParam r "type" in
  let metricName := URLParam r "name" in
  if decide (metricName = "") then ret (WriteHeader StatusNotFound w)
  else if decide (metricType = Gauge) then
    let! vo := GetGauge (service h) metricName in
    if negb vo.2 then ret (WriteHeader StatusNotFound w)
    else ret (Write (FormatFloat vo.1) (SetHeader "Content-Type" "text/plain" w))
  else if decide (metricType = Counter) then
    let! vo := GetCounter (service h) metricName in
    if negb vo.2 then ret (WriteHeader StatusNotFound w)
    else ret (Write (FormatInt vo.1) (SetHeader "Content-Type" "text/plain" w))
  else ret (WriteHeader StatusNotFound w).

Definition GetValueJSON `{ResponseWriter R} (h : MetricsHandler) (w : R) (r : Request)
  : M W R :=
  match (decode_body r : res Metrics) with
  | Fail _ => ret (WriteHeader StatusBadRequest w)
  | Ok requestMetric =>
      if decide (ID requestMetric = "") then ret (WriteHeader StatusNotFound w)
      else
        let respond (metric : Metrics) :=
          write_json metric (SetHeader "Content-Type" "application/json" w) in
        if decide (MType requestMetric = Gauge) then
          let! vo := GetGauge (service h) (ID requestMetric) in
          if negb vo.2 then ret (WriteHeader StatusNotFound w)
          else ret (respond (mkMetrics (ID requestMetric) (MType requestMetric) None (Some vo.1) ""))
        else if decide (MType requestMetric = Counter) then
          let! vo := GetCounter (service h) (ID requestMetric) in
          if negb vo.2 then ret (WriteHeader StatusNotFound w)
          else ret (respond (mkMetrics (ID requestMetric) (MType requestMetric) (Some vo.1) None ""))
        else ret (WriteHeader StatusNotFound w)
  end.

Definition ListMetrics `{ResponseWriter R} (h : MetricsHandler) (w : R) (r : Request)
  : M W R :=
  let w := SetHeader "Content-Type" "text/html; charset=utf-8" w in
  let! gauges := GetAllGauges (service h) in
  let! counters := GetAllCounters (service h) in
  let '(page, e) := Execute gauges counters in
  let w := if decide (page = "") then w else Write page w in
  match e with
  | Some _ => ret (WriteHeader StatusInternalServerError w)
  | None => ret w
  end.

Definition Ping `{ResponseWriter R} (h : MetricsHandler) (w : R) (r : Request) : M W R :=
  match db h with
  | None => ret (WriteHeader StatusInternalServerError w)
  | Some ping =>
      let! e := ping in
      match e with
      | Some _ => ret (WriteHeader StatusInternalServerError w)
      | None => ret (WriteHeader StatusOK w)
      end
  end.

(** ** Lemmas *)

Lemma metricNames_eq metrics : metricNames metrics = map ID metrics.
Proof.
  unfold metricNames. assert (∀ acc, foldl (λ names m, names ++ [ID m]) acc metrics
    = acc ++ map ID metrics) as Hacc; [|by rewrite Hacc].
  induction metrics as [|m ms IH]; intros acc; simpl; [by rewrite app_nil_r|].
  by rewrite IH, <-app_assoc.
Qed.

(** A metric that passes has a name and changes the storage. *)
Lemma validate_ok metric :
  validateUpdateMetric metric = StatusOK ↔
  ID metric ≠ "" ∧
  ((∃ v, MType metric = Gauge ∧ Value metric = Some v) ∨
   (∃ d, MType metric = Counter ∧ Delta metric = Some d)).
Proof.
  pose proof Gauge_Counter as Hgc. unfold validateUpdateMetric, StatusOK, StatusNotFound, StatusBadRequest.
  destruct (decide (ID metric = "")); [by split; [|intros [? _]]|].
  destruct (decide (MType metric = Gauge)) as [Hg|].
  { rewrite Hg. destruct (Value metric) as [v|]; split; try done; [eauto 8|].
    intros (_ & [(v' & _ & ?)|(d & Hc & _)]); congruence. }
  destruct (decide (MType metric = Counter)) as [Hc|].
  { rewrite Hc. destruct (Delta metric) as [d|]; split; try done; [eauto 8|].
    intros (_ & [(v' & Hg & _)|(d' & _ & ?)]); congruence. }
  split; [done|]. intros (_ & [(? & ? & _)|(? & ? & _)]); done.
Qed.

Lemma validate_all_spec metrics :
  match validate_all metrics with
  | None => Forall (λ m, validateUpdateMetric m = StatusOK) metrics
  | Some code => ∃ ms1 m ms2, metrics = ms1 ++ m :: ms2 ∧ validateUpdateMetric m = code ∧
      code ≠ StatusOK ∧ Forall (λ m, validateUpdateMetric m = StatusOK) ms1
  end.
Proof.
  induction metrics as [|m ms IH]; cbn [validate_all]; [constructor|].
  destruct (decide (validateUpdateMetric m ≠ StatusOK)) as [Hm|Hm].
  - by exists [], m, ms.
  - apply dec_stable in Hm. destruct (validate_all ms) as [code|].
    + destruct IH as (ms1 & m' & ms2 & -> & ? & ? & ?). exists (m :: ms1), m', ms2.
      split_and!; try done. by constructor.
    + by constructor.
Qed.

Lemma final_status_json `{Json A} (a : A) k v (rw : Response) :
  final_status (write_json a (SetHeader k v rw)) = final_status rw.
Proof.
  unfold write_json, SetHeader, final_status, rw_status.
  destruct (json_Encode a), rw as [[[c h]|] hd b]; done.
Qed.

Lemma final_status_error msg code (rw : Response) :
  rw_status rw = None → final_status (http_Error msg code rw) = code.
Proof. unfold rw_status. destruct rw as [[st|] hd b]; done. Qed.

(** Auditing leaves alone what the observers and the clock leave alone. *)
Lemma audit_frame {X} (view : W → X) h r names w :
  (∀ notify ctx ev v, auditor h = Some notify → view (notify ctx ev v).1 = view v) →
  (∀ v, view (now v).1 = view v) →
  view (audit h r names w).1 = view w.
Proof.
  intros Hn Ht. unfold audit. destruct (auditor h) as [notify|]; [|done].
  case_decide; [done|]. munfold. specialize (Ht w). destruct (now w) as [w1 t].
  specialize (Hn notify (ContextErr r) (NewEvent t names (RemoteAddr r)) w1 eq_refl).
  destruct (notify _ _ w1) as [w2 e]. simpl in *. congruence.
Qed.

(** What a header of at most one valid key gives. *)
Definition request_key (r : Request) : option string :=
  match Header_Values Delivery.Header (ReqHeader r) with
  | [] => Some ""
  | [key] => if ValidKey key then Some key else None
  | _ => None
  end.

Lemma storeBatch_eq `{ResponseWriter R} h (rw : R) r metrics :
  storeBatch h rw r metrics =
    match request_key r with
    | None => ret (http_Error "invalid idempotency key" StatusBadRequest rw, false)
    | Some key =>
        bind (UpdateMetricsOnce (service h) key metrics) (λ ae,
          match ae with
          | (_, Some e) =>
              if errors_Is ErrConflict_text e then ret (http_Error (Error e) StatusConflict rw, false)
              else ret (http_Error "failed to store metrics" StatusInternalServerError rw, false)
          | (applied, None) =>
              (if (applied : bool) then audit h r (metricNames metrics) else ret tt) ;; ret (rw, true)
          end)
    end.
Proof. done. Qed.

(** A request with a key, on a batch that has passed the validation. *)
Lemma storeBatch_status h (rw : Response) r metrics key w :
  rw_status rw = None → request_key r = Some key →
  let '(w1, (applied, e)) := UpdateMetricsOnce (service h) key metrics w in
  let '(w', (rw', ok)) := storeBatch h rw r metrics w in
  match e with
  | None => ok = true ∧ rw' = rw ∧
      w' = (if applied : bool then (audit h r (map ID metrics) w1).1 else w1)
  | Some e => ok = false ∧ w' = w1 ∧
      final_status rw' = if errors_Is ErrConflict_text e then StatusConflict else StatusInternalServerError
  end.
Proof.
  intros Hrw Hk. rewrite storeBatch_eq, Hk. unfold bind.
  destruct (UpdateMetricsOnce (service h) key metrics w) as [w1 [applied [e|]]].
  - destruct (errors_Is ErrConflict_text e); unfold ret; simpl; split_and!; try done;
      by apply final_status_error.
  - rewrite metricNames_eq. destruct applied; [|done].
    by destruct (audit h r (map ID metrics) w1).
Qed.

(** ** Properties *)

(** A refused batch leaves no trace: a body that is not JSON, a metric without
    a name, of an unknown type or without its value anywhere in the batch, a
    malformed key or more than one key, each answer with the status of the
    first fault found and leave the world, audit included, as it was. *)
Theorem UpdateMetricsJSON_refuses h r w :
  let '(w', rw') := UpdateMetricsJSON h fresh_response r w in
  match (decode_body r : res (list Metrics)) with
  | Fail _ => w' = w ∧ final_status rw' = StatusBadRequest
  | Ok metrics =>
      (∀ ms1 m ms2, metrics = ms1 ++ m :: ms2 →
         Forall (λ m, validateUpdateMetric m = StatusOK) ms1 →
         validateUpdateMetric m ≠ StatusOK →
         w' = w ∧ final_status rw' = validateUpdateMetric m) ∧
      (Forall (λ m, validateUpdateMetric m = StatusOK) metrics → request_key r = None →
         w' = w ∧ final_status rw' = StatusBadRequest)
  end.
Proof.
  unfold UpdateMetricsJSON. destruct (decode_body r) as [metrics|e]; [|done].
  pose proof (validate_all_spec metrics) as Hv.
  destruct (validate_all metrics) as [code|].
  - destruct Hv as (ls1 & l & ls2 & -> & <- & Hl & Hls1). unfold ret. split.
    + intros ms1 m ms2 Heq Hms1 Hm. split; [done|]. change (validateUpdateMetric l = validateUpdateMetric m).
      revert ms1 Heq Hms1. induction ls1 as [|x ls1 IH]; intros [|y ms1] Heq Hms1; simplify_eq/=; [done| | |].
      * by apply Forall_cons in Hms1 as [? _].
      * by apply Forall_cons in Hls1 as [? _].
      * apply Forall_cons in Hls1 as [_ ?]. apply Forall_cons in Hms1 as [_ ?]. by eapply IH.
    + intros Hall _. apply Forall_app in Hall as [_ Hall]. by apply Forall_cons in Hall as [? _].
  - unfold bind. destruct (storeBatch h fresh_response r metrics w) as [w' [rw' ok]] eqn:Hs.
    assert (request_key r = None → ok = false ∧ w' = w ∧ final_status rw' = StatusBadRequest) as Hnone.
    { intros Hk. rewrite storeBatch_eq, Hk in Hs. unfold ret in Hs. by simplify_eq. }
    destruct ok; simpl.
    + split; [|intros _ Hk; by destruct (Hnone Hk)].
      intros ms1 m ms2 -> _ Hm. apply Forall_app in Hv as [_ Hv]. by apply Forall_cons in Hv as [? _].
    + split; [|intros _ Hk; by destruct (Hnone Hk)].
      intros ms1 m ms2 -> _ Hm. apply Forall_app in Hv as [_ Hv]. by apply Forall_cons in Hv as [? _].
Qed.

(** The single-metric endpoint is the batch endpoint on one metric: for a
    body that holds a metric and a body that holds the list of it, the two
    change the world in the same way, audit included, and answer with the same
    status. *)
Theorem UpdateMetricJSON_is_batch h (r r' : Request) metric w :
  decode_body r = Ok metric → decode_body r' = Ok [metric] →
  Header_Values Delivery.Header (ReqHeader r) = Header_Values Delivery.Header (ReqHeader r') →
  RemoteAddr r = RemoteAddr r' → ContextErr r = ContextErr r' →
  let '(w1, rw1) := UpdateMetricJSON h fresh_response r w in
  let '(w2, rw2) := UpdateMetricsJSON h fresh_response r' w in
  w1 = w2 ∧ final_status rw1 = final_status rw2.
Proof.
  intros Hd Hd' Hkey Haddr Hctx. unfold UpdateMetricJSON, UpdateMetricsJSON. rewrite Hd, Hd'.
  cbn [validate_all]. destruct (decide (validateUpdateMetric metric ≠ StatusOK)); [done|].
  assert (storeBatch h fresh_response r [metric] = storeBatch h fresh_response r' [metric]) as ->.
  { unfold storeBatch, audit. by rewrite Hkey, Haddr, Hctx. }
  unfold bind. destruct (storeBatch h fresh_response r' [metric] w) as [w' [rw [|]]];
    unfold ret; cbn [fst snd negb]; by rewrite ?final_status_json.
Qed.

(** C8: a keyed batch over HTTP: the answer is 200 exactly when the service
    acknowledges it, and the storage then holds the receipt of its fingerprint;
    every answer leaves the storage as it was or commits the batch with its
    receipt, once; the audit is written after the batch is stored and saved,
    only when this request applied it; a conflict is 409 and any other failure
    500. *)
Theorem UpdateMetricsJSON_once {C} {upd : C → list Metrics → option C} {ledger : W → Ledger C}
    h o {Hspec : @OnceSpec W C o upd ledger} r key fp metrics w :
  onceRepo (service h) = Some o →
  (∀ v, ledger (save (service h) v).1 = ledger v) →
  (∀ notify ctx ev v, auditor h = Some notify → ledger (notify ctx ev v).1 = ledger v) →
  (∀ v, ledger (now v).1 = ledger v) →
  decode_body r = Ok metrics → metrics ≠ [] →
  Forall (λ m, validateUpdateMetric m = StatusOK) metrics →
  Header_Values Delivery.Header (ReqHeader r) = [key] → ValidKey key = true → Fingerprint metrics = Ok fp →
  let '(w1, (applied, e)) := UpdateMetricsOnce (service h) key metrics w in
  let '(w', rw') := UpdateMetricsJSON h fresh_response r w in
  final_status rw' =
    match e with
    | None => StatusOK
    | Some e => if errors_Is ErrConflict_text e then StatusConflict else StatusInternalServerError
    end ∧
  w' = (if applied && bool_decide (e = None) then (audit h r (map ID metrics) w1).1 else w1) ∧
  (final_status rw' = StatusOK → l_receipts (ledger w') !! key = Some fp) ∧
  (ledger w' = ledger w ∨
   l_receipts (ledger w) !! key = None ∧ commit upd key fp metrics (ledger w) = Some (ledger w')).
Proof.
  intros Ho Hsave Hnotify Hnow Hd Hne Hval Hkv Hkey Hfp.
  assert (key ≠ "") as Hk by (by intros ->).
  pose proof (once_service (service h) o key metrics w Ho Hne Hk Hsave) as Hack.
  assert (request_key r = Some key) as Hrk by (unfold request_key; by rewrite Hkv, Hkey).
  pose proof (storeBatch_status h fresh_response r metrics key w eq_refl Hrk) as Hst.
  unfold UpdateMetricsJSON. rewrite Hd.
  pose proof (validate_all_spec metrics) as Hva. destruct (validate_all metrics) as [code|].
  { destruct Hva as (ms1 & m & ms2 & -> & <- & Hm & _). apply Forall_app in Hval as [_ Hval].
    by apply Forall_cons in Hval as [? _]. }
  destruct (UpdateMetricsOnce (service h) key metrics w) as [w1 [applied e]].
  unfold bind. destruct (storeBatch h fresh_response r metrics w) as [w' [rw' ok]].
  destruct Hack as (Hatomic & Hok). assert (ledger w1 = ledger w ∨
    l_receipts (ledger w) !! key = None ∧ commit upd key fp metrics (ledger w) = Some (ledger w1)) as Hat.
  { destruct Hatomic as [?|(fp' & Hf & ?)]; [by left|]. right. rewrite Hfp in Hf. by injection Hf as <-. }
  destruct e as [e|].
  - destruct Hst as (-> & -> & Hst). unfold ret; simpl. rewrite andb_false_r.
    split_and!; [done|done| |done]. intros Hs. rewrite Hst in Hs. by destruct (errors_Is _ e).
  - destruct Hst as (-> & -> & ->). unfold ret; cbn [fst snd negb]. rewrite final_status_json.
    rewrite andb_true_r.
    assert (ledger (if applied then (audit h r (map ID metrics) w1).1 else w1) = ledger w1) as ->.
    { destruct applied; [|done]. by apply (audit_frame ledger). }
    split_and!; [done|done| |done]. intros _.
    destruct (Hok eq_refl) as (fp' & Hf & ?). rewrite Hfp in Hf. by injection Hf as <-.
Qed.

(** What a read answers, in terms of the content. *)
Lemma GetValue_eq {content : W → Content}
    h {Hr : @ContentSpec W (repo (service h)) content} (rw : Response) r w :
  GetValue h rw r w = (w,
    let name := URLParam r "name" in
    if decide (name = "") then WriteHeader StatusNotFound rw
    else if decide (URLParam r "type" = Gauge) then
      match c_gauges (content w) !! name with
      | Some v => Write (FormatFloat v) (SetHeader "Content-Type" "text/plain" rw)
      | None => WriteHeader StatusNotFound rw
      end
    else if decide (URLParam r "type" = Counter) then
      match c_counters (content w) !! name with
      | Some d => Write (FormatInt d) (SetHeader "Content-Type" "text/plain" rw)
      | None => WriteHeader StatusNotFound rw
      end
    else WriteHeader StatusNotFound rw).
Proof.
  unfold GetValue, bind, ret, GetGauge, GetCounter.
  destruct (decide (URLParam r "name" = "")); [done|].
  destruct (decide (URLParam r "type" = Gauge));
    [|destruct (decide (URLParam r "type" = Counter)); [|done]].
  - rewrite GetGauge_content. unfold get_or.
    destruct (c_gauges (content w) !! URLParam r "name"); done.
  - rewrite GetCounter_content. unfold counter_at, get_or.
    destruct (c_counters (content w) !! URLParam r "name"); done.
Qed.

(** What an update that is answered 200 has done. *)
Lemma UpdateMetric_ok {content : W → Content}
    h {Hr : @ContentSpec W (repo (service h)) content} r w :
  (∀ v, content (save (service h) v).1 = content v) →
  (∀ notify ctx ev v, auditor h = Some notify → content (notify ctx ev v).1 = content v) →
  (∀ v, content (now v).1 = content v) →
  let '(w1, rw1) := UpdateMetric h fresh_response r w in
  final_status rw1 = StatusOK →
  URLParam r "name" ≠ "" ∧
  ((URLParam r "type" = Gauge ∧ ∃ v, ParseFloat (URLParam r "value") = Ok v ∧
      content w1 = apply_effect (content w) (SetGauge (URLParam r "name") v)) ∨
   (URLParam r "type" = Counter ∧ ∃ d, ParseInt (URLParam r "value") = Ok d ∧
      content w1 = apply_effect (content w) (AddCounter (URLParam r "name") d))).
Proof.
  intros Hsave Hnotify Hnow. unfold UpdateMetric.
  destruct (decide (URLParam r "name" = "")); [done|].
  destruct (decide (URLParam r "type" = Gauge)) as [Hg|];
    [|destruct (decide (URLParam r "type" = Counter)) as [Hc|]; [|done]].
  - destruct (ParseFloat (URLParam r "value")) as [v|e]; [|done].
    unfold UpdateGauge, bind.
    destruct (@Repository.UpdateGauge W (repo (service h)) (URLParam r "name") v w)
      as [w1 [e|]] eqn:Hu; [done|].
    pose proof (Hsave w1) as Hs. destruct (save (service h) w1) as [w2 [e|]]; [done|].
    pose proof (audit_frame content h r [URLParam r "name"] w2 Hnotify Hnow) as Ha.
    destruct (audit h r [URLParam r "name"] w2) as [w3 []]. unfold ret. cbn [fst] in *.
    intros _. split; [done|]. left. split; [done|]. exists v. split; [done|].
    by rewrite Ha, Hs, (@UpdateGauge_content W (repo (service h)) content _ _ _ _ _ Hu).
  - destruct (ParseInt (URLParam r "value")) as [d|e]; [|done].
    unfold UpdateCounter, bind.
    destruct (@Repository.UpdateCounter W (repo (service h)) (URLParam r "name") d w)
      as [w1 [e|]] eqn:Hu; [done|].
    pose proof (Hsave w1) as Hs. destruct (save (service h) w1) as [w2 [e|]]; [done|].
    pose proof (audit_frame content h r [URLParam r "name"] w2 Hnotify Hnow) as Ha.
    destruct (audit h r [URLParam r "name"] w2) as [w3 []]. unfold ret. cbn [fst] in *.
    intros _. split; [done|]. right. split; [done|]. exists d. split; [done|].
    by rewrite Ha, Hs, (@UpdateCounter_content W (repo (service h)) content _ _ _ _ _ Hu).
Qed.

(** Reading after writing over HTTP: an update of a counter or of a gauge that
    is answered 200 is seen by a read of the same name, whose answer is 200
    with the text of the new value; for a counter that text parses back to the
    old value plus the increment, wrapped to 64 bits. *)
Theorem UpdateMetric_then_GetValue `{!FloatTextSpec} {content : W → Content}
    h {Hr : @ContentSpec W (repo (service h)) content} (r r' : Request) w :
  (∀ v, content (save (service h) v).1 = content v) →
  (∀ notify ctx ev v, auditor h = Some notify → content (notify ctx ev v).1 = content v) →
  (∀ v, content (now v).1 = content v) →
  URLParam r' "type" = URLParam r "type" → URLParam r' "name" = URLParam r "name" →
  let '(w1, rw1) := UpdateMetric h fresh_response r w in
  let '(w2, rw2) := GetValue h fresh_response r' w1 in
  final_status rw1 = StatusOK →
  final_status rw2 = StatusOK ∧ w2 = w1 ∧
  ((URLParam r "type" = Gauge ∧ ∃ v, ParseFloat (URLParam r "value") = Ok v ∧
      ParseFloat (rw_body rw2) = Ok v) ∨
   (URLParam r "type" = Counter ∧ ∃ d, ParseInt (URLParam r "value") = Ok d ∧
      ParseInt (rw_body rw2) = Ok (add64 (counter_at (content w) (URLParam r "name")) d))).
Proof.
  intros Hsave Hnotify Hnow Ht Hn.
  pose proof (UpdateMetric_ok h (Hr := Hr) r w Hsave Hnotify Hnow) as Hupd.
  destruct (UpdateMetric h fresh_response r w) as [w1 rw1].
  rewrite (GetValue_eq h (Hr := Hr)), Ht, Hn. intros Hs.
  destruct (Hupd Hs) as (Hname & Hcase). rewrite decide_False by done.
  destruct Hcase as [(Hg & v & Hp & Hc)|(Hcn & d & Hp & Hc)].
  - rewrite decide_True by done. rewrite Hc. simpl. rewrite lookup_insert_eq.
    split_and!; [done|done|]. left. split; [done|]. exists v. split; [done|].
    apply ParseFloat_FormatFloat.
  - rewrite decide_False by (rewrite Hcn; done). rewrite decide_True by done.
    rewrite Hc. simpl. rewrite lookup_insert_eq. split_and!; [done|done|]. right.
    split; [done|]. exists d. split; [done|]. apply ParseInt_FormatInt. auto with go.
Qed.
(** What a batch request under one key does to the ledger. *)
Lemma UpdateMetricsJSON_ledger {C} {upd : C → list Metrics → option C} {ledger : W → Ledger C}
    h o {Hspec : @OnceSpec W C o upd ledger} r key metrics w :
  onceRepo (service h) = Some o →
  (∀ v, ledger (save (service h) v).1 = ledger v) →
  (∀ notify ctx ev v, auditor h = Some notify → ledger (notify ctx ev v).1 = ledger v) →
  (∀ v, ledger (now v).1 = ledger v) →
  Header_Values Delivery.Header (ReqHeader r) = [key] →
  decode_body r = Ok metrics → metrics ≠ [] →
  let '(w', rw') := UpdateMetricsJSON h fresh_response r w in
  (ledger w' = ledger w ∨ ∃ fp, Fingerprint metrics = Ok fp ∧ l_receipts (ledger w) !! key = None ∧
     commit upd key fp metrics (ledger w) = Some (ledger w')) ∧
  (final_status rw' = StatusOK →
     ∃ fp, Fingerprint metrics = Ok fp ∧ l_receipts (ledger w') !! key = Some fp).
Proof.
  intros Ho Hsave Hnotify Hnow Hkv Hd Hne. unfold UpdateMetricsJSON. rewrite Hd.
  pose proof (validate_all_spec metrics) as Hva. destruct (validate_all metrics) as [code|].
  { destruct Hva as (? & m & ? & _ & _ & Hc & _). split; [by left|done]. }
  destruct (request_key r) as [key'|] eqn:Hrk.
  2: { unfold bind. rewrite storeBatch_eq, Hrk. split; [by left|done]. }
  assert (key' = key ∧ key ≠ "") as [-> Hk].
  { unfold request_key in Hrk. rewrite Hkv in Hrk. destruct (ValidKey key) eqn:Hv; [|done].
    split; [congruence|]. by intros ->. }
  pose proof (once_service (service h) o key metrics w Ho Hne Hk Hsave) as Honce.
  pose proof (storeBatch_status h fresh_response r metrics key w eq_refl Hrk) as Hst.
  destruct (UpdateMetricsOnce (service h) key metrics w) as [w1 [applied e]].
  unfold bind. destruct (storeBatch h fresh_response r metrics w) as [w' [rw' ok]].
  destruct Honce as [Hat Hack]. destruct e as [e|].
  - destruct Hst as (-> & -> & Hst). unfold ret. cbn [fst snd negb]. split; [exact Hat|].
    intros Hs. rewrite Hst in Hs. by destruct (errors_Is _ e).
  - destruct Hst as (-> & -> & ->). unfold ret. cbn [fst snd negb].
    assert (ledger (if applied then (audit h r (map ID metrics) w1).1 else w1) = ledger w1) as ->.
    { destruct applied; [|done]. by apply (audit_frame ledger). }
    split; [exact Hat|]. intros _. by apply Hack.
Qed.

(** ** The handlers work with any writer *)

(** Gives the script of one branch. *)
Ltac script acts :=
  eexists _, acts; split; [reflexivity || apply headers_first_json|];
  intros R RW RWS rw _; unfold ret; rewrite ?replay_error_script, ?replay_json_script; reflexivity.

Lemma storeBatch_scripted h r metrics w : ∃ w' acts ok,
  headers_first acts = true ∧ (ok = true → acts = []) ∧
  ∀ R (RW : ResponseWriter R) (rw : R), storeBatch h rw r metrics w = (w', (replay acts rw, ok)).
Proof.
  destruct (request_key r) as [key|] eqn:Hk.
  2: { eexists _, (error_script _ _), false. split_and!; [done|done|]. intros R RW rw.
       by rewrite storeBatch_eq, Hk. }
  destruct (UpdateMetricsOnce (service h) key metrics w) as [w1 [applied [e|]]] eqn:Hu.
  - destruct (errors_Is ErrConflict_text e) eqn:He;
      eexists _, (error_script _ _), false; (split_and!; [done|done|]); intros R RW rw;
      rewrite storeBatch_eq, Hk; unfold bind; by rewrite Hu, He.
  - eexists _, [], true. split_and!; [done|done|]. intros R RW rw.
    rewrite storeBatch_eq, Hk. unfold bind. rewrite Hu. unfold ret.
    by rewrite (surjective_pairing ((if applied then audit h r (metricNames metrics) else λ w, (w, tt)) w1)).
Qed.

Lemma UpdateMetric_scripted h : scripted (λ R RW, UpdateMetric h).
Proof.
  intros r w h0. unfold runs, UpdateMetric.
  destruct (decide (URLParam r "name" = "")); [script [ActStatus StatusNotFound]|].
  destruct (decide (URLParam r "type" = Gauge));
    [|destruct (decide (URLParam r "type" = Counter)); [|script [ActStatus StatusBadRequest]]].
  - destruct (ParseFloat (URLParam r "value")) as [v|]; [|script [ActStatus StatusBadRequest]].
    unfold bind. destruct (UpdateGauge (service h) (URLParam r "name") v w) as [w1 [e1|]];
      [script (error_script "failed to store metrics" StatusInternalServerError)|].
    destruct (audit h r [URLParam r "name"] w1); script [ActStatus StatusOK].
  - destruct (ParseInt (URLParam r "value")) as [d|]; [|script [ActStatus StatusBadRequest]].
    unfold bind. destruct (UpdateCounter (service h) (URLParam r "name") d w) as [w1 [e1|]];
      [script (error_script "failed to store metrics" StatusInternalServerError)|].
    destruct (audit h r [URLParam r "name"] w1); script [ActStatus StatusOK].
Qed.

Lemma UpdateMetricJSON_scripted h : scripted (λ R RW, UpdateMetricJSON h).
Proof.
  intros r w h0. unfold runs, UpdateMetricJSON.
  destruct (decode_body r) as [m|]; [|script [ActStatus StatusBadRequest]].
  destruct (decide (validateUpdateMetric m ≠ StatusOK)); [script [ActStatus (validateUpdateMetric m)]|].
  destruct (storeBatch_scripted h r [m] w) as (w' & acts & [|] & Hf & Hok & Hs).
  - rewrite (Hok eq_refl) in Hs. eexists w', (json_script m). split; [apply headers_first_json|].
    intros R RW RWS rw _. unfold bind. rewrite Hs. by rewrite replay_json_script.
  - exists w', acts. split; [done|]. intros R RW RWS rw _. unfold bind. by rewrite Hs.
Qed.

Lemma UpdateMetricsJSON_scripted h : scripted (λ R RW, UpdateMetricsJSON h).
Proof.
  intros r w h0. unfold runs, UpdateMetricsJSON.
  destruct (decode_body r) as [ms|]; [|script [ActStatus StatusBadRequest]].
  destruct (validate_all ms) as [code|]; [script [ActStatus code]|].
  destruct (storeBatch_scripted h r ms w) as (w' & acts & [|] & Hf & Hok & Hs).
  - rewrite (Hok eq_refl) in Hs. eexists w', (json_script ms). split; [apply headers_first_json|].
    intros R RW RWS rw _. unfold bind. rewrite Hs. by rewrite replay_json_script.
  - exists w', acts. split; [done|]. intros R RW RWS rw _. unfold bind. by rewrite Hs.
Qed.

Lemma GetValue_scripted h : scripted (λ R RW, GetValue h).
Proof.
  intros r w h0. unfold runs, GetValue.
  destruct (decide (URLParam r "name" = "")); [script [ActStatus StatusNotFound]|].
  destruct (decide (URLParam r "type" = Gauge));
    [|destruct (decide (URLParam r "type" = Counter)); [|script [ActStatus StatusNotFound]]]; unfold bind.
  - destruct (GetGauge (service h) (URLParam r "name") w) as [w1 [v [|]]]; [|script [ActStatus StatusNotFound]].
    script [ActHeader (Header_Set "Content-Type" "text/plain"); ActWrite (FormatFloat v)].
  - destruct (GetCounter (service h) (URLParam r "name") w) as [w1 [d [|]]]; [|script [ActStatus StatusNotFound]].
    script [ActHeader (Header_Set "Content-Type" "text/plain"); ActWrite (FormatInt d)].
Qed.

Lemma GetValueJSON_scripted h : scripted (λ R RW, GetValueJSON h).
Proof.
  intros r w h0. unfold runs, GetValueJSON.
  destruct (decode_body r) as [m|]; [|script [ActStatus StatusBadRequest]].
  destruct (decide (ID m = "")); [script [ActStatus StatusNotFound]|].
  destruct (decide (MType m = Gauge));
    [|destruct (decide (MType m = Counter)); [|script [ActStatus StatusNotFound]]]; unfold bind.
  - destruct (GetGauge (service h) (ID m) w) as [w1 [v [|]]]; [|script [ActStatus StatusNotFound]].
    script (json_script (mkMetrics (ID m) (MType m) None (Some v) "")).
  - destruct (GetCounter (service h) (ID m) w) as [w1 [d [|]]]; [|script [ActStatus StatusNotFound]].
    script (json_script (mkMetrics (ID m) (MType m) (Some d) None "")).
Qed.

Lemma ListMetrics_scripted h : scripted (λ R RW, ListMetrics h).
Proof.
  intros r w h0. unfold runs, ListMetrics, bind.
  destruct (GetAllGauges (service h) w) as [w1 gauges], (GetAllCounters (service h) w1) as [w2 counters].
  destruct (Execute gauges counters) as [page [e|]]; destruct (decide (page = "")).
  - script [ActHeader (Header_Set "Content-Type" "text/html; charset=utf-8"); ActStatus StatusInternalServerError].
  - script [ActHeader (Header_Set "Content-Type" "text/html; charset=utf-8"); ActWrite page;
      ActStatus StatusInternalServerError].
  - script [ActHeader (Header_Set "Content-Type" "text/html; charset=utf-8")].
  - script [ActHeader (Header_Set "Content-Type" "text/html; charset=utf-8"); ActWrite page].
Qed.

Lemma Ping_scripted h : scripted (λ R RW, Ping h).
Proof.
  intros r w h0. unfold runs, Ping. destruct (db h) as [ping|]; [|script [ActStatus StatusInternalServerError]].
  unfold bind. destruct (ping w) as [w1 [e1|]]; [script [ActStatus StatusInternalServerError]|].
  script [ActStatus StatusOK].
Qed.
End Handler.

#[export] Hint Resolve UpdateMetric_scripted UpdateMetricJSON_scripted UpdateMetricsJSON_scripted
  GetValue_scripted GetValueJSON_scripted ListMetrics_scripted Ping_scripted : go.
