(* ===== verification/Page.v ===== *)
(** The page of all metrics: the template of [internal/handler/metrics.go] and the
    escaping of [html/template], executed by [ListMetrics].

    Metric names come from clients: the page shows them as they are, and they
    never become markup. *)

From stdpp Require Import sorting.
From S2P Require Import Prelude GoErrors Metrics GoJson GoHttp GoStrconv Delivery Repository Service Auditing Handler.
From Stdlib Require Import Ascii.

(** ** [html/template] in the text of an element *)

Definition quot_char : ascii := ascii_of_nat 34.
Definition NUL : ascii := ascii_of_nat 0.

(** U+FFFD in UTF-8. *)
Definition replacement : string :=
  String (ascii_of_nat 239) (String (ascii_of_nat 191) (String (ascii_of_nat 189) "")).

Definition escape_char (c : ascii) : string :=
  if decide (c = NUL) then replacement
  else if decide (c = quot_char) then "&#34;"
  else if decide (c = "&"%char) then "&amp;"
  else if decide (c = "'"%char) then "&#39;"
  else if decide (c = "+"%char) then "&#43;"
  else if decide (c = "<"%char) then "&lt;"
  else if decide (c = ">"%char) then "&gt;"
  else String c "".

Fixpoint escape (s : string) : string :=
  match s with
  | "" => ""
  | String c s => escape_char c +:+ escape s
  end.

(** A template ranges over a map in the order of its keys. *)
Definition key_le {A} (p q : string * A) : Prop := String.le p.1 q.1.
#[export] Instance key_le_dec {A} : RelDecision (@key_le A).
Proof. intros p q. unfold key_le. apply _. Defined.

Definition entries {A} (m : gmap string A) : list (string * A) := merge_sort key_le (map_to_list m).

(** ** The template *)
Definition page_open : string := newline +:+ "<html>" +:+ newline +:+ "  <body>" +:+ newline +:+ "    <ul>".
Definition page_close : string :=
  newline +:+ "    </ul>" +:+ newline +:+ "  </body>" +:+ newline +:+ "</html>" +:+ newline.
Definition page_item (name value : string) : string :=
  newline +:+ "        <li>" +:+ escape name +:+ ": " +:+ escape value +:+ "</li>".

Fixpoint page_items (l : list (string * string)) : string :=
  match l with
  | [] => ""
  | (name, value) :: l => page_item name value +:+ page_items l
  end.

Section Page.
(** [fmt.Sprint] of a [float64]. *)
Variable Sprint : float64 → string.

(** The lines of the page: names with the texts of their values. *)
Definition lines (gauges : gmap string float64) (counters : gmap string Z) : list (string * string) :=
  map (λ kv, (kv.1, Sprint kv.2)) (entries gauges) ++ map (λ kv, (kv.1, FormatInt kv.2)) (entries counters).

Definition metricsTemplate_Execute (gauges : gmap string float64) (counters : gmap string Z) : string * err :=
  (page_open +:+ page_items (map (λ kv, (kv.1, Sprint kv.2)) (entries gauges)) +:+
   page_items (map (λ kv, (kv.1, FormatInt kv.2)) (entries counters)) +:+ page_close, None).
End Page.

(** ** What a browser reads

    The text outside of tags, and the tags. *)
Inductive lexeme : Type := Tag (name : string) | Chars (text : string).

Fixpoint lex (s cur : string) (tag : bool) : list lexeme :=
  match s with
  | "" => if tag then [] else [Chars cur]
  | String c s =>
      if tag then
        if decide (c = ">"%char) then Tag cur :: lex s "" false else lex s (cur +:+ String c "") true
      else
        if decide (c = "<"%char) then Chars cur :: lex s "" true else lex s (cur +:+ String c "") false
  end.

Definition lexemes (page : string) : list lexeme := lex page "" false.

Definition tag_names (ts : list lexeme) : list string :=
  omap (λ t, match t with Tag n => Some n | Chars _ => None end) ts.

(** The character references that the escaping writes. *)
Fixpoint decode_refs (s : string) : string :=
  match s with
  | "" => ""
  | String "&" (String "a" (String "m" (String "p" (String ";" r)))) => String "&" (decode_refs r)
  | String "&" (String "l" (String "t" (String ";" r))) => String "<" (decode_refs r)
  | String "&" (String "g" (String "t" (String ";" r))) => String ">" (decode_refs r)
  | String "&" (String "#" (String "3" (String "4" (String ";" r)))) => String quot_char (decode_refs r)
  | String "&" (String "#" (String "3" (String "9" (String ";" r)))) => String "'" (decode_refs r)
  | String "&" (String "#" (String "4" (String "3" (String ";" r)))) => String "+" (decode_refs r)
  | String c r => String c (decode_refs r)
  end.

(** The items of the list, as they are shown. *)
Fixpoint shown_items (ts : list lexeme) : list string :=
  match ts with
  | Tag n :: (Chars t :: _) as ts =>
      if decide (n = "li") then decode_refs t :: shown_items ts else shown_items ts
  | _ :: ts => shown_items ts
  | [] => []
  end.

(** ** The escaping *)

Fixpoint lt_free (s : string) : bool :=
  match s with "" => true | String c s => negb (bool_decide (c = "<"%char)) && lt_free s end.

(** What is shown of a text: all of it, but for NUL. *)
Fixpoint shown (s : string) : string :=
  match s with
  | "" => ""
  | String c s => (if decide (c = NUL) then replacement else String c "") +:+ shown s
  end.

Lemma shown_id s : NUL ∉ String.list_ascii_of_string s → shown s = s.
Proof.
  induction s as [|c s IH]; [done|]. cbn. intros [Hc Hs]%not_elem_of_cons.
  rewrite decide_False by done. by rewrite IH.
Qed.

Lemma lt_free_app s t : lt_free (s +:+ t) = lt_free s && lt_free t.
Proof.
  induction s as [|c s IH]; [done|].
  change (negb (bool_decide (c = "<"%char)) && lt_free (s +:+ t) = lt_free (String c s) && lt_free t).
  by rewrite IH, andb_assoc.
Qed.

Ltac escape_cases := unfold escape_char; repeat (case_decide; [subst|]).

Lemma escape_lt_free s : lt_free (escape s) = true.
Proof.
  induction s as [|c s IH]; [done|]. cbn [escape]. rewrite lt_free_app, IH, andb_true_r.
  escape_cases; try reflexivity. cbn. by rewrite bool_decide_false.
Qed.

Lemma decode_refs_other c r : c ≠ "&"%char → decode_refs (String c r) = String c (decode_refs r).
Proof. intros Hc. destruct c as [[] [] [] [] [] [] [] []]; try reflexivity. done. Qed.

Lemma decode_refs_char c r :
  decode_refs (escape_char c +:+ r) = (if decide (c = NUL) then replacement else String c "") +:+ decode_refs r.
Proof.
  unfold escape_char. destruct (decide (c = NUL)); [reflexivity|].
  repeat (case_decide; [subst; reflexivity|]). by apply decode_refs_other.
Qed.

Lemma decode_refs_escape s t : decode_refs (escape s +:+ t) = shown s +:+ decode_refs t.
Proof.
  induction s as [|c s IH]; [done|]. cbn [escape shown]. by rewrite !string_app_assoc, decode_refs_char, IH.
Qed.

(** ** The page *)

Lemma lex_text t s cur : lt_free t = true → lex (t +:+ s) cur false = lex s (cur +:+ t) false.
Proof.
  revert cur. induction t as [|c t IH]; intros cur; [by rewrite string_app_nil_r|].
  intros [Hc Ht]%andb_true_iff. apply negb_true_iff, bool_decide_eq_false in Hc.
  change (lex (String c t +:+ s) cur false) with
    (if decide (c = "<"%char) then Chars cur :: lex (t +:+ s) "" true else lex (t +:+ s) (cur +:+ String c "") false).
  rewrite decide_False by done. rewrite IH by done. by rewrite string_app_assoc.
Qed.

Definition line (kv : string * string) : string := shown kv.1 +:+ ": " +:+ shown kv.2.

Definition item_lexemes (kv : string * string) : list lexeme :=
  [Chars (newline +:+ "        "); Tag "li"; Chars (escape kv.1 +:+ ": " +:+ escape kv.2); Tag "/li"].

Lemma lex_item name value rest :
  lex (page_item name value +:+ rest) "" false = item_lexemes (name, value) ++ lex rest "" false.
Proof.
  unfold page_item. rewrite !string_app_assoc.
  change (lex (newline +:+ "        <li>" +:+ ?x) "" false) with
    (Chars (newline +:+ "        ") :: Tag "li" :: lex x "" false).
  assert (∀ x, lex ("</li>" +:+ rest) x false = Chars x :: Tag "/li" :: lex rest "" false) as Hclose by done.
  cbn [item_lexemes app fst snd]. do 2 f_equal.
  rewrite lex_text by apply escape_lt_free.
  rewrite (lex_text ": ") by done. rewrite lex_text by apply escape_lt_free.
  rewrite Hclose. by rewrite string_app_assoc.
Qed.

Lemma lex_items l rest :
  lex (page_items l +:+ rest) "" false = concat (map item_lexemes l) ++ lex rest "" false.
Proof.
  induction l as [|[name value] l IH]; [done|]. cbn [page_items map concat].
  by rewrite string_app_assoc, lex_item, IH, app_assoc.
Qed.

Lemma shown_items_tag n ts : n ≠ "li" → shown_items (Tag n :: ts) = shown_items ts.
Proof. intros Hn. destruct ts as [|[] ts]; [done..|]. cbn. by rewrite decide_False. Qed.

Lemma decode_line kv : decode_refs (escape kv.1 +:+ ": " +:+ escape kv.2) = line kv.
Proof.
  rewrite decode_refs_escape. change (decode_refs (": " +:+ ?x)) with (": " +:+ decode_refs x).
  rewrite <-(string_app_nil_r (escape kv.2)), decode_refs_escape. unfold line. by rewrite string_app_nil_r.
Qed.

Lemma shown_items_item kv ts : shown_items (item_lexemes kv ++ ts) = line kv :: shown_items ts.
Proof.
  unfold item_lexemes. cbn [app].
  transitivity (decode_refs (escape kv.1 +:+ ": " +:+ escape kv.2) :: shown_items (Tag "/li" :: ts)); [done|].
  by rewrite decode_line, shown_items_tag.
Qed.

Lemma shown_items_list l ts : shown_items (concat (map item_lexemes l) ++ ts) = map line l ++ shown_items ts.
Proof.
  induction l as [|kv l IH]; [done|]. cbn [map concat]. by rewrite <-app_assoc, shown_items_item, IH.
Qed.

Lemma tag_names_list l :
  tag_names (concat (map item_lexemes l)) = concat (map (λ _, ["li"; "/li"]) l).
Proof.
  induction l as [|kv l IH]; [done|]. cbn [map concat]. unfold tag_names in *. rewrite omap_app, IH. done.
Qed.

Definition open_lexemes : list lexeme := Eval vm_compute in removelast (lexemes page_open).
Definition close_lexemes : list lexeme := Eval vm_compute in lexemes page_close.

Lemma page_lexemes Sprint gauges counters :
  lexemes (metricsTemplate_Execute Sprint gauges counters).1 =
    open_lexemes ++ concat (map item_lexemes (lines Sprint gauges counters)) ++ close_lexemes.
Proof.
  unfold lexemes, lines. cbn [metricsTemplate_Execute fst].
  transitivity (open_lexemes ++ lex (page_items (map (λ kv, (kv.1, Sprint kv.2)) (entries gauges)) +:+
    page_items (map (λ kv, (kv.1, FormatInt kv.2)) (entries counters)) +:+ page_close) "" false); [done|].
  by rewrite !lex_items, map_app, concat_app, <-app_assoc.
Qed.

#[local] Instance key_le_total {A} : Total (@key_le A).
Proof. intros p q. unfold key_le. apply (total String.le). Qed.
#[local] Instance key_le_transitive {A} : Transitive (@key_le A).
Proof. intros p q r. unfold key_le. apply (transitivity (R := String.le)). Qed.

(** Every metric is listed once, gauges before counters, by name. *)
Lemma lines_spec Sprint gauges counters :
  lines Sprint gauges counters ≡ₚ map (λ kv, (kv.1, Sprint kv.2)) (map_to_list gauges) ++
    map (λ kv, (kv.1, FormatInt kv.2)) (map_to_list counters) ∧
  StronglySorted key_le (entries gauges) ∧ StronglySorted key_le (entries counters).
Proof.
  unfold lines, entries. split; [|split; apply StronglySorted_merge_sort; apply _].
  by rewrite !merge_sort_Permutation.
Qed.

(** C13: the page of all metrics is faithful and safe: whatever the names of the
    metrics, a browser that reads the answer finds the tags of the template, one
    list item per metric and no other, and shows in them every stored gauge and
    counter once, with its name character by character (a NUL apart) and the
    text of its value; the answer is a success of type HTML. *)
Theorem ListMetrics_shows {W} Sprint (h : MetricsHandler (W := W)) r w :
  let '(w1, gauges) := GetAllGauges (service h) w in
  let '(w2, counters) := GetAllCounters (service h) w1 in
  let '(w', rw) := ListMetrics (metricsTemplate_Execute Sprint) h fresh_response r w in
  w' = w2 ∧ final_status rw = StatusOK ∧ Header_Get "Content-Type" (final_header rw) = "text/html; charset=utf-8" ∧
  shown_items (lexemes (rw_body rw)) = map line (lines Sprint gauges counters) ∧
  tag_names (lexemes (rw_body rw)) =
    ["html"; "body"; "ul"] ++ concat (map (λ _, ["li"; "/li"]) (lines Sprint gauges counters)) ++
    ["/ul"; "/body"; "/html"] ∧
  lines Sprint gauges counters ≡ₚ map (λ kv, (kv.1, Sprint kv.2)) (map_to_list gauges) ++
    map (λ kv, (kv.1, FormatInt kv.2)) (map_to_list counters).
Proof.
  destruct (GetAllGauges (service h) w) as [w1 gauges] eqn:Hg.
  destruct (GetAllCounters (service h) w1) as [w2 counters] eqn:Hc.
  unfold ListMetrics, bind. rewrite Hg, Hc. pose proof (page_lexemes Sprint gauges counters) as Hlex.
  destruct (metricsTemplate_Execute Sprint gauges counters) as [page e] eqn:Hp. cbn [fst] in Hlex.
  injection Hp as Hpage <-. rewrite decide_False by (by rewrite <-Hpage). unfold ret.
  split; [done|]. split; [done|]. split; [by vm_compute|].
  cbn [Write SetHeader with_Header Response_writer rw_body fresh_response send_header rw_sent].
  change ("" +:+ page) with page. rewrite Hlex. split; [|split; [|apply lines_spec]].
  - transitivity (shown_items (Tag "ul" :: concat (map item_lexemes (lines Sprint gauges counters)) ++ close_lexemes));
      [done|]. rewrite shown_items_tag, shown_items_list by done. by rewrite app_nil_r.
  - unfold tag_names. rewrite !omap_app. fold (tag_names (concat (map item_lexemes (lines Sprint gauges counters)))).
    by rewrite tag_names_list.
Qed.

(** A name that would be markup, and an [&]. *)
Example hostile_name :
  let page := (metricsTemplate_Execute (λ _, "0") {["<script>" := float64_zero]} {["a&b" := 5%Z]}).1 in
  shown_items (lexemes page) = ["<script>: 0"; "a&b: 5"] ∧
  tag_names (lexemes page) = ["html"; "body"; "ul"; "li"; "/li"; "li"; "/li"; "/ul"; "/body"; "/html"].
Proof. by vm_compute. Qed.
