(* ===== verification/ServerMain.v ===== *)
(** [cmd/server/main.go]: the routes of the server.  The router is chi's, an
    interface with what its documentation says of patterns. *)

From S2P Require Import Prelude GoErrors Metrics GoJson GoHttp GoStrconv Delivery Repository Service Auditing Handler.
From Stdlib Require Import Ascii.

(** ** chi *)

(** A route: method, pattern and handler. *)
Definition route (W : Type) : Type := string * string * Handler W.

(** The name of a placeholder segment [{name}]. *)
Definition placeholder (segment : string) : option string :=
  match segment with
  | String c rest =>
      if decide (c = "{"%char) then Some (String.substring 0 (String.length rest - 1) rest) else None
  | "" => None
  end.

(** A pattern matches a path segment by segment; a placeholder matches any
    nonempty one. *)
Fixpoint match_segments (pattern path : list string) : option (list (string * string)) :=
  match pattern, path with
  | [], [] => Some []
  | p :: pattern, s :: path =>
      match placeholder p with
      | Some name =>
          if decide (s = "") then None
          else params ← match_segments pattern path; Some ((name, s) :: params)
      | None => if decide (p = s) then match_segments pattern path else None
      end
  | _, _ => None
  end.

Definition match_route {W} (r : Request) (rt : route W) : option (route W * list (string * string)) :=
  if decide (rt.1.1 = Method r) then
    params ← match_segments (Split "/"%char rt.1.2) (Split "/"%char (Path r)); Some (rt, params)
  else None.

(** The request as the handler of a route sees it. *)
Definition with_params (params : list (string * string)) (r : Request) : Request :=
  mkRequest (Method r) (RequestURI r) (Path r)
    (λ k, default "" ((list_to_map params : gmap string string) !! k))
    (ReqHeader r) (Body r) (RemoteAddr r) (ContextErr r).

Class Router (W : Type) : Type := chi : list (route W) → Handler W.

(** A request that one route matches is served by it; and the router itself does
    nothing but call the methods of the writer. *)
Class RouterSpec (W : Type) `{Router W} : Prop := {
  chi_match table r rt params : omap (match_route r) table = [(rt, params)] →
    ∀ R (RW : ResponseWriter R) (rw : R) w,
      chi table R RW rw r w = rt.2 R RW rw (with_params params r) w;
  chi_scripted table : Forall (λ rt : route W, scripted rt.2) table → scripted (chi table)
}.

Section Routes.
Context {W : Type} `{Json Metrics} `{Json (list Metrics)} `{FloatText}.
Variable now : M W Z.
Variable Execute : gmap string float64 → gmap string Z → string * err.

Definition routes (h : MetricsHandler (W := W)) : list (route W) :=
  [("POST", "/update/{type}/{name}/{value}", λ R RW, UpdateMetric now h);
   ("POST", "/update", λ R RW, UpdateMetricJSON now h);
   ("POST", "/update/", λ R RW, UpdateMetricJSON now h);
   ("POST", "/updates", λ R RW, UpdateMetricsJSON now h);
   ("POST", "/updates/", λ R RW, UpdateMetricsJSON now h);
   ("GET", "/value/{type}/{name}", λ R RW, GetValue h);
   ("POST", "/value", λ R RW, GetValueJSON h);
   ("POST", "/value/", λ R RW, GetValueJSON h);
   ("GET", "/ping", λ R RW, Ping h);
   ("GET", "/", λ R RW, ListMetrics Execute h)].

Lemma routes_scripted h : Forall (λ rt : route W, scripted rt.2) (routes h).
Proof. repeat constructor; cbn [snd]; auto with go. Qed.

(** The batch endpoint is reached by its two paths. *)
Lemma updates_route `{!Router W} `{!RouterSpec W} h r R (RW : ResponseWriter R) (rw : R) w :
  Method r = "POST" → Path r = "/updates/" ∨ Path r = "/updates" →
  chi (routes h) R RW rw r w = UpdateMetricsJSON now h rw (with_params [] r) w.
Proof.
  intros Hm Hp.
  assert (∃ p, omap (match_route r) (routes h) = [(("POST", p, λ R RW, UpdateMetricsJSON now h), [])]) as [p Hmatch].
  { unfold routes, match_route. rewrite Hm. destruct Hp as [-> | ->]; eexists; reflexivity. }
  by rewrite (chi_match _ _ _ _ Hmatch).
Qed.
End Routes.

(** ** A concrete router: the first route that matches *)
Definition first_route (W : Type) : Router W := λ table R RW rw r w,
  match omap (match_route r) table with
  | (rt, params) :: _ => rt.2 R RW rw (with_params params r) w
  | [] => (w, WriteHeader StatusNotFound rw)
  end.

Lemma match_route_Some {W} r (rt rt' : route W) params :
  match_route r rt = Some (rt', params) → rt' = rt.
Proof.
  unfold match_route. case_decide; [|done]. by intros (ps & _ & [= <- _])%bind_Some.
Qed.

Lemma first_route_ok W : @RouterSpec W (first_route W).
Proof.
  constructor.
  - intros table r rt params Hm R RW rw w. unfold chi, first_route. by rewrite Hm.
  - intros table Hall r w h0. unfold runs, chi, first_route.
    destruct (omap (match_route r) table) as [|[rt params] l] eqn:Hm.
    { exists w, [ActStatus StatusNotFound]. by split. }
    assert ((rt, params) ∈ omap (match_route r) table) as Hin by (rewrite Hm; by left).
    apply list_elem_of_omap in Hin as (rt' & Hin & Hrt). apply match_route_Some in Hrt as ->.
    rewrite Forall_forall in Hall. apply (Hall rt' Hin).
Qed.
