(* ===== verification/Grpc.v ===== *)
(** [internal/grpcapi]: the gRPC server with its interceptors, and the client.
    Messages are the values of the generated [pb] types; the transport between
    the two sides is a parameter. *)

From S2P Require Import Prelude GoErrors Metrics GoJson GoNet Delivery Repository Service Auditing.

(** ** Messages (internal/proto/metrics.proto) *)

Definition Metric_GAUGE : Z := 0.
Definition Metric_COUNTER : Z := 1.

(** The enum is open: [item_Type] is any int32. *)
Record Metric : Type := mkItem {
  item_Id : string;
  item_Type : Z;
  item_Delta : Z;
  item_Value : float64
}.

(** ** google.golang.org/grpc: status codes and metadata *)

Definition codes_Canceled : Z := 1.
Definition codes_Unknown : Z := 2.
Definition codes_InvalidArgument : Z := 3.
Definition codes_DeadlineExceeded : Z := 4.
Definition codes_AlreadyExists : Z := 6.
Definition codes_PermissionDenied : Z := 7.
Definition codes_Internal : Z := 13.
Definition codes_Unavailable : Z := 14.

Definition context_Canceled : string := "context canceled".
Definition context_DeadlineExceeded : string := "context deadline exceeded".

(** [status.FromContextError(err).Err()] *)
Definition FromContextError (e : error) : error :=
  if errors_Is context_DeadlineExceeded e then StatusErr codes_DeadlineExceeded (Error e)
  else if errors_Is context_Canceled e then StatusErr codes_Canceled (Error e)
  else StatusErr codes_Unknown (Error e).

(** A request context: the incoming metadata and [ctx.Err()]. *)
Record Ctx : Type := mkCtx {
  incoming : gmap string (list string);
  ctx_Err : err
}.

(** [metadata.ValueFromIncomingContext] *)
Definition ValueFromIncomingContext (ctx : Ctx) (k : string) : list string :=
  default [] (incoming ctx !! k).

(** A request may be nil, and so may each of its items. *)
Definition PbRequest : Type := option (list (option Metric)).

(** What a handler or an interceptor returns: [None] is the empty response. *)
Definition UnaryHandler (W : Type) : Type := Ctx → PbRequest → M W err.
Definition Interceptor (W : Type) : Type := Ctx → PbRequest → UnaryHandler W → M W err.

(** The fields of [tls.Config] the package looks at. *)
Record tlsConfig : Type := mkTLS {
  Certificates : nat;
  MinVersion : Z;
  InsecureSkipVerify : bool
}.
Definition VersionTLS12 : Z := 0x0303.

Definition at_least_tls12 (c : tlsConfig) : tlsConfig :=
  if decide (MinVersion c < VersionTLS12)%Z
  then mkTLS (Certificates c) VersionTLS12 (InsecureSkipVerify c) else c.

(** ** The server *)
Section Server.
Context {W : Type} `{Json (list Metrics)} `{Net}.
Variable now : M W Z.

Record metricsServer : Type := mkServer {
  srv_service : MetricsService W;
  srv_auditor : option (Observer W)
}.

(** One item of the request, checked and converted. *)
Definition convert_item (item : option Metric) : res Metrics :=
  match item with
  | None => Fail (StatusErr codes_InvalidArgument "metric id is required")
  | Some item =>
      if decide (item_Id item = "") then Fail (StatusErr codes_InvalidArgument "metric id is required")
      else if decide (item_Type item = Metric_GAUGE) then
        if float64_IsNaN (item_Value item) || float64_IsInf (item_Value item)
        then Fail (StatusErr codes_InvalidArgument "gauge must be finite")
        else Ok (mkMetrics (item_Id item) Gauge None (Some (item_Value item)) "")
      else if decide (item_Type item = Metric_COUNTER) then
        Ok (mkMetrics (item_Id item) Counter (Some (item_Delta item)) None "")
      else Fail (StatusErr codes_InvalidArgument "unknown metric type")
  end.

(** The loop over the items, which collects the metrics and their names. *)
Fixpoint convert_items (items : list (option Metric)) (metrics : list Metrics) (names : list string)
  : res (list Metrics * list string) :=
  match items with
  | [] => Ok (metrics, names)
  | item :: items =>
      match convert_item item with
      | Fail e => Fail e
      | Ok m => convert_items items (metrics ++ [m]) (names ++ [ID m])
      end
  end.

Definition UpdateMetrics (s : metricsServer) : UnaryHandler W := λ ctx request,
  match request with
  | None => ret (Some (StatusErr codes_InvalidArgument "request is required"))
  | Some items =>
      match
        match ValueFromIncomingContext ctx "idempotency-key" with
        | [] => Some ""
        | [key] => if ValidKey key then Some key else None
        | _ => None
        end
      with
      | None => ret (Some (StatusErr codes_InvalidArgument "invalid idempotency key"))
      | Some key =>
          match convert_items items [] [] with
          | Fail e => ret (Some e)
          | Ok (metrics, names) =>
              if decide (length metrics = 0) then ret None
              else match ctx_Err ctx with
              | Some e => ret (Some (FromContextError e))
              | None =>
                  let! ae := UpdateMetricsOnce (srv_service s) key metrics in
                  match ae with
                  | (_, Some e) =>
                      if errors_Is ErrConflict_text e
                      then ret (Some (StatusErr codes_AlreadyExists (Error e)))
                      else ret (Some (StatusErr codes_Internal "failed to store metrics"))
                  | (applied, None) =>
                      match srv_auditor s with
                      | Some notify =>
                          if (applied : bool) then
                            let ip :=
                              match ValueFromIncomingContext ctx "x-real-ip" with
                              | [ip] => ip
                              | _ => ""
                              end in
                            let! t := now in
                            notify (ctx_Err ctx) (mkEvent t names ip) ;; ret None
                          else ret None
                      | None => ret None
                      end
                  end
              end
          end
      end
  end.

Definition TrustedSubnet (cidr : string) : res (Interceptor W) :=
  let check (subnet : option IPNet) : Interceptor W := λ ctx req next,
    match subnet with
    | Some subnet =>
        match ValueFromIncomingContext ctx "x-real-ip" with
        | [v] =>
            if Contains subnet (ParseIP v) then next ctx req
            else ret (Some (StatusErr codes_PermissionDenied "IP is outside trusted subnet"))
        | _ => ret (Some (StatusErr codes_PermissionDenied "IP is outside trusted subnet"))
        end
    | None => next ctx req
    end in
  if decide (cidr ≠ "") then
    match ParseCIDR cidr with
    | Fail e => Fail (Wrap "parse gRPC trusted subnet" e)
    | Ok parsed => Ok (check (Some parsed))
    end
  else Ok (check None).

(** The logging interceptor: the log lines are not modelled. *)
Definition logging : Interceptor W := λ ctx req next,
  let! e := next ctx req in ret e.

(** [grpc.ChainUnaryInterceptor]: the first one is the outermost. *)
Definition chain (interceptors : list (Interceptor W)) (h : UnaryHandler W) : UnaryHandler W :=
  foldr (λ (i : Interceptor W) (next : UnaryHandler W) ctx req, i ctx req next) h interceptors.

(** The server: its TLS configuration and what it does with a call. *)
Definition NewServer (service : option (MetricsService W)) (subnet : string)
    (auditor : option (Observer W)) (tls : option tlsConfig) : res (tlsConfig * UnaryHandler W) :=
  match service with
  | None => Fail (Msg "metrics service is required")
  | Some service =>
      match tls with
      | None => Fail (Msg "gRPC TLS server certificate is required")
      | Some tls =>
          if decide (Certificates tls = 0) then Fail (Msg "gRPC TLS server certificate is required")
          else
            let interceptors :=
              if decide (subnet ≠ "") then
                match TrustedSubnet subnet with
                | Fail e => Fail e
                | Ok check => Ok [logging; check]
                end
              else Ok [logging] in
            match interceptors with
            | Fail e => Fail e
            | Ok interceptors =>
                Ok (at_least_tls12 tls, chain interceptors (UpdateMetrics (mkServer service auditor)))
            end
      end
  end.
End Server.
Arguments metricsServer W : clear implicits.

(** ** The client *)
Section Client.
Context {W : Type}.

(** [c.rpc.UpdateMetrics]: the outgoing metadata and the request, under a
    timeout of five seconds. *)
Definition RPC : Type := gmap string (list string) → PbRequest → M W err.

Record Client : Type := mkClient { rpc : RPC }.

(** The conversion of one metric. *)
Definition to_item (m : Metrics) : res Metric :=
  if decide (MType m = Gauge) then
    match Value m with
    | None => Fail (Msg ("gauge has no value"))
    | Some v => Ok (mkItem (ID m) Metric_GAUGE 0 v)
    end
  else if decide (MType m = Counter) then
    match Delta m with
    | None => Fail (Msg ("counter has no delta"))
    | Some d => Ok (mkItem (ID m) Metric_COUNTER d float64_zero)
    end
  else Fail (Msg "unknown metric type").

Fixpoint to_items (metrics : list Metrics) (items : list (option Metric))
  : res (list (option Metric)) :=
  match metrics with
  | [] => Ok items
  | m :: metrics =>
      match to_item m with
      | Fail e => Fail e
      | Ok item => to_items metrics (items ++ [Some item])
      end
  end.

Definition SendBatch (c : Client) (batch : Batch) : M W err :=
  let metrics := batch_Metrics batch in
  if decide (length metrics = 0) then ret None
  else if negb (ValidKey (batch_ID batch)) then ret (Some (Msg "invalid batch ID"))
  else match to_items metrics [] with
  | Fail e => ret (Some e)
  | Ok items =>
      let! e := rpc c {["idempotency-key" := [batch_ID batch]]} (Some items) in
      match e with
      | Some e => ret (Some (Wrap "send gRPC metrics" e))
      | None => ret None
      end
  end.

(** [src] are the random bytes a new identifier is made of. *)
Definition Send (c : Client) (src : list Z) (metrics : list Metrics) : M W err :=
  if decide (length metrics = 0) then ret None else SendBatch c (New src metrics).

(** The source address of the connection, set by the TLS handshake and sent as
    per-call metadata: [normalize] is [netip.ParseAddr] followed by
    [WithZone], [Unmap] and [String]. *)
Record ipAuthInfo : Type := mkAuthInfo { auth_ip : string }.

(** The credentials around those of TLS, of which [gRPC] takes a clone for each
    connection; the metadata is sent over secure connections only. *)
Record ipCredentials (C : Type) : Type := mkIpCredentials { TransportCredentials : C }.

Definition Clone {C} (inner_Clone : C → C) (c : ipCredentials C) : ipCredentials C :=
  mkIpCredentials C (inner_Clone (TransportCredentials C c)).

Definition RequireTransportSecurity : bool := true.

Definition ClientHandshake (normalize : string → res string) (inner : res bool) (localAddr : string)
  : res ipAuthInfo :=
  match inner with
  | Fail e => Fail e
  | Ok isTLS =>
      if negb isTLS then Fail (Msg "gRPC TLS handshake information unavailable")
      else match SplitHostPort (String.list_ascii_of_string localAddr) with
      | Fail e => Fail (Wrap "gRPC local address" e)
      | Ok (host, _) =>
          match normalize (String.string_of_list_ascii host) with
          | Fail e => Fail (Wrap "gRPC local IP" e)
          | Ok ip => Ok (mkAuthInfo ip)
          end
      end
  end.

(** [None] outside: no connection information; inside: not an [ipAuthInfo]. *)
Definition GetRequestMetadata (info : option (option ipAuthInfo)) : res (gmap string string) :=
  match info with
  | None => Fail (Msg "gRPC connection information unavailable")
  | Some None => Fail (Msg "gRPC source IP unavailable")
  | Some (Some auth) => Ok {["x-real-ip" := auth_ip auth]}
  end.

(** [dial] is [grpc.NewClient] and [pb.NewMetricsClient]. *)
Definition NewClient (dial : string → tlsConfig → res RPC) (address : string)
    (tls : option tlsConfig) : res Client :=
  match tls with
  | None => Fail (Msg "verified gRPC TLS configuration is required")
  | Some tls =>
      if InsecureSkipVerify tls then Fail (Msg "verified gRPC TLS configuration is required")
      else match dial address (at_least_tls12 tls) with
      | Fail e => Fail (Wrap "create gRPC client" e)
      | Ok conn => Ok (mkClient conn)
      end
  end.
End Client.
Arguments RPC W : clear implicits.
Arguments Client W : clear implicits.

(** ** Lemmas *)

(** A metric the agent sends: named, typed, with a finite value. *)
Definition sendable (m : Metrics) : Prop :=
  ID m ≠ "" ∧
  ((∃ v, MType m = Gauge ∧ Value m = Some v ∧ float64_finite v = true) ∨
   (∃ d, MType m = Counter ∧ Delta m = Some d)).

(** The metric as it arrives: only the field of its type, and no hash. *)
Definition received (m : Metrics) : Metrics :=
  if decide (MType m = Gauge) then mkMetrics (ID m) Gauge None (Value m) ""
  else mkMetrics (ID m) Counter (Delta m) None "".

Lemma received_effect m : sendable m → effect_of (received m) = effect_of m.
Proof.
  pose proof Gauge_Counter as Hgc.
  intros (_ & [(v & Ht & Hv & _)|(d & Ht & Hd)]); unfold received, effect_of; rewrite Ht.
  - by rewrite Hv.
  - by rewrite Hd.
Qed.

Lemma item_roundtrip m :
  sendable m → ∃ item, to_item m = Ok item ∧ convert_item (Some item) = Ok (received m).
Proof.
  pose proof Gauge_Counter as Hgc.
  intros (Hid & [(v & Ht & Hv & Hf)|(d & Ht & Hd)]); unfold to_item, received; rewrite Ht.
  - rewrite decide_True, Hv by done. eexists. split; [done|]. unfold convert_item.
    cbn [item_Id item_Type item_Value]. rewrite decide_False, decide_True by done.
    unfold float64_finite in Hf. by destruct (_ || _).
  - rewrite decide_False, decide_True, Hd by done. eexists. split; [done|]. unfold convert_item.
    cbn [item_Id item_Type item_Delta]. by rewrite !decide_False, decide_True by done.
Qed.

Lemma items_roundtrip ms items acc names :
  Forall sendable ms →
  ∃ new, to_items ms items = Ok (items ++ new) ∧ length new = length ms ∧
    convert_items new acc names = Ok (acc ++ map received ms, names ++ map ID ms).
Proof.
  intros Hms. revert items acc names. induction Hms as [|m ms Hm Hms IH]; intros items acc names.
  { exists []. simpl. by rewrite !app_nil_r. }
  destruct (item_roundtrip m Hm) as (item & Hto & Hfrom).
  destruct (IH (items ++ [Some item]) (acc ++ [received m]) (names ++ [ID (received m)]))
    as (new & Ht & Hlen & Hc).
  exists (Some item :: new). cbn [to_items convert_items map length]. rewrite Hto, Hfrom, Ht, Hc.
  rewrite <-!app_assoc. simpl. assert (ID (received m) = ID m) as ->.
  { unfold received. by case_decide. }
  split_and!; [done|by rewrite Hlen|done].
Qed.

(** The items that are refused. *)
Definition item_ok (item : option Metric) : bool :=
  match convert_item item with Ok _ => true | Fail _ => false end.

Lemma convert_item_code item e :
  convert_item item = Fail e → ∃ text, e = StatusErr codes_InvalidArgument text.
Proof.
  unfold convert_item. destruct item as [item|]; [|intros [= <-]; eauto].
  repeat case_decide; try case_match; intros; simplify_eq; eauto.
Qed.

Lemma convert_items_refused items acc names :
  forallb item_ok items = false →
  ∃ text, convert_items items acc names = Fail (StatusErr codes_InvalidArgument text).
Proof.
  revert acc names. induction items as [|item items IH]; intros acc names; simpl; [done|].
  unfold item_ok at 1. destruct (convert_item item) as [m|e] eqn:Hc; simpl; [by apply IH|].
  intros _. destruct (convert_item_code _ _ Hc) as [text ->]. eauto.
Qed.

(** ** Properties *)

Section Properties.
Context {W : Type} `{Json (list Metrics)} `{Net}.
Variable now : M W Z.

(** C9: client and server compose: over a transport that delivers the call, sending
    a batch of named, finite metrics is the keyed update of the service under
    the batch's own identifier, with the same increments and the same gauges;
    the client sees an error exactly when the service reports one, with the
    code AlreadyExists for a conflict and Internal otherwise. *)
Theorem SendBatch_delivers (s : MetricsService W) batch w :
  ValidKey (batch_ID batch) = true → Forall sendable (batch_Metrics batch) →
  batch_Metrics batch ≠ [] →
  let transport md req := UpdateMetrics now (mkServer s None) (mkCtx md None) req in
  let metrics := map received (batch_Metrics batch) in
  let '(w', (applied, e)) := UpdateMetricsOnce s (batch_ID batch) metrics w in
  (SendBatch (mkClient transport) batch w =
    (w', match e with
         | None => None
         | Some e => Some (Wrap "send gRPC metrics"
             (if errors_Is ErrConflict_text e then StatusErr codes_AlreadyExists (Error e)
              else StatusErr codes_Internal "failed to store metrics"))
         end)) ∧
  (∀ name, total_delta name metrics = total_delta name (batch_Metrics batch)) ∧
  (∀ c, apply_batch c metrics = apply_batch c (batch_Metrics batch)).
Proof.
  intros Hkey Hms Hne. cbn zeta.
  destruct (UpdateMetricsOnce s (batch_ID batch) (map received (batch_Metrics batch)) w)
    as [w' [applied e]] eqn:Hu.
  split_and!.
  - destruct (items_roundtrip (batch_Metrics batch) [] [] [] Hms) as (items & Hto & Hlen & Hfrom).
    unfold SendBatch. destruct (decide (length (batch_Metrics batch) = 0)) as [Hl|_].
    { by apply nil_length_inv in Hl. }
    rewrite Hkey, Hto. cbn [negb rpc app]. unfold UpdateMetrics, ValueFromIncomingContext, bind.
    cbn [incoming ctx_Err]. rewrite lookup_singleton_eq. cbn [default from_option id].
    rewrite Hkey, Hfrom. cbn [app].
    destruct (decide (length (map received (batch_Metrics batch)) = 0)) as [Hl|_].
    { rewrite length_map in Hl. by apply nil_length_inv in Hl. }
    cbn [srv_service srv_auditor]. rewrite Hu. destruct e as [e|]; [|done].
    by destruct (errors_Is ErrConflict_text e).
  - intros name. unfold total_delta. f_equal. rewrite List.map_map. apply map_ext_Forall.
    eapply Forall_impl; [done|]. intros m Hm. unfold delta_of. by rewrite received_effect.
  - clear Hu Hne. induction Hms as [|m ms Hm Hms IH]; intros c; [done|].
    cbn [map apply_batch foldl]. unfold apply_batch in *. cbn [foldl].
    by rewrite received_effect, IH.
Qed.

(** The server refuses before it stores: a nil request, a malformed or repeated
    key, an item that is nil, unnamed, of an unknown type or a gauge that is
    not finite anywhere in the batch is InvalidArgument, and a cancelled call
    its context's code; the world, audit included, is then as it was. *)
Theorem UpdateMetrics_refuses (s : metricsServer W) ctx request w :
  let '(w', e) := UpdateMetrics now s ctx request w in
  match request with
  | None => w' = w ∧ e = Some (StatusErr codes_InvalidArgument "request is required")
  | Some items =>
      (2 ≤ length (ValueFromIncomingContext ctx "idempotency-key") ∨
       (∃ key, ValueFromIncomingContext ctx "idempotency-key" = [key] ∧ ValidKey key = false) ∨
       forallb item_ok items = false →
       w' = w ∧ ∃ text, e = Some (StatusErr codes_InvalidArgument text)) ∧
      (items = [] → w' = w) ∧
      (ctx_Err ctx ≠ None → w' = w)
  end.
Proof.
  destruct (UpdateMetrics now s ctx request w) as [w' e] eqn:Hu. revert Hu.
  unfold UpdateMetrics. destruct request as [items|]; [|by intros [= <- <-]].
  destruct (ValueFromIncomingContext ctx "idempotency-key") as [|key [|key' keys]].
  - destruct (forallb item_ok items) eqn:Hall.
    + intros Hu. split_and!; [intros [Hl|[(k & ? & _)|?]]; simpl in *; [lia|done|done]| |].
      * intros ->. simpl in Hu. by injection Hu as <- _.
      * intros Hc. destruct (convert_items items [] []) as [[ms names]|e']; [|by injection Hu as <- _].
        case_decide; [by injection Hu as <- _|]. destruct (ctx_Err ctx); [by injection Hu as <- _|done].
    + destruct (convert_items_refused items [] [] Hall) as [text ->]. intros [= <- <-]. eauto.
  - destruct (ValidKey key) eqn:Hk; [|intros [= <- <-]; eauto].
    destruct (forallb item_ok items) eqn:Hall.
    + intros Hu. split_and!; [intros [Hl|[(k & ? & ?)|?]]; simplify_eq/=; lia || congruence| |].
      * intros ->. simpl in Hu. by injection Hu as <- _.
      * intros Hc. destruct (convert_items items [] []) as [[ms names]|e']; [|by injection Hu as <- _].
        case_decide; [by injection Hu as <- _|]. destruct (ctx_Err ctx); [by injection Hu as <- _|done].
    + destruct (convert_items_refused items [] [] Hall) as [text ->]. intros [= <- <-]. eauto.
  - intros [= <- <-]. eauto.
Qed.

(** C36: a server built with a trusted subnet answers PermissionDenied, before it
    looks at the request and without touching the world, to every call that
    does not carry exactly one source address of the subnet; an address that
    does not parse is outside.  It serves over TLS 1.2 or later only, and it
    is not built without a certificate. *)
Theorem NewServer_guards `{!NetSpec} service subnet auditor tls tls' handler :
  NewServer now service subnet auditor tls = Ok (tls', handler) →
  (VersionTLS12 ≤ MinVersion tls')%Z ∧ Certificates tls' ≠ 0 ∧
  (subnet ≠ "" → ∃ net, ParseCIDR subnet = Ok net ∧
    ∀ ctx req w,
      (∀ v, ValueFromIncomingContext ctx "x-real-ip" = [v] →
         ParseIP v = None ∨ Contains net (ParseIP v) = false) →
      handler ctx req w = (w, Some (StatusErr codes_PermissionDenied "IP is outside trusted subnet"))).
Proof.
  unfold NewServer. destruct service as [service|]; [|done]. destruct tls as [tls|]; [|done].
  destruct (decide (Certificates tls = 0)) as [|Hcert]; [done|].
  assert ((VersionTLS12 ≤ MinVersion (at_least_tls12 tls))%Z ∧ Certificates (at_least_tls12 tls) ≠ 0)
    as [Hv Hc].
  { unfold at_least_tls12. case_decide; simpl; split; done || lia. }
  destruct (decide (subnet ≠ "")) as [Hs|Hs].
  - unfold TrustedSubnet. rewrite decide_True by done.
    destruct (ParseCIDR subnet) as [net|e]; [|done]. intros [= <- <-].
    split_and!; [done|done|]. intros _. exists net. split; [done|].
    intros ctx req w Hout. simpl. unfold logging, bind.
    destruct (ValueFromIncomingContext ctx "x-real-ip") as [|v [|v' vs]]; [done| |done].
    destruct (Hout v eq_refl) as [Hp|Hp].
    + by rewrite Hp, Contains_nil.
    + by rewrite Hp.
  - intros [= <- <-]. split_and!; [done|done|]. intros Hs'. by destruct Hs.
Qed.
End Properties.
