(* ===== verification/Transports.v ===== *)
(** The two transports of the server side by side: the HTTP batch endpoint of
    [internal/handler] and the gRPC service of [internal/grpcapi]. *)

From S2P Require Import Prelude GoErrors Metrics GoJson GoNet Delivery Repository Memory SaveFile.
From S2P Require Import GoHttp Service Auditing Handler Grpc.

(** The code of a gRPC answer, and the HTTP status it stands for. *)
Definition grpc_code (e : err) : Z :=
  match e with
  | None => 0
  | Some (StatusErr c _) => c
  | Some _ => codes_Unknown
  end.

Definition http_of_grpc (code : Z) : Z :=
  if decide (code = 0)%Z then StatusOK
  else if decide (code = codes_InvalidArgument) then StatusBadRequest
  else if decide (code = codes_AlreadyExists) then StatusConflict
  else StatusInternalServerError.

(** The JSON metric that says what an item of a gRPC call says; a missing item is a
    JSON null, which decodes to the zero metric. *)
Definition json_item (item : option Metric) : Metrics :=
  match item with
  | None => mkMetrics "" "" None None ""
  | Some item =>
      if decide (item_Type item = Metric_GAUGE) then mkMetrics (item_Id item) Gauge None (Some (item_Value item)) ""
      else if decide (item_Type item = Metric_COUNTER) then mkMetrics (item_Id item) Counter (Some (item_Delta item)) None ""
      else mkMetrics (item_Id item) "" None None ""
  end.

(** JSON has no NaN and no infinities. *)
Definition finite_metric (m : Metrics) : Prop := ∀ v, Value m = Some v → float64_finite v = true.

(** One item is taken by both transports, or refused by both. *)
Lemma json_item_checked item :
  finite_metric (json_item item) →
  match convert_item item with
  | Ok m => m = json_item item ∧ validateUpdateMetric (json_item item) = StatusOK
  | Fail e => (∃ text, e = StatusErr codes_InvalidArgument text) ∧
      (validateUpdateMetric (json_item item) = StatusBadRequest ∨
       validateUpdateMetric (json_item item) = StatusNotFound ∧ ID (json_item item) = "")
  end.
Proof.
  unfold finite_metric, json_item, convert_item. destruct item as [[id t d v]|]; cbn [item_Id item_Type item_Delta item_Value].
  2: { intros _. split; [by eexists|by right]. }
  assert ((Gauge : string) ≠ Counter) as Hgc by apply Gauge_Counter.
  destruct (decide (t = Metric_GAUGE)) as [Hg|Hg]; [|destruct (decide (t = Metric_COUNTER)) as [Hc|Hc]]; cbn [Value];
    unfold validateUpdateMetric; cbn [ID MType Value Delta]; intros Hfin;
    destruct (decide (id = "")) as [|Hid]; try (split; [by eexists|by right]).
  - specialize (Hfin v eq_refl). unfold float64_finite in Hfin. apply negb_true_iff in Hfin. rewrite Hfin.
    split; [done|]. by rewrite decide_True.
  - split; [done|]. rewrite decide_False by done. by rewrite decide_True.
  - split; [by eexists|]. left. by rewrite !decide_False by done.
Qed.

(** So are whole batches, with the same names for the audit. *)
Lemma json_items_checked items acc names :
  Forall finite_metric (map json_item items) →
  match convert_items items acc names with
  | Ok (ms, ns) => ms = acc ++ map json_item items ∧ ns = names ++ map ID (map json_item items) ∧
      validate_all (map json_item items) = None
  | Fail e => (∃ text, e = StatusErr codes_InvalidArgument text) ∧
      (validate_all (map json_item items) = Some StatusBadRequest ∨
       validate_all (map json_item items) = Some StatusNotFound ∧ ∃ m, m ∈ map json_item items ∧ ID m = "")
  end.
Proof.
  revert acc names. induction items as [|item items IH]; intros acc names; cbn [convert_items map validate_all].
  { intros _. by rewrite !app_nil_r. }
  intros [Hi Hall]%Forall_cons. pose proof (json_item_checked item Hi) as Hc.
  destruct (convert_item item) as [m|e].
  - destruct Hc as [-> Hok]. rewrite decide_False by (rewrite Hok; by intros []).
    specialize (IH (acc ++ [json_item item]) (names ++ [ID (json_item item)]) Hall).
    destruct (convert_items items _ _) as [[ms ns]|e].
    + destruct IH as (-> & -> & ?). by rewrite <-!app_assoc.
    + destruct IH as [He [Hv|[Hv (m & Hm & Hid)]]]; (split; [done|]); [by left|right].
      split; [done|]. exists m. split; [by apply list_elem_of_further|done].
  - destruct Hc as [He [Hv|[Hv Hid]]]; (split; [done|]); rewrite Hv.
    + left. by rewrite decide_True.
    + right. rewrite decide_True by done. split; [done|]. eexists. split; [apply list_elem_of_here|done].
Qed.

(** The address of the audit events of a gRPC call. *)
Definition caller_ip (ctx : Ctx) : string :=
  match ValueFromIncomingContext ctx "x-real-ip" with [ip] => ip | _ => "" end.

(** C10: the two transports agree, audit included.  The same batch, valid, invalid or
    empty, under the same keys and from the same address, sent as JSON to
    [/updates] or as a gRPC call that is not cancelled, to handlers with the same
    service and the same auditor if any, changes the world in the same way: the
    same storage and the same audit events, once, for the same names and at the
    same point.  The answers correspond: 200 to OK, 400 to InvalidArgument, 409 to
    AlreadyExists and 500 to Internal; but a metric without a name is 404 over HTTP
    and InvalidArgument over gRPC. *)
Theorem transports_agree {W} `{Json (list Metrics)} (now : M W Z) (h : MetricsHandler) (srv : metricsServer W)
    (r : Request) ctx items w :
  service h = srv_service srv → auditor h = srv_auditor srv →
  decode_body r = Ok (map json_item items) → Forall finite_metric (map json_item items) →
  Header_Values Delivery.Header (ReqHeader r) = ValueFromIncomingContext ctx "idempotency-key" →
  requestIP (RemoteAddr r) = caller_ip ctx → ContextErr r = None → ctx_Err ctx = None →
  let '(w1, rw) := UpdateMetricsJSON now h fresh_response r w in
  let '(w2, e) := Grpc.UpdateMetrics now srv ctx (Some items) w in
  w1 = w2 ∧
  (final_status rw = http_of_grpc (grpc_code e) ∨
   final_status rw = StatusNotFound ∧ grpc_code e = codes_InvalidArgument ∧
     ∃ m, m ∈ map json_item items ∧ ID m = "").
Proof.
  intros Hs Ha Hd Hfin Hkv Hip Hcr Hctx. unfold UpdateMetricsJSON. rewrite Hd.
  pose proof (json_items_checked items [] [] Hfin) as Hi.
  unfold storeBatch, Grpc.UpdateMetrics, bind. rewrite Hkv, Hs.
  set (key := match ValueFromIncomingContext ctx "idempotency-key" with
    | [] => Some "" | [key] => if ValidKey key then Some key else None | _ => None end).
  destruct (convert_items items [] []) as [[ms ns]|e].
  2: { destruct Hi as [[text ->] Hi]. destruct key as [key|]; destruct Hi as [->|[-> Hn]]; cbn; (split; [done|]);
       [by left|by right|by left|by right]. }
  destruct Hi as (-> & -> & ->). cbn [app]. destruct key as [key|]; [|by split; [|left]].
  destruct (decide (length (map json_item items) = 0)) as [Hl|Hne].
  { apply nil_length_inv in Hl. rewrite Hl. cbn -[final_status write_json SetHeader].
    split; [done|]. left. by rewrite final_status_json. }
  rewrite Hctx. destruct (UpdateMetricsOnce (srv_service srv) key (map json_item items) w) as [w' [applied [e|]]].
  { destruct (errors_Is ErrConflict_text e); by split; [|left]. }
  unfold audit. rewrite Ha, metricNames_eq. destruct applied, (srv_auditor srv) as [notify|];
    cbn -[final_status write_json SetHeader]; try (split; [done|]; left; by rewrite final_status_json).
  rewrite decide_False by by rewrite length_map. unfold bind, NewEvent. rewrite Hcr, Hip. unfold caller_ip.
  destruct (now w') as [w1 t]. destruct (notify None _ w1) as [w2 e2].
  cbn -[final_status write_json SetHeader]. split; [done|]. left. by rewrite final_status_json.
Qed.

(** ** Concrete runs, over the in-memory storage *)

Definition mem_service : MetricsService MemStorage :=
  NewMetricsService MemStorage_MetricsRepository (Some MemStorage_MetricsBatchRepository)
    (Some MemStorage_IdempotentRepository).

Definition run_key : string := "0123456789abcdef0123456789abcdef".
Definition run_batch : list Metrics := [counter_metric "PollCount" 5].
Definition run_items : list (option Metric) := [Some (mkItem "PollCount" Metric_COUNTER 5 float64_zero)].

(** A network whose addresses are texts: a subnet is the prefix of its members. *)
Definition text_net : Net := {|
  IP := string;
  IPNet := string;
  ParseIP s := if decide (s = "") then None else Some s;
  ParseCIDR s := Ok s;
  Contains n ip := match ip with Some ip => String.prefix n ip | None => false end
|}.

Lemma text_net_ok : @NetSpec text_net.
Proof. by constructor. Qed.

(** The in-memory storage beside a log of audit events. *)
Definition Logged : Type := MemStorage * list Event.
Definition unlogged {A} (m : M MemStorage A) : M Logged A := λ '(s, log), let '(s', a) := m s in ((s', log), a).

Definition Logged_MetricsRepository : MetricsRepository Logged := {|
  Repository.UpdateGauge n v := unlogged (Memory.UpdateGauge n v);
  Repository.UpdateCounter n d := unlogged (Memory.UpdateCounter n d);
  Repository.GetGauge n := unlogged (Memory.GetGauge n);
  Repository.GetCounter n := unlogged (Memory.GetCounter n);
  Repository.GetAllGauges := unlogged (λ s, Memory.GetAllGauges (map_to_list (gauges s)) s);
  Repository.GetAllCounters := unlogged (λ s, Memory.GetAllCounters (map_to_list (counters s)) s)
|}.
Definition Logged_IdempotentRepository : IdempotentRepository Logged :=
  {| Repository.UpdateMetricsOnce k fp ms := unlogged (Memory.UpdateMetricsOnce k fp ms) |}.

Definition logged_service : MetricsService Logged :=
  NewMetricsService Logged_MetricsRepository None (Some Logged_IdempotentRepository).
Definition log_event : Observer Logged := λ _ ev '(s, log), ((s, log ++ [ev]), None).

Definition logged_handler : MetricsHandler := NewMetricsHandlerWithDBAndAudit logged_service None (Some log_event).
Definition logged_server : metricsServer Logged := mkServer logged_service (Some log_event).

Definition run_request : Request :=
  mkRequest "POST" "/updates/" "/updates/" (λ _, "") (Header_Set Delivery.Header run_key ∅)
    (NopCloser (match @json_Marshal _ metrics_codec run_batch with Ok s => s | Fail _ => "" end)) "10.0.0.1:50100" None.
Definition run_ctx : Ctx := mkCtx {["idempotency-key" := [run_key]; "x-real-ip" := ["10.0.0.1"]]} None.

Definition run_http (w : Logged) : Logged * Response :=
  @UpdateMetricsJSON Logged metrics_codec (ret 7%Z) _ _ logged_handler fresh_response run_request w.
Definition run_grpc (w : Logged) : Logged * err :=
  @Grpc.UpdateMetrics Logged metrics_codec (ret 7%Z) logged_server run_ctx (Some run_items) w.

Lemma transports_agree_witness :
  (run_http (NewMemStorage, [])).1 = (run_grpc (NewMemStorage, [])).1 ∧
  (run_grpc (NewMemStorage, [])).1.2 = [mkEvent 7 ["PollCount"] "10.0.0.1"].
Proof.
  split; [|by vm_compute].
  assert (Forall finite_metric (map json_item run_items)) as Hfin by (repeat constructor; by intros v [=]).
  pose proof (@transports_agree Logged metrics_codec (ret 7%Z) logged_handler logged_server run_request run_ctx run_items
    (NewMemStorage, []) eq_refl eq_refl ltac:(by vm_compute) Hfin ltac:(by vm_compute) ltac:(by vm_compute)
    eq_refl eq_refl) as Hagree.
  unfold run_http, run_grpc.
  destruct (UpdateMetricsJSON _ _ _ _ _) as [w1 rw], (Grpc.UpdateMetrics _ _ _ _ _) as [w2 e].
  by destruct Hagree as [? _].
Defined.

Lemma SendBatch_delivers_witness :
  let transport md req := @Grpc.UpdateMetrics MemStorage metrics_codec (ret 0%Z)
    (mkServer mem_service None) (mkCtx md None) req in
  let '(w', e) := SendBatch (mkClient transport) (mkBatch run_key run_batch) NewMemStorage in
  e = None ∧ counters w' !! "PollCount" = Some 5%Z.
Proof.
  pose proof (@SendBatch_delivers MemStorage metrics_codec (ret 0%Z) mem_service
    (mkBatch run_key run_batch) NewMemStorage ltac:(by vm_compute)) as Hsend.
  cbn zeta in *.
  assert (Forall sendable run_batch) as Hrun.
  { apply Forall_singleton. split; [done|]. right. by exists 5%Z. }
  specialize (Hsend Hrun ltac:(done)).
  destruct (@UpdateMetricsOnce MemStorage metrics_codec mem_service run_key
    (map received run_batch) NewMemStorage) as [w' [applied e]] eqn:Hu.
  cbn [batch_ID batch_Metrics] in Hsend. rewrite Hu in Hsend. destruct Hsend as (Heq & _ & _).
  rewrite Heq. assert (e = None) as ->.
  { transitivity ((w', (applied, e)).2.2); [done|]. rewrite <-Hu. by vm_compute. }
  split; [done|]. assert (w' = (w', (applied, None : err)).1) as -> by done. rewrite <-Hu. by vm_compute.
Defined.

Lemma NewServer_guards_witness :
  match @NewServer MemStorage metrics_codec text_net (ret 0%Z) (Some mem_service) "10." None
    (Some (mkTLS 1 0x0301 false)) with
  | Fail _ => False
  | Ok (tls, handler) => MinVersion tls = VersionTLS12 ∧
      handler (mkCtx {["x-real-ip" := ["192.168.0.1"]]} None) (Some run_items) NewMemStorage =
        (NewMemStorage, Some (StatusErr codes_PermissionDenied "IP is outside trusted subnet"))
  end.
Proof.
  destruct (@NewServer MemStorage metrics_codec text_net (ret 0%Z) (Some mem_service) "10." None
    (Some (mkTLS 1 0x0301 false))) as [[tls handler]|] eqn:Hn; [|done].
  destruct (@NewServer_guards MemStorage metrics_codec text_net (ret 0%Z) text_net_ok
    (Some mem_service) "10." None (Some (mkTLS 1 0x0301 false)) tls handler Hn) as (_ & _ & Hs).
  split; [by injection Hn as <- _|]. destruct (Hs ltac:(done)) as (net & Hnet & Hout).
  apply Hout. intros v [= <-]. right. by injection Hnet as <-.
Defined.
