(* ===== verification/Agent.v ===== *)
(** [internal/agent]: the agent's construction, its collection of metrics, the
    sending of batches and the sequential report.  The concurrent report loop
    is in AgentLoop. *)

From S2P Require Import Prelude GoErrors Metrics GoJson GoNet GoStrconv GoCrypto Delivery Signature Retry.
From S2P Require Import GoHttp Encryption Grpc Store.

Definition errRetriableSend_text : string := "retriable send error".
Definition errRetriableSend : error := Sentinel errRetriableSend_text.

(** [status.Code(err)] for a non-nil error: the code of the first status in the
    tree, Unknown when there is none. *)
Fixpoint status_of (e : error) : option Z :=
  match e with
  | StatusErr c _ => Some c
  | Sentinel _ | Msg _ | PqError _ => None
  | Wrap _ e => status_of e
  | WrapBoth e1 _ e2 => match status_of e1 with Some c => Some c | None => status_of e2 end
  | Joined es =>
      (fix go es := match es with
       | [] => None
       | e :: es => match status_of e with Some c => Some c | None => go es end
       end) es
  end.

Definition status_Code (e : error) : Z := default codes_Unknown (status_of e).

Definition isRetriableSendError (e : error) : bool :=
  errors_Is errRetriableSend_text e || bool_decide (status_Code e = codes_Unavailable).

(** ** HTTP requests of the agent *)

(** [GotConn] is the trace hook: given the local address of the connection, it
    changes the headers before they are sent. *)
Record HTTPRequest : Type := mkHTTPRequest {
  req_URL : string;
  req_Header : header;
  req_Body : text;
  req_GotConn : string → header → header
}.

(** The hook of [withRealIP] (realip.go); [normalize] is [netip.ParseAddr]
    followed by [WithZone], [Unmap] and [String]. *)
Definition withRealIP (normalize : string → res string) (r : HTTPRequest) : HTTPRequest :=
  mkHTTPRequest (req_URL r) (req_Header r) (req_Body r)
    (λ localAddr header,
      match SplitHostPort (String.list_ascii_of_string localAddr) with
      | Fail _ => header
      | Ok (host, _) =>
          match normalize (String.string_of_list_ascii host) with
          | Fail _ => header
          | Ok ip => Header_Set "X-Real-IP" ip header
          end
      end).

(** [gzip.Writer] over a buffer: what one write and the close yield. *)
Record Gzip : Type := mkGzip {
  gz_Write : text → err;
  gz_Close : text → res text   (* the compressed bytes of what was written *)
}.

Section Agent.
(** The world beyond the agent: the network and the servers. *)
Context {W : Type} `{Json (list Metrics)} `{Ciphers}.
Variable gzip : Gzip.
Variable normalize : string → res string.
(** [http.NewRequest]'s error for a URL, and the random bytes of an encryption. *)
Variable newRequest : string → err.
Variable rand_Read : M W Random.

(** The configuration: everything that is fixed once the agent runs.  The store
    is kept in the state below. *)
Record Agent : Type := mkAgent {
  sender : option (Batch → M W err);
  pollInterval : Z;
  reportInterval : Z;
  serverURL : string;
  client : HTTPRequest → M W (res Z);    (* client.Do: a status code or an error *)
  a_store : Store;
  key : string;
  publicKey : option PublicKey;
  rateLimit : Z;
  retrySleep : Z → M W unit
}.

Definition Opt : Type := Agent → Agent.

Definition WithBatchSender (s : option (Batch → M W err)) : Opt := λ a,
  mkAgent s (pollInterval a) (reportInterval a) (serverURL a) (client a) (a_store a) (key a)
    (publicKey a) (rateLimit a) (retrySleep a).
Definition WithHTTPClient (c : option (HTTPRequest → M W (res Z))) : Opt := λ a,
  match c with
  | None => a
  | Some c =>
      mkAgent (sender a) (pollInterval a) (reportInterval a) (serverURL a) c (a_store a) (key a)
        (publicKey a) (rateLimit a) (retrySleep a)
  end.
Definition WithStore (s : option Store) : Opt := λ a,
  match s with
  | None => a
  | Some s =>
      mkAgent (sender a) (pollInterval a) (reportInterval a) (serverURL a) (client a) s (key a)
        (publicKey a) (rateLimit a) (retrySleep a)
  end.
Definition WithKey (k : string) : Opt := λ a,
  mkAgent (sender a) (pollInterval a) (reportInterval a) (serverURL a) (client a) (a_store a) k
    (publicKey a) (rateLimit a) (retrySleep a).
Definition WithPublicKey (k : option PublicKey) : Opt := λ a,
  mkAgent (sender a) (pollInterval a) (reportInterval a) (serverURL a) (client a) (a_store a) (key a)
    k (rateLimit a) (retrySleep a).
Definition WithRateLimit (n : Z) : Opt := λ a,
  mkAgent (sender a) (pollInterval a) (reportInterval a) (serverURL a) (client a) (a_store a) (key a)
    (publicKey a) n (retrySleep a).
Definition WithRetrySleep (sleep : option (Z → M W unit)) : Opt := λ a,
  match sleep with
  | None => a
  | Some sleep =>
      mkAgent (sender a) (pollInterval a) (reportInterval a) (serverURL a) (client a) (a_store a)
        (key a) (publicKey a) (rateLimit a) sleep
  end.

Definition validate (a : Agent) : err :=
  if decide (serverURL a = "") then Some (Msg "server URL is required")
  else if decide (pollInterval a <= 0)%Z then Some (Msg "poll interval must be positive")
  else if decide (reportInterval a <= 0)%Z then Some (Msg "report interval must be positive")
  else if decide (rateLimit a <= 0)%Z then Some (Msg "rate limit must be positive")
  else None.

(** [defaultClient] is the client with a timeout of five seconds, and
    [time_Sleep] the standard sleep. *)
Definition NewAgent (defaultClient : HTTPRequest → M W (res Z)) (time_Sleep : Z → M W unit)
    (serverURL : string) (pollInterval reportInterval : Z) (options : list (option Opt))
  : res Agent :=
  let agent := mkAgent None pollInterval reportInterval serverURL defaultClient NewStore "" None 1
    time_Sleep in
  let agent := foldl (λ a (o : option Opt), match o with Some o => o a | None => a end) agent options in
  match validate agent with
  | Some e => Fail e
  | None => Ok agent
  end.

(** ** Sending a batch *)

(** The headers of a batch request. *)
Definition request_headers (a : Agent) (hash batchID : string) : header :=
  let h : header := ∅ in
  let h := Header_Set Delivery.Header batchID h in
  let h := Header_Set "Content-Type" "application/json" h in
  let h := Header_Set "Content-Encoding" "gzip" h in
  let h := Header_Set "Accept-Encoding" "gzip" h in
  let h := if decide (publicKey a ≠ None) then Header_Set Encryption.Header Algorithm h else h in
  if decide (hash ≠ "") then Header_Set Signature.Header hash h else h.

Definition sendCompressedMetrics (a : Agent) (body : text) (hash batchID : string) : M W err :=
  let url := serverURL a +:+ "/updates/" in
  match newRequest url with
  | Some e => ret (Some (Wrap "create request" e))
  | None =>
      let req := mkHTTPRequest url (request_headers a hash batchID) body (λ _ h, h) in
      let! resp := client a (withRealIP normalize req) in
      match resp with
      | Fail e => ret (Some (WrapBoth errRetriableSend "send request" e))
      | Ok statusCode =>
          if decide (statusCode ≠ 200)%Z then ret (Some (Msg "unexpected status code")) else ret None
      end
  end.

Definition sendBatch (a : Agent) (batch : Batch) : M W err :=
  let metrics := batch_Metrics batch in
  if decide (length metrics = 0) then ret None
  else match sender a with
  | Some send => DoWithSleeper (send batch) isRetriableSendError (retrySleep a)
  | None =>
      match json_Marshal metrics with
      | Fail e => ret (Some (Wrap "marshal metrics" e))
      | Ok body =>
          match gz_Write gzip (String.list_ascii_of_string body) with
          | Some e => ret (Some (Wrap "compress metrics" e))
          | None =>
              match gz_Close gzip (String.list_ascii_of_string body) with
              | Fail e => ret (Some (Wrap "close compressor" e))
              | Ok compressed =>
                  let hash := if decide (key a ≠ "") then Calculate body (key a) else "" in
                  let! payload :=
                    match publicKey a with
                    | None => ret (Ok compressed)
                    | Some pk => let! rnd := rand_Read in ret (Encrypt rnd (Some pk) compressed)
                    end in
                  match payload with
                  | Fail e => ret (Some (Wrap "encrypt metrics" e))
                  | Ok payload =>
                      DoWithSleeper (sendCompressedMetrics a payload hash (batch_ID batch))
                        isRetriableSendError (retrySleep a)
                  end
              end
          end
      end
  end.

(** The part of [sendBatch] before its retries, for a batch that is not empty: the
    operation it will attempt, or the error of the preparation. *)
Definition prepare (a : Agent) (batch : Batch) : M W (res (M W err)) :=
  match sender a with
  | Some send => ret (Ok (send batch))
  | None =>
      match json_Marshal (batch_Metrics batch) with
      | Fail e => ret (Fail (Wrap "marshal metrics" e))
      | Ok body =>
          match gz_Write gzip (String.list_ascii_of_string body) with
          | Some e => ret (Fail (Wrap "compress metrics" e))
          | None =>
              match gz_Close gzip (String.list_ascii_of_string body) with
              | Fail e => ret (Fail (Wrap "close compressor" e))
              | Ok compressed =>
                  let hash := if decide (key a ≠ "") then Calculate body (key a) else "" in
                  let! payload :=
                    match publicKey a with
                    | None => ret (Ok compressed)
                    | Some pk => let! rnd := rand_Read in ret (Encrypt rnd (Some pk) compressed)
                    end in
                  match payload with
                  | Fail e => ret (Fail (Wrap "encrypt metrics" e))
                  | Ok payload => ret (Ok (sendCompressedMetrics a payload hash (batch_ID batch)))
                  end
              end
          end
      end
  end.

Lemma sendBatch_prepare a batch w :
  batch_Metrics batch ≠ [] →
  sendBatch a batch w =
    (let! p := prepare a batch in
     match p with
     | Fail e => ret (Some e)
     | Ok op => DoWithSleeper op isRetriableSendError (retrySleep a)
     end) w.
Proof.
  intros Hne. unfold sendBatch, prepare. rewrite decide_False by (by intros ?%nil_length_inv).
  destruct (sender a) as [send|]; [done|]. destruct (json_Marshal _) as [body|]; [|done].
  destruct (gz_Write gzip _); [done|]. destruct (gz_Close gzip _) as [compressed|]; [|done].
  unfold bind. destruct (publicKey a) as [pk|]; [|done]. destruct (rand_Read w) as [w1 rnd]. unfold ret.
  by destruct (Encrypt rnd (Some pk) compressed).
Qed.

(** The preparation draws from the random source, or does nothing to the world. *)
Lemma prepare_world a batch w : (prepare a batch w).1 = w ∨ (prepare a batch w).1 = (rand_Read w).1.
Proof.
  unfold prepare. destruct (sender a) as [send|]; [by left|]. destruct (json_Marshal _) as [body|]; [|by left].
  destruct (gz_Write gzip _); [by left|]. destruct (gz_Close gzip _) as [compressed|]; [|by left].
  unfold bind. destruct (publicKey a) as [pk|]; [right|by left]. destruct (rand_Read w) as [w1 rnd]. unfold ret.
  by destruct (Encrypt rnd (Some pk) compressed).
Qed.

(** ** The running agent *)

(** The state of a running agent: its store, the batches waiting to be sent
    again, the number of batches made so far, and the world. *)
Record State : Type := mkState {
  store : Store;
  pending : list Batch;
  created : nat;
  world : W
}.

(** The random bytes of the identifier of each batch, and the orders in which
    the store's maps are ranged over. *)
Variable ids : nat → list Z.
Variable order : Store → list (string * float64) * list (string * Z).

Definition on_world {A} (m : M W A) : M State A := λ s,
  let '(w, r) := m (world s) in (mkState (store s) (pending s) (created s) w, r).

(** [a.store.SnapshotMetrics()] *)
Definition snapshot_store : M State (list Metrics) := λ s,
  let '(go, co) := order (store s) in
  let '(st, metrics) := SnapshotMetrics go co (store s) in
  (mkState st (pending s) (created s) (world s), metrics).

(** [delivery.New(metrics)] *)
Definition new_batch (metrics : list Metrics) : M State Batch := λ s,
  (mkState (store s) (pending s) (S (created s)) (world s), New (ids (created s)) metrics).

Definition takePending : M State (list Batch) := λ s,
  (mkState (store s) [] (created s) (world s), pending s).

Definition requeue (batch : Batch) : M State unit := λ s,
  (mkState (store s) (pending s ++ [batch]) (created s) (world s), tt).

(** The loop of [ReportOnce] over the batches that were pending. *)
Fixpoint resend (a : Agent) (batches : list Batch) (result : err) : M State err :=
  match batches with
  | [] => ret result
  | batch :: batches =>
      let! e := on_world (sendBatch a batch) in
      match e with
      | Some _ => requeue batch ;; resend a batches (errors_Join [result; e])
      | None => resend a batches result
      end
  end.

Definition ReportOnce (a : Agent) : M State err :=
  let! batches := takePending in
  let! result := resend a batches None in
  match result with
  | Some e => ret (Some e)
  | None =>
      let! metrics := snapshot_store in
      if decide (length metrics = 0) then ret None
      else
        let! batch := new_batch metrics in
        let! e := on_world (sendBatch a batch) in
        match e with
        | Some e => requeue batch ;; ret (Some e)
        | None => ret None
        end
  end.

Definition sendMetrics (a : Agent) (metrics : list Metrics) : M State err :=
  if decide (length metrics = 0) then ret None
  else let! batch := new_batch metrics in on_world (sendBatch a batch).
End Agent.
Arguments Agent W : clear implicits.
Arguments State W : clear implicits.

(** ** Collection *)

(** The fields of [runtime.MemStats] that are read; all but one are unsigned
    integers. *)
Record MemStats : Type := mkMemStats {
  Alloc : Z; BuckHashSys : Z; Frees : Z; GCCPUFraction : float64; GCSys : Z; HeapAlloc : Z;
  HeapIdle : Z; HeapInuse : Z; HeapObjects : Z; HeapReleased : Z; HeapSys : Z; LastGC : Z;
  Lookups : Z; MCacheInuse : Z; MCacheSys : Z; MSpanInuse : Z; MSpanSys : Z; Mallocs : Z;
  NextGC : Z; NumForcedGC : Z; NumGC : Z; OtherSys : Z; PauseTotalNs : Z; StackInuse : Z;
  StackSys : Z; Sys : Z; TotalAlloc : Z
}.

(** The gauges set by [PollOnce], in order. *)
Definition runtime_gauges (m : MemStats) (random : float64) : list (string * float64) :=
  [("Alloc", float64_of_Z (Alloc m)); ("BuckHashSys", float64_of_Z (BuckHashSys m));
   ("Frees", float64_of_Z (Frees m)); ("GCCPUFraction", GCCPUFraction m);
   ("GCSys", float64_of_Z (GCSys m)); ("HeapAlloc", float64_of_Z (HeapAlloc m));
   ("HeapIdle", float64_of_Z (HeapIdle m)); ("HeapInuse", float64_of_Z (HeapInuse m));
   ("HeapObjects", float64_of_Z (HeapObjects m)); ("HeapReleased", float64_of_Z (HeapReleased m));
   ("HeapSys", float64_of_Z (HeapSys m)); ("LastGC", float64_of_Z (LastGC m));
   ("Lookups", float64_of_Z (Lookups m)); ("MCacheInuse", float64_of_Z (MCacheInuse m));
   ("MCacheSys", float64_of_Z (MCacheSys m)); ("MSpanInuse", float64_of_Z (MSpanInuse m));
   ("MSpanSys", float64_of_Z (MSpanSys m)); ("Mallocs", float64_of_Z (Mallocs m));
   ("NextGC", float64_of_Z (NextGC m)); ("NumForcedGC", float64_of_Z (NumForcedGC m));
   ("NumGC", float64_of_Z (NumGC m)); ("OtherSys", float64_of_Z (OtherSys m));
   ("PauseTotalNs", float64_of_Z (PauseTotalNs m)); ("StackInuse", float64_of_Z (StackInuse m));
   ("StackSys", float64_of_Z (StackSys m)); ("Sys", float64_of_Z (Sys m));
   ("TotalAlloc", float64_of_Z (TotalAlloc m)); ("RandomValue", random)].

Definition set_gauges (l : list (string * float64)) (s : Store) : Store :=
  foldl (λ s kv, SetGauge kv.1 kv.2 s) s l.

(** [random] is what [rand.Float64()] returns. *)
Definition PollOnce (m : MemStats) (random : float64) (s : Store) : Store :=
  IncCounter "PollCount" 1 (set_gauges (runtime_gauges m random) s).

(** [mem.VirtualMemory()]: the two fields that are read. *)
Record VirtualMemory : Type := mkVirtualMemory { vm_Total : Z; vm_Free : Z }.

Definition cpu_gauges (values : list float64) : list (string * float64) :=
  imap (λ index value, ("CPUutilization" +:+ FormatInt (Z.of_nat index + 1), value)) values.

Definition PollSystemOnce (memory : res VirtualMemory) (cpu : res (list float64)) (s : Store)
  : Store * err :=
  let '(s, memoryErr) :=
    match memory with
    | Ok m => (SetGauge "FreeMemory" (float64_of_Z (vm_Free m))
                (SetGauge "TotalMemory" (float64_of_Z (vm_Total m)) s), None)
    | Fail e => (s, Some e)
    end in
  let '(s, cpuErr) :=
    match cpu with
    | Ok values => (set_gauges (cpu_gauges values) s, None)
    | Fail e => (s, Some e)
    end in
  (s, errors_Join [memoryErr; cpuErr]).

(** ** The collection loops

    What the [select] of a loop receives: a tick, with what the collection then
    reads, or the cancellation of the context.  A loop answers whether it has
    returned; it waits when nothing more comes. *)
Inductive event (A : Type) : Type := Tick (reading : A) | Cancelled.
Arguments Tick {A} reading.
Arguments Cancelled {A}.

Fixpoint poll_select (events : list (event (MemStats * float64))) (s : Store) : Store * bool :=
  match events with
  | [] => (s, false)
  | Cancelled :: _ => (s, true)
  | Tick (m, random) :: events => poll_select events (PollOnce m random s)
  end.

Definition PollLoop (m : MemStats) (random : float64) (events : list (event (MemStats * float64))) (s : Store)
  : Store * bool :=
  poll_select events (PollOnce m random s).

Fixpoint system_select (events : list (event (res VirtualMemory * res (list float64)))) (s : Store)
  : Store * option err :=
  match events with
  | [] => (s, None)
  | Cancelled :: _ => (s, Some None)
  | Tick (memory, cpu) :: events =>
      let '(s, e) := PollSystemOnce memory cpu s in
      match e with
      | Some e => (s, Some (Some (Wrap "collect system metrics" e)))
      | None => system_select events s
      end
  end.

Definition SystemPollLoop (memory : res VirtualMemory) (cpu : res (list float64))
    (events : list (event (res VirtualMemory * res (list float64)))) (s : Store) : Store * option err :=
  let '(s, e) := PollSystemOnce memory cpu s in
  match e with
  | Some e => (s, Some (Some (Wrap "collect system metrics" e)))
  | None => system_select events s
  end.

Lemma SystemPollLoop_select memory cpu events s :
  SystemPollLoop memory cpu events s = system_select (Tick (memory, cpu) :: events) s.
Proof. done. Qed.

(** ** Lemmas *)

Section Report.
Context {W : Type} `{Json (list Metrics)} `{Ciphers}.
Variable gzip : Gzip.
Variable normalize : string → res string.
Variable newRequest : string → err.
Variable rand_Read : M W Random.
Variable ids : nat → list Z.
Variable order : Store → list (string * float64) * list (string * Z).
Hypothesis order_ok : ∀ s, range_of (order s).1 (gauges s) ∧ range_of (order s).2 (counters s).

#[local] Abbreviation send_batch := (sendBatch (W := W) gzip normalize newRequest rand_Read).
#[local] Abbreviation report := (ReportOnce (W := W) gzip normalize newRequest rand_Read ids order).

(** The batches of a run with what sending each returned, in order. *)
Fixpoint send_all (a : Agent W) (batches : list Batch) (w : W) : W * list (Batch * err) :=
  match batches with
  | [] => (w, [])
  | b :: bs =>
      let '(w1, e) := send_batch a b w in
      let '(w2, rs) := send_all a bs w1 in (w2, (b, e) :: rs)
  end.

Definition failed (rs : list (Batch * err)) : list Batch :=
  omap (λ r, match r.2 with Some _ => Some r.1 | None => None end) rs.
Definition acked (rs : list (Batch * err)) : list Batch :=
  omap (λ r, match r.2 with Some _ => None | None => Some r.1 end) rs.

Lemma send_all_batches a bs w : (send_all a bs w).2.*1 = bs.
Proof.
  revert w. induction bs as [|b bs IH]; intros w; simpl; [done|].
  destruct (send_batch a b w) as [w1 e]. specialize (IH w1).
  destruct (send_all a bs w1) as [w2 rs]. change (b :: rs.*1 = b :: bs). f_equal. exact IH.
Qed.

Lemma send_all_snoc a bs b w :
  send_all a (bs ++ [b]) w =
    let '(w1, rs) := send_all a bs w in
    let '(w2, e) := send_batch a b w1 in (w2, rs ++ [(b, e)]).
Proof.
  revert w. induction bs as [|b' bs IH]; intros w; simpl.
  { by destruct (send_batch a b w). }
  destruct (send_batch a b' w) as [w1 e1]. rewrite IH.
  destruct (send_all a bs w1) as [w2 rs]. by destruct (send_batch a b w2).
Qed.

(** Every batch is either acknowledged or to be sent again. *)
Lemma acked_failed rs : rs.*1 ≡ₚ acked rs ++ failed rs.
Proof.
  unfold acked, failed. induction rs as [|[b [e|]] rs IH]; csimpl; [done| |by constructor].
  rewrite <-Permutation_middle. by constructor.
Qed.

Lemma acked_spec rs b : b ∈ acked rs → (b, None) ∈ rs.
Proof.
  unfold acked. induction rs as [|[b' [e|]] rs IH]; csimpl.
  - by intros ?%elem_of_nil.
  - rewrite elem_of_cons. auto.
  - rewrite !elem_of_cons. intros [->|?]; auto.
Qed.

Lemma resend_eq a bs result s :
  let '(w', rs) := send_all a bs (world s) in
  let '(s', e) := resend (W := W) gzip normalize newRequest rand_Read a bs result s in
  s' = mkState (store s) (pending s ++ failed rs) (created s) w' ∧
  (e = None ↔ result = None ∧ failed rs = []).
Proof.
  revert result s. induction bs as [|b bs IH]; intros result [st p c w]; simpl.
  { unfold failed. simpl. rewrite app_nil_r. split; [done|]. naive_solver. }
  unfold bind, on_world. simpl. destruct (send_batch a b w) as [w1 [e1|]].
  - unfold requeue. simpl.
    specialize (IH (errors_Join [result; Some e1]) (mkState st (p ++ [b]) c w1)). simpl in IH.
    destruct (send_all a bs w1) as [w2 rs].
    destruct (resend _ _ _ _ a bs _ _) as [s' e']. destruct IH as (-> & Hnil). unfold failed. csimpl.
    split; [by rewrite <-app_assoc|]. rewrite Hnil, errors_Join_nil2. naive_solver.
  - specialize (IH result (mkState st p c w1)). simpl in IH.
    destruct (send_all a bs w1) as [w2 rs].
    destruct (resend _ _ _ _ a bs _ _) as [s' e']. by destruct IH as (-> & Hnil).
Qed.

(** The increments a list of batches carries. *)
Definition batches_delta (name : string) (bs : list Batch) : Z :=
  sumZ (map (λ b, total_delta name (batch_Metrics b)) bs).

Lemma batches_delta_app name bs1 bs2 :
  batches_delta name (bs1 ++ bs2) = (batches_delta name bs1 + batches_delta name bs2)%Z.
Proof. unfold batches_delta. by rewrite map_app, sumZ_app. Qed.

Lemma batches_delta_perm name bs1 bs2 :
  bs1 ≡ₚ bs2 → batches_delta name bs1 = batches_delta name bs2.
Proof. unfold batches_delta. by intros ->. Qed.

(** The snapshot moves the counters into a batch. *)
Lemma snapshot_store_eq s :
  ∃ metrics, snapshot_store (W := W) order s =
      (mkState (mkStore (gauges (store s)) ∅) (pending s) (created s) (world s), metrics) ∧
    (∀ name, total_delta name metrics = counter_value (store s) name) ∧
    (metrics = [] → counters (store s) = ∅).
Proof.
  destruct (order_ok (store s)) as [Hg Hc]. unfold snapshot_store.
  destruct (order (store s)) as [go co]. simpl in *.
  rewrite SnapshotMetrics_eq by done. eexists. split; [done|]. split.
  - intros name. by apply total_delta_snapshot.
  - unfold snapshot_list. intros [_ Hnil]%app_eq_nil. apply map_eq_nil in Hnil. subst co.
    by apply range_of_nil.
Qed.

(** The batch a report makes, if it gets as far as making one. *)
Definition report_fresh (a : Agent W) (s : State W) : list Batch :=
  let '(s1, e) := resend (W := W) gzip normalize newRequest rand_Read a (pending s) None
    (mkState (store s) [] (created s) (world s)) in
  match e with
  | Some _ => []
  | None =>
      let metrics := (snapshot_store (W := W) order s1).2 in
      if decide (length metrics = 0) then [] else [New (ids (created s)) metrics]
  end.

(** A report is one run of sends: of the pending batches, then of the new one. *)
Lemma ReportOnce_run a s :
  let '(w', rs) := send_all a (pending s ++ report_fresh a s) (world s) in
  let '(s', e) := report a s in
  world s' = w' ∧ pending s' = failed rs ∧ created s' = created s + length (report_fresh a s) ∧
  (e = None ↔ failed rs = []) ∧
  (report_fresh a s = [] ∧ store s' = store s ∧ (e = None → counters (store s) = ∅) ∨
   ∃ ms, report_fresh a s = [New (ids (created s)) ms] ∧ store s' = mkStore (gauges (store s)) ∅ ∧
     ∀ name, total_delta name ms = counter_value (store s) name).
Proof.
  unfold report_fresh, ReportOnce, bind, takePending.
  pose proof (resend_eq a (pending s) None (mkState (store s) [] (created s) (world s))) as Hr.
  simpl in Hr. destruct (send_all a (pending s) (world s)) as [w1 rs] eqn:Hall.
  destruct (resend _ _ _ _ a (pending s) None _) as [s1 e1]. destruct Hr as (-> & Hnil).
  destruct e1 as [e1|]; simpl.
  { rewrite app_nil_r, Hall, Nat.add_0_r. split_and!; try done.
    - split; [done|]. intros Hf. by apply Hnil.
    - by left. }
  destruct (proj1 Hnil eq_refl) as [_ Hf]. rewrite Hf.
  destruct (snapshot_store_eq (mkState (store s) [] (created s) w1)) as (ms & Hsnap & Hdelta & Hempty).
  simpl in Hsnap, Hdelta, Hempty. rewrite Hsnap. cbn [fst snd].
  destruct (decide (length ms = 0)) as [Hl|Hl].
  { apply nil_length_inv in Hl. subst ms. rewrite app_nil_r, Hall. simpl. split_and!; try done.
    left. split_and!; [done| |by auto]. rewrite <-(Hempty eq_refl). by destruct (store s). }
  rewrite send_all_snoc, Hall. unfold new_batch, on_world. simpl.
  destruct (send_batch a (New (ids (created s)) ms) w1) as [w2 e2].
  assert (failed (rs ++ [(New (ids (created s)) ms, e2)]) =
    match e2 with Some _ => [New (ids (created s)) ms] | None => [] end) as Hf2.
  { unfold failed in *. rewrite omap_app, Hf. by destruct e2. }
  rewrite Hf2. destruct e2 as [e2|]; simpl; split_and!; try done; try lia; right; by exists ms.
Qed.

(** ** Properties *)

(** [ReportOnce] loses nothing and duplicates nothing, whatever the sends
    return: it sends every batch that was pending and the one it may make from
    the store, once each and in order; each is either acknowledged by a send
    that returned nil or pending again under the same identifier; the
    increments in the store and in the batches are conserved.  It returns nil
    exactly when nothing is left pending, and then the store's counters have
    all been sent. *)
Theorem ReportOnce_conserves a s :
  let '(s', e) := report a s in
  ∃ fresh rs, send_all a (pending s ++ fresh) (world s) = (world s', rs) ∧
    pending s' = failed rs ∧
    length fresh ≤ 1 ∧ created s' = created s + length fresh ∧
    (∀ b, b ∈ fresh → batch_ID b = rand_Text (ids (created s))) ∧
    (∀ name, (counter_value (store s') name + batches_delta name (pending s')
      + batches_delta name (acked rs))%Z =
      (counter_value (store s) name + batches_delta name (pending s))%Z) ∧
    (e = None ↔ pending s' = []) ∧
    (e = None → counters (store s') = ∅).
Proof.
  pose proof (ReportOnce_run a s) as Hrun.
  pose proof (send_all_batches a (pending s ++ report_fresh a s) (world s)) as Hb.
  destruct (send_all a (pending s ++ report_fresh a s) (world s)) as [w' rs] eqn:Hall.
  destruct (report a s) as [s' e]. destruct Hrun as (Hw & Hp & Hc & He & Hcase).
  exists (report_fresh a s), rs. rewrite Hw, Hp. cbn [snd] in Hb.
  assert (∀ name, (batches_delta name (acked rs) + batches_delta name (failed rs))%Z =
    (batches_delta name (pending s) + batches_delta name (report_fresh a s))%Z) as Hsum.
  { intros name. rewrite <-!batches_delta_app.
    by rewrite <-(batches_delta_perm name _ _ (acked_failed rs)), Hb. }
  destruct Hcase as [(Hfr & Hst & Hempty)|(ms & Hfr & Hst & Hdelta)]; rewrite Hfr, Hst in *.
  - split_and!; try done; try (simpl; lia).
    + by intros b ?%elem_of_nil.
    + intros name. specialize (Hsum name). unfold batches_delta in *. simpl in *. lia.
  - split_and!; try done.
    + by intros b [->|?%elem_of_nil]%elem_of_cons.
    + intros name. specialize (Hsum name). specialize (Hdelta name).
      assert (counter_value (mkStore (gauges (store s)) ∅) name = 0%Z) as -> by done.
      unfold batches_delta in *. simpl in *. lia.
Qed.
End Report.

(** ** Sending *)

Section Send.
Context {W : Type} `{Json (list Metrics)} `{Ciphers}.
Variable gzip : Gzip.
Variable normalize : string → res string.
Variable newRequest : string → err.
Variable rand_Read : M W Random.

(** The request of every attempt to deliver a payload. *)
Definition request_of (a : Agent W) (payload : text) (hash batchID : string) : HTTPRequest :=
  withRealIP normalize
    (mkHTTPRequest (serverURL a +:+ "/updates/") (request_headers a hash batchID) payload (λ _ h, h)).

(** What its headers say. *)
Definition is_request (a : Agent W) (payload : text) (hash batchID : string) (r : HTTPRequest) : Prop :=
  req_URL r = serverURL a +:+ "/updates/" ∧ req_Body r = payload ∧
  Header_Values Delivery.Header (req_Header r) = [batchID] ∧
  Header_Get "Content-Encoding" (req_Header r) = "gzip" ∧
  Header_Get Encryption.Header (req_Header r) = (if decide (publicKey a ≠ None) then Algorithm else "") ∧
  Header_Get Signature.Header (req_Header r) = hash.

(** Distinct names, by computation. *)
Ltac header_ne := by vm_compute.

Lemma request_headers_spec (a : Agent W) hash batchID :
  let h := request_headers a hash batchID in
  Header_Values Delivery.Header h = [batchID] ∧ Header_Get "Content-Encoding" h = "gzip" ∧
  Header_Get Encryption.Header h = (if decide (publicKey a ≠ None) then Algorithm else "") ∧
  Header_Get Signature.Header h = hash.
Proof.
  unfold request_headers. cbv zeta.
  destruct (decide (publicKey a ≠ None)), (decide (hash ≠ "")) as [Hh|Hh]; try apply dec_stable in Hh as ->;
    split_and!;
    repeat first
      [ rewrite Header_Values_Set | rewrite Header_Get_Set
      | rewrite Header_Values_Set_ne by header_ne | rewrite Header_Get_Set_ne by header_ne ]; done.
Qed.

(** The one request [sendCompressedMetrics] makes of its arguments. *)
Lemma sendCompressedMetrics_request (a : Agent W) payload hash batchID :
  is_request a payload hash batchID (request_of a payload hash batchID) ∧
    ∀ w, sendCompressedMetrics normalize newRequest a payload hash batchID w =
      match newRequest (serverURL a +:+ "/updates/") with
      | Some e => (w, Some (Wrap "create request" e))
      | None =>
          let '(w', resp) := client a (request_of a payload hash batchID) w in
          (w', match resp with
               | Fail e => Some (WrapBoth errRetriableSend "send request" e)
               | Ok code => if decide (code ≠ 200)%Z then Some (Msg "unexpected status code") else None
               end)
      end.
Proof.
  split; [split; [done|split; [done|apply request_headers_spec]]|]. intros w.
  unfold sendCompressedMetrics, request_of. destruct (newRequest _); [done|]. unfold bind.
  destruct (client a _ w) as [w' [code|e]]; [|done]. by destruct (decide (code ≠ 200%Z)).
Qed.

(** What is sent for a batch: the signature is taken of the JSON text, before
    it is compressed and encrypted. *)
Definition payload_of (a : Agent W) (metrics : list Metrics) (payload : text) (hash : string) : Prop :=
  ∃ body compressed, json_Marshal metrics = Ok body ∧
    gz_Close gzip (String.list_ascii_of_string body) = Ok compressed ∧
    hash = (if decide (key a ≠ "") then Calculate body (key a) else "") ∧
    match publicKey a with
    | None => payload = compressed
    | Some pk => ∃ v, Encrypt (rand_Read v).2 (Some pk) compressed = Ok payload
    end.

(** All attempts to deliver a batch over HTTP are the same request: [log]
    being the requests the client has been given, sending a batch appends
    copies of one request with the batch's identifier, the encoding of its
    metrics compressed and, with a public key, encrypted once for all
    attempts, and with a key the signature of the uncompressed text; and
    nothing at all is sent when the batch cannot be prepared. *)
Theorem sendBatch_same_request (a : Agent W) batch (log : W → list HTTPRequest) w :
  sender a = None →
  (∀ r v, log (client a r v).1 = log v ++ [r]) →
  (∀ d v, log (retrySleep a d v).1 = log v) →
  (∀ v, log (rand_Read v).1 = log v) →
  let '(w', e) := sendBatch gzip normalize newRequest rand_Read a batch w in
  (log w' = log w) ∨
  (∃ n r payload hash, log w' = log w ++ replicate (S n) r ∧
     payload_of a (batch_Metrics batch) payload hash ∧
     is_request a payload hash (batch_ID batch) r).
Proof.
  intros Hs Hclient Hsleep Hrand. unfold sendBatch. rewrite Hs.
  case_decide; [by left|].
  destruct (json_Marshal (batch_Metrics batch)) as [body|e] eqn:Hj; [|by left].
  destruct (gz_Write gzip _) as [e|]; [by left|].
  destruct (gz_Close gzip _) as [compressed|e] eqn:Hgz; [|by left].
  set (hash := if decide (key a ≠ "") then Calculate body (key a) else "").
  match goal with |- context [bind ?m _ w] => destruct (m w) as [w1 p] eqn:Hm end.
  rewrite (bind_eq _ _ _ _ _ Hm).
  assert (log w1 = log w ∧
    (∀ payload, p = Ok payload → payload_of a (batch_Metrics batch) payload hash)) as [Hlog Hp].
  { unfold payload_of. destruct (publicKey a) as [pk|].
    - unfold bind, ret in Hm. specialize (Hrand w).
      destruct (rand_Read w) as [w2 rnd] eqn:Hrd. injection Hm as <- <-. split; [done|].
      intros payload Hpay. exists body, compressed. split_and!; try done. exists w. by rewrite Hrd.
    - injection Hm as <- <-. split; [done|]. intros payload [= <-]. exists body, compressed. eauto. }
  destruct p as [payload|e]; [|by left].
  destruct (sendCompressedMetrics_request a payload hash (batch_ID batch)) as (Hr & Hsend).
  set (r := request_of a payload hash (batch_ID batch)) in *.
  set (P := λ v, ∃ n, log v = log w ++ replicate n r).
  pose proof (attempt_invariant (sendCompressedMetrics normalize newRequest a payload hash (batch_ID batch))
    isRetriableSendError (retrySleep a) defaultDelays P (λ _ _, True)) as Hinv.
  rewrite DoWithSleeper_attempt.
  assert (P w1) as Hw1 by (exists 0; by rewrite app_nil_r).
  specialize (Hinv ltac:(intros v [n Hv]; split; [|done]; rewrite Hsend;
    destruct (newRequest _); [by exists n|]; specialize (Hclient r v);
    destruct (client a r v) as [v' resp]; exists (n + 1); simpl in *;
    by rewrite Hclient, Hv, <-app_assoc, replicate_add)
    ltac:(intros d v [n Hv]; exists n; by rewrite Hsleep) w1 Hw1).
  destruct (attempt _ _ _ _ w1) as [w2 e]. destruct Hinv as [[[|n] Hn] _].
  - left. by rewrite Hn, app_nil_r.
  - right. exists n, r, payload, hash. split_and!; auto.
Qed.
End Send.

(** ** Collecting *)

(** The last value given to a name. *)
Definition last_value (k : string) (l : list (string * float64)) : option float64 :=
  (list_to_map (reverse l) : gmap string float64) !! k.

Lemma set_gauges_lookup l s k :
  gauges (set_gauges l s) !! k =
    match last_value k l with Some v => Some v | None => gauges s !! k end ∧
  counters (set_gauges l s) = counters s.
Proof.
  unfold set_gauges, last_value. induction l as [|[n v] l IH] using rev_ind; [done|].
  rewrite foldl_app, reverse_app. simpl. destruct IH as [IH1 IH2]. split; [|done].
  rewrite !lookup_insert. case_decide; [done|]. exact IH1.
Qed.

Lemma set_gauges_ok l s : store_ok s → store_ok (set_gauges l s).
Proof. unfold store_ok. intros Hs. destruct (set_gauges_lookup l s "") as [_ ->]. done. Qed.

Lemma last_value_NoDup k v l : NoDup l.*1 → (k, v) ∈ l → last_value k l = Some v.
Proof.
  intros Hnd Hin. unfold last_value. apply elem_of_list_to_map_1.
  - by rewrite fmap_reverse, reverse_Permutation.
  - by rewrite reverse_Permutation.
Qed.

Lemma last_value_None k l : k ∉ l.*1 → last_value k l = None.
Proof.
  intros Hk. unfold last_value. apply not_elem_of_list_to_map_1.
  by rewrite fmap_reverse, reverse_Permutation.
Qed.

Lemma runtime_names m random :
  (runtime_gauges m random).*1 =
    ["Alloc"; "BuckHashSys"; "Frees"; "GCCPUFraction"; "GCSys"; "HeapAlloc"; "HeapIdle"; "HeapInuse";
     "HeapObjects"; "HeapReleased"; "HeapSys"; "LastGC"; "Lookups"; "MCacheInuse"; "MCacheSys";
     "MSpanInuse"; "MSpanSys"; "Mallocs"; "NextGC"; "NumForcedGC"; "NumGC"; "OtherSys";
     "PauseTotalNs"; "StackInuse"; "StackSys"; "Sys"; "TotalAlloc"; "RandomValue"].
Proof. done. Qed.

(** The names of the processors' gauges are those of distinct processors. *)
Lemma cpu_names_NoDup values : (Z.of_nat (length values) < 2 ^ 31)%Z → NoDup (cpu_gauges values).*1.
Proof.
  intros Hlen. unfold cpu_gauges. rewrite fmap_imap.
  rewrite NoDup_alt. intros i j x Hi Hj. rewrite list_lookup_imap in Hi, Hj.
  destruct (values !! i) as [vi|] eqn:Hvi; [|done]. destruct (values !! j) as [vj|] eqn:Hvj; [|done].
  apply lookup_lt_Some in Hvi, Hvj. simpl in Hi, Hj.
  assert (FormatInt (Z.of_nat i + 1) = FormatInt (Z.of_nat j + 1)) as Hf.
  { injection Hi as <-. by injection Hj. }
  apply (f_equal ParseInt) in Hf. rewrite !ParseInt_FormatInt in Hf.
  - simplify_eq. lia.
  - unfold in_int64, int64_min, int64_max. lia.
  - unfold in_int64, int64_min, int64_max. lia.
Qed.

Lemma cpu_names_other values k :
  k = "TotalMemory" ∨ k = "FreeMemory" → k ∉ (cpu_gauges values).*1.
Proof.
  intros Hk. unfold cpu_gauges. rewrite fmap_imap, list_elem_of_lookup.
  intros (i & Hi). rewrite list_lookup_imap in Hi. destruct (values !! i); [|done].
  simpl in Hi. destruct Hk as [-> | ->]; injection Hi; discriminate.
Qed.

(** ** Properties *)

(** One collection counts itself exactly once and refreshes every runtime
    gauge: the 28 gauges get the values read, no other gauge changes, and only
    the counter PollCount moves, by one, wrapping at 64 bits; the store stays
    well formed. *)
Theorem PollOnce_spec m random s :
  store_ok s →
  let s' := PollOnce m random s in
  (∀ k v, (k, v) ∈ runtime_gauges m random → gauges s' !! k = Some v) ∧
  length (runtime_gauges m random) = 28 ∧
  (∀ k, k ∉ (runtime_gauges m random).*1 → gauges s' !! k = gauges s !! k) ∧
  counter_value s' "PollCount" = add64 (counter_value s "PollCount") 1 ∧
  (∀ k, k ≠ "PollCount" → counter_value s' k = counter_value s k) ∧
  store_ok s'.
Proof.
  intros Hs. cbn zeta. unfold PollOnce.
  assert (∀ k, gauges (IncCounter "PollCount" 1 (set_gauges (runtime_gauges m random) s)) !! k =
    match last_value k (runtime_gauges m random) with Some v => Some v | None => gauges s !! k end) as Hg.
  { intros k. apply set_gauges_lookup. }
  assert (∀ k, counter_value (set_gauges (runtime_gauges m random) s) k = counter_value s k) as Hc.
  { intros k. unfold counter_value. by destruct (set_gauges_lookup (runtime_gauges m random) s k) as [_ ->]. }
  split_and!.
  - intros k v Hk. rewrite Hg, (last_value_NoDup k v); [done| |done].
    rewrite runtime_names. apply (bool_decide_unpack _). by vm_compute.
  - done.
  - intros k Hk. by rewrite Hg, last_value_None.
  - rewrite IncCounter_value, decide_True by done. by rewrite Hc.
  - intros k Hk. rewrite IncCounter_value, decide_False by done. by rewrite Hc.
  - apply IncCounter_ok. by apply set_gauges_ok.
Qed.

(** The two sources of the system collection are independent: each that can be
    read refreshes its gauges, the other one's failure notwithstanding, and
    nothing else changes; the error is nil exactly when both were read. *)
Theorem PollSystemOnce_spec memory cpu s :
  (∀ values, cpu = Ok values → Z.of_nat (length values) < 2 ^ 31)%Z →
  let '(s', e) := PollSystemOnce memory cpu s in
  (∀ m, memory = Ok m → gauges s' !! "TotalMemory" = Some (float64_of_Z (vm_Total m)) ∧
     gauges s' !! "FreeMemory" = Some (float64_of_Z (vm_Free m))) ∧
  (∀ values i v, cpu = Ok values → values !! i = Some v →
     gauges s' !! ("CPUutilization" +:+ FormatInt (Z.of_nat i + 1)) = Some v) ∧
  (e = None ↔ (∃ m, memory = Ok m) ∧ (∃ values, cpu = Ok values)) ∧
  counters s' = counters s.
Proof.
  intros Hlen. unfold PollSystemOnce.
  set (s1 := match memory with Ok m => SetGauge "FreeMemory" (float64_of_Z (vm_Free m))
    (SetGauge "TotalMemory" (float64_of_Z (vm_Total m)) s) | Fail _ => s end).
  set (s2 := match cpu with Ok values => set_gauges (cpu_gauges values) s1 | Fail _ => s1 end).
  assert ((∀ k, k = "TotalMemory" ∨ k = "FreeMemory" → gauges s2 !! k = gauges s1 !! k) ∧
    counters s2 = counters s) as [Hkeep Hcount].
  { assert (counters s1 = counters s) as Hc1 by (unfold s1; by destruct memory).
    unfold s2. destruct cpu as [values|e]; [|done]. split.
    - intros k Hk. destruct (set_gauges_lookup (cpu_gauges values) s1 k) as [-> _].
      rewrite last_value_None; [done|]. by apply cpu_names_other.
    - destruct (set_gauges_lookup (cpu_gauges values) s1 "") as [_ ->]. done. }
  assert (∀ m, memory = Ok m → gauges s2 !! "TotalMemory" = Some (float64_of_Z (vm_Total m)) ∧
    gauges s2 !! "FreeMemory" = Some (float64_of_Z (vm_Free m))) as Hm.
  { intros m Hm. rewrite !Hkeep by auto. unfold s1. rewrite Hm. simpl. by simplify_map_eq. }
  assert (∀ values i v, cpu = Ok values → values !! i = Some v →
    gauges s2 !! ("CPUutilization" +:+ FormatInt (Z.of_nat i + 1)) = Some v) as Hv.
  { intros values i v Hcpu Hi. unfold s2. rewrite Hcpu.
    destruct (set_gauges_lookup (cpu_gauges values) s1
      ("CPUutilization" +:+ FormatInt (Z.of_nat i + 1))) as [-> _].
    rewrite (last_value_NoDup _ v); [done|by apply cpu_names_NoDup, Hlen|].
    apply list_elem_of_lookup. exists i. unfold cpu_gauges. by rewrite list_lookup_imap, Hi. }
  destruct memory as [m|e1], cpu as [values|e2]; split_and!; try done; split; intros; naive_solver.
Qed.

(** ** Witnesses *)

Definition witness_stats : MemStats :=
  mkMemStats 1 2 3 float64_zero 4 5 6 7 8 9 10 11 12 13 14 15 16 17 18 19 20 21 22 23 24 25 26.

Lemma PollOnce_spec_witness :
  let s := mkStore ∅ {["PollCount" := (2 ^ 63 - 1)%Z]} in
  counter_value (PollOnce witness_stats float64_zero s) "PollCount" = (- 2 ^ 63)%Z.
Proof.
  set (s := mkStore ∅ {["PollCount" := (2 ^ 63 - 1)%Z]}). cbn zeta.
  assert (store_ok s) as Hs by (apply map_Forall_singleton; by vm_compute).
  destruct (PollOnce_spec witness_stats float64_zero s Hs) as (_ & _ & _ & Hc & _).
  rewrite Hc. by vm_compute.
Defined.

Lemma PollSystemOnce_spec_witness :
  let '(s', e) := PollSystemOnce (Fail (Msg "unavailable")) (Ok [float64_of_Z 1; float64_of_Z 2]) NewStore in
  gauges s' !! "CPUutilization2" = Some (float64_of_Z 2) ∧ e ≠ None.
Proof.
  pose proof (PollSystemOnce_spec (Fail (Msg "unavailable")) (Ok [float64_of_Z 1; float64_of_Z 2])
    NewStore ltac:(by intros values [= <-])) as Hp.
  destruct (PollSystemOnce _ _ _) as [s' e]. destruct Hp as (_ & Hv & He & _). split.
  - exact (Hv _ 1 _ eq_refl eq_refl).
  - intros Hn. apply He in Hn as [[m Hm] _]. done.
Defined.
