(* ===== verification/AgentLoop.v ===== *)
(** [Agent.Run] of [internal/agent/agent.go]: the collection loops, the report
    loop with its channel of jobs, the workers, and the final report, as a step
    relation whose steps are the atomic actions of the goroutines. *)

From S2P Require Import Prelude GoErrors Metrics GoJson Delivery Retry Encryption Store Agent.

(** What the report loop is doing: waiting in its [select]; inside
    [enqueueReport], about to take a snapshot, sending batches to the channel,
    or giving them back because of the cancellation; or it has returned and
    closed the channel. *)
Inductive enqueuer : Type :=
| Idle
| Snapshotting
| Enqueueing (batches : list Batch)
| Requeueing (batches : list Batch)
| Stopped.

Definition in_hand (e : enqueuer) : list Batch :=
  match e with Enqueueing bs | Requeueing bs => bs | _ => [] end.

Section AgentLoop.
Context {W : Type} `{Json (list Metrics)} `{Ciphers}.
Variable gzip : Gzip.
Variable normalize : string → res string.
Variable newRequest : string → err.
Variable rand_Read : M W Random.
Variable ids : nat → list Z.
Variable order : Store → list (string * float64) * list (string * Z).

#[local] Abbreviation send_batch := (sendBatch (W := W) gzip normalize newRequest rand_Read).
#[local] Abbreviation prepare_batch := (prepare (W := W) gzip normalize newRequest rand_Read).
#[local] Abbreviation report := (ReportOnce (W := W) gzip normalize newRequest rand_Read ids order).
#[local] Abbreviation send_run := (send_all (W := W) gzip normalize newRequest rand_Read).
#[local] Abbreviation fresh_of :=
  (report_fresh (W := W) gzip normalize newRequest rand_Read ids order).

(** The operation that [sendBatch] retries for a batch. *)
Definition operation_of (a : Agent W) (b : Batch) (op : M W err) : Prop :=
  match sender a with
  | Some send => op = send b
  | None => ∃ payload hash, payload_of gzip rand_Read a (batch_Metrics b) payload hash ∧
      op = sendCompressedMetrics normalize newRequest a payload hash (batch_ID b)
  end.

(** A worker inside [sendBatch]: about to marshal, compress and encrypt; inside the
    retries, about to attempt with the delays that are left; or about to sleep. *)
Inductive job : Type :=
| Preparing
| Attempt (op : M W err) (delays : list Z)
| Sleeping (op : M W err) (delay : Z) (delays : list Z).

(** A worker retries an operation of its own batch. *)
Definition job_ok (a : Agent W) (b : Batch) (j : job) : Prop :=
  match j with Preparing => True | Attempt op _ | Sleeping op _ _ => operation_of a b op end.

(** The state of [Run].  [l_made], [l_delivered] and [l_polls] only record what
    has happened: the batches made, those whose delivery returned nil, and the
    runtime collections. *)
Record Loop : Type := mkLoop {
  l_agent : State W;
  l_enq : enqueuer;
  l_jobs : list Batch;                 (* the buffered channel *)
  l_workers : list (Batch * job);      (* the workers that hold a batch *)
  l_polling : bool;                    (* PollLoop has not returned *)
  l_system : bool;                     (* SystemPollLoop has not returned *)
  l_cancelled : bool;                  (* runCtx is done *)
  l_groupErr : err;                    (* the first error of the group *)
  l_final : option err;                (* what Run has returned *)
  l_made : list Batch;
  l_delivered : list Batch;
  l_polls : nat
}.

Definition set_agent (s : State W) (l : Loop) : Loop :=
  mkLoop s (l_enq l) (l_jobs l) (l_workers l) (l_polling l) (l_system l) (l_cancelled l)
    (l_groupErr l) (l_final l) (l_made l) (l_delivered l) (l_polls l).
Definition set_enq (e : enqueuer) (l : Loop) : Loop :=
  mkLoop (l_agent l) e (l_jobs l) (l_workers l) (l_polling l) (l_system l) (l_cancelled l)
    (l_groupErr l) (l_final l) (l_made l) (l_delivered l) (l_polls l).
Definition set_jobs (js : list Batch) (l : Loop) : Loop :=
  mkLoop (l_agent l) (l_enq l) js (l_workers l) (l_polling l) (l_system l) (l_cancelled l)
    (l_groupErr l) (l_final l) (l_made l) (l_delivered l) (l_polls l).
Definition set_workers (ws : list (Batch * job)) (l : Loop) : Loop :=
  mkLoop (l_agent l) (l_enq l) (l_jobs l) ws (l_polling l) (l_system l) (l_cancelled l)
    (l_groupErr l) (l_final l) (l_made l) (l_delivered l) (l_polls l).
Definition set_flags (polling system cancelled : bool) (e : err) (l : Loop) : Loop :=
  mkLoop (l_agent l) (l_enq l) (l_jobs l) (l_workers l) polling system cancelled e
    (l_final l) (l_made l) (l_delivered l) (l_polls l).
Definition add_made (bs : list Batch) (l : Loop) : Loop :=
  mkLoop (l_agent l) (l_enq l) (l_jobs l) (l_workers l) (l_polling l) (l_system l) (l_cancelled l)
    (l_groupErr l) (l_final l) (l_made l ++ bs) (l_delivered l) (l_polls l).
Definition add_delivered (bs : list Batch) (l : Loop) : Loop :=
  mkLoop (l_agent l) (l_enq l) (l_jobs l) (l_workers l) (l_polling l) (l_system l) (l_cancelled l)
    (l_groupErr l) (l_final l) (l_made l) (l_delivered l ++ bs) (l_polls l).
Definition add_poll (l : Loop) : Loop :=
  mkLoop (l_agent l) (l_enq l) (l_jobs l) (l_workers l) (l_polling l) (l_system l) (l_cancelled l)
    (l_groupErr l) (l_final l) (l_made l) (l_delivered l) (S (l_polls l)).
Definition set_final (r : err) (l : Loop) : Loop :=
  mkLoop (l_agent l) (l_enq l) (l_jobs l) (l_workers l) (l_polling l) (l_system l) (l_cancelled l)
    (l_groupErr l) (Some r) (l_made l) (l_delivered l) (l_polls l).

Definition set_store (st : Store) (l : Loop) : Loop :=
  set_agent (mkState st (pending (l_agent l)) (created (l_agent l)) (world (l_agent l))) l.
Definition set_world (w : W) (l : Loop) : Loop :=
  set_agent (mkState (store (l_agent l)) (pending (l_agent l)) (created (l_agent l)) w) l.

(** [log.Printf] aside, what a worker does when a batch has failed. *)
Definition give_back (b : Batch) (l : Loop) : Loop := set_agent (requeue b (l_agent l)).1 l.

(** [errgroup] keeps the first error. *)
Definition first_error (e e' : err) : err := match e with Some _ => e | None => e' end.

(** What follows an attempt of a worker, in the terms of [retry_loop]. *)
Definition after_attempt (b : Batch) (op : M W err) (delays : list Z) (e : err)
    (ws1 ws2 : list (Batch * job)) (l : Loop) : Loop :=
  if final isRetriableSendError e then
    match e with
    | None => add_delivered [b] (set_workers (ws1 ++ ws2) l)
    | Some _ => give_back b (set_workers (ws1 ++ ws2) l)
    end
  else match delays with
  | [] => give_back b (set_workers (ws1 ++ ws2) l)
  | d :: delays => set_workers (ws1 ++ (b, Sleeping op d delays) :: ws2) l
  end.

(** What follows the preparation. *)
Definition after_prepare (b : Batch) (p : res (M W err)) (ws1 ws2 : list (Batch * job)) (l : Loop) : Loop :=
  match p with
  | Ok op => set_workers (ws1 ++ (b, Attempt op defaultDelays) :: ws2) l
  | Fail _ => give_back b (set_workers (ws1 ++ ws2) l)
  end.

(** [NewAgent]'s state and the start of [Run]. *)
Definition start (st : Store) (w : W) : Loop :=
  mkLoop (mkState st [] 0 w) Idle [] [] true true false None None [] [] 0.

(** The end of [Run]: the final report, and the error of the group joined with
    the report's. *)
Definition final_report (a : Agent W) (l : Loop) : Loop :=
  let '(s, e) := report a (l_agent l) in
  let rs := (send_run a (pending (l_agent l) ++ fresh_of a (l_agent l)) (world (l_agent l))).2 in
  set_final (errors_Join [l_groupErr l; e])
    (add_delivered (acked rs) (add_made (fresh_of a (l_agent l)) (set_agent s l))).

Inductive step (a : Agent W) : Loop → Loop → Prop :=
(* PollLoop *)
| step_gauge l k v :
    (* one SetGauge of a collection; the store's mutex makes it atomic *)
    l_polling l = true ∨ l_system l = true →
    step a l (set_store (SetGauge k v (store (l_agent l))) l)
| step_poll l :
    (* the last statement of PollOnce *)
    l_polling l = true →
    step a l (add_poll (set_store (IncCounter "PollCount" 1 (store (l_agent l))) l))
| step_poll_return l :
    l_polling l = true → l_cancelled l = true →
    step a l (set_flags false (l_system l) (l_cancelled l) (l_groupErr l) l)
(* SystemPollLoop, whose error cancels the others *)
| step_system_fail l e :
    l_system l = true →
    step a l (set_flags (l_polling l) false true
      (first_error (l_groupErr l) (Some (Wrap "collect system metrics" e))) l)
| step_system_return l :
    l_system l = true → l_cancelled l = true →
    step a l (set_flags (l_polling l) false (l_cancelled l) (l_groupErr l) l)
| step_cancel l :
    step a l (set_flags (l_polling l) (l_system l) true (l_groupErr l) l)
(* ReportLoop *)
| step_tick l :
    l_enq l = Idle →
    step a l (let '(s, batches) := takePending (l_agent l) in
      set_enq (match batches with [] => Snapshotting | _ => Enqueueing batches end) (set_agent s l))
| step_snapshot_empty l s :
    l_enq l = Snapshotting → snapshot_store order (l_agent l) = (s, []) →
    step a l (set_enq Idle (set_agent s l))
| step_snapshot l s metrics :
    l_enq l = Snapshotting → snapshot_store order (l_agent l) = (s, metrics) → metrics ≠ [] →
    step a l (let '(s, b) := new_batch ids metrics s in
      set_enq (Enqueueing [b]) (add_made [b] (set_agent s l)))
| step_push l b bs :
    l_enq l = Enqueueing (b :: bs) → (Z.of_nat (length (l_jobs l)) < rateLimit a)%Z →
    step a l (set_enq (Enqueueing bs) (set_jobs (l_jobs l ++ [b]) l))
| step_pushed l :
    l_enq l = Enqueueing [] → step a l (set_enq Idle l)
| step_abandon l b bs :
    l_enq l = Enqueueing (b :: bs) → l_cancelled l = true →
    step a l (set_enq (Requeueing (b :: bs)) l)
| step_requeue l b bs :
    l_enq l = Requeueing (b :: bs) → step a l (set_enq (Requeueing bs) (give_back b l))
| step_requeued l :
    l_enq l = Requeueing [] → step a l (set_enq Idle l)
| step_stop l :
    l_enq l = Idle → l_cancelled l = true → step a l (set_enq Stopped l)
(* the workers *)
| step_take l b js :
    l_jobs l = b :: js → (Z.of_nat (length (l_workers l)) < rateLimit a)%Z →
    batch_Metrics b ≠ [] →
    step a l (set_workers (l_workers l ++ [(b, Preparing)]) (set_jobs js l))
| step_take_empty l b js :
    l_jobs l = b :: js → (Z.of_nat (length (l_workers l)) < rateLimit a)%Z →
    batch_Metrics b = [] →
    step a l (add_delivered [b] (set_jobs js l))
| step_prepare l ws1 b ws2 :
    l_workers l = ws1 ++ (b, Preparing) :: ws2 →
    step a l (let '(w, p) := prepare_batch a b (world (l_agent l)) in
      after_prepare b p ws1 ws2 (set_world w l))
| step_attempt l ws1 b op delays ws2 :
    l_workers l = ws1 ++ (b, Attempt op delays) :: ws2 →
    step a l (let '(w, e) := op (world (l_agent l)) in
      after_attempt b op delays e ws1 ws2 (set_world w l))
| step_sleep l ws1 b op delay delays ws2 :
    l_workers l = ws1 ++ (b, Sleeping op delay delays) :: ws2 →
    step a l (set_workers (ws1 ++ (b, Attempt op delays) :: ws2)
      (set_world (retrySleep a delay (world (l_agent l))).1 l))
(* group.Wait has returned: the final report *)
| step_final l :
    l_polling l = false → l_system l = false → l_enq l = Stopped → l_jobs l = [] →
    l_workers l = [] → l_final l = None →
    step a l (final_report a l).

Definition steps (a : Agent W) : Loop → Loop → Prop := rtc (step a).

Definition reachable (a : Agent W) (st : Store) (w : W) (l : Loop) : Prop := steps a (start st w) l.

(** Where the batches are. *)
Definition all_batches (l : Loop) : list Batch :=
  pending (l_agent l) ++ in_hand (l_enq l) ++ l_jobs l ++ (l_workers l).*1 ++ l_delivered l.


(** ** Lemmas *)

Hypothesis order_ok : ∀ s, range_of (order s).1 (gauges s) ∧ range_of (order s).2 (counters s).

(** Permutations of batches, by counting occurrences. *)
Ltac perm :=
  repeat match goal with
  | Hp : _ ≡ₚ _ |- _ => rewrite (Permutation_count_occ Batch_eq_dec) in Hp
  end;
  rewrite (Permutation_count_occ Batch_eq_dec);
  let x := fresh "x" in intros x;
  repeat match goal with Hp : ∀ x, count_occ _ _ x = _ |- _ => specialize (Hp x) end;
  repeat (rewrite ?count_occ_app in *; csimpl in *; cbn [count_occ] in * );
  repeat case_match; lia.

Lemma after_attempt_batches b op ds e ws1 ws2 (l : Loop) :
  all_batches (after_attempt b op ds e ws1 ws2 l) ≡ₚ
    pending (l_agent l) ++ in_hand (l_enq l) ++ l_jobs l ++ ws1.*1 ++ b :: ws2.*1 ++ l_delivered l.
Proof.
  unfold after_attempt, all_batches, give_back, requeue.
  destruct (final isRetriableSendError e); [destruct e|destruct ds]; simpl;
    rewrite ?fmap_app; csimpl; perm.
Qed.

Lemma after_attempt_made b op ds e ws1 ws2 (l : Loop) :
  l_made (after_attempt b op ds e ws1 ws2 l) = l_made l ∧
  created (l_agent (after_attempt b op ds e ws1 ws2 l)) = created (l_agent l) ∧
  store (l_agent (after_attempt b op ds e ws1 ws2 l)) = store (l_agent l) ∧
  l_polls (after_attempt b op ds e ws1 ws2 l) = l_polls l ∧
  world (l_agent (after_attempt b op ds e ws1 ws2 l)) = world (l_agent l) ∧
  l_final (after_attempt b op ds e ws1 ws2 l) = l_final l.
Proof.
  unfold after_attempt. destruct (final isRetriableSendError e); [destruct e|destruct ds]; done.
Qed.

Lemma after_prepare_batches b p ws1 ws2 (l : Loop) :
  all_batches (after_prepare b p ws1 ws2 l) ≡ₚ
    pending (l_agent l) ++ in_hand (l_enq l) ++ l_jobs l ++ ws1.*1 ++ b :: ws2.*1 ++ l_delivered l.
Proof.
  unfold after_prepare, all_batches, give_back, requeue. destruct p; simpl; rewrite ?fmap_app; csimpl; perm.
Qed.

Lemma after_prepare_frame b p ws1 ws2 (l : Loop) :
  l_made (after_prepare b p ws1 ws2 l) = l_made l ∧
  created (l_agent (after_prepare b p ws1 ws2 l)) = created (l_agent l) ∧
  store (l_agent (after_prepare b p ws1 ws2 l)) = store (l_agent l) ∧
  l_polls (after_prepare b p ws1 ws2 l) = l_polls l ∧
  world (l_agent (after_prepare b p ws1 ws2 l)) = world (l_agent l) ∧
  l_final (after_prepare b p ws1 ws2 l) = l_final l ∧
  l_delivered (after_prepare b p ws1 ws2 l) = l_delivered l.
Proof. by destruct p. Qed.

(** The operation a worker will attempt is one of its batch. *)
Lemma prepare_operation a b w w' op : prepare_batch a b w = (w', Ok op) → operation_of a b op.
Proof.
  unfold prepare, operation_of. destruct (sender a) as [send|]; [by intros [= _ <-]|].
  destruct (json_Marshal _) as [body|] eqn:Hj; [|done]. destruct (gz_Write gzip _); [done|].
  destruct (gz_Close gzip _) as [compressed|] eqn:Hgz; [|done]. unfold bind.
  set (hash := if decide (key a ≠ "") then Signature.Calculate body (key a) else "").
  destruct (publicKey a) as [pk|] eqn:Hpk.
  - destruct (rand_Read w) as [w1 rnd] eqn:Hrd. unfold ret.
    destruct (Encrypt rnd (Some pk) compressed) as [payload|] eqn:He; [|done]. intros [= _ <-].
    exists payload, hash. split; [|done]. exists body, compressed. rewrite Hpk. split_and!; try done. exists w. by rewrite Hrd.
  - intros [= _ <-]. exists compressed, hash. split; [|done]. exists body, compressed. by rewrite Hpk.
Qed.

(** What a snapshot leaves alone. *)
Lemma snapshot_frame (s s' : State W) ms :
  snapshot_store order s = (s', ms) →
  pending s' = pending s ∧ created s' = created s ∧ world s' = world s ∧
  store s' = mkStore (gauges (store s)) ∅ ∧
  (∀ name, total_delta name ms = counter_value (store s) name) ∧
  (ms = [] → counters (store s) = ∅).
Proof.
  destruct (snapshot_store_eq order order_ok s) as (ms' & Heq & ? & ?). rewrite Heq.
  intros [= <- <-]. by split_and!.
Qed.

(** No batch is lost or duplicated by a step. *)
Lemma batches_step a l l' :
  step a l l' → all_batches l ≡ₚ l_made l → all_batches l' ≡ₚ l_made l'.
Proof.
  destruct 1 as [l k v Hp|l Hp|l Hp Hc|l e Hs|l Hs Hc|l
    |l He|l s He Hs|l s ms He Hs Hne|l b bs He Hlen|l He|l b bs He Hc|l b bs He|l He|l He Hc
    |l b js Hj Hlen Hne|l b js Hj Hlen Hm|l ws1 b ws2 Hws
    |l ws1 b op ds ws2 Hws|l ws1 b op d ds ws2 Hws|l Hp Hs He Hj Hws Hf];
    intros Hall; try exact Hall.
  - unfold takePending, all_batches in *. rewrite He in Hall. simpl in *.
    destruct (pending (l_agent l)) as [|b bs]; simpl in *; exact Hall || perm.
  - destruct (snapshot_frame _ _ _ Hs) as (Hp & _). unfold all_batches in *. rewrite He in Hall.
    simpl in *. by rewrite Hp.
  - destruct (snapshot_frame _ _ _ Hs) as (Hp & _). unfold all_batches, new_batch in *.
    rewrite He in Hall. simpl in *. rewrite Hp. perm.
  - unfold all_batches in *. rewrite He in Hall. simpl in *. perm.
  - unfold all_batches in *. rewrite He in Hall. exact Hall.
  - unfold all_batches in *. rewrite He in Hall. exact Hall.
  - unfold all_batches, give_back, requeue in *. rewrite He in Hall. simpl in *. perm.
  - unfold all_batches in *. rewrite He in Hall. exact Hall.
  - unfold all_batches in *. rewrite He in Hall. exact Hall.
  - unfold all_batches in *. rewrite Hj in Hall. simpl in *. rewrite fmap_app. csimpl. perm.
  - unfold all_batches in *. rewrite Hj in Hall. simpl in *. perm.
  - destruct (prepare_batch a b (world (l_agent l))) as [w p]. rewrite after_prepare_batches.
    destruct (after_prepare_frame b p ws1 ws2 (set_world w l)) as (-> & _). simpl.
    unfold all_batches in Hall. rewrite Hws, fmap_app in Hall. csimpl in Hall. perm.
  - destruct (op (world (l_agent l))) as [w e]. rewrite after_attempt_batches.
    destruct (after_attempt_made b op ds e ws1 ws2 (set_world w l)) as (-> & _). simpl.
    unfold all_batches in Hall. rewrite Hws, fmap_app in Hall. csimpl in Hall. perm.
  - unfold all_batches in *. rewrite Hws in Hall. simpl in *. rewrite fmap_app in *. csimpl in *. perm.
  - unfold final_report. pose proof (ReportOnce_run gzip normalize newRequest rand_Read ids order order_ok a (l_agent l)) as Hrun.
    pose proof (send_all_batches gzip normalize newRequest rand_Read a
      (pending (l_agent l) ++ fresh_of a (l_agent l)) (world (l_agent l))) as Hb.
    destruct (send_run a _ _) as [w' rs]. destruct (report a (l_agent l)) as [s e].
    destruct Hrun as (_ & Hpend & _). simpl in Hb. unfold all_batches in *. simpl.
    rewrite He, Hj, Hws in *. simpl in *. rewrite Hpend.
    pose proof (acked_failed rs) as Haf. rewrite Hb in Haf. perm.
Qed.

(** The increments made so far: those of the starting store, and one for every
    runtime collection. *)
Definition collected (st0 : Store) (n : nat) (name : string) : Z :=
  (counter_value st0 name + (if decide (name = "PollCount") then Z.of_nat n else 0))%Z.

(** What is known of the store and of the batches made. *)
Definition accounted (st0 : Store) (l : Loop) : Prop :=
  store_ok (store (l_agent l)) ∧
  created (l_agent l) = length (l_made l) ∧
  (∀ i b, l_made l !! i = Some b → batch_ID b = rand_Text (ids i)) ∧
  (∀ name, wrap64 (counter_value (store (l_agent l)) name + batches_delta name (l_made l))
     = wrap64 (collected st0 (l_polls l) name)).

(** The increment of a collection is added to the store and to the account. *)
Lemma poll_delta st st0 n name made :
  wrap64 (counter_value st name + made) = wrap64 (collected st0 n name) →
  wrap64 (counter_value (IncCounter "PollCount" 1 st) name + made) = wrap64 (collected st0 (S n) name).
Proof.
  intros Hw. rewrite IncCounter_value. unfold collected in *.
  case_decide as Hn; [subst name; rewrite decide_True in * by done|].
  - unfold add64. rewrite wrap64_add_l.
    replace (counter_value st "PollCount" + 1 + made)%Z
      with (counter_value st "PollCount" + made + 1)%Z by lia.
    rewrite <-wrap64_add_l, Hw, wrap64_add_l. f_equal. lia.
  - rewrite decide_False in * by congruence. done.
Qed.

(** The account of a state whose store, batches and collections are those of
    another one. *)
Lemma accounted_same st0 l l' :
  store (l_agent l') = store (l_agent l) → created (l_agent l') = created (l_agent l) →
  l_made l' = l_made l → l_polls l' = l_polls l → accounted st0 l → accounted st0 l'.
Proof. unfold accounted. by intros -> -> -> ->. Qed.

Lemma accounted_counters st0 l l' :
  counters (store (l_agent l')) = counters (store (l_agent l)) →
  created (l_agent l') = created (l_agent l) →
  l_made l' = l_made l → l_polls l' = l_polls l → accounted st0 l → accounted st0 l'.
Proof. unfold accounted, store_ok, counter_value. by intros -> -> -> ->. Qed.

(** A new batch takes the counters of the store over. *)
Lemma accounted_batch st0 l l' ms :
  store (l_agent l') = mkStore (gauges (store (l_agent l))) ∅ →
  created (l_agent l') = S (created (l_agent l)) →
  l_made l' = l_made l ++ [New (ids (created (l_agent l))) ms] →
  l_polls l' = l_polls l →
  (∀ name, total_delta name ms = counter_value (store (l_agent l)) name) →
  accounted st0 l → accounted st0 l'.
Proof.
  intros Hst Hcr Hmade Hpolls Hdelta (Hok & Hlen & Hid & Hsum). unfold accounted.
  rewrite Hst, Hcr, Hmade, Hpolls. split_and!.
  - apply map_Forall_empty.
  - rewrite length_app. simpl. lia.
  - intros i b Hb. apply lookup_app_Some in Hb as [Hb|[Hi Hb]]; [by apply Hid|].
    apply list_lookup_singleton_Some in Hb as [Hi0 <-]. simpl. do 2 f_equal. lia.
  - intros name. rewrite <-Hsum, batches_delta_app. f_equal. unfold batches_delta at 2. simpl.
    rewrite Hdelta. assert (counter_value (mkStore (gauges (store (l_agent l))) ∅) name = 0%Z) as -> by done.
    lia.
Qed.

Lemma accounted_step a st0 l l' : step a l l' → accounted st0 l → accounted st0 l'.
Proof.
  destruct 1 as [l k v Hp|l Hp|l Hp Hc|l e Hs|l Hs Hc|l
    |l He|l s He Hs|l s ms He Hs Hne|l b bs He Hlen|l He|l b bs He Hc|l b bs He|l He|l He Hc
    |l b js Hj Hlen Hne|l b js Hj Hlen Hm|l ws1 b ws2 Hws
    |l ws1 b op ds ws2 Hws|l ws1 b op d ds ws2 Hws|l Hp Hs He Hj Hws Hf];
    intros Hacc; try (by apply (accounted_same st0 l)).
  - by apply (accounted_counters st0 l).
  - destruct Hacc as (Hok & Hlen & Hid & Hsum). split_and!; [by apply IncCounter_ok|done|done|].
    intros name. simpl. by apply poll_delta.
  - destruct (snapshot_frame _ _ _ Hs) as (_ & Hcr & _ & Hst & _ & Hempty).
    apply (accounted_counters st0 l); simpl; try done. rewrite Hst. simpl. by rewrite Hempty.
  - destruct (snapshot_frame _ _ _ Hs) as (_ & Hcr & _ & Hst & Hdelta & _).
    apply (accounted_batch st0 l _ ms); simpl; rewrite ?Hcr, ?Hst; done.
  - destruct (prepare_batch a b (world (l_agent l))) as [w p].
    destruct (after_prepare_frame b p ws1 ws2 (set_world w l)) as (Hm & Hc & Hst & Hpo & _).
    by apply (accounted_same st0 l).
  - destruct (op (world (l_agent l))) as [w e].
    destruct (after_attempt_made b op ds e ws1 ws2 (set_world w l)) as (Hm & Hc & Hst & Hpo & _).
    by apply (accounted_same st0 l).
  - unfold final_report. pose proof (ReportOnce_run gzip normalize newRequest rand_Read ids order order_ok a (l_agent l)) as Hrun.
    destruct (send_run a _ _) as [w' rs]. destruct (report a (l_agent l)) as [s e].
    destruct Hrun as (_ & _ & Hcr & _ & [(Hfr & Hst & _)|(ms & Hfr & Hst & Hdelta)]);
      rewrite Hfr in *; simpl in Hcr.
    + apply (accounted_same st0 l); simpl; try done; [lia|by rewrite app_nil_r].
    + apply (accounted_batch st0 l _ ms); simpl; try done. lia.
Qed.

(** The workers and the channel stay within the rate limit, and every worker
    retries an operation of its own batch. *)
Definition bounded (a : Agent W) (l : Loop) : Prop :=
  (Z.of_nat (length (l_workers l)) ≤ rateLimit a)%Z ∧
  (Z.of_nat (length (l_jobs l)) ≤ rateLimit a)%Z ∧
  Forall (λ bj, batch_Metrics bj.1 ≠ [] ∧ job_ok a bj.1 bj.2) (l_workers l).

Lemma bounded_step a l l' : step a l l' → bounded a l → bounded a l'.
Proof.
  destruct 1 as [l k v Hp|l Hp|l Hp Hc|l e Hs|l Hs Hc|l
    |l He|l s He Hs|l s ms He Hs Hne|l b bs He Hlen|l He|l b bs He Hc|l b bs He|l He|l He Hc
    |l b js Hj Hlen Hne|l b js Hj Hlen Hm|l ws1 b ws2 Hws
    |l ws1 b op ds ws2 Hws|l ws1 b op d ds ws2 Hws|l Hp Hs He Hj Hws Hf];
    intros (Hw & Hjl & Hops); try (split_and!; exact Hw || exact Hjl || exact Hops).
  - split_and!; [exact Hw| |exact Hops]. simpl. rewrite length_app. simpl. lia.
  - rewrite Hj in Hjl. split_and!; simpl in *.
    + rewrite length_app. simpl. lia.
    + lia.
    + apply Forall_app. split; [done|]. by apply Forall_singleton.
  - rewrite Hj in Hjl. split_and!; simpl in *; [done|lia|done].
  - rewrite Hws in Hw, Hops. apply Forall_app in Hops as [Hops1 [[Hne _] Hops2]%Forall_cons].
    rewrite length_app in Hw. simpl in Hw, Hne. unfold bounded.
    destruct (prepare_batch a b (world (l_agent l))) as [w p] eqn:Hp.
    destruct p as [op|e]; simpl; rewrite length_app; simpl; split_and!; try done; try lia; apply Forall_app; [|by auto].
    split; [done|]. constructor; [|done]. split; [done|]. by eapply prepare_operation.
  - destruct (op (world (l_agent l))) as [w e]. rewrite Hws in Hw, Hops.
    apply Forall_app in Hops as [Hops1 [Hop Hops2]%Forall_cons].
    unfold after_attempt, bounded. rewrite length_app in Hw. simpl in Hw.
    destruct (final isRetriableSendError e); [destruct e|destruct ds]; simpl;
      rewrite length_app; simpl; split_and!; try done; try lia; apply Forall_app; auto.
  - rewrite Hws in Hw, Hops. apply Forall_app in Hops as [Hops1 [Hop Hops2]%Forall_cons].
    unfold bounded. simpl. rewrite length_app in *. simpl in *. split_and!; try done; try lia.
    apply Forall_app. auto.
  - unfold final_report. destruct (report a (l_agent l)) as [s e]. split_and!; [exact Hw|exact Hjl|exact Hops].
Qed.

(** Once [Run] has returned nothing moves, and a nil result leaves nothing. *)
Definition finished (l : Loop) : Prop :=
  ∀ r, l_final l = Some r →
    l_polling l = false ∧ l_system l = false ∧ l_enq l = Stopped ∧ l_jobs l = [] ∧ l_workers l = [] ∧
    (r = None → pending (l_agent l) = [] ∧ counters (store (l_agent l)) = ∅).

Lemma finished_step a l l' : step a l l' → finished l → finished l'.
Proof.
  destruct 1 as [l k v Hp|l Hp|l Hp Hc|l e Hs|l Hs Hc|l
    |l He|l s He Hs|l s ms He Hs Hne|l b bs He Hlen|l He|l b bs He Hc|l b bs He|l He|l He Hc
    |l b js Hj Hlen Hne|l b js Hj Hlen Hm|l ws1 b ws2 Hws
    |l ws1 b op ds ws2 Hws|l ws1 b op d ds ws2 Hws|l Hp Hs He Hj Hws Hf];
    unfold finished; intros Hfin r; simpl.
  all: try (intros Hr0; destruct (Hfin r) as (? & ? & ? & ? & ? & ?); [exact Hr0|];
    simpl; split_and!; done || congruence).
  - intros Hr0. destruct (prepare_batch a b (world (l_agent l))) as [w p].
    destruct (after_prepare_frame b p ws1 ws2 (set_world w l)) as (_ & _ & _ & _ & _ & Hfi & _).
    rewrite Hfi in Hr0. destruct (Hfin r Hr0) as (_ & _ & _ & _ & Hnone & _).
    rewrite Hnone in Hws. by destruct ws1.
  - intros Hr0. destruct (op (world (l_agent l))) as [w e].
    destruct (after_attempt_made b op ds e ws1 ws2 (set_world w l)) as (_ & _ & _ & _ & _ & Hfi).
    rewrite Hfi in Hr0. destruct (Hfin r Hr0) as (_ & _ & _ & _ & Hnone & _).
    rewrite Hnone in Hws. by destruct ws1.
  - intros Hr0. destruct (Hfin r Hr0) as (_ & _ & _ & _ & Hnone & _).
    rewrite Hnone in Hws. by destruct ws1.
  - unfold final_report. pose proof (ReportOnce_run gzip normalize newRequest rand_Read ids order order_ok a (l_agent l)) as Hrun.
    destruct (send_run a _ _) as [w' rs]. destruct (report a (l_agent l)) as [s e]. simpl.
    destruct Hrun as (_ & Hpe & _ & He0 & Hcase). intros [= <-]. split_and!; try done.
    intros Hj0. apply errors_Join_nil2 in Hj0 as [_ ->]. rewrite Hpe.
    destruct (proj1 He0 eq_refl). split; [by apply He0|].
    destruct Hcase as [(_ & Hst & Hempty)|(ms & _ & Hst & _)]; rewrite Hst; [by apply Hempty|done].
Qed.

(** All of it, for the reachable states. *)
Lemma reachable_inv a st w l :
  store_ok st → (0 ≤ rateLimit a)%Z → reachable a st w l →
  all_batches l ≡ₚ l_made l ∧ accounted st l ∧ bounded a l ∧ finished l.
Proof.
  intros Hok Hrate Hr.
  assert (all_batches (start st w) ≡ₚ l_made (start st w) ∧ accounted st (start st w) ∧
    bounded a (start st w) ∧ finished (start st w)) as Hinit.
  { split_and!; try done. unfold accounted. split_and!; try done.
    intros name. simpl. unfold collected, batches_delta. simpl. f_equal. case_decide; lia. }
  revert Hinit. unfold reachable, steps in Hr. revert Hr.
  generalize (start st w) as l0. intros l0 Hr. induction Hr as [|l0 l1 l2 Hs _ IH]; [done|].
  intros (H1' & H2' & H3' & H4'). apply IH. split_and!;
    eauto using batches_step, accounted_step, bounded_step, finished_step.
Qed.

(** ** The collections as steps *)

Lemma gauge_steps a gs l :
  l_polling l = true ∨ l_system l = true →
  steps a l (set_store (set_gauges gs (store (l_agent l))) l).
Proof.
  revert l. induction gs as [|[k v] gs IH]; intros l Hl.
  - destruct l as [[st p c w] ? ? ? ? ? ? ? ? ? ? ?]. apply rtc_refl.
  - eapply rtc_l; [by apply (step_gauge a l k v)|].
    exact (IH (set_store (SetGauge k v (store (l_agent l))) l) Hl).
Qed.

(** The steps of the poller alone are [PollOnce]. *)
Lemma poll_steps a l m random :
  l_polling l = true →
  steps a l (add_poll (set_store (PollOnce m random (store (l_agent l))) l)).
Proof.
  intros Hl. eapply rtc_r; [apply (gauge_steps a (runtime_gauges m random)); by left|].
  by apply (step_poll a (set_store (set_gauges (runtime_gauges m random) (store (l_agent l))) l)).
Qed.

(** Those of the system poller are [PollSystemOnce]. *)
Lemma system_steps a l memory cpu st e :
  l_system l = true → PollSystemOnce memory cpu (store (l_agent l)) = (st, e) →
  steps a l (match e with
    | None => set_store st l
    | Some e => set_flags (l_polling l) false true
        (first_error (l_groupErr l) (Some (Wrap "collect system metrics" e))) (set_store st l)
    end).
Proof.
  intros Hl Hp.
  assert (∃ gs, st = set_gauges gs (store (l_agent l))) as [gs Hgs].
  { unfold PollSystemOnce in Hp. destruct memory as [vm|e1], cpu as [values|e2]; injection Hp as <- _.
    - by exists ([("TotalMemory", float64_of_Z (vm_Total vm)); ("FreeMemory", float64_of_Z (vm_Free vm))]
        ++ cpu_gauges values).
    - by exists [("TotalMemory", float64_of_Z (vm_Total vm)); ("FreeMemory", float64_of_Z (vm_Free vm))].
    - by exists (cpu_gauges values).
    - by exists []. }
  subst st. pose proof (gauge_steps a gs l (or_intror Hl)) as Hs.
  destruct e as [e|]; [|exact Hs]. eapply rtc_r; [exact Hs|].
  by apply (step_system_fail a (set_store (set_gauges gs (store (l_agent l))) l) e).
Qed.

(** The loops are runs of these steps, to their return or as far as the events go. *)
Definition system_returns (r : option err) (l : Loop) : Loop :=
  match r with
  | None => l
  | Some None => set_flags (l_polling l) false (l_cancelled l) (l_groupErr l) l
  | Some (Some e) => set_flags (l_polling l) false true (first_error (l_groupErr l) (Some e)) l
  end.

Lemma system_select_steps a events : ∀ l st r,
  l_system l = true → (Cancelled ∈ events → l_cancelled l = true) →
  system_select events (store (l_agent l)) = (st, r) → steps a l (system_returns r (set_store st l)).
Proof.
  induction events as [|[[memory cpu]|] events IH]; intros l st r Hl Hc; cbn [system_select].
  - intros [= <- <-]. exact (gauge_steps a [] l (or_intror Hl)).
  - destruct (PollSystemOnce memory cpu (store (l_agent l))) as [st1 [e|]] eqn:Hp.
    + intros [= <- <-]. exact (system_steps a l memory cpu st1 (Some e) Hl Hp).
    + intros Hs. unfold steps. etrans; [exact (system_steps a l memory cpu st1 None Hl Hp)|].
      apply (IH (set_store st1 l) st r Hl); [|exact Hs].
      intros Hin. apply Hc. by apply list_elem_of_further.
  - intros [= <- <-]. eapply rtc_r; [exact (gauge_steps a [] l (or_intror Hl))|].
    apply step_system_return; [done|]. apply Hc. apply list_elem_of_here.
Qed.

Lemma SystemPollLoop_steps a l memory cpu events st r :
  l_system l = true → (Cancelled ∈ events → l_cancelled l = true) →
  SystemPollLoop memory cpu events (store (l_agent l)) = (st, r) →
  steps a l (system_returns r (set_store st l)).
Proof.
  intros Hl Hc. rewrite SystemPollLoop_select. apply system_select_steps; [done|].
  intros Hin. apply Hc. by inversion Hin.
Qed.

Lemma PollLoop_steps a l m random events st returned :
  l_polling l = true → (Cancelled ∈ events → l_cancelled l = true) →
  PollLoop m random events (store (l_agent l)) = (st, returned) →
  ∃ l', steps a l l' ∧ store (l_agent l') = st ∧ l_polling l' = negb returned.
Proof.
  unfold PollLoop. intros Hl. revert l m random Hl.
  induction events as [|[[m' random']|] events IH]; intros l m random Hl Hc; cbn [poll_select].
  - intros [= <- <-]. eexists. split; [by apply poll_steps|done].
  - intros Hs. destruct (IH (add_poll (set_store (PollOnce m random (store (l_agent l))) l)) m' random' Hl)
      as (l' & Hs' & Hst & Hp); [|exact Hs|].
    + intros Hin. apply Hc. by apply list_elem_of_further.
    + exists l'. split; [|done]. unfold steps in *. etrans; [by apply poll_steps|exact Hs'].
  - intros [= <- <-]. eexists. split; [eapply rtc_r; [by apply poll_steps|]|].
    + apply step_poll_return; [done|]. apply Hc. apply list_elem_of_here.
    + done.
Qed.

(** ** Progress *)

(** A batch that a worker has finished with. *)
Definition settle (b : Batch) (e : err) (l : Loop) : Loop :=
  match e with None => add_delivered [b] l | Some _ => give_back b l end.

(** The steps of one worker are those of the retries of its operation. *)
Lemma worker_attempts a ds l ws1 b op ws2 :
  l_workers l = ws1 ++ (b, Attempt op ds) :: ws2 →
  let '(w', e) := attempt op isRetriableSendError (retrySleep a) ds (world (l_agent l)) in
  steps a l (settle b e (set_workers (ws1 ++ ws2) (set_world w' l))).
Proof.
  revert l. induction ds as [|d ds IH]; intros l Hws; unfold attempt, bind;
    pose proof (step_attempt a l ws1 b op _ ws2 Hws) as Hstep;
    destruct (op (world (l_agent l))) as [w1 e1]; unfold after_attempt in Hstep;
    destruct (final isRetriableSendError e1) eqn:Hf.
  1, 3: destruct e1; by apply rtc_once.
  - destruct e1; [|done]. by apply rtc_once.
  - set (l1 := set_workers (ws1 ++ (b, Sleeping op d ds) :: ws2) (set_world w1 l)) in *.
    pose proof (step_sleep a l1 ws1 b op d ds ws2 eq_refl) as Hsleep.
    change (world (l_agent l1)) with w1 in Hsleep. cbn [retry_loop]. unfold bind.
    destruct (retrySleep a d w1) as [w2 []]. cbn [fst] in Hsleep.
    specialize (IH _ (eq_refl : l_workers (set_workers (ws1 ++ (b, Attempt op ds) :: ws2)
      (set_world w2 l1)) = _)).
    unfold attempt, bind in IH. change (world (l_agent (set_workers _ (set_world w2 l1)))) with w2 in IH.
    destruct (op w2) as [w3 e3].
    destruct (if final isRetriableSendError e3 then _ else _) as [w4 e4].
    eapply rtc_l; [exact Hstep|]. eapply rtc_l; [exact Hsleep|]. exact IH.
Qed.

(** What the steps towards the end of [Run] preserve. *)
Lemma settle_frame b e l :
  l_enq (settle b e l) = l_enq l ∧ l_jobs (settle b e l) = l_jobs l ∧
  l_workers (settle b e l) = l_workers l ∧ l_cancelled (settle b e l) = l_cancelled l ∧
  l_polling (settle b e l) = l_polling l ∧ l_system (settle b e l) = l_system l ∧
  l_final (settle b e l) = l_final l.
Proof. by destruct e. Qed.

(** A state on its way to the end: cancelled, nothing collected any more. *)
Definition winding (l : Loop) : Prop :=
  l_cancelled l = true ∧ l_polling l = false ∧ l_system l = false ∧ l_final l = None.

Lemma wind_down a l :
  l_final l = None → ∃ l', steps a l l' ∧ winding l' ∧ l_enq l' = l_enq l ∧ l_jobs l' = l_jobs l ∧
    l_workers l' = l_workers l.
Proof.
  intros Hf. set (l1 := set_flags (l_polling l) (l_system l) true (l_groupErr l) l).
  assert (∃ l2, steps a l1 l2 ∧ l_cancelled l2 = true ∧ l_polling l2 = false ∧ l_final l2 = None ∧
    l_enq l2 = l_enq l ∧ l_jobs l2 = l_jobs l ∧ l_workers l2 = l_workers l)
    as (l2 & Hs2 & Hc2 & Hp2 & Hf2 & He2 & Hj2 & Hw2).
  { destruct (l_polling l) eqn:Hp.
    - eexists. split; [apply rtc_once; by apply step_poll_return|]. done.
    - exists l1. split; [apply rtc_refl|done]. }
  assert (steps a l l2) as Hs by (eapply rtc_l; [apply step_cancel|exact Hs2]).
  destruct (l_system l2) eqn:Hsys.
  - eexists. split; [eapply rtc_r; [exact Hs|by apply step_system_return]|]. done.
  - exists l2. done.
Qed.

(** The report loop can always return once it is cancelled. *)
Lemma requeue_all a bs l :
  l_enq l = Requeueing bs → winding l →
  ∃ l', steps a l l' ∧ winding l' ∧ l_enq l' = Stopped ∧ l_jobs l' = l_jobs l ∧ l_workers l' = l_workers l.
Proof.
  revert l. induction bs as [|b bs IH]; intros l He Hw.
  - exists (set_enq Stopped (set_enq Idle l)). split; [|done].
    eapply rtc_l; [by apply step_requeued|]. apply rtc_once. apply step_stop; [done|apply Hw].
  - destruct (IH (set_enq (Requeueing bs) (give_back b l)) eq_refl Hw) as (l' & Hs & ?).
    exists l'. split; [|done]. eapply rtc_l; [by apply step_requeue|exact Hs].
Qed.

Lemma stop_enqueuer a l :
  winding l → ∃ l', steps a l l' ∧ winding l' ∧ l_enq l' = Stopped ∧ l_jobs l' = l_jobs l ∧
    l_workers l' = l_workers l.
Proof.
  intros Hw. pose proof Hw as (Hc & _).
  assert (∀ l0, l_enq l0 = Idle → winding l0 → ∃ l', steps a l0 l' ∧ winding l' ∧ l_enq l' = Stopped ∧
    l_jobs l' = l_jobs l0 ∧ l_workers l' = l_workers l0) as Hidle.
  { intros l0 He Hw0. exists (set_enq Stopped l0). split; [|done].
    apply rtc_once. apply step_stop; [done|apply Hw0]. }
  assert (∀ l0 bs, l_enq l0 = Enqueueing bs → winding l0 → ∃ l', steps a l0 l' ∧ winding l' ∧
    l_enq l' = Stopped ∧ l_jobs l' = l_jobs l0 ∧ l_workers l' = l_workers l0) as Henq.
  { intros l0 [|b bs] He Hw0.
    - destruct (Hidle (set_enq Idle l0) eq_refl Hw0) as (l' & Hs & ?).
      exists l'. split; [|done]. eapply rtc_l; [by apply step_pushed|exact Hs].
    - destruct (requeue_all a (b :: bs) (set_enq (Requeueing (b :: bs)) l0) eq_refl Hw0) as (l' & Hs & ?).
      exists l'. split; [|done]. eapply rtc_l; [apply (step_abandon a l0 b bs He), Hw0|exact Hs]. }
  destruct (l_enq l) as [| |bs|bs|] eqn:He.
  - by apply Hidle.
  - destruct (snapshot_store order (l_agent l)) as [s ms] eqn:Hs. destruct ms as [|m ms].
    + destruct (Hidle (set_enq Idle (set_agent s l)) eq_refl Hw) as (l' & Hst & ?).
      exists l'. split; [|done]. eapply rtc_l; [by apply step_snapshot_empty|exact Hst].
    + pose proof (step_snapshot a l s (m :: ms) He Hs ltac:(done)) as Hst. unfold new_batch in Hst.
      destruct (Henq _ _ (eq_refl : l_enq (set_enq (Enqueueing [New (ids (created s)) (m :: ms)])
        (add_made [New (ids (created s)) (m :: ms)] (set_agent (mkState (store s) (pending s)
          (S (created s)) (world s)) l))) = _) Hw) as (l' & Hst' & ?).
      exists l'. split; [|done]. eapply rtc_l; [exact Hst|exact Hst'].
  - by apply (Henq l bs).
  - by apply (requeue_all a bs).
  - exists l. split; [apply rtc_refl|done].
Qed.

(** The workers can always finish what they hold. *)
Lemma finish_worker a l b j ws :
  l_workers l = (b, j) :: ws →
  ∃ l', steps a l l' ∧ l_workers l' = ws ∧ l_jobs l' = l_jobs l ∧ l_enq l' = l_enq l ∧
    (winding l → winding l').
Proof.
  assert (∀ l0 op ds, l_workers l0 = (b, Attempt op ds) :: ws →
    ∃ l', steps a l0 l' ∧ l_workers l' = ws ∧ l_jobs l' = l_jobs l0 ∧ l_enq l' = l_enq l0 ∧
      (winding l0 → winding l')) as Hatt.
  { intros l0 op ds Hws. pose proof (worker_attempts a ds l0 [] b op ws Hws) as Hst.
    destruct (attempt op _ _ ds _) as [w e]. simpl in Hst.
    destruct (settle_frame b e (set_workers ws (set_world w l0))) as (? & ? & ? & ? & ? & ? & ?). simpl in *.
    eexists. split; [exact Hst|]. unfold winding. intuition congruence. }
  intros Hws. destruct j as [|op ds|op d ds]; [|by eapply Hatt|].
  { pose proof (step_prepare a l [] b ws Hws) as Hst. destruct (prepare_batch a b (world (l_agent l))) as [w p].
    destruct p as [op|e]; cbn [after_prepare app] in Hst.
    - match type of Hst with step _ _ ?l1 => destruct (Hatt l1 op defaultDelays eq_refl) as (l' & Hs & ?) end.
      exists l'. split; [|done]. by eapply rtc_l.
    - eexists. split; [by apply rtc_once|]. done. }
  pose proof (step_sleep a l [] b op d ds ws Hws) as Hst. simpl in Hst.
  match type of Hst with step _ _ ?l1 => destruct (Hatt l1 op ds eq_refl) as (l' & Hs & ?) end.
  exists l'. split; [|done]. by eapply rtc_l.
Qed.

Lemma finish_workers a l :
  ∃ l', steps a l l' ∧ l_workers l' = [] ∧ l_jobs l' = l_jobs l ∧ l_enq l' = l_enq l ∧
    (winding l → winding l').
Proof.
  remember (l_workers l) as ws eqn:Hws. symmetry in Hws. revert l Hws.
  induction ws as [|[b j] ws IH]; intros l Hws.
  { exists l. split; [apply rtc_refl|done]. }
  destruct (finish_worker a l b j ws Hws) as (l1 & Hs1 & Hw1 & Hj1 & He1 & Hwd1).
  destruct (IH l1 Hw1) as (l2 & Hs2 & Hw2 & Hj2 & He2 & Hwd2).
  exists l2. split; [by etrans|]. split_and!; [done|congruence|congruence|auto].
Qed.

(** ... and then everything that is in the channel. *)
Lemma drain_jobs a l :
  (0 < rateLimit a)%Z → l_workers l = [] →
  ∃ l', steps a l l' ∧ l_workers l' = [] ∧ l_jobs l' = [] ∧ l_enq l' = l_enq l ∧
    (winding l → winding l').
Proof.
  intros Hrate. remember (l_jobs l) as js eqn:Hjs. symmetry in Hjs. revert l Hjs.
  induction js as [|b js IH]; intros l Hjs Hws.
  { exists l. split; [apply rtc_refl|done]. }
  assert (Z.of_nat (length (l_workers l)) < rateLimit a)%Z as Hlen by (rewrite Hws; simpl; lia).
  assert (∃ l1, steps a l l1 ∧ l_workers l1 = [] ∧ l_jobs l1 = js ∧ l_enq l1 = l_enq l ∧
    (winding l → winding l1)) as (l1 & Hs1 & Hw1 & Hj1 & He1 & Hwd1).
  { destruct (decide (batch_Metrics b = [])) as [Hm|Hm].
    - eexists. split; [apply rtc_once; by apply (step_take_empty a l b js)|]. done.
    - pose proof (step_take a l b js Hjs Hlen Hm) as Hst. rewrite Hws in Hst. simpl in Hst.
      match type of Hst with step _ _ ?l1 => destruct (finish_worker a l1 b _ [] eq_refl)
        as (l2 & Hs2 & Hw2 & Hj2 & He2 & Hwd2) end.
      exists l2. split; [by eapply rtc_l|]. split_and!; done. }
  destruct (IH l1 Hj1 Hw1) as (l2 & Hs2 & Hw2 & Hj2 & He2 & Hwd2).
  exists l2. split; [by etrans|]. split_and!; [done|done|congruence|auto].
Qed.

(** ** Properties *)

(** C5: the agent loses no batch and makes none twice: in every reachable state,
    whatever the interleaving of collections, reports, sends, failures and the
    cancellation, the batches that are pending, in the hands of the report
    loop, in the channel, held by a worker or delivered are exactly the
    batches made, each once, under the identifiers they were made with; the
    increments still in the store and those in the batches add up, modulo
    2^64, to what was collected; and never more than [rateLimit] batches are
    being sent at the same time. *)
Theorem agent_conserves a st w l :
  store_ok st → (0 ≤ rateLimit a)%Z → reachable a st w l →
  all_batches l ≡ₚ l_made l ∧
  (∀ i b, l_made l !! i = Some b → batch_ID b = rand_Text (ids i)) ∧
  (∀ name, wrap64 (counter_value (store (l_agent l)) name + batches_delta name (l_made l)) =
    wrap64 (collected st (l_polls l) name)) ∧
  (Z.of_nat (length (l_workers l)) ≤ rateLimit a)%Z.
Proof.
  intros Hok Hrate Hr.
  destruct (reachable_inv a st w l Hok Hrate Hr) as (Hb & (_ & _ & Hid & Hsum) & (Hw & _) & _).
  by split_and!.
Qed.

(** C21: a worker of the pool does what [sendBatch] does, over HTTP as over gRPC: the
    steps in which it takes a batch from the channel, prepares it (marshals,
    compresses, signs and encrypts it), attempts it and sleeps between attempts
    lead to the world [sendBatch] leads to, with the batch delivered when
    [sendBatch] returns nil, and pending again when it returns an error, that of
    the preparation or of the last attempt. *)
Theorem worker_runs_sendBatch a l b js :
  l_jobs l = b :: js → (Z.of_nat (length (l_workers l)) < rateLimit a)%Z →
  let '(w', e) := send_batch a b (world (l_agent l)) in
  ∃ l', steps a l l' ∧ world (l_agent l') = w' ∧ l_jobs l' = js ∧ l_workers l' = l_workers l ∧
    match e with
    | None => l_delivered l' = l_delivered l ++ [b] ∧ pending (l_agent l') = pending (l_agent l)
    | Some _ => l_delivered l' = l_delivered l ∧ pending (l_agent l') = pending (l_agent l) ++ [b]
    end.
Proof.
  intros Hj Hlen. destruct (decide (batch_Metrics b = [])) as [Hm|Hne].
  { unfold sendBatch. rewrite Hm. cbn. eexists.
    split; [apply rtc_once; by apply (step_take_empty a l b js)|]. done. }
  rewrite (sendBatch_prepare gzip normalize newRequest rand_Read a b _ Hne).
  pose proof (step_take a l b js Hj Hlen Hne) as Hst.
  match type of Hst with step _ _ ?l1 => pose proof (step_prepare a l1 (l_workers l) b [] eq_refl) as Hpr end.
  cbn [set_workers set_jobs l_agent] in Hpr. unfold bind.
  destruct (prepare_batch a b (world (l_agent l))) as [w p]. destruct p as [op|e]; cbn [after_prepare] in Hpr.
  2: { eexists. split; [eapply rtc_l; [exact Hst|apply rtc_once, Hpr]|]. by rewrite app_nil_r. }
  match type of Hpr with step _ _ ?l2 =>
    pose proof (worker_attempts a defaultDelays l2 (l_workers l) b op [] eq_refl) as Hatt end.
  change (DoWithSleeper op isRetriableSendError (retrySleep a) w)
    with (attempt op isRetriableSendError (retrySleep a) defaultDelays w).
  cbn [set_workers set_jobs set_world set_agent l_agent world] in Hatt.
  destruct (attempt op _ _ _ w) as [w' e].
  eexists. split; [eapply rtc_l; [exact Hst|]; eapply rtc_l; [exact Hpr|exact Hatt]|]. rewrite app_nil_r. by destruct e.
Qed.

(** [Run] can always return: from every state of the running agent, with
    workers in the middle of their retries, a full channel, or the report
    loop blocked on it, cancelling leads through steps of the goroutines to
    the end of [Run], after the workers have settled every batch in the
    channel and the final report has been made. *)
Theorem run_can_finish a st w l :
  store_ok st → (0 < rateLimit a)%Z → reachable a st w l →
  ∃ l' r, steps a l l' ∧ l_final l' = Some r ∧ l_jobs l' = [] ∧ l_workers l' = [].
Proof.
  intros Hok Hrate Hr. pose proof (reachable_inv a st w l Hok ltac:(lia) Hr) as (_ & _ & _ & Hfin).
  destruct (l_final l) as [r|] eqn:Hf.
  { exists l, r. destruct (Hfin r Hf) as (_ & _ & _ & ? & ? & _). by split_and!; [apply rtc_refl| | |]. }
  destruct (wind_down a l Hf) as (l1 & Hs1 & Hw1 & _).
  destruct (stop_enqueuer a l1 Hw1) as (l2 & Hs2 & Hw2 & He2 & _).
  destruct (finish_workers a l2) as (l3 & Hs3 & Hws3 & Hj3 & He3 & Hw3).
  destruct (drain_jobs a l3 Hrate Hws3) as (l4 & Hs4 & Hws4 & Hj4 & He4 & Hw4).
  destruct (Hw4 (Hw3 Hw2)) as (Hc & Hp & Hsys & Hnone).
  pose proof (step_final a l4 Hp Hsys ltac:(congruence) Hj4 Hws4 Hnone) as Hst.
  unfold final_report in Hst.
  destruct (report a (l_agent l4)) as [s e].
  match type of Hst with step _ _ ?l5 => exists l5 end.
  eexists. split; [|split; [done|split; [exact Hj4|exact Hws4]]].
  unfold steps in *. etrans; [exact Hs1|]. etrans; [exact Hs2|]. etrans; [exact Hs3|].
  etrans; [exact Hs4|]. by apply rtc_once.
Qed.
End AgentLoop.
