(* ===== verification/HttpStorage.v ===== *)
(** The HTTP handlers over the in-memory storage and its file: what the parts
    verified separately do together, and concrete runs of the handlers. *)

From S2P Require Import Prelude GoErrors Metrics GoJson GoStrconv Delivery Repository Memory SaveFile.
From S2P Require Import GoHttp Service Persistence Auditing Handler.

(** The documented refusal of the encoder: NaN and infinities have no JSON. *)
Class JsonFinite `{Json (list snapshotRecord)} : Prop := {
  json_nonfinite rs m v :
    m ∈ map sr_Metrics rs → Value m = Some v → float64_finite v = false →
    ∃ e, json_Marshal rs = Fail e
}.

Lemma fileSnapshot_metrics go co ro s :
  map sr_Metrics (fileSnapshot go co ro s) = snapshotMetricsLocked go co.
Proof.
  unfold fileSnapshot. destruct (snapshotMetricsLocked go co) as [|m ms]; simpl; [done|].
  case_decide; simpl; rewrite List.map_map; simpl; by rewrite List.map_id.
Qed.

(** Every gauge of the storage has a record in the snapshot. *)
Lemma snapshot_gauge s n v :
  gauges s !! n = Some v → gauge_metric n v ∈ map sr_Metrics (snapshot s).
Proof.
  intros Hn. unfold snapshot. rewrite fileSnapshot_metrics, snapshotMetricsLocked_eq.
  apply elem_of_app. left. apply list_elem_of_fmap. exists (n, v). split; [done|].
  by apply elem_of_map_to_list.
Qed.

Section HttpStorage.
Context `{Json Metrics} `{Json (list Metrics)} `{FloatText} `{Json (list snapshotRecord)}.

(** ** Properties *)

(** C39: a gauge that is not finite stops the persistence.  The URL endpoint takes
    [NaN] (and [Inf]): in the periodic mode it answers 200, and in either mode
    the value is stored.  From then on, while the gauge has that value,
    whatever else the storage receives, every save of the file fails, so
    nothing is persisted any more. *)
Theorem nan_gauge_blocks_saves `{!FloatTextSpec} `{!JsonFinite} (now : M World Z) p onUpdate r (w : World) name :
  URLParam r "type" = Gauge → URLParam r "name" = name → URLParam r "value" = "NaN" →
  name ≠ "" →
  (onUpdate = None ∨ onUpdate = Some (saveAndHandle p)) →
  let h := NewMetricsHandler (mkService memRepo (Some memBatch) (Some memOnce) onUpdate) in
  let '(w', rw) := UpdateMetric now h fresh_response r w in
  gauges (mem w') !! name = Some S754_nan ∧
  (onUpdate = None → final_status rw = StatusOK) ∧
  (∀ w'' f, gauges (mem w'') !! name = Some S754_nan → fresh_temp p f →
     (save_with f p w'').2 ≠ None).
Proof.
  intros Ht Hn Hv Hne Hon. cbn zeta.
  assert (∀ w'' f, gauges (mem w'') !! name = Some S754_nan → fresh_temp p f →
    (save_with f p w'').2 ≠ None) as Hsave.
  { intros w'' f Hg Hf Hs. destruct (save_with_current f p w'' Hf Hs) as (text & Htext & _).
    rewrite save_with_mem in Htext. unfold json_Encode in Htext.
    destruct (json_nonfinite (snapshot (mem w'')) (gauge_metric name S754_nan) S754_nan)
      as [e He]; [by apply snapshot_gauge|done|done|]. by rewrite He in Htext. }
  unfold UpdateMetric. rewrite Ht, Hn, Hv, decide_False, decide_True by done.
  rewrite ParseFloat_NaN. unfold UpdateGauge, bind, NewMetricsHandler.
  cbn [service repo Repository.UpdateGauge memRepo].
  assert (gauges (mem (on_mem (Memory.UpdateGauge name S754_nan) w).1) !! name = Some S754_nan)
    as Hg.
  { unfold on_mem, Memory.UpdateGauge. munfold. by rewrite lookup_insert_eq. }
  assert (∃ w1, on_mem (Memory.UpdateGauge name S754_nan) w = (w1, None)) as [w1 Hw1].
  { unfold on_mem, Memory.UpdateGauge. munfold. by eexists. }
  rewrite Hw1 in Hg |- *. destruct Hon as [->| ->]; unfold Service.save; simpl in *.
  - unfold audit. simpl. by split_and!.
  - pose proof (saveAndHandle_mem p w1) as Hm.
    destruct (saveAndHandle p w1) as [w2 [e|]]; unfold audit; simpl in *; rewrite Hm; by split_and!.
Qed.

End HttpStorage.

(** ** Concrete instances *)

(** Numbers printed in base two, NaN as Go spells it. *)
Definition binary_float : FloatText := {|
  FormatFloat f :=
    match f with S754_nan => "NaN" | _ => BinaryJson.print (@encode _ _ float64_countable f) end;
  ParseFloat s :=
    if decide (s = "NaN") then Ok S754_nan
    else @BinaryJson.of_string float64 _ float64_countable s
|}.

Lemma print_not_NaN p : BinaryJson.print p ≠ "NaN".
Proof. by destruct p. Qed.

Lemma binary_float_ok : @FloatTextSpec binary_float.
Proof.
  constructor; [|done]. intros f.
  assert (@BinaryJson.of_string float64 _ float64_countable
    (BinaryJson.print (@encode _ _ float64_countable f)) = Ok f) as Hf.
  { unfold BinaryJson.of_string. rewrite (proj1 (BinaryJson.parse_print _)). simpl.
    by rewrite (@decode_encode _ _ float64_countable). }
  destruct f; simpl; try (rewrite decide_False by apply print_not_NaN); done.
Qed.

Definition metric_codec : Json Metrics := @BinaryJson.codec Metrics _ Metrics_countable.

(** An encoder that refuses values that are not finite. *)
Definition finite_record (r : snapshotRecord) : bool :=
  match Value (sr_Metrics r) with Some v => float64_finite v | None => true end.

Definition finite_codec : Json (list snapshotRecord) := {|
  json_Marshal rs :=
    if forallb finite_record rs then @json_Marshal _ record_codec rs
    else Fail (Msg "json: unsupported value");
  json_Unmarshal := @json_Unmarshal _ record_codec;
  json_Decode := @json_Decode _ record_codec;
  json_DecodeBroken := @json_DecodeBroken _ record_codec
|}.

Lemma finite_codec_ok : @JsonFinite finite_codec.
Proof.
  constructor. intros rs m v Hm Hv Hf. cbn [json_Marshal finite_codec].
  destruct (forallb finite_record rs) eqn:Hall; [|by eexists].
  apply list_elem_of_fmap in Hm as (r & -> & Hr).
  rewrite forallb_forall in Hall. apply list_elem_of_In in Hr. specialize (Hall r Hr).
  unfold finite_record in Hall. rewrite Hv in Hall. congruence.
Qed.

Definition no_clock {W} : M W Z := ret 0%Z.

Definition url_request (type name value : string) : Request :=
  mkRequest "POST" "" "" (λ k, if decide (k = "type") then type else if decide (k = "name") then name
    else if decide (k = "value") then value else "") ∅ (NopCloser "") "127.0.0.1:50000" None.

Lemma nan_gauge_blocks_saves_witness :
  let p := mkPersistence "m.json" true in
  let h := NewMetricsHandler (mkService memRepo (Some memBatch) (Some memOnce) None) in
  let '(w', rw) := @UpdateMetric World binary_float no_clock _ _ h fresh_response
    (url_request Gauge "Alloc" "NaN") (mkWorld NewMemStorage ∅ [] []) in
  final_status rw = StatusOK ∧ (@save_with finite_codec (no_faults "t") p w').2 ≠ None.
Proof.
  pose proof (@nan_gauge_blocks_saves binary_float finite_codec binary_float_ok finite_codec_ok
    no_clock (mkPersistence "m.json" true) None (url_request Gauge "Alloc" "NaN")
    (mkWorld NewMemStorage ∅ [] []) "Alloc" eq_refl eq_refl eq_refl ltac:(done) (or_introl eq_refl))
    as Hnan.
  cbn zeta in *. destruct (UpdateMetric _ _ _ _ _) as [w' rw].
  destruct Hnan as (Hg & Hst & Hs). split; [by apply Hst|]. apply Hs; [done|]. by intros t [= <-].
Defined.

(** ** Runs of the handlers *)

Definition file_handler : MetricsHandler := NewMetricsHandler witness_service.

Definition encoded {A} (J : Json A) (a : A) : string :=
  match @json_Marshal A J a with Ok s => s | Fail _ => "" end.

Definition json_request (body : string) : Request :=
  mkRequest "POST" "/updates/" "/updates/" (λ _, "") (Header_Set Delivery.Header witness_key ∅) (NopCloser body)
    "127.0.0.1:50000" None.

Definition batch_request : Request := json_request (encoded metrics_codec witness_metrics).
Definition single_request : Request :=
  json_request (encoded metric_codec (counter_metric "PollCount" 5)).

(** The first delivery, whose save fails: 500, with the receipt in memory. *)
Lemma UpdateMetricsJSON_once_witness :
  let '(w', rw') := @UpdateMetricsJSON World metrics_codec no_clock _ _ file_handler fresh_response
    batch_request witness_world in
  final_status rw' = StatusInternalServerError ∧
  (ledger (mem w') = ledger (mem witness_world) ∨
   commit mem_upd witness_key witness_fp witness_metrics (ledger (mem witness_world))
     = Some (ledger (mem w'))).
Proof.
  pose proof (@UpdateMetricsJSON_once World metrics_codec no_clock Content mem_upd
    (λ w, ledger (mem w)) file_handler memOnce memOnce_spec batch_request witness_key witness_fp
    witness_metrics witness_world eq_refl
    (λ w1, f_equal ledger (@saveAndHandle_mem record_codec (mkPersistence "m.json" true) w1))
    ltac:(done) ltac:(done) eq_refl ltac:(done)
    ltac:(by repeat constructor) eq_refl eq_refl witness_fingerprint) as Hrun.
  assert ((witness_once witness_world).2.2
    = Some (Wrap "failed to replace storage file" (Msg "busy"))) as He.
  { rewrite witness_once_keyed. by vm_compute. }
  change (@Service.UpdateMetricsOnce World metrics_codec (service file_handler) witness_key
    witness_metrics) with witness_once in Hrun.
  destruct (witness_once witness_world) as [w1 [applied e]]. cbn [fst snd] in He. subst e.
  destruct (UpdateMetricsJSON _ _ _ _ _) as [w' rw'].
  destruct Hrun as (Hst & _ & _ & Hl). split; [exact Hst|]. destruct Hl as [?|[_ ?]]; auto.
Defined.

Lemma UpdateMetricJSON_is_batch_witness :
  final_status (@UpdateMetricJSON World metric_codec metrics_codec no_clock _ _ file_handler fresh_response
    single_request witness_world).2 = StatusInternalServerError.
Proof.
  pose proof (@UpdateMetricJSON_is_batch World metric_codec metrics_codec no_clock file_handler
    single_request batch_request (counter_metric "PollCount" 5) witness_world
    ltac:(by vm_compute) ltac:(by vm_compute) eq_refl eq_refl eq_refl) as Heq.
  assert (final_status (@UpdateMetricsJSON World metrics_codec no_clock _ _ file_handler fresh_response
    batch_request witness_world).2 = StatusInternalServerError) as Hb by (by vm_compute).
  destruct (@UpdateMetricJSON World metric_codec metrics_codec no_clock _ _ file_handler fresh_response
    single_request witness_world) as [w1 rw1].
  destruct (@UpdateMetricsJSON World metrics_codec no_clock _ _ file_handler fresh_response
    batch_request witness_world) as [w2 rw2].
  cbn [fst snd] in *. destruct Heq as [_ ->]. exact Hb.
Defined.

Lemma UpdateMetric_then_GetValue_witness :
  let h := NewMetricsHandler (NewMetricsService memRepo None None) in
  let w := mkWorld (mkMemStorage ∅ {["PollCount" := (2 ^ 63 - 1)%Z]} ∅) ∅ [] [] in
  let '(w1, _) := @UpdateMetric World binary_float no_clock _ _ h fresh_response
    (url_request Counter "PollCount" "+1") w in
  let '(_, rw2) := @GetValue World binary_float _ _ h fresh_response
    (url_request Counter "PollCount" "") w1 in
  ParseInt (rw_body rw2) = Ok (- 2 ^ 63)%Z.
Proof.
  set (h := NewMetricsHandler (NewMetricsService memRepo None None)).
  set (w := mkWorld (mkMemStorage ∅ {["PollCount" := (2 ^ 63 - 1)%Z]} ∅) ∅ [] []). cbn zeta.
  pose proof (@UpdateMetric_then_GetValue World binary_float no_clock binary_float_ok
    (λ w, content (mem w)) h memRepo_spec (url_request Counter "PollCount" "+1")
    (url_request Counter "PollCount" "") w ltac:(done) ltac:(done) ltac:(done) eq_refl eq_refl) as Hrun.
  assert (final_status (@UpdateMetric World binary_float no_clock _ _ h fresh_response
    (url_request Counter "PollCount" "+1") w).2 = StatusOK) as Hst by (by vm_compute).
  destruct (@UpdateMetric World binary_float no_clock _ _ h fresh_response
    (url_request Counter "PollCount" "+1") w) as [w1 rw1].
  destruct (@GetValue World binary_float _ _ h fresh_response (url_request Counter "PollCount" "") w1)
    as [w2 rw2]. cbn [fst snd] in Hst.
  destruct (Hrun Hst) as (_ & _ & [(Hg & _)|(_ & d & Hd & Hb)]); [done|].
  rewrite Hb. assert (d = 1%Z) as -> by (vm_compute in Hd; congruence). by vm_compute.
Defined.
