(* ===== verification/Tracking.v ===== *)
(** What the server knows of the batches of an agent, in every interleaving of
    the agent's goroutines.

    The world of the server is abstract: [R made done w] relates it to the batches
    made so far and to those that are done there for good, and [Ack b w] says that
    an answer without an error to [b] is justified.  A transport that keeps both
    with every attempt keeps them for the whole agent; [System] and [CrashSystem]
    give the worlds. *)

From S2P Require Import Prelude GoErrors Metrics GoJson Delivery Retry Encryption Store Agent AgentLoop.

Section Tracking.
Context {W : Type} `{Json (list Metrics)} `{Ciphers}.
Variable gzip : Gzip.
Variable normalize : string → res string.
Variable newRequest : string → err.
Variable rand_Read : M W Random.
Variable ids : nat → list Z.
Variable order : Store → list (string * float64) * list (string * Z).
Hypothesis order_ok : ∀ s, range_of (order s).1 (gauges s) ∧ range_of (order s).2 (counters s).

(** The batches the statement is about, what the server has done, and what
    justifies an answer. *)
Variable ok : Batch → Prop.
Variable R : list Batch → list Batch → W → Prop.
Variable Ack : Batch → W → Prop.

(** From [w] to [w'] more batches may be done, and what was acknowledged stays. *)
Definition advances (made done : list Batch) (w w' : W) : Prop :=
  (∃ new, R made (done ++ new) w') ∧ ∀ c, Ack c w → Ack c w'.

(** One attempt, or all the attempts, to deliver a batch. *)
Definition tracks (b : Batch) (op : M W err) : Prop := ∀ made done w,
  b ∈ made → R made done w →
  let '(w', e) := op w in advances made done w w' ∧ (e = None → Ack b w').

Record tracked_transport (a : Agent W) : Prop := {
  attempts_track b op : ok b → batch_Metrics b ≠ [] →
    operation_of gzip normalize newRequest rand_Read a b op → tracks b op;
  sleep_keeps made done d w : R made done w → R made done (retrySleep a d w).1;
  sleep_acks d w b : Ack b w → Ack b (retrySleep a d w).1;
  rand_keeps made done w : R made done w → R made done (rand_Read w).1;
  rand_acks w b : Ack b w → Ack b (rand_Read w).1;
  made_grows made made' done w : made ⊆ made' → R made done w → R made' done w
}.

Lemma advances_refl made done w : R made done w → advances made done w w.
Proof. intros Hr. split; [|done]. exists []. by rewrite app_nil_r. Qed.

Lemma advances_trans made done w1 w2 w3 :
  advances made done w1 w2 → (∀ new, R made (done ++ new) w2 → advances made (done ++ new) w2 w3) →
  advances made done w1 w3.
Proof.
  intros [[new Hr] Ha] H3. destruct (H3 new Hr) as [[new' Hr'] Ha'].
  split; [|by eauto]. exists (new ++ new'). by rewrite app_assoc.
Qed.

Lemma attempts_tracked a b op ds :
  tracked_transport a → tracks b op → tracks b (attempt op isRetriableSendError (retrySleep a) ds).
Proof.
  intros Ha Hop made done w Hb Hr.
  pose proof (attempt_invariant op isRetriableSendError (retrySleep a) ds (advances made done w)
    (λ v e, e = None → Ack b v)) as Hinv.
  apply Hinv; [| |by apply advances_refl].
  - intros v Hv. assert (∃ new, R made (done ++ new) v) as [new Hnew] by apply Hv.
    pose proof (Hop made (done ++ new) v Hb Hnew) as Hstep. destruct (op v) as [v' e] eqn:Hv'.
    destruct Hstep as [_ Hack]. split; [|exact Hack]. cbn [fst].
    apply (advances_trans _ _ _ v); [exact Hv|]. intros new' Hr'.
    pose proof (Hop made (done ++ new') v Hb Hr') as Hstep'.
    rewrite Hv' in Hstep'. by destruct Hstep'.
  - intros d v [[new Hnew] Hk]. split; [exists new; by apply (sleep_keeps a Ha)|].
    intros c Hc. by apply (sleep_acks a Ha), Hk.
Qed.

Lemma sendBatch_tracked a b :
  tracked_transport a → ok b → batch_Metrics b ≠ [] → tracks b (sendBatch gzip normalize newRequest rand_Read a b).
Proof.
  intros Ha Hok Hb made done w Hin Hr. unfold sendBatch. rewrite decide_False by (by intros ?%nil_length_inv).
  assert (∀ v (e : error), R made done v → (∀ c, Ack c w → Ack c v) →
    advances made done w v ∧ (@Some error e = None → Ack b v)) as Hno.
  { intros v e Hv Hk. split; [|done]. split; [exists []; by rewrite app_nil_r|exact Hk]. }
  destruct (sender a) as [send|] eqn:Hsd.
  { apply (attempts_tracked a b (send b) defaultDelays Ha); [|done|done].
    apply (attempts_track a Ha); [done|done|]. unfold operation_of. by rewrite Hsd. }
  destruct (json_Marshal (batch_Metrics b)) as [body|e] eqn:Hj; [|by apply Hno].
  destruct (gz_Write gzip _) as [e|]; [by apply Hno|].
  destruct (gz_Close gzip _) as [compressed|e] eqn:Hgz; [|by apply Hno].
  match goal with |- context [bind ?m _ w] => destruct (m w) as [w1 p] eqn:Hm end.
  rewrite (bind_eq _ _ _ _ _ Hm).
  set (hash := if decide (key a ≠ "") then Signature.Calculate body (key a) else "").
  assert (R made done w1 ∧ (∀ c, Ack c w → Ack c w1) ∧
    (∀ payload, p = Ok payload → payload_of gzip rand_Read a (batch_Metrics b) payload hash)) as (Hr1 & Hk1 & Hp).
  { unfold payload_of. destruct (publicKey a) as [pk|].
    - unfold bind, ret in Hm. pose proof (rand_keeps a Ha made done w Hr) as Hrand.
      pose proof (λ c, rand_acks a Ha w c) as Hrk.
      destruct (rand_Read w) as [w2 rnd] eqn:Hrd. injection Hm as <- <-. split; [done|]. split; [done|].
      intros payload Hpay. exists body, compressed. split_and!; try done. exists w. by rewrite Hrd.
    - injection Hm as <- <-. split; [done|]. split; [done|]. intros payload [= <-]. exists body, compressed. eauto. }
  destruct p as [payload|e]; [|by apply Hno].
  pose proof (attempts_tracked a b
    (sendCompressedMetrics normalize newRequest a payload hash (batch_ID b)) defaultDelays Ha) as Hatt.
  assert (tracks b (sendCompressedMetrics normalize newRequest a payload hash (batch_ID b))) as Hop.
  { apply (attempts_track a Ha); [done|done|]. unfold operation_of. rewrite Hsd.
    exists payload, hash. split; [by apply Hp|done]. }
  assert (∀ r : W * err, (let '(w', e) := r in advances made done w1 w' ∧ (e = None → Ack b w')) →
    let '(w', e) := r in advances made done w w' ∧ (e = None → Ack b w')) as Hfrom.
  { intros [w' e] [[Hnew Hk] He]. split; [|exact He]. split; [exact Hnew|]. auto. }
  apply Hfrom. exact (Hatt Hop made done w1 Hin Hr1).
Qed.

Lemma send_all_tracked a made bs : tracked_transport a → Forall ok bs → bs ⊆ made → ∀ done w, R made done w →
  let '(w', rs) := send_all gzip normalize newRequest rand_Read a bs w in
  advances made done w w' ∧ ∀ b, b ∈ acked rs → batch_Metrics b ≠ [] → Ack b w'.
Proof.
  intros Ha. induction bs as [|b bs IH]; intros Hok Hsub done w Hr; cbn [send_all].
  { split; [by apply advances_refl|]. by intros b ?%elem_of_nil. }
  apply Forall_cons in Hok as [Hokb Hok].
  assert (let '(w1, e) := sendBatch gzip normalize newRequest rand_Read a b w in
    advances made done w w1 ∧ (e = None → batch_Metrics b ≠ [] → Ack b w1)) as Hsend.
  { destruct (decide (batch_Metrics b = [])) as [Hm|Hm].
    - unfold sendBatch. rewrite Hm. cbn. split; [by apply advances_refl|done].
    - pose proof (sendBatch_tracked a b Ha Hokb Hm made done w ltac:(apply Hsub, list_elem_of_here) Hr) as Hd.
      destruct (sendBatch _ _ _ _ a b w) as [w1 e]. destruct Hd as [Hd He]. auto. }
  destruct (sendBatch _ _ _ _ a b w) as [w1 e]. destruct Hsend as [Hadv He].
  assert (bs ⊆ made) as Hsub' by (intros c Hc; by apply Hsub, list_elem_of_further).
  pose proof Hadv as [[new Hnew] Hk]. specialize (IH Hok Hsub').
  pose proof (IH (done ++ new) w1 Hnew) as IHnew.
  destruct (send_all _ _ _ _ a bs w1) as [w2 rs] eqn:Hs. destruct IHnew as [Hadv2 Hack].
  split.
  - apply (advances_trans _ _ _ w1); [exact Hadv|]. intros new' Hnew'.
    pose proof (IH (done ++ new') w1 Hnew') as IHnew'. rewrite Hs in IHnew'. by destruct IHnew'.
  - intros c Hin Hm. unfold acked in Hin. destruct e as [e|]; csimpl in Hin; [by apply Hack|].
    apply elem_of_cons in Hin as [->|Hin]; [|by apply Hack]. destruct Hadv2 as [_ Hk2]. apply Hk2. by apply He.
Qed.

(** ** The agent *)

Abbreviation agent_step := (step gzip normalize newRequest rand_Read ids order).
Abbreviation agent_reachable := (reachable gzip normalize newRequest rand_Read ids order).

Definition tracked (done : list Batch) (l : Loop) : Prop :=
  (∃ new, R (l_made l) (done ++ new) (world (l_agent l))) ∧
  ∀ b, b ∈ l_delivered l → batch_Metrics b ≠ [] → Ack b (world (l_agent l)).

Lemma tracked_same done (l l' : Loop (W := W)) a :
  tracked_transport a → world (l_agent l') = world (l_agent l) →
  l_made l ⊆ l_made l' → l_delivered l' = l_delivered l → tracked done l → tracked done l'.
Proof.
  intros Ha Hw Hm Hd [[new Hr] Hdel]. unfold tracked. rewrite Hw, Hd. split; [|done].
  exists new. by apply (made_grows a Ha (l_made l)).
Qed.

Lemma after_attempt_delivered b op ds e ws1 ws2 (l : Loop (W := W)) c :
  c ∈ l_delivered (after_attempt b op ds e ws1 ws2 l) → c ∈ l_delivered l ∨ c = b ∧ e = None.
Proof.
  unfold after_attempt. destruct (final isRetriableSendError e); [destruct e|destruct ds]; simpl; auto.
  intros [?|[->|?%elem_of_nil]%elem_of_cons]%elem_of_app; auto; done.
Qed.

Lemma made_step a l l' : agent_step a l l' → l_made l ⊆ l_made l'.
Proof.
  destruct 1; try done.
  - intros c Hc. apply elem_of_app. by left.
  - destruct (prepare _ _ _ _ a b (world (l_agent l))) as [w p].
    by destruct (after_prepare_frame b p ws1 ws2 (set_world w l)) as (-> & _).
  - destruct (op (world (l_agent l))) as [w e].
    by destruct (after_attempt_made b op delays e ws1 ws2 (set_world w l)) as (-> & _).
  - unfold final_report. destruct (ReportOnce _ _ _ _ _ _ a _). intros c Hc. apply elem_of_app. by left.
Qed.

Lemma tracked_step a done l l' :
  tracked_transport a → all_batches l ≡ₚ l_made l →
  bounded gzip normalize newRequest rand_Read a l → agent_step a l l' → Forall ok (l_made l') →
  tracked done l → tracked done l'.
Proof.
  intros Ha Hall (_ & _ & Hops) Hstep Hok. pose proof (made_step a l l' Hstep) as Hmono. revert Hall Hops Hok Hmono.
  destruct Hstep as [l k v Hp|l Hp|l Hp Hc|l e Hs|l Hs Hc|l
    |l He|l s He Hs|l s ms He Hs Hne|l b bs He Hlen|l He|l b bs He Hc|l b bs He|l He|l He Hc
    |l b js Hj Hlen Hne|l b js Hj Hlen Hm|l ws1 b ws2 Hws
    |l ws1 b op ds ws2 Hws|l ws1 b op d ds ws2 Hws|l Hp Hs He Hj Hws Hf];
    intros Hall Hops Hok Hmono Hsv; try (by apply (tracked_same done l _ a)).
  - apply (tracked_same done l _ a); try done. simpl.
    by destruct (snapshot_frame order order_ok _ _ _ Hs) as (_ & _ & -> & _).
  - apply (tracked_same done l _ a); simpl; try done.
    by destruct (snapshot_frame order order_ok _ _ _ Hs) as (_ & _ & -> & _).
  - destruct Hsv as [Hr Hdel]. split; [done|]. simpl.
    intros c [Hcd|[->|?%elem_of_nil]%elem_of_cons]%elem_of_app Hcm; by apply Hdel || done.
  - pose proof (prepare_world gzip normalize newRequest rand_Read a b (world (l_agent l))) as Hpw.
    destruct (prepare _ _ _ _ a b (world (l_agent l))) as [w p]. cbn [fst] in Hpw.
    destruct (after_prepare_frame b p ws1 ws2 (set_world w l)) as (Hmade & _ & _ & _ & Hw & _ & Hdl).
    destruct Hsv as [[new Hr] Hdel]. unfold tracked. rewrite Hmade, Hw, Hdl. cbn [set_world set_agent l_agent world l_made l_delivered].
    destruct Hpw as [->| ->]; [split; [by exists new|done]|].
    split; [exists new; by apply (rand_keeps a Ha)|]. intros c Hc Hcm. by apply (rand_acks a Ha), Hdel.
  - rewrite Hws in Hops. apply Forall_app in Hops as [_ [Hop _]%Forall_cons]. simpl in Hop.
    destruct Hsv as [[new Hr] Hdel].
    assert (b ∈ l_made l) as Hbm.
    { rewrite <-Hall. unfold all_batches. rewrite Hws, fmap_app. csimpl.
      rewrite !elem_of_app, elem_of_cons. tauto. }
    destruct Hop as [Hne Hop].
    assert (ok b) as Hokb.
    { rewrite Forall_forall in Hok. by apply Hok, Hmono. }
    pose proof (attempts_track a Ha b op Hokb Hne Hop _ _ _ Hbm Hr) as Hd.
    destruct (op (world (l_agent l))) as [w e]. destruct Hd as [[[new' Hr'] Hk] He].
    destruct (after_attempt_made b op ds e ws1 ws2 (set_world w l)) as (Hmade & _ & _ & _ & Hw & _).
    unfold tracked. rewrite Hw, Hmade. split; [exists (new ++ new'); by rewrite app_assoc|].
    intros c Hcd Hcm. cbn [set_world set_agent l_agent world].
    apply after_attempt_delivered in Hcd as [Hcd|[-> ->]]; [by apply Hk, Hdel|by apply He].
  - destruct Hsv as [[new Hr] Hdel]. split; [exists new; by apply (sleep_keeps a Ha)|].
    intros c Hc Hm. by apply (sleep_acks a Ha), Hdel.
  - unfold final_report. pose proof (ReportOnce_run gzip normalize newRequest rand_Read ids order order_ok a (l_agent l)) as Hrun.
    destruct Hsv as [[new Hr] Hdel].
    set (fresh := report_fresh gzip normalize newRequest rand_Read ids order a (l_agent l)) in *.
    assert (pending (l_agent l) ++ fresh ⊆ l_made l ++ fresh) as Hsub.
    { intros c [Hc|Hc]%elem_of_app; apply elem_of_app; [left|by right].
      rewrite <-Hall. unfold all_batches. apply elem_of_app. by left. }
    assert (Forall ok (pending (l_agent l) ++ fresh)) as Hokf.
    { rewrite Forall_forall in Hok |- *. intros c Hc. apply Hok.
      change (c ∈ l_made (final_report gzip normalize newRequest rand_Read ids order a l)).
      unfold final_report. destruct (ReportOnce _ _ _ _ _ _ a _). by apply Hsub. }
    assert (l_made l ⊆ l_made l ++ fresh) as Hgrow by (intros c Hc; apply elem_of_app; by left).
    pose proof (send_all_tracked a (l_made l ++ fresh) _ Ha Hokf Hsub (done ++ new) _
      (made_grows a Ha _ _ _ _ Hgrow Hr)) as Hd.
    destruct (send_all _ _ _ _ a _ _) as [w' rs]. destruct (ReportOnce _ _ _ _ _ _ a _) as [s e].
    destruct Hrun as (Hw & _). destruct Hd as [[[new' Hr'] Hk] Hack].
    unfold tracked. simpl. rewrite Hw. split; [exists (new ++ new'); by rewrite app_assoc|].
    intros c [Hcd|Hcd]%elem_of_app Hcm; [by apply Hk, Hdel|by apply Hack].
Qed.

Lemma tracked_reachable a st w l done :
  tracked_transport a → R [] done w → store_ok st → (0 ≤ rateLimit a)%Z → Forall ok (l_made l) →
  agent_reachable a st w l → tracked done l.
Proof.
  intros Ha Hw Hst Hrate Hok Hr. unfold reachable, steps in Hr. revert l Hr Hok.
  apply (rtc_ind_r (λ l, Forall ok (l_made l) → tracked done l)).
  - intros _. split; [exists []; by rewrite app_nil_r|by intros b ?%elem_of_nil].
  - intros l l' Hr Hs IH Hok.
    destruct (reachable_inv gzip normalize newRequest rand_Read ids order order_ok a st w l
      Hst Hrate Hr) as (Hall & _ & Hb & _).
    apply (tracked_step a _ l); try done. apply IH. rewrite Forall_forall in Hok |- *.
    intros b Hbm. by apply Hok, (made_step a l l').
Qed.
(** ** Accounting *)

(** The first [n] identifiers of the agent differ. *)
Definition ids_distinct (n : nat) : Prop :=
  ∀ i j, i < n → j < n → rand_Text (ids i) = rand_Text (ids j) → i = j.

Lemma made_unique (made : list Batch) b c :
  ids_distinct (length made) → (∀ i b, made !! i = Some b → batch_ID b = rand_Text (ids i)) →
  b ∈ made → c ∈ made → batch_ID b = batch_ID c → b = c.
Proof.
  intros Hd Hid Hb Hc Heq. apply list_elem_of_lookup in Hb as [i Hi], Hc as [j Hj].
  pose proof (Hid _ _ Hi). pose proof (Hid _ _ Hj). pose proof (lookup_lt_Some _ _ _ Hi). pose proof (lookup_lt_Some _ _ _ Hj).
  assert (i = j) as -> by (apply Hd; congruence). congruence.
Qed.

Lemma made_NoDup (made : list Batch) :
  ids_distinct (length made) → (∀ i b, made !! i = Some b → batch_ID b = rand_Text (ids i)) → NoDup made.
Proof.
  intros Hd Hid. rewrite NoDup_alt. intros i j b Hi Hj. pose proof (lookup_lt_Some _ _ _ Hi). pose proof (lookup_lt_Some _ _ _ Hj).
  apply Hd; [done|done|].
  by rewrite <-(Hid _ _ Hi), <-(Hid _ _ Hj).
Qed.

Lemma batches_delta_empty name (bs : list Batch) :
  (∀ b, b ∈ bs → batch_Metrics b = []) → batches_delta name bs = 0%Z.
Proof.
  intros Hb. induction bs as [|b bs IH]; [done|]. unfold batches_delta in *. simpl.
  rewrite (Hb b) by by left. rewrite IH; [done|]. intros c Hc. apply Hb. by right.
Qed.

(** When the counter of the server has grown by the deltas of the batches done, it
    adds up with the other batches and the store to what was collected. *)
Lemma balance a st w l done name v v0 :
  store_ok st → (0 ≤ rateLimit a)%Z → ids_distinct (length (l_made l)) → agent_reachable a st w l →
  NoDup done → done ⊆ l_made l → (∀ b, b ∈ l_delivered l → batch_Metrics b ≠ [] → b ∈ done) →
  v = wrap64 (v0 + batches_delta name done) →
  ∃ rest,
    done ++ rest ≡ₚ l_made l ∧ NoDup (done ++ rest) ∧
    (∀ b, b ∈ l_delivered l → b ∈ rest → batch_Metrics b = []) ∧
    wrap64 (v + batches_delta name rest + counter_value (store (l_agent l)) name) =
      wrap64 (v0 + collected st (l_polls l) name) ∧
    (l_final l = Some None → v = wrap64 (v0 + collected st (l_polls l) name)).
Proof.
  intros Hst Hrate Hids Hr Hnd Hin Hdel Hcount.
  destruct (reachable_inv gzip normalize newRequest rand_Read ids order order_ok a st w l Hst Hrate Hr)
    as (Hall & (_ & _ & Hid & Hsum) & _ & Hfin).
  pose proof (made_NoDup (l_made l) Hids Hid) as Hndm.
  destruct (submseteq_Permutation done (l_made l)) as [rest Hperm]; [by apply NoDup_submseteq|].
  assert (NoDup (done ++ rest)) as Hnd2 by by rewrite <-Hperm.
  assert (wrap64 (v + batches_delta name rest + counter_value (store (l_agent l)) name) =
    wrap64 (v0 + collected st (l_polls l) name)) as Hbal.
  { rewrite Hcount. specialize (Hsum name).
    rewrite (batches_delta_perm name _ _ Hperm), batches_delta_app in Hsum.
    rewrite <-(wrap64_add_r _ (collected _ _ _)), <-Hsum, wrap64_add_r.
    rewrite <-Z.add_assoc, wrap64_add_l. f_equal. lia. }
  exists rest. split_and!; try assumption; [by symmetry| |].
  - intros b Hb Hrest. destruct (decide (batch_Metrics b = [])) as [|Hm]; [done|]. exfalso.
    apply NoDup_app in Hnd2 as (_ & Hdisj & _). by apply (Hdisj b (Hdel b Hb Hm)).
  - intros Hf. destruct (Hfin None Hf) as (_ & _ & He & Hj & Hw & Hnil).
    destruct (Hnil eq_refl) as [Hp Hcs].
    assert (batches_delta name rest = 0%Z) as Hrest.
    { apply batches_delta_empty. intros b Hb. destruct (decide (batch_Metrics b = [])) as [|Hm]; [done|].
      exfalso. apply NoDup_app in Hnd2 as (_ & Hdisj & _). apply (Hdisj b); [|done].
      apply Hdel; [|done]. assert (b ∈ l_made l) as Hbm by (rewrite Hperm; apply elem_of_app; by right).
      rewrite <-Hall in Hbm. unfold all_batches in Hbm. by rewrite Hp, He, Hj, Hw in Hbm. }
    assert (counter_value (store (l_agent l)) name = 0%Z) as Hzero.
    { unfold counter_value, get_or. by rewrite Hcs, lookup_empty. }
    rewrite <-Hbal, Hrest, Hzero, Hcount, !Z.add_0_r. by rewrite wrap64_wrap64.
Qed.
End Tracking.
