(* ===== verification/System.v ===== *)
(** The agent and the server together: the increments the agent collects reach
    the server's counters exactly once, over a transport that loses requests
    and acknowledgements. *)

From S2P Require Import Prelude GoErrors Metrics GoJson GoNet Delivery Retry Repository Memory SaveFile.
From S2P Require Import GoHttp Service Auditing Encryption Grpc Transports Store Agent AgentLoop Tracking.

Section System.
Context {W : Type} `{Json (list Metrics)} `{Ciphers}.
Variable gzip : Gzip.
Variable normalize : string → res string.
Variable newRequest : string → err.
Variable rand_Read : M W Random.
Variable ids : nat → list Z.
Variable order : Store → list (string * float64) * list (string * Z).
Hypothesis order_ok : ∀ s, range_of (order s).1 (gauges s) ∧ range_of (order s).2 (counters s).

(** The server's storage, as seen through the world: what its receipts and its
    content are.  A batch arrives there as the call [call_of]. *)
Context {C : Type}.
Variable upd : C → list Metrics → option C.
Variable ledger : W → Ledger C.
Variable fingerprint_of : Batch → string.
Variable arrived : Batch → list Metrics.

Definition call_of (b : Batch) : call := mkCall (batch_ID b) (fingerprint_of b) (arrived b).

(** What one attempt to deliver a batch may do to the server: nothing, or commit
    the batch under its identifier if that is free; and when the attempt
    returns nil, the receipt of the batch is there. *)
Definition delivers (b : Batch) (op : M W err) : Prop := ∀ w,
  let '(w', e) := op w in
  (ledger w' = ledger w ∨
   l_receipts (ledger w) !! batch_ID b = None ∧
   commit upd (batch_ID b) (fingerprint_of b) (arrived b) (ledger w) = Some (ledger w')) ∧
  (e = None → l_receipts (ledger w') !! batch_ID b = Some (fingerprint_of b)).

(** The transport of an agent keeps that promise; sleeping and drawing random
    bytes do not touch the server. *)
Record transport_ok (a : Agent W) : Prop := {
  attempts_deliver b op : batch_Metrics b ≠ [] →
    operation_of gzip normalize newRequest rand_Read a b op → delivers b op;
  sleep_frame d w : ledger (retrySleep a d w).1 = ledger w;
  rand_frame w : ledger (rand_Read w).1 = ledger w
}.

(** ** Tracking *)

(** The batches committed on the server, in order. *)
Definition committed (l0 : Ledger C) (cm : list Batch) (w : W) : Prop :=
  commits (upd := upd) l0 (map call_of cm) (ledger w).

(** Those of the batches made that are committed, and the receipts. *)
Definition on_server (l0 : Ledger C) (made cm : list Batch) (w : W) : Prop :=
  committed l0 cm w ∧ ∀ b, b ∈ cm → b ∈ made ∧ batch_Metrics b ≠ [].
Definition receipt_there (b : Batch) (w : W) : Prop :=
  l_receipts (ledger w) !! batch_ID b = Some (fingerprint_of b).

Lemma delivers_tracks l0 b op :
  batch_Metrics b ≠ [] → delivers b op → tracks (on_server l0) receipt_there b op.
Proof.
  intros Hne Hop made cm w Hb [Hcm Hin]. specialize (Hop w). destruct (op w) as [w' e].
  destruct Hop as [[Hl|[Hnone Hc]] He]; split; try exact He; split.
  - exists []. unfold on_server, committed. by rewrite app_nil_r, Hl.
  - unfold receipt_there. by rewrite Hl.
  - exists [b]. split.
    + unfold committed. rewrite map_app. eapply commits_app; [exact Hcm|].
      simpl. econstructor; [done|exact Hc|constructor].
    + intros c [Hcin| ->%list_elem_of_singleton]%elem_of_app; [by apply Hin|done].
  - intros c Hk. unfold receipt_there in *.
    rewrite (commit_receipts _ _ _ _ _ Hc), lookup_insert_ne; [done|]. intros Heq. rewrite Heq in Hnone. congruence.
Qed.

Lemma transport_tracks l0 a :
  transport_ok a → tracked_transport gzip normalize newRequest rand_Read (λ _, True) (on_server l0) receipt_there a.
Proof.
  intros Ha. constructor; unfold on_server, committed, receipt_there; intros *.
  - intros _ Hne Hop. apply (delivers_tracks l0 _ _ Hne). by apply (attempts_deliver a Ha).
  - by rewrite (sleep_frame a Ha).
  - by rewrite (sleep_frame a Ha).
  - by rewrite (rand_frame a Ha).
  - by rewrite (rand_frame a Ha).
  - intros Hsub [Hc Hin]. split; [done|]. intros b Hb. destruct (Hin b Hb). auto.
Qed.

Abbreviation agent_reachable := (reachable gzip normalize newRequest rand_Read ids order).

Definition served (l0 : Ledger C) (l : Loop) : Prop :=
  ∃ cm, committed l0 cm (world (l_agent l)) ∧
    (∀ b, b ∈ cm → b ∈ l_made l ∧ batch_Metrics b ≠ []) ∧
    (∀ b, b ∈ l_delivered l → batch_Metrics b ≠ [] →
       l_receipts (ledger (world (l_agent l))) !! batch_ID b = Some (fingerprint_of b)).

Lemma served_reachable a st w l :
  transport_ok a → store_ok st → (0 ≤ rateLimit a)%Z → agent_reachable a st w l →
  served (ledger w) l.
Proof.
  intros Ha Hst Hrate Hr.
  destruct (tracked_reachable gzip normalize newRequest rand_Read ids order order_ok
    (λ _, True) (on_server (ledger w)) receipt_there a st w l [] (transport_tracks _ a Ha)) as [[cm [Hc Hin]] Hdel];
    [|done|done|by apply Forall_true|done|].
  { split; [constructor|]. by intros b ?%elem_of_nil. }
  by exists cm.
Qed.

(** What has been committed, in terms of the batches made and delivered. *)
Lemma committed_batches a st w l :
  transport_ok a → store_ok st → (0 ≤ rateLimit a)%Z → ids_distinct ids (length (l_made l)) →
  (∀ i, i < length (l_made l) → l_receipts (ledger w) !! rand_Text (ids i) = None) →
  agent_reachable a st w l →
  ∃ cm, committed (ledger w) cm (world (l_agent l)) ∧ NoDup cm ∧
    (∀ b, b ∈ cm → b ∈ l_made l ∧ batch_Metrics b ≠ []) ∧
    (∀ b, b ∈ l_delivered l → batch_Metrics b ≠ [] → b ∈ cm).
Proof.
  intros Ha Hst Hrate Hids Hfresh Hr.
  destruct (reachable_inv gzip normalize newRequest rand_Read ids order order_ok a st w l Hst Hrate Hr)
    as (Hall & (_ & _ & Hid & _) & _ & _).
  destruct (served_reachable a st w l Ha Hst Hrate Hr) as (cm & Hc & Hin & Hdel).
  exists cm. split_and!; [done| |done|].
  - apply commits_NoDup in Hc. rewrite List.map_map in Hc. by apply NoDup_fmap_1 in Hc.
  - intros b Hb Hm. destruct (commits_origin _ _ _ _ _ Hc (Hdel b Hb Hm)) as [Hold|(d & Hd & Hk & _)].
    + assert (b ∈ l_made l) as Hbm.
      { rewrite <-Hall. unfold all_batches. rewrite !elem_of_app. auto 6. }
      apply list_elem_of_lookup in Hbm as [i Hi]. rewrite (Hid _ _ Hi) in Hold.
      by rewrite Hfresh in Hold by by eapply lookup_lt_Some.
    + apply list_elem_of_fmap in Hd as (c & -> & Hcin).
      destruct (Hin c Hcin) as [Hcm _].
      rewrite <-(made_unique ids (l_made l) c b Hids Hid Hcm); [done| |done].
      rewrite <-Hall. unfold all_batches. rewrite !elem_of_app. auto 6.
Qed.

(** ** Counting *)

(** The storage's counters in its well-formed contents, and what a batch that fits
    them adds to them. *)
Variable good : C → Prop.
Variable fits : list Metrics → Prop.
Variable counter_of : C → string → Z.
Hypothesis counter_range : ∀ c name, good c → in_int64 (counter_of c name).
Hypothesis counting : ∀ c ms c', good c → fits ms → upd c ms = Some c' →
  good c' ∧ ∀ name, counter_of c' name = wrap64 (counter_of c name + total_delta name ms).

Lemma committed_counter l0 cm w name :
  good (l_content l0) → committed l0 cm w → (∀ b, b ∈ cm → fits (arrived b)) →
  (∀ b, b ∈ cm → total_delta name (arrived b) = total_delta name (batch_Metrics b)) →
  counter_of (l_content (ledger w)) name =
    wrap64 (counter_of (l_content l0) name + batches_delta name cm).
Proof.
  unfold committed, batches_delta. intros Hr Hc Hf Hd. remember (map call_of cm) as cs eqn:Hcs.
  revert cm Hcs Hr Hf Hd. generalize (ledger w) as l', Hc. clear Hc.
  intros l' Hc. induction Hc as [l|l c cs l1 l' Hk Hc _ IH]; intros cm Hcs Hr Hf Hd.
  - symmetry in Hcs. apply map_eq_nil in Hcs. subst cm. simpl. rewrite Z.add_0_r.
    symmetry. by apply wrap64_id, counter_range.
  - destruct cm as [|b cm]; [done|]. injection Hcs as -> ->.
    unfold commit in Hc. apply bind_Some in Hc as (c1 & Hu & [= <-]). simpl in *.
    destruct (counting _ _ _ Hr (Hf b (list_elem_of_here _ _)) Hu) as [Hg Hcount].
    rewrite (IH cm eq_refl Hg), Hcount, wrap64_add_l, Hd by (intros; (apply Hd || apply Hf || idtac); by constructor).
    f_equal. lia.
Qed.

(** The server's counter, the batches still to be committed and the store add up to
    what was collected; the end-to-end properties below and in HttpSystem state
    it for the transports. *)
Lemma counted_once a st w l name :
  transport_ok a → store_ok st → (0 ≤ rateLimit a)%Z → ids_distinct ids (length (l_made l)) →
  (∀ i, i < length (l_made l) → l_receipts (ledger w) !! rand_Text (ids i) = None) →
  good (l_content (ledger w)) → (∀ b, b ∈ l_made l → fits (arrived b)) →
  (∀ b, b ∈ l_made l → total_delta name (arrived b) = total_delta name (batch_Metrics b)) →
  agent_reachable a st w l →
  ∃ cm rest,
    cm ++ rest ≡ₚ l_made l ∧ NoDup (cm ++ rest) ∧
    committed (ledger w) cm (world (l_agent l)) ∧
    (∀ b, b ∈ l_delivered l → b ∈ rest → batch_Metrics b = []) ∧
    wrap64 (counter_of (l_content (ledger (world (l_agent l)))) name + batches_delta name rest
        + counter_value (store (l_agent l)) name) =
      wrap64 (counter_of (l_content (ledger w)) name + collected st (l_polls l) name) ∧
    (l_final l = Some None →
      counter_of (l_content (ledger (world (l_agent l)))) name =
        wrap64 (counter_of (l_content (ledger w)) name + collected st (l_polls l) name)).
Proof.
  intros Ha Hst Hrate Hids Hfresh Hrange Hfits Harr Hr.
  destruct (committed_batches a st w l Ha Hst Hrate Hids Hfresh Hr) as (cm & Hc & Hnd & Hin & Hdel).
  pose proof (committed_counter (ledger w) cm _ name Hrange Hc
    ltac:(intros b Hb; by apply Hfits, Hin) ltac:(intros b Hb; by apply Harr, Hin)) as Hcount.
  destruct (balance gzip normalize newRequest rand_Read ids order order_ok a st w l cm name _ _ Hst Hrate Hids Hr
    Hnd ltac:(intros b Hb; by apply Hin) Hdel Hcount) as (rest & ? & ? & ? & ? & ?).
  by exists cm, rest.
Qed.

(** ** Properties *)

(** C1: every increment the agent collects is counted by the server exactly once,
    over a transport that keeps [transport_ok] and the deltas of its batches, by
    a storage that counts what fits it.
    Whatever the interleaving of collections, reports, concurrent sends,
    retries, lost requests, lost acknowledgements, failed sends given back and
    the cancellation, in every reachable state the server has committed each
    of some of the batches made exactly once and nothing else of the agent's;
    every batch whose delivery was reported to the agent is among them; and
    the server's counter, the batches still to be committed and the store add
    up, modulo 2^64, to what the server had before and what was collected.
    When [Run] has returned nil, the server's counter itself is that sum. *)
Theorem exactly_once a st w l name :
  transport_ok a → store_ok st → (0 ≤ rateLimit a)%Z → ids_distinct ids (length (l_made l)) →
  (∀ i, i < length (l_made l) → l_receipts (ledger w) !! rand_Text (ids i) = None) →
  good (l_content (ledger w)) → (∀ b, b ∈ l_made l → fits (arrived b)) →
  (∀ b, b ∈ l_made l → total_delta name (arrived b) = total_delta name (batch_Metrics b)) →
  agent_reachable a st w l →
  ∃ cm rest,
    cm ++ rest ≡ₚ l_made l ∧ NoDup (cm ++ rest) ∧
    committed (ledger w) cm (world (l_agent l)) ∧
    (∀ b, b ∈ l_delivered l → b ∈ rest → batch_Metrics b = []) ∧
    wrap64 (counter_of (l_content (ledger (world (l_agent l)))) name + batches_delta name rest
        + counter_value (store (l_agent l)) name) =
      wrap64 (counter_of (l_content (ledger w)) name + collected st (l_polls l) name) ∧
    (l_final l = Some None →
      counter_of (l_content (ledger (world (l_agent l)))) name =
        wrap64 (counter_of (l_content (ledger w)) name + collected st (l_polls l) name)).
Proof. apply counted_once. Qed.
End System.

(** ** A run that is cancelled at once *)
Section Cancelled.
Context {W : Type} `{Json (list Metrics)} `{Ciphers}.
Variable gzip : Gzip.
Variable normalize : string → res string.
Variable newRequest : string → err.
Variable rand_Read : M W Random.
Variable ids : nat → list Z.
Variable order : Store → list (string * float64) * list (string * Z).
Variables (a : Agent W) (st : Store) (w : W).

(** All loops have returned. *)
Definition stopped_loop : Loop := set_enq Stopped (set_flags false false true None (start st w)).

#[local] Abbreviation agent_reachable := (reachable gzip normalize newRequest rand_Read ids order a st w).

Lemma stopped_reachable : agent_reachable stopped_loop.
Proof.
  unfold reachable, steps.
  eapply rtc_l; [apply (step_cancel _ _ _ _ _ _ _ (start st w))|].
  eapply rtc_l; [by apply (step_poll_return _ _ _ _ _ _ _ (set_flags true true true None (start st w)))|].
  eapply rtc_l; [by apply (step_system_return _ _ _ _ _ _ _ (set_flags false true true None (start st w)))|].
  apply rtc_once.
  by apply (step_stop _ _ _ _ _ _ _ (set_flags false false true None (start st w))).
Qed.

Lemma finished_reachable :
  agent_reachable (final_report gzip normalize newRequest rand_Read ids order a stopped_loop).
Proof.
  unfold reachable, steps. eapply rtc_r; [exact stopped_reachable|]. by apply step_final.
Qed.
End Cancelled.

(** ** The gRPC transport keeps the promise *)

(** What the network does with one call: deliver it and its answer, lose the
    request, or lose the answer after the server has handled the request. *)
Inductive fate : Type := Delivered | RequestLost | AnswerLost.

Definition unavailable : err := Some (StatusErr codes_Unavailable "connection lost").

(** A call over that network; the fates of the calls to come are part of the
    world, and when they have run out every call is delivered. *)
Definition lossy {W} (h : UnaryHandler W) : RPC (W * list fate) := λ md req '(w, fates),
  match fates with
  | [] | Delivered :: _ => let '(w', e) := h (mkCtx md None) req w in ((w', tail fates), e)
  | RequestLost :: fates => ((w, fates), unavailable)
  | AnswerLost :: fates => let '(w', _) := h (mkCtx md None) req w in ((w', fates), unavailable)
  end.

(** The metrics that survive the checks of both sides. *)
Definition sendableb (m : Metrics) : bool :=
  negb (bool_decide (ID m = "")) &&
  (if decide (MType m = Gauge) then
     match Value m with Some v => float64_finite v | None => false end
   else if decide (MType m = Counter) then
     match Delta m with Some _ => true | None => false end
   else false).

(** What arrives of a batch. *)
Definition grpc_arrived (b : Batch) : list Metrics :=
  if forallb sendableb (batch_Metrics b) then map received (batch_Metrics b) else batch_Metrics b.

Lemma sendableb_spec m : sendableb m = true → sendable m.
Proof.
  unfold sendableb, sendable. intros [Hid Hm]%andb_true_iff. split.
  - intros Heq. by rewrite bool_decide_true in Hid.
  - destruct (decide (MType m = Gauge)); [left; destruct (Value m); [eauto|done]|].
    destruct (decide (MType m = Counter)); [|done]. right. destruct (Delta m); [eauto|done].
Qed.

Lemma grpc_arrived_delta b name : total_delta name (grpc_arrived b) = total_delta name (batch_Metrics b).
Proof.
  unfold grpc_arrived. destruct (forallb sendableb (batch_Metrics b)) eqn:Hs; [|done].
  unfold total_delta. f_equal. rewrite List.map_map. apply map_ext_in. intros m Hm.
  rewrite forallb_forall in Hs. unfold delta_of. by rewrite received_effect by by apply sendableb_spec, Hs.
Qed.

Lemma to_item_convert m item m' :
  to_item m = Ok item → convert_item (Some item) = Ok m' → m' = received m ∧ sendableb m = true.
Proof.
  unfold to_item, convert_item, received, sendableb.
  destruct (decide (MType m = Gauge)).
  - destruct (Value m) as [v|]; [|done]. intros [= <-]. cbn [item_Id item_Type item_Value].
    destruct (decide (ID m = "")); [done|]. rewrite decide_True by done.
    destruct (_ || _) eqn:Hf; [done|]. intros [= <-]. rewrite bool_decide_false by done.
    unfold float64_finite. by rewrite Hf.
  - destruct (decide (MType m = Counter)); [|done]. destruct (Delta m) as [d|]; [|done].
    intros [= <-]. cbn [item_Id item_Type item_Delta].
    destruct (decide (ID m = "")); [done|]. rewrite decide_False, decide_True by done.
    intros [= <-]. by rewrite bool_decide_false by done.
Qed.

Lemma to_items_convert ms acc items :
  to_items ms acc = Ok items → ∃ new, items = acc ++ new ∧
    ∀ macc nacc ms' names, convert_items new macc nacc = Ok (ms', names) →
      ms' = macc ++ map received ms ∧ forallb sendableb ms = true.
Proof.
  revert acc. induction ms as [|m ms IH]; intros acc; cbn [to_items].
  { intros [= <-]. exists []. rewrite app_nil_r. split; [done|]. intros macc nacc ms' names [= <- _].
    by rewrite app_nil_r. }
  destruct (to_item m) as [item|] eqn:Hto; [|done]. intros Hitems.
  destruct (IH _ Hitems) as (new & -> & Hconv). exists (Some item :: new).
  rewrite <-app_assoc. split; [done|]. intros macc nacc ms' names. cbn [convert_items].
  destruct (convert_item (Some item)) as [m'|] eqn:Hc; [|done]. intros Hrest.
  destruct (to_item_convert _ _ _ Hto Hc) as [-> Hs]. destruct (Hconv _ _ _ _ Hrest) as [-> Hall].
  rewrite <-app_assoc. simpl. by rewrite Hs, Hall.
Qed.

(** The fingerprint of what arrives. *)
Definition grpc_fingerprint `{Json (list Metrics)} (b : Batch) : string :=
  match Fingerprint (map received (batch_Metrics b)) with Ok fp => fp | Fail _ => "" end.

(** One handling of a request: refused with the world as it was, or one call of the
    service, after which only the clock and the audit are used. *)
Lemma grpc_handles {W} `{Json (list Metrics)} (now : M W Z) (srv : metricsServer W) b items w (same : W → W → Prop)
    `{!PreOrder same} :
  (∀ notify ctx ev v, srv_auditor srv = Some notify → same v (notify ctx ev v).1) → (∀ v, same v (now v).1) →
  batch_Metrics b ≠ [] → ValidKey (batch_ID b) = true → to_items (batch_Metrics b) [] = Ok items →
  let '(w', e) := Grpc.UpdateMetrics now srv (mkCtx {["idempotency-key" := [batch_ID b]]} None) (Some items) w in
  (w' = w ∧ is_Some e) ∨
  (grpc_arrived b = map received (batch_Metrics b) ∧
   let '(w1, (_, e1)) := UpdateMetricsOnce (srv_service srv) (batch_ID b) (map received (batch_Metrics b)) w in
   same w1 w' ∧ (e = None → e1 = None)).
Proof.
  intros Hnotify Hnow Hne Hkey Hto. unfold Grpc.UpdateMetrics, ValueFromIncomingContext.
  cbn [incoming ctx_Err]. rewrite lookup_singleton_eq. cbn [default from_option id]. rewrite Hkey.
  destruct (to_items_convert _ _ _ Hto) as (new & -> & Hconv). cbn [app].
  destruct (convert_items new [] []) as [[ms names]|e] eqn:Hc; [|left; by split; [|eexists]].
  destruct (Hconv _ _ _ _ Hc) as [-> Hs]. cbn [app].
  destruct (decide (length (map received (batch_Metrics b)) = 0)) as [Hl|_].
  { rewrite length_map in Hl. by apply nil_length_inv in Hl. }
  unfold bind. destruct (UpdateMetricsOnce (srv_service srv) (batch_ID b) _ w) as [w1 [applied e]].
  assert (∀ (e' : err) w', same w1 w' → (e' = None → e = None) →
    (w' = w ∧ is_Some e') ∨ (grpc_arrived b = map received (batch_Metrics b) ∧ same w1 w' ∧ (e' = None → e = None))) as Hdone.
  { intros e' w' Hsame He. right. split; [|done]. unfold grpc_arrived. by rewrite Hs. }
  destruct e as [e|].
  { unfold ret. by destruct (errors_Is ErrConflict_text e); apply Hdone. }
  destruct (srv_auditor srv) as [notify|] eqn:Haud; [|by apply Hdone].
  destruct applied; [|by apply Hdone]. pose proof (Hnow w1) as Hn.
  destruct (now w1) as [w2 t]. cbn [fst] in Hn.
  match goal with |- context [notify ?c ?ev w2] => pose proof (Hnotify notify c ev w2 eq_refl) as Hv;
    destruct (notify c ev w2) as [w3 e3] end.
  apply Hdone; [|done]. by etrans.
Qed.

Section GrpcTransport.
Context {W : Type} `{Json (list Metrics)} `{Ciphers}.
Variable now : M W Z.
Context {C : Type} {upd : C → list Metrics → option C} {ledger : W → Ledger C}.

(** The server's ledger, through the network. *)
Definition remote_ledger (wf : W * list fate) : Ledger C := ledger wf.1.

Lemma server_delivers (srv : metricsServer W) o {Hspec : @OnceSpec W C o upd ledger} b items w :
  onceRepo (srv_service srv) = Some o →
  (∀ v, ledger (save (srv_service srv) v).1 = ledger v) →
  (∀ notify ctx ev v, srv_auditor srv = Some notify → ledger (notify ctx ev v).1 = ledger v) →
  (∀ v, ledger (now v).1 = ledger v) →
  batch_Metrics b ≠ [] → ValidKey (batch_ID b) = true → to_items (batch_Metrics b) [] = Ok items →
  let '(w', e) := Grpc.UpdateMetrics now srv
    (mkCtx {["idempotency-key" := [batch_ID b]]} None) (Some items) w in
  (ledger w' = ledger w ∨ l_receipts (ledger w) !! batch_ID b = None ∧
     commit upd (batch_ID b) (grpc_fingerprint b) (grpc_arrived b) (ledger w) = Some (ledger w')) ∧
  (e = None → l_receipts (ledger w') !! batch_ID b = Some (grpc_fingerprint b)).
Proof.
  intros Ho Hsave Hnotify Hnow Hne Hkey Hto.
  assert (PreOrder (λ v v' : W, ledger v' = ledger v)) as Hpre by (split; [done|by intros ??? -> ->]).
  pose proof (grpc_handles now srv b items w (λ v v', ledger v' = ledger v)
    Hnotify Hnow Hne Hkey Hto) as Hh.
  destruct (Grpc.UpdateMetrics _ _ _ _ w) as [w' e]. destruct Hh as [[-> [e' ->]]|[-> Hh]]; [split; [by left|done]|].
  assert (batch_ID b ≠ "") as Hid by (by intros Heq; rewrite Heq in Hkey).
  pose proof (once_service (srv_service srv) o (batch_ID b) (map received (batch_Metrics b)) w Ho
    ltac:(by intros ?%map_eq_nil) Hid Hsave) as Honce.
  destruct (UpdateMetricsOnce (srv_service srv) (batch_ID b) _ w) as [w1 [applied e1]].
  destruct Honce as [Hat Hack], Hh as [Hw He]. unfold grpc_fingerprint. rewrite Hw. split.
  - destruct Hat as [?|(fp & -> & ?)]; [by left|by right].
  - intros Hnone. by destruct (Hack (He Hnone)) as (fp & -> & ?).
Qed.

(** An agent that sends over the lossy network to the server. *)
Lemma grpc_transport_ok gzip normalize newRequest (rand_Read : M (W * list fate) Random)
    (a : Agent (W * list fate)) (srv : metricsServer W) o {Hspec : @OnceSpec W C o upd ledger} :
  sender a = Some (SendBatch (mkClient (lossy (Grpc.UpdateMetrics now srv)))) →
  onceRepo (srv_service srv) = Some o →
  (∀ v, ledger (save (srv_service srv) v).1 = ledger v) →
  (∀ notify ctx ev v, srv_auditor srv = Some notify → ledger (notify ctx ev v).1 = ledger v) →
  (∀ v, ledger (now v).1 = ledger v) →
  (∀ d wf, remote_ledger (retrySleep a d wf).1 = remote_ledger wf) →
  (∀ wf, remote_ledger (rand_Read wf).1 = remote_ledger wf) →
  transport_ok gzip normalize newRequest rand_Read upd remote_ledger grpc_fingerprint grpc_arrived a.
Proof.
  intros Hsd Ho Hsave Hnotify Hnow Hsleep Hrand. constructor; [|exact Hsleep|exact Hrand].
  intros b op Hne Hop [w fates]. unfold operation_of in Hop. rewrite Hsd in Hop. subst op.
  assert (∀ fates' e, (ledger w = ledger w ∨ l_receipts (ledger w) !! batch_ID b = None ∧
    commit upd (batch_ID b) (grpc_fingerprint b) (grpc_arrived b) (ledger w) =
      Some (remote_ledger (w, fates'))) ∧ (@Some error e = None →
    l_receipts (ledger w) !! batch_ID b = Some (grpc_fingerprint b))) as Hno by (split; [by left|done]).
  unfold SendBatch. rewrite decide_False by (by intros ?%nil_length_inv).
  destruct (ValidKey (batch_ID b)) eqn:Hkey; cbn [negb]; [|by apply (Hno fates)].
  destruct (to_items (batch_Metrics b) []) as [items|e] eqn:Hto; [|by apply (Hno fates)].
  pose proof (server_delivers srv o b items w Ho Hsave Hnotify Hnow Hne Hkey Hto) as Hsrv.
  unfold bind, lossy. cbn [rpc].
  destruct (Grpc.UpdateMetrics now srv (mkCtx _ None) (Some items) w) as [w' e].
  unfold remote_ledger. destruct fates as [|[| |] fates]; cbn [tail].
  1, 2: destruct e as [e|]; unfold ret; cbn [fst]; split; [apply Hsrv|done|apply Hsrv|apply Hsrv].
  - unfold unavailable, ret. apply (Hno fates).
  - unfold unavailable, ret. cbn [fst]. split; [apply Hsrv|done].
Qed.
End GrpcTransport.

(** ** A concrete system

    An agent with the default settings over a lossy network, and a server with
    the in-memory storage. *)
(** An encoder that writes the names alone: the run does not decode anything. *)
Definition sys_json : Json (list Metrics) := {|
  json_Marshal ms := Ok (join_text "," (map ID ms));
  json_Unmarshal _ := Fail (Msg "not used");
  json_Decode _ := Fail (Msg "not used");
  json_DecodeBroken _ := Fail (Msg "not used")
|}.

Definition Net_world : Type := MemStorage * list fate.

Definition sys_gzip : Gzip := mkGzip (λ _, None) (λ t, Ok t).
Definition sys_normalize : string → res string := λ s, Ok s.
Definition sys_request : string → err := λ _, None.
Definition sys_rand : M Net_world Random := ret witness_random.
(** The [i]-th identifier spells [i] with the first two letters. *)
Definition sys_ids (i : nat) : list Z :=
  [Z.of_nat (i mod 32); Z.of_nat (i / 32 mod 32)] ++ repeat 0%Z 24.
Definition sys_order (s : Store) : list (string * float64) * list (string * Z) :=
  (map_to_list (gauges s), map_to_list (counters s)).

Lemma sys_order_ok s : range_of (sys_order s).1 (gauges s) ∧ range_of (sys_order s).2 (counters s).
Proof. split; apply range_of_to_list. Qed.

Definition sys_server : metricsServer MemStorage := mkServer mem_service None.

Definition sys_agent : Agent Net_world :=
  mkAgent (Some (SendBatch (mkClient (lossy (@Grpc.UpdateMetrics MemStorage sys_json (ret 0%Z)
    sys_server))))) 2 10 "http://localhost:8080" (λ _, ret (Ok 200%Z)) NewStore "" None 1 (λ _, ret tt).

(** A store that has counted once. *)
Definition sys_store : Store := mkStore ∅ {["PollCount" := 1%Z]}.

Lemma sys_store_ok : store_ok sys_store.
Proof. apply map_Forall_singleton. by vm_compute. Qed.

(** The answer to the first call is lost. *)
Definition sys_start : Net_world := (NewMemStorage, [AnswerLost]).

Abbreviation sys_reachable := (@reachable Net_world sys_json clear_ciphers sys_gzip sys_normalize
  sys_request sys_rand sys_ids sys_order sys_agent sys_store sys_start).

(** The start, the cancellation, and the final report, which is retried after
    the lost answer. *)
Definition sys_polled : Loop (W := Net_world) := start sys_store sys_start.
Definition sys_stopped : Loop (W := Net_world) := stopped_loop sys_store sys_start.
Definition sys_final : Loop (W := Net_world) :=
  @final_report Net_world sys_json clear_ciphers sys_gzip sys_normalize sys_request sys_rand
    sys_ids sys_order sys_agent sys_stopped.

Lemma sys_final_reachable : sys_reachable sys_final.
Proof. apply finished_reachable. Qed.

Lemma sys_transport_ok :
  @transport_ok Net_world sys_json clear_ciphers sys_gzip sys_normalize sys_request sys_rand
    Content mem_upd (remote_ledger (ledger := ledger)) (@grpc_fingerprint sys_json) grpc_arrived sys_agent.
Proof.
  by apply (@grpc_transport_ok MemStorage sys_json clear_ciphers (ret 0%Z) Content mem_upd ledger
    sys_gzip sys_normalize sys_request sys_rand sys_agent sys_server
    MemStorage_IdempotentRepository MemStorage_OnceSpec).
Qed.

Lemma mem_counting c ms c' :
  content_ok c → mem_upd c ms = Some c' →
  content_ok c' ∧ ∀ name, counter_at c' name = wrap64 (counter_at c name + total_delta name ms).
Proof.
  intros Hc [= <-]. split; [by apply apply_batch_ok|]. intros name. by apply counter_at_batch.
Qed.

(** [Run] has returned nil, and the server has counted the collection once. *)
Lemma exactly_once_witness :
  l_final sys_final = Some None ∧
  counter_at (content (world (l_agent sys_final)).1) "PollCount" = 1%Z.
Proof.
  assert (l_final sys_final = Some None) as Hf by (by vm_compute). split; [exact Hf|].
  assert (ids_distinct sys_ids (length (l_made sys_final))) as Hids.
  { assert (length (l_made sys_final) = 1) as -> by (by vm_compute). intros i j Hi Hj _. lia. }
  destruct (@exactly_once Net_world sys_json clear_ciphers sys_gzip sys_normalize sys_request
    sys_rand sys_ids sys_order sys_order_ok Content mem_upd (remote_ledger (ledger := ledger))
    (@grpc_fingerprint sys_json) grpc_arrived content_ok (λ _, True) counter_at
    (λ c name, counter_at_range c name) (λ c ms c' Hc _, mem_counting c ms c' Hc)
    sys_agent sys_store sys_start sys_final "PollCount" sys_transport_ok sys_store_ok ltac:(done) Hids
    ltac:(done) (proj1 NewMemStorage_ok) (λ _ _, I) ltac:(intros b _; apply grpc_arrived_delta)
    sys_final_reachable) as (cm & rest & _ & _ & _ & _ & _ & Hend).
  specialize (Hend Hf). change (content (world (l_agent sys_final)).1) with
    (l_content (remote_ledger (ledger := ledger) (world (l_agent sys_final)))).
  rewrite Hend. by vm_compute.
Defined.

(** ** The agent's own properties on the same system *)

Lemma agent_conserves_witness :
  all_batches sys_final ≡ₚ l_made sys_final ∧ length (l_made sys_final) = 1.
Proof.
  split; [|by vm_compute].
  exact (proj1 (@agent_conserves Net_world sys_json clear_ciphers sys_gzip sys_normalize sys_request
    sys_rand sys_ids sys_order sys_order_ok sys_agent sys_store sys_start sys_final sys_store_ok
    ltac:(done) sys_final_reachable)).
Defined.

Lemma run_can_finish_witness :
  ∃ l' r, @steps Net_world sys_json clear_ciphers sys_gzip sys_normalize sys_request sys_rand sys_ids
    sys_order sys_agent (start sys_store sys_start) l' ∧ l_final l' = Some r.
Proof.
  destruct (@run_can_finish Net_world sys_json clear_ciphers sys_gzip sys_normalize sys_request
    sys_rand sys_ids sys_order sys_order_ok sys_agent sys_store sys_start (start sys_store sys_start)
    sys_store_ok ltac:(done) (rtc_refl _ _)) as (l' & r & Hs & Hf & _).
  by exists l', r.
Defined.

Definition sys_batch : Batch := mkBatch run_key run_batch.

Lemma ReportOnce_conserves_witness :
  let '(s', e) := @ReportOnce Net_world sys_json clear_ciphers sys_gzip sys_normalize sys_request
    sys_rand sys_ids sys_order sys_agent (mkState sys_store [sys_batch] 0 sys_start) in
  e = None ∧ pending s' = [] ∧ counters (store s') = ∅.
Proof.
  set (s := mkState sys_store [sys_batch] 0 sys_start : State Net_world).
  pose proof (@ReportOnce_conserves Net_world sys_json clear_ciphers sys_gzip sys_normalize sys_request
    sys_rand sys_ids sys_order sys_order_ok sys_agent s) as Hr.
  assert ((@ReportOnce Net_world sys_json clear_ciphers sys_gzip sys_normalize sys_request
    sys_rand sys_ids sys_order sys_agent s).2 = None) as He by (by vm_compute).
  destruct (@ReportOnce Net_world sys_json clear_ciphers sys_gzip sys_normalize sys_request
    sys_rand sys_ids sys_order sys_agent s) as [s' e]. cbn [snd] in He. subst e.
  destruct Hr as (fresh & rs & _ & _ & _ & _ & _ & _ & Hp & Hc).
  split; [done|]. split; [by apply Hp|by apply Hc].
Defined.

(** An HTTP agent with a signing key and a public key: the connection is refused
    twice before the request is answered. *)
Definition http_agent : Agent (list HTTPRequest) :=
  mkAgent None 2 10 "http://localhost:8080"
    (λ r, λ log, (log ++ [r], if decide (length log < 2) then Fail (Msg "connection refused") else Ok 200%Z))
    NewStore "secret" (Some witness_public) 1 (λ _, ret tt).

Lemma sendBatch_same_request_witness :
  let '(log, e) := @sendBatch (list HTTPRequest) sys_json clear_ciphers sys_gzip sys_normalize sys_request
    (ret witness_random) http_agent sys_batch [] in
  e = None ∧ length log = 3 ∧ ∃ r, log = replicate 3 r ∧
    Header_Values Delivery.Header (req_Header r) = [run_key].
Proof.
  pose proof (@sendBatch_same_request (list HTTPRequest) sys_json clear_ciphers sys_gzip sys_normalize
    sys_request (ret witness_random) http_agent sys_batch (λ log, log) [] eq_refl ltac:(done)
    ltac:(done) ltac:(done)) as Hsame.
  assert ((@sendBatch (list HTTPRequest) sys_json clear_ciphers sys_gzip sys_normalize sys_request
    (ret witness_random) http_agent sys_batch []).2 = None ∧
    length (@sendBatch (list HTTPRequest) sys_json clear_ciphers sys_gzip sys_normalize sys_request
    (ret witness_random) http_agent sys_batch []).1 = 3) as [He Hl] by (split; by vm_compute).
  destruct (@sendBatch (list HTTPRequest) sys_json clear_ciphers sys_gzip sys_normalize sys_request
    (ret witness_random) http_agent sys_batch []) as [log e]. cbn [fst snd] in He, Hl.
  split; [exact He|]. split; [exact Hl|].
  destruct Hsame as [Hlog|(n & r & payload & hash & Hlog & _ & _ & _ & Hid & _)].
  - by rewrite Hlog in Hl.
  - exists r. rewrite Hlog in Hl |- *. cbn [app] in *. rewrite length_replicate in Hl.
    injection Hl as ->. split; [done|exact Hid].
Defined.

(** A worker of that agent: the batch in the channel is compressed, signed and
    encrypted, and delivered by the third attempt. *)
Lemma worker_runs_sendBatch_witness :
  let l := set_jobs [sys_batch] (start sys_store ([] : list HTTPRequest)) in
  ∃ l', @steps (list HTTPRequest) sys_json clear_ciphers sys_gzip sys_normalize sys_request (ret witness_random)
    sys_ids sys_order http_agent l l' ∧ l_delivered l' = [sys_batch] ∧ length (world (l_agent l')) = 3.
Proof.
  set (l := set_jobs [sys_batch] (start sys_store ([] : list HTTPRequest))). cbn zeta.
  pose proof (@worker_runs_sendBatch (list HTTPRequest) sys_json clear_ciphers sys_gzip sys_normalize sys_request
    (ret witness_random) sys_ids sys_order http_agent l sys_batch [] eq_refl ltac:(done)) as Hw.
  assert (length (@sendBatch (list HTTPRequest) sys_json clear_ciphers sys_gzip sys_normalize sys_request
    (ret witness_random) http_agent sys_batch (world (l_agent l))).1 = 3 ∧
    (@sendBatch (list HTTPRequest) sys_json clear_ciphers sys_gzip sys_normalize sys_request
    (ret witness_random) http_agent sys_batch (world (l_agent l))).2 = None) as [Hc He] by (split; by vm_compute).
  destruct (@sendBatch (list HTTPRequest) sys_json clear_ciphers sys_gzip sys_normalize sys_request
    (ret witness_random) http_agent sys_batch (world (l_agent l))) as [w' e]. cbn [fst snd] in Hc, He. subst e.
  destruct Hw as (l' & Hs & Hworld & _ & _ & Hd & _). exists l'. split; [exact Hs|].
  split; [exact Hd|]. by rewrite Hworld.
Defined.
