(* ===== verification/HttpSystem.v ===== *)
(** The agent and the server over HTTP: the request the agent builds passes the
    server's middleware and reaches the batch handler as the agent's batch, so
    that the HTTP transport too counts every increment exactly once. *)

From S2P Require Import Prelude GoErrors Metrics GoJson GoHttp GoNet GoStrconv Delivery Signature Encryption.
From S2P Require Import Repository Memory Service Auditing Middleware Handler ServerMain Grpc Transports.
From S2P Require Import Store Agent AgentLoop Tracking System.
From Stdlib Require Import Ascii.

(** ** The network between the two *)

(** The headers that the server reads. *)
Definition read_headers : list string :=
  [Delivery.Header; "Content-Encoding"; "Accept-Encoding"; Signature.Header; Encryption.Header].

Record Wire : Type := mkWire {
  wire : header → header;
  url_path : string → string;
  localAddr : string;
  remoteAddr : string
}.

(** What arrives of the headers the client sets: the client of [net/http] does not
    touch those the program sets, and of the ones the server reads it adds
    [Accept-Encoding] only, when the program has not set it. *)
Definition wire_ok (n : Wire) : Prop :=
  ∀ k h, k ∈ read_headers → (k = "Accept-Encoding" → Header_Values k h ≠ []) →
    Header_Values k (wire n h) = Header_Values k h.

(** The server's request for a request of the client. *)
Definition http_request (n : Wire) (q : HTTPRequest) : Request :=
  mkRequest "POST" (req_URL q) (url_path n (req_URL q)) (λ _, "")
    (wire n (req_GotConn q (localAddr n) (req_Header q)))
    (NopCloser (String.string_of_list_ascii (req_Body q))) (remoteAddr n) None.

(** [client.Do] over a network that may lose the request or the answer. *)
Definition http_client {W} (n : Wire) (handler : Handler W) (q : HTTPRequest)
  : M (W * list fate) (res Z) := λ '(w, fates),
  match fates with
  | [] | Delivered :: _ =>
      let '(w', rw) := handler Response Response_writer fresh_response (http_request n q) w in
      ((w', tail fates), Ok (final_status rw))
  | RequestLost :: fates => ((w, fates), Fail (Msg "connection reset"))
  | AnswerLost :: fates =>
      let '(w', _) := handler Response Response_writer fresh_response (http_request n q) w in
      ((w', fates), Fail (Msg "unexpected EOF"))
  end.

Section HttpTransport.
Context {W : Type} `{JM : Json Metrics} `{JL : Json (list Metrics)} `{FT : FloatText} `{GZ : GzipCodec}.
Context `{NT : Net} `{CP : Ciphers} `{CPS : !CiphersSpec} `{RT : Router W} `{RTS : !RouterSpec W}.
(** The server: its clock, page template and logger; its settings; the storage
    behind the service. *)
Variable now : M W Z.
Variable Execute : gmap string float64 → gmap string Z → string * err.
Variable logger : option (LogEntry → M W unit).
Variables (cidr : string) (privateKey : option PrivateKey) (serverKey : string).
Variable h : MetricsHandler (W := W).
Context {C : Type} {upd : C → list Metrics → option C} {ledger : W → Ledger C}.
Variable o : IdempotentRepository W.
Context {Hspec : @OnceSpec W C o upd ledger}.
Hypothesis once_repo : onceRepo (service h) = Some o.
Hypothesis save_frame : ∀ v, ledger (save (service h) v).1 = ledger v.
Hypothesis notify_frame : ∀ notify ctx ev v, auditor h = Some notify → ledger (notify ctx ev v).1 = ledger v.
Hypothesis now_frame : ∀ v, ledger (now v).1 = ledger v.
Hypothesis logger_frame : ∀ info e v, logger = Some info → ledger (info e v).1 = ledger v.
(** The agent: its compressor, random bytes, and the network it is on. *)
Variable gzip : Gzip.
Variable normalize : string → res string.
Variable newRequest : string → err.
Variable rand_Read : M (W * list fate) Random.
Variable n : Wire.
Hypothesis wire_good : wire_ok n.
Hypothesis gzip_good : ∀ t c, gz_Close gzip t = Ok c →
  gzip_NewReader (String.string_of_list_ascii c) None = Ok (String.string_of_list_ascii t, None, None).
Hypothesis rand_good : ∀ v, random_ok (rand_Read v).2.

(** The keys of the two sides belong together, or the agent does not encrypt. *)
Definition keys_match (a : Agent (W * list fate)) : Prop :=
  publicKey a = None ∨ ∃ sk, privateKey = Some sk ∧ publicKey a = Some (sk_PublicKey sk).

(** What arrives of a batch: what its encoding decodes to. *)
Definition http_arrived (b : Batch) : list Metrics :=
  match json_Marshal (batch_Metrics b) with
  | Ok s => match json_Decode s with Ok ms => ms | Fail _ => batch_Metrics b end
  | Fail _ => batch_Metrics b
  end.

Definition http_fingerprint (b : Batch) : string :=
  match Fingerprint (http_arrived b) with Ok fp => fp | Fail _ => "" end.

(** ** Lemmas *)

#[local] Abbreviation request a payload hash batchID := (http_request n (request_of normalize a payload hash batchID)).

(** The names of the program differ from the one the trace hook sets. *)
Lemma traced_headers (a : Agent (W * list fate)) payload hash batchID local k :
  let q := request_of normalize a payload hash batchID in
  k ∈ read_headers →
  Header_Values k (req_GotConn q local (req_Header q)) = Header_Values k (request_headers a hash batchID).
Proof.
  intros q Hk. subst q. unfold request_of, withRealIP. cbn [req_GotConn req_Header].
  destruct (SplitHostPort _) as [[host port]|]; [|done].
  destruct (normalize _) as [ip|]; [|done]. apply Header_Values_Set_ne.
  unfold read_headers in Hk. rewrite !elem_of_cons in Hk.
  destruct Hk as [-> | [-> | [-> | [-> | [-> | Hk]]]]]; [by vm_compute..|]. by apply elem_of_nil in Hk.
Qed.

Lemma request_accepts (a : Agent (W * list fate)) hash batchID :
  Header_Values "Accept-Encoding" (request_headers a hash batchID) = ["gzip"].
Proof.
  unfold request_headers. cbv zeta. destruct (decide (publicKey a ≠ None)), (decide (hash ≠ ""));
    rewrite ?Header_Values_Set_ne by (by vm_compute); apply Header_Values_Set.
Qed.

Lemma read_headers_request (a : Agent (W * list fate)) payload hash batchID k :
  k ∈ read_headers →
  Header_Values k (ReqHeader (request a payload hash batchID)) =
    Header_Values k (request_headers a hash batchID).
Proof.
  intros Hk. unfold http_request. cbn [ReqHeader]. rewrite wire_good by
    (done || (intros ->; rewrite traced_headers by done; by rewrite request_accepts)). by apply traced_headers.
Qed.

Lemma ascii_string_inverse (t : text) : String.list_ascii_of_string (String.string_of_list_ascii t) = t.
Proof. apply String.list_ascii_of_string_of_list_ascii. Qed.

(** What the server still sees of the agent's request behind its decryption. *)
Definition carries (r r1 : Request) (body : ReadCloser) (batchID hash : string) : Prop :=
  Body r1 = body ∧ Method r1 = "POST" ∧ Path r1 = Path r ∧
  Header_Values Delivery.Header (ReqHeader r1) = [batchID] ∧
  Header_Get "Content-Encoding" (ReqHeader r1) = "gzip" ∧ Header_Get Signature.Header (ReqHeader r1) = hash.

Lemma request_carries (a : Agent (W * list fate)) payload hash batchID :
  let r := request a payload hash batchID in
  carries r r (NopCloser (String.string_of_list_ascii payload)) batchID hash ∧
  Header_Get Encryption.Header (ReqHeader r) = (if decide (publicKey a ≠ None) then Algorithm else "").
Proof.
  destruct (request_headers_spec a hash batchID) as (Hid & Hce & Henc & Hsig). cbv zeta.
  unfold carries, Header_Get in *. rewrite !read_headers_request 
    by (unfold read_headers; repeat first [apply list_elem_of_here|apply list_elem_of_further]). by split_and!.
Qed.

(** The first stage, decryption: it fails on a long payload only, and leaves the
    compressed text. *)
Lemma request_decrypted (a : Agent (W * list fate)) payload compressed hash batchID :
  keys_match a →
  match publicKey a with
  | None => payload = compressed
  | Some pk => ∃ v, Encrypt (rand_Read v).2 (Some pk) compressed = Ok payload
  end →
  let r := request a payload hash batchID in
  let decrypted := match privateKey with Some _ => decrypt_request privateKey r | None => Some r end in
  (publicKey a = None ∨ (Z.of_nat (length payload) ≤ maxEncryptedBody)%Z → is_Some decrypted) ∧
  ∀ r1, decrypted = Some r1 → carries r r1 (NopCloser (String.string_of_list_ascii compressed)) batchID hash.
Proof.
  unfold keys_match. destruct (request_carries a payload hash batchID) as [Hc Halg].
  intros Hkeys Hpay. set (r := request a payload hash batchID) in *. cbv zeta.
  set (decrypted := match privateKey with Some _ => _ | None => _ end).
  destruct (publicKey a) as [pk|] eqn:Hpk.
  - destruct Hkeys as [?|(sk & Hsk & [= ->])]; [done|]. subst decrypted. rewrite Hsk. unfold decrypt_request.
    rewrite Halg, (decide_True (P := Some (sk_PublicKey sk) ≠ None)) by done.
    rewrite decide_False by done. rewrite decide_False by (by intros [?|?]).
    destruct Hpay as [v Hv]. pose proof (encrypted_body (rand_Read v).2 sk compressed (rand_good v)) as Hdec.
    rewrite Hv in Hdec. destruct Hdec as [Hdec _]. unfold ReadAll_max.
    rewrite (proj1 Hc). cbn [ReadAll NopCloser b_err b_data].
    assert (∀ t : text, String.length (String.string_of_list_ascii t) = length t) as -> by (induction t; cbn; auto).
    destruct (maxEncryptedBody <? _)%Z eqn:Hmax.
    { split; [|done]. intros [?|Hle]; [done|]. apply Z.ltb_lt in Hmax. lia. }
    rewrite ascii_string_inverse, Hdec. destruct Hc as (_ & Hm & Hp & Hid & Hce & Hsig).
    split; [by eexists|]. intros r1 [= <-]. unfold carries. cbn [ReqHeader set_ReqHeader set_Body Body Method Path].
    rewrite !Header_Values_Del_ne, !Header_Get_Del_ne by (by vm_compute). done.
  - subst payload. assert (decrypted = Some r) as ->.
    { subst decrypted. destruct privateKey; [|done]. unfold decrypt_request. rewrite Halg.
      rewrite (decide_False (P := @None PublicKey ≠ None)) by tauto. by rewrite decide_True. }
    split; [by eexists|]. by intros r1 [= <-].
Qed.

(** The second stage, decompression, leaves the text. *)
Lemma carried_gunzipped r r1 body compressed batchID hash :
  gz_Close gzip (String.list_ascii_of_string body) = Ok compressed →
  carries r r1 (NopCloser (String.string_of_list_ascii compressed)) batchID hash →
  ∃ r2, gzip_request r1 = Some r2 ∧ carries r r2 (NopCloser body) batchID hash.
Proof.
  intros Hgz (Hb & Hm & Hp & Hid & Hce & Hsig). unfold gzip_request. rewrite Hce, Hb.
  assert (headerContainsToken "gzip" "gzip" = true) as -> by (by vm_compute).
  cbn [NopCloser b_data b_err]. rewrite (gzip_good _ _ Hgz), String.string_of_list_ascii_of_string.
  eexists. split; [done|]. by split_and!.
Qed.

(** The last stage, the signature, accepts the agent's own. *)
Lemma carried_verified r r2 body batchID hash :
  carries r r2 (NopCloser body) batchID hash →
  (hash = "" ∨ serverKey = "" ∨ hash = Calculate body serverKey → is_Some (hash_request serverKey r2)) ∧
  ∀ r3, hash_request serverKey r2 = Some r3 → carries r r3 (NopCloser body) batchID hash.
Proof.
  intros Hc. pose proof Hc as (Hb & Hm & Hp & Hid & Hce & Hsig).
  unfold hash_request, verifyRequestSignature. rewrite Hb, Hsig. cbn [NopCloser ReadAll b_err b_data b_close].
  destruct (decide (serverKey = "")); [split; [by eexists|by intros r3 [= <-]]|].
  destruct (bool_decide (hash = "")) eqn:Hh;
    [rewrite andb_false_r; split; [by eexists|by intros r3 [= <-]]|]. apply bool_decide_eq_false in Hh.
  destruct (requestRequiresSignature _); [|split; [by eexists|by intros r3 [= <-]]]. cbn [andb negb].
  destruct (Verify _ _ _) eqn:Hv; (split; [|try done]).
  - by eexists.
  - intros r3 [= <-]. by split_and!.
  - intros [?|[?|Heq]]; [done..|]. by rewrite Heq, Verify_own in Hv.
Qed.

(** The request that reaches the router carries the batch's text and key. *)
Lemma agent_request_decoded (a : Agent (W * list fate)) metrics payload hash batchID r' :
  keys_match a → payload_of gzip rand_Read a metrics payload hash →
  decoded_request privateKey serverKey (request a payload hash batchID) = Some r' →
  ∃ body, json_Marshal metrics = Ok body ∧
    carries (request a payload hash batchID) r' (NopCloser body) batchID hash.
Proof.
  intros Hkeys (body & compressed & Hj & Hgz & _ & Hpay) (r1 & Hr1 & (r2 & Hr2 & Hr3)%bind_Some)%bind_Some.
  destruct (request_decrypted a payload compressed hash batchID Hkeys Hpay) as [_ Hc]. specialize (Hc r1 Hr1).
  destruct (carried_gunzipped _ _ _ _ _ _ Hgz Hc) as (r2' & Hr2' & Hc2). simplify_eq.
  exists body. split; [done|]. by apply (carried_verified _ r2).
Qed.

(** What one handling of a batch request does to the ledger. *)
Definition handled_once (b : Batch) (w w' : W) (status : Z) : Prop :=
  (ledger w' = ledger w ∨ l_receipts (ledger w) !! batch_ID b = None ∧
     commit upd (batch_ID b) (http_fingerprint b) (http_arrived b) (ledger w) = Some (ledger w')) ∧
  (status = StatusOK → l_receipts (ledger w') !! batch_ID b = Some (http_fingerprint b)).

Lemma logged_frame r start status size w :
  ledger (logged now logger r start status size w) = ledger w.
Proof.
  unfold logged. pose proof (now_frame w) as Hn. destruct (now w) as [w1 finish].
  destruct logger as [info|] eqn:Hl; [|done]. cbn [fst] in Hn. by rewrite (logger_frame info).
Qed.

(** The whole server on the request of a batch whose encoding decodes to
    something. *)
Lemma server_handles (a : Agent (W * list fate)) handler b payload hash w :
  build_stack now logger cidr privateKey serverKey (chi (routes now Execute h)) = Ok handler →
  keys_match a → url_path n (serverURL a +:+ "/updates/") = "/updates/" →
  payload_of gzip rand_Read a (batch_Metrics b) payload hash →
  http_arrived b ≠ [] →
  let '(w', rw) := handler Response Response_writer fresh_response
    (request a payload hash (batch_ID b)) w in
  handled_once b w w' (final_status rw).
Proof.
  intros Hstack Hkeys Hurl Hpay Hne. set (r := request a payload hash (batch_ID b)).
  pose proof (now_frame w) as Hnow1.
  destruct (server_request cidr privateKey serverKey r) as [r'|] eqn:Hreq.
  2: { destruct (stack_refused now logger cidr privateKey serverKey _ handler r w Hstack Hreq)
         as (rw & Heq & Hst). rewrite Heq. unfold handled_once. rewrite logged_frame. split; [by left|].
       intros Hs. rewrite Hs in Hst. by destruct (admitted cidr r). }
  assert (scripted (chi (routes now Execute h))) as Hscript by apply chi_scripted, routes_scripted.
  destruct (Hscript r' (now w).1 ∅) as (w1 & acts & Hrun).
  destruct (runs_fresh _ _ _ _ _ Hrun) as (rw1 & Heq1 & Hst1 & _).
  destruct (stack_runs _ _ _ _ _ _ _ _ _ w _ _ _ Hstack Hreq Hrun) as (acts' & z & Hrun' & Hs' & _).
  destruct (runs_fresh _ _ _ _ _ Hrun') as (rw & Heq & Hst & _). rewrite Heq.
  unfold sends in Hs'. rewrite Hst, Hs', <-Hst1. unfold handled_once. rewrite logged_frame.
  assert (decoded_request privateKey serverKey r = Some r') as Hdec.
  { unfold server_request in Hreq. by destruct (admitted cidr r). }
  destruct (agent_request_decoded a _ _ _ _ _ Hkeys Hpay Hdec) as (body & Hj & Hb & Hm & Hp & Hid & _).
  rewrite (updates_route now Execute h r') in Heq1.
  2: { done. }
  2: { left. rewrite Hp. unfold r, http_request, request_of, withRealIP. exact Hurl. }
  set (r'' := with_params [] r') in *.
  assert (decode_body r'' = json_Decode body) as Hd.
  { unfold decode_body, r'', with_params. cbn [Body]. by rewrite Hb. }
  destruct (json_Decode body) as [ms|e] eqn:Hdj.
  2: { unfold UpdateMetricsJSON in Heq1. rewrite Hd in Heq1. injection Heq1 as <- <-.
       rewrite Hnow1. split; [by left|done]. }
  assert (http_arrived b = ms) as Harr by (unfold http_arrived; by rewrite Hj, Hdj).
  pose proof (UpdateMetricsJSON_ledger now h o (Hspec := Hspec) r'' (batch_ID b) ms (now w).1
    once_repo save_frame notify_frame now_frame Hid Hd ltac:(by rewrite <-Harr)) as Hled.
  rewrite Heq1, Hnow1 in Hled. destruct Hled as [Hat Hack].
  unfold http_fingerprint. rewrite Harr. split.
  - destruct Hat as [?|(fp & -> & ?)]; [by left|by right].
  - intros Hs. by destruct (Hack Hs) as (fp & -> & ?).
Qed.

(** An agent that sends over the lossy network to the server. *)
Lemma http_transport_ok (a : Agent (W * list fate)) handler :
  build_stack now logger cidr privateKey serverKey (chi (routes now Execute h)) = Ok handler →
  sender a = None → client a = http_client n handler →
  keys_match a → url_path n (serverURL a +:+ "/updates/") = "/updates/" →
  (∀ b, batch_Metrics b ≠ [] → http_arrived b ≠ []) →
  (∀ d wf, remote_ledger (ledger := ledger) (retrySleep a d wf).1 = remote_ledger (ledger := ledger) wf) →
  (∀ wf, remote_ledger (ledger := ledger) (rand_Read wf).1 = remote_ledger (ledger := ledger) wf) →
  transport_ok gzip normalize newRequest rand_Read upd (remote_ledger (ledger := ledger))
    http_fingerprint http_arrived a.
Proof.
  intros Hstack Hsd Hclient Hkeys Hurl Harr Hsleep Hrand. constructor; [|exact Hsleep|exact Hrand].
  intros b op Hne Hop [w fates]. unfold operation_of in Hop. rewrite Hsd in Hop.
  destruct Hop as (payload & hash & Hpay & ->).
  destruct (sendCompressedMetrics_request normalize newRequest a payload hash (batch_ID b)) as [_ Hsend].
  rewrite Hsend. destruct (newRequest _) as [e|]; [split; [by left|done]|].
  rewrite Hclient. unfold http_client.
  pose proof (server_handles a handler b payload hash w Hstack Hkeys Hurl Hpay (Harr b Hne)) as Hsrv.
  destruct (handler Response Response_writer fresh_response _ w) as [w' rw].
  destruct Hsrv as [Hat Hack]. unfold remote_ledger.
  destruct fates as [|[| |] fates]; cbn [tail fst].
  1, 2: split; [exact Hat|]; destruct (decide (final_status rw ≠ 200%Z)) as [|Hs]; [done|];
    intros _; apply Hack; by apply dec_stable in Hs.
  - split; [by left|done].
  - split; [exact Hat|done].
Qed.

(** ** Properties *)

(** C2: Exactly once over HTTP: an agent that sends to the server over a network that
    loses requests and answers, through the whole middleware, signing or not,
    encrypting or not, delivers every increment it collects exactly once, in
    every interleaving of its goroutines and whatever the server's settings
    make of single requests; a request that the server refuses (subnet,
    signature, size) changes nothing. *)
Theorem http_exactly_once (a : Agent (W * list fate)) handler ids order good counter_of st w l name :
  build_stack now logger cidr privateKey serverKey (chi (routes now Execute h)) = Ok handler →
  sender a = None → client a = http_client n handler →
  keys_match a → url_path n (serverURL a +:+ "/updates/") = "/updates/" →
  (∀ b, batch_Metrics b ≠ [] → http_arrived b ≠ []) →
  (∀ d wf, remote_ledger (ledger := ledger) (retrySleep a d wf).1 = remote_ledger (ledger := ledger) wf) →
  (∀ wf, remote_ledger (ledger := ledger) (rand_Read wf).1 = remote_ledger (ledger := ledger) wf) →
  (∀ s, range_of (order s).1 (gauges s) ∧ range_of (order s).2 (counters s)) →
  (∀ c k, good c → in_int64 (counter_of c k)) →
  (∀ c ms c', good c → upd c ms = Some c' →
     good c' ∧ ∀ k, counter_of c' k = wrap64 (counter_of c k + total_delta k ms)) →
  store_ok st → (0 ≤ rateLimit a)%Z → ids_distinct ids (length (l_made l)) →
  (∀ i, i < length (l_made l) → l_receipts (ledger w.1) !! rand_Text (ids i) = None) →
  good (l_content (ledger w.1)) →
  (∀ b, b ∈ l_made l → total_delta name (http_arrived b) = total_delta name (batch_Metrics b)) →
  reachable gzip normalize newRequest rand_Read ids order a st w l →
  l_final l = Some None →
  counter_of (l_content (ledger (world (l_agent l)).1)) name =
    wrap64 (counter_of (l_content (ledger w.1)) name + collected st (l_polls l) name).
Proof.
  intros Hstack Hsd Hclient Hkeys Hurl Harr Hsleep Hrand Horder Hrange Hcount Hst Hrate Hids Hfresh Hgood
    Hdelta Hr Hfin.
  pose proof (http_transport_ok a handler Hstack Hsd Hclient Hkeys Hurl Harr Hsleep Hrand) as Hok.
  destruct (counted_once gzip normalize newRequest rand_Read ids order Horder upd
    (remote_ledger (ledger := ledger)) http_fingerprint http_arrived good (λ _, True) counter_of Hrange
    (λ c ms c' Hc _, Hcount c ms c' Hc)
    a st w l name Hok Hst Hrate Hids Hfresh Hgood (λ _ _, I) Hdelta Hr) as (cm & rest & _ & _ & _ & _ & _ & Hend).
  by apply Hend.
Qed.

(** C14: Nothing but a wrong setting, a foreign address or a body of more than 16 MiB
    keeps a batch of the agent from the batch handler: with keys that belong
    together, and the same signing key or none on one side, the stack decrypts,
    decompresses and verifies the request, and hands the router exactly the
    JSON text the agent made of the batch, under the batch's identifier. *)
Theorem agent_request_admitted (a : Agent (W * list fate)) metrics payload hash batchID :
  keys_match a → key a = "" ∨ serverKey = "" ∨ key a = serverKey →
  payload_of gzip rand_Read a metrics payload hash →
  publicKey a = None ∨ (Z.of_nat (length payload) ≤ maxEncryptedBody)%Z →
  admitted cidr (request a payload hash batchID) = true →
  ∃ r' body, server_request cidr privateKey serverKey (request a payload hash batchID) = Some r' ∧
    json_Marshal metrics = Ok body ∧ ReadAll (Body r') = Ok body ∧
    Header_Values Delivery.Header (ReqHeader r') = [batchID] ∧
    Method r' = "POST" ∧ Path r' = url_path n (serverURL a +:+ "/updates/").
Proof.
  intros Hkeys Hsign Hpay Hsize Hadm. pose proof Hpay as (body & compressed & Hj & Hgz & Hhash & Hseal).
  destruct (request_decrypted a payload compressed hash batchID Hkeys Hseal) as [Hdec Hc].
  destruct (Hdec Hsize) as [r1 Hr1].
  destruct (carried_gunzipped _ _ _ _ _ _ Hgz (Hc r1 Hr1)) as (r2 & Hr2 & Hc2).
  destruct (carried_verified _ _ _ _ _ Hc2) as [[r3 Hr3] Hc3].
  { rewrite Hhash. destruct (decide (key a ≠ "")); [|by left]. destruct Hsign as [?|[?| ->]]; auto. done. }
  exists r3, body. unfold server_request, decoded_request. rewrite Hadm, Hr1. cbn. rewrite Hr2. cbn.
  split; [done|]. split; [done|]. destruct (Hc3 r3 Hr3) as (Hb & Hm & Hp & Hid & _). by rewrite Hb.
Qed.
End HttpTransport.

(** ** A concrete run

    An agent in the trusted subnet that encrypts its batches, and a server with
    the matching key over the in-memory storage; the first answer is lost. *)

(** The encoding of the one batch of the run. *)
Definition run_metrics : list Metrics := [counter_metric "PollCount" 1].
Definition run_json : Json (list Metrics) := {|
  json_Marshal ms := if decide (ms = run_metrics) then Ok "PollCount=1" else Fail (Msg "unsupported value");
  json_Unmarshal s := if decide (s = "PollCount=1") then Ok run_metrics else Fail (Msg "invalid character");
  json_Decode s := if decide (s = "PollCount=1") then Ok run_metrics else Fail (Msg "invalid character");
  json_DecodeBroken _ := Fail (Msg "unexpected EOF")
|}.
Definition no_metric_json : Json Metrics := {|
  json_Marshal _ := Fail (Msg "not used");
  json_Unmarshal _ := Fail (Msg "not used");
  json_Decode _ := Fail (Msg "not used");
  json_DecodeBroken _ := Fail (Msg "not used")
|}.
Definition no_float : FloatText := {| ParseFloat _ := Fail ErrSyntax; FormatFloat _ := "" |}.

Definition run_wire : Wire :=
  mkWire (Header_Set "User-Agent" "Go-http-client/1.1") (λ _, "/updates/") "10.0.0.5:50000" "10.0.0.5:50000".
Definition run_gzip : Gzip := mkGzip (λ _, None) (λ t, Ok ("z"%char :: t)).
Definition run_handler_of : MetricsHandler (W := MemStorage) := NewMetricsHandler mem_service.
Definition run_mux : Handler MemStorage :=
  @chi MemStorage (first_route MemStorage)
    (@routes MemStorage no_metric_json run_json no_float (ret 0%Z) (λ _ _, ("", None)) run_handler_of).
Definition run_logger : option (LogEntry → M MemStorage unit) := Some (λ _, ret tt).

#[local] Abbreviation run_stack key := (@build_stack MemStorage mark_gzip text_net clear_ciphers (ret 0%Z)
  run_logger "10." (Some witness_private) key run_mux).

Definition run_server : Handler MemStorage :=
  match run_stack "" with Ok handler => handler | Fail _ => run_mux end.

Definition run_agent : Agent Net_world :=
  mkAgent None 2 10 "http://localhost:8080" (http_client run_wire run_server) NewStore ""
    (Some witness_public) 1 (λ _, ret tt).

Definition run_end : Loop (W := Net_world) :=
  @final_report Net_world run_json clear_ciphers run_gzip sys_normalize sys_request sys_rand
    sys_ids sys_order run_agent (stopped_loop sys_store sys_start).

Lemma run_wire_ok : wire_ok run_wire.
Proof.
  intros k hd Hk _. apply Header_Values_Set_ne. unfold read_headers in Hk. rewrite !elem_of_cons in Hk.
  destruct Hk as [-> | [-> | [-> | [-> | [-> | Hk]]]]]; [by vm_compute..|]. by apply elem_of_nil in Hk.
Qed.

Lemma run_gzip_ok t c : gz_Close run_gzip t = Ok c →
  @gzip_NewReader mark_gzip (String.string_of_list_ascii c) None = Ok (String.string_of_list_ascii t, None, None).
Proof. by intros [= <-]. Qed.

Lemma run_random_ok v : @random_ok clear_ciphers (sys_rand v).2.
Proof. split; by intros ? [= <-]. Qed.

Lemma run_arrived b : batch_Metrics b ≠ [] → @http_arrived run_json b ≠ [].
Proof.
  unfold http_arrived. cbn [json_Marshal run_json]. case_decide as Hb; [|done].
  cbn [json_Decode run_json]. by rewrite decide_True.
Qed.

Lemma run_server_built : run_stack "" = Ok run_server.
Proof.
  unfold run_server. assert (∃ handler, run_stack "" = Ok handler) as [handler Hh]; [|by rewrite Hh].
  unfold build_stack. case_decide; [done|]. by eexists.
Qed.

Lemma run_end_reachable :
  @reachable Net_world run_json clear_ciphers run_gzip sys_normalize sys_request sys_rand
    sys_ids sys_order run_agent sys_store sys_start run_end.
Proof. apply finished_reachable. Qed.

Lemma http_exactly_once_witness :
  l_final run_end = Some None ∧
  counter_at (content (world (l_agent run_end)).1) "PollCount" = 1%Z.
Proof.
  assert (l_final run_end = Some None) as Hf by (by vm_compute). split; [exact Hf|].
  assert (ids_distinct sys_ids (length (l_made run_end))) as Hids.
  { assert (length (l_made run_end) = 1) as -> by (by vm_compute). intros i j Hi Hj _. lia. }
  assert (∀ b, b ∈ l_made run_end →
    total_delta "PollCount" (@http_arrived run_json b) = total_delta "PollCount" (batch_Metrics b)) as Hdelta.
  { intros b _. unfold http_arrived. cbn [json_Marshal run_json]. case_decide as Hb; [|done].
    cbn [json_Decode run_json]. by rewrite decide_True, Hb. }
  unshelve epose proof (@http_exactly_once MemStorage no_metric_json run_json no_float mark_gzip text_net clear_ciphers
    clear_ciphers_ok (first_route MemStorage) (first_route_ok MemStorage) (ret 0%Z) (λ _ _, ("", None)) run_logger
    "10." (Some witness_private) "" run_handler_of Content mem_upd ledger MemStorage_IdempotentRepository
    MemStorage_OnceSpec _ _ _ _ _ run_gzip
    sys_normalize sys_request sys_rand run_wire run_wire_ok run_gzip_ok run_random_ok
    run_agent run_server sys_ids sys_order content_ok counter_at sys_store sys_start run_end "PollCount"
    run_server_built _ _ _ _ run_arrived _ _
    sys_order_ok (λ c name, counter_at_range c name) mem_counting sys_store_ok _ Hids _
    (proj1 NewMemStorage_ok) Hdelta run_end_reachable Hf) as Hend.
  1-4, 6, 7, 9-13: done.
  - by intros info e v [= <-].
  - right. exact (ex_intro _ witness_private (conj eq_refl eq_refl)).
  - etrans; [exact Hend|]. by vm_compute.
Defined.

(** The request of a signed and encrypted batch. *)
Definition signing_agent : Agent Net_world :=
  mkAgent None 2 10 "http://localhost:8080" (http_client run_wire run_server) NewStore "secret"
    (Some witness_public) 1 (λ _, ret tt).

Definition run_payload : text :=
  match @Encrypt clear_ciphers witness_random (Some witness_public) ("z"%char :: String.list_ascii_of_string "PollCount=1")
  with Ok p => p | Fail _ => [] end.

Lemma agent_request_admitted_witness :
  let hash := Calculate "PollCount=1" "secret" in
  ∃ r', @server_request mark_gzip text_net clear_ciphers "10." (Some witness_private) "secret"
      (http_request run_wire (request_of sys_normalize signing_agent run_payload hash run_key)) = Some r' ∧
    ReadAll (Body r') = Ok "PollCount=1".
Proof.
  intros hash.
  destruct (@agent_request_admitted MemStorage run_json mark_gzip text_net clear_ciphers clear_ciphers_ok
    "10." (Some witness_private) "secret" run_gzip sys_normalize sys_request sys_rand run_wire run_wire_ok run_gzip_ok
    run_random_ok signing_agent run_metrics run_payload hash run_key) as (r' & body & Hr & Hj & Hb & _).
  - right. exact (ex_intro _ witness_private (conj eq_refl eq_refl)).
  - by right; right.
  - exists "PollCount=1", ("z"%char :: String.list_ascii_of_string "PollCount=1").
    split; [done|]. split; [done|]. split; [by rewrite decide_True|].
    exists sys_start. by vm_compute.
  - right. by vm_compute.
  - reflexivity.
  - exists r'. split; [exact Hr|]. rewrite Hb. by injection Hj as <-.
Defined.

(** ** Concrete requests through the middleware *)

(** A router that answers every request with a page. *)
Definition page_mux : Handler MemStorage := λ R RW rw r w,
  (w, Write "hello" (SetHeader "Content-Type" "text/html" rw)).

Lemma page_mux_scripted : scripted page_mux.
Proof.
  intros r w h0. exists w, [ActHeader (Header_Set "Content-Type" "text/html"); ActWrite "hello"]. by split.
Qed.

(** A compressed body from inside the subnet, by a client that accepts
    compressed answers. *)
Definition page_request (ip : string) : Request :=
  mkRequest "POST" "/" "/" (λ _, "")
    (Header_Set "X-Real-IP" ip (Header_Set "Content-Encoding" "GZIP"
      (Header_Set "Accept-Encoding" "br, gzip" ∅))) (NopCloser "zquestion") "10.0.0.5:50000" None.

Definition page_stack : res (Handler MemStorage) :=
  @build_stack MemStorage mark_gzip text_net clear_ciphers (ret 0%Z) run_logger "10." None "secret" page_mux.

Lemma stack_transparent_witness :
  match page_stack with
  | Fail _ => False
  | Ok handler =>
      ∃ rw, handler Response Response_writer fresh_response (page_request "10.0.0.5") NewMemStorage
        = (NewMemStorage, rw) ∧
      final_status rw = StatusOK ∧ @client_body mark_gzip rw = Ok "hello" ∧
      Header_Get Signature.Header (final_header rw) = Calculate "hello" "secret"
  end.
Proof.
  destruct page_stack as [handler|e] eqn:Hs.
  2: { unfold page_stack, build_stack in Hs. by case_decide. }
  destruct (@stack_transparent MemStorage mark_gzip text_net clear_ciphers (ret 0%Z) run_logger
    mark_gzip_ok "10." None "secret" page_mux handler (page_request "10.0.0.5")
    (set_Body (mkBody "question" None None) (page_request "10.0.0.5")) NewMemStorage NewMemStorage
    (Write "hello" (SetHeader "Content-Type" "text/html" fresh_response)) page_mux_scripted Hs
    ltac:(reflexivity) ltac:(reflexivity) ltac:(reflexivity)) as (rw & Hrw & Hst & Hb & _ & Hsig & _).
  exists rw. split; [exact Hrw|]. split; [exact Hst|]. split; [exact Hb|]. by apply Hsig.
Defined.

Lemma stack_refuses_witness :
  match page_stack with
  | Fail _ => False
  | Ok handler =>
      final_status (handler Response Response_writer fresh_response (page_request "192.168.0.1")
        NewMemStorage).2 = StatusForbidden
  end.
Proof.
  destruct page_stack as [handler|e] eqn:Hs.
  2: { unfold page_stack, build_stack in Hs. by case_decide. }
  destruct (@stack_refuses MemStorage mark_gzip text_net clear_ciphers (ret 0%Z) run_logger
    "10." None "secret" page_mux handler (page_request "192.168.0.1") NewMemStorage Hs
    ltac:(reflexivity)) as (rw & Hrw & Hst).
  rewrite Hrw. exact Hst.
Defined.
