(* ===== verification/PgSystem.v ===== *)
(** The agent and a server with PostgreSQL: the increments the agent collects
    reach the rows of the database exactly once, over a network that loses
    requests and acknowledgements, and a database whose connection fails at any
    interaction, the commit included. *)

From S2P Require Import Prelude GoErrors Metrics GoJson Delivery Retry Repository Postgres Sessions.
From S2P Require Import Service Encryption Grpc Transports Store Agent AgentLoop Tracking System.

(** ** Tables with one type per name *)

(** The rows are of the type of their name, and the counters are [BIGINT]s. *)
Definition table_ok (ty : string → string) (t : gmap string row) : Prop :=
  rows_ok ty t ∧ ∀ n, in_int64 (counter_row t n).

Lemma effect_stmt_range ty m t t' n :
  metric_ok ty m → (∀ k, in_int64 (counter_row t k)) → effect_stmt (effect_of m) t = Some t' →
  in_int64 (counter_row t' n).
Proof.
  unfold metric_ok. intros Hm Ht. specialize (Ht n) as Hn. unfold counter_row in *.
  destruct (effect_of m) as [k v|k d|]; cbn [effect_stmt].
  - intros [= <-]. rewrite lookup_insert. by case_decide.
  - intros He. assert (∃ z, t' = <[k := mkRow Counter None (Some z)]> t ∧ in_int64 z) as (z & -> & Hz).
    { destruct (t !! k) as [r|]; [case_decide; [|done]|]; injection He as <-; eexists; split; try done. apply Hm. }
    rewrite lookup_insert. by case_decide.
  - by intros [= <-].
Qed.

Lemma pg_upd_range ty ms t t' :
  Forall (metric_ok ty) ms → (∀ k, in_int64 (counter_row t k)) → pg_upd t ms = Some t' →
  ∀ n, in_int64 (counter_row t' n).
Proof.
  revert t. induction ms as [|m ms IH]; intros t Hms Ht; cbn [pg_upd]; [by intros [= <-]|].
  apply Forall_cons in Hms as [Hm Hms]. intros (t1 & He & Hu)%bind_Some. apply (IH t1); [done| |done].
  intros n. by eapply effect_stmt_range.
Qed.

(** A name that is no counter counts nothing. *)
Lemma rows_ok_no_counter ty t n : rows_ok ty t → ty n ≠ Counter → counter_row t n = 0%Z.
Proof.
  intros Ht Hn. unfold counter_row. destruct (t !! n) as [r|] eqn:Hr; [|done].
  destruct (Ht n r Hr) as [Hty [(_ & _ & ->)|(Hc & _)]]; [done|]. by rewrite <-Hty in Hn.
Qed.

Lemma no_counter_delta ty ms n : Forall (metric_ok ty) ms → ty n ≠ Counter → total_delta n ms = 0%Z.
Proof.
  intros Hms Hn. induction Hms as [|m ms Hm _ IH]; [done|].
  change (total_delta n (m :: ms)) with (delta_of n m + total_delta n ms)%Z. rewrite IH.
  unfold delta_of. unfold metric_ok in Hm. destruct (effect_of m) as [k v|k d|]; [done| |done].
  case_decide; [|done]. subst k. by destruct Hm.
Qed.

(** PostgreSQL counts: sums out of range are refused, so that nothing wraps. *)
Lemma pg_counting ty c ms c' :
  table_ok ty c → Forall (metric_ok ty) ms → pg_upd c ms = Some c' →
  table_ok ty c' ∧ ∀ n, counter_row c' n = wrap64 (counter_row c n + total_delta n ms).
Proof.
  intros [Hc Hr] Hms Hu. destruct (pg_upd_ok ty _ _ _ Hc Hms Hu) as [Hc' _].
  pose proof (pg_upd_range ty _ _ _ Hms Hr Hu) as Hr'. split; [by split|]. intros n.
  rewrite <-(wrap64_id (counter_row c' n)) by done. f_equal.
  destruct (decide (ty n = Counter)) as [Hn|Hn]; [by eapply pg_upd_counter|].
  by rewrite (rows_ok_no_counter ty c' n), (rows_ok_no_counter ty c n), (no_counter_delta ty).
Qed.

(** What arrives of a batch has the types of the batch. *)
Lemma grpc_arrived_ok ty b : Forall (metric_ok ty) (batch_Metrics b) → Forall (metric_ok ty) (grpc_arrived b).
Proof.
  intros Hb. unfold grpc_arrived. destruct (forallb sendableb (batch_Metrics b)) eqn:Hs; [|done].
  rewrite forallb_forall in Hs. rewrite Forall_forall in Hb. apply Forall_fmap, Forall_forall. intros m Hm.
  cbn. unfold metric_ok. rewrite received_effect; [by apply Hb|].
  by apply sendableb_spec, Hs, list_elem_of_In.
Qed.

(** ** The whole system *)

Section PgSystem.
Context `{Json (list Metrics)} `{Ciphers}.
Variable gzip : Gzip.
Variable normalize : string → res string.
Variable newRequest : string → err.
Variable rand_Read : M (PW * list fate) Random.
Variable ids : nat → list Z.
Variable order : Store → list (string * float64) * list (string * Z).
Hypothesis order_ok : ∀ s, range_of (order s).1 (gauges s) ∧ range_of (order s).2 (counters s).
Variable now : M PW Z.
(** The server of [cmd/server] with a database: no file is saved, and neither the
    clock nor the audit writes to it. *)
Variable srv : metricsServer PW.
Hypothesis srv_storage : onceRepo (srv_service srv) = Some Postgres_IdempotentRepository.
Hypothesis srv_saves : saveOnUpdate (srv_service srv) = None.
Hypothesis srv_audit : ∀ notify ctx ev v,
  srv_auditor srv = Some notify → Postgres.ledger (notify ctx ev v).1 = Postgres.ledger v.
Hypothesis srv_clock : ∀ v, Postgres.ledger (now v).1 = Postgres.ledger v.

Abbreviation database w := (t_metrics (db (fst w))).

(** C3: exactly once with PostgreSQL: an agent that sends over a network that
    loses requests and answers, to a server whose database fails or loses the
    acknowledgement at any interaction, retried on both sides, in every
    interleaving of its goroutines: once [Run] has returned nil, every counter
    of the database has grown by what was collected, and in every reachable
    state the batches committed, each once, with those still to be committed
    are the batches made, and the rows keep their types. *)
Theorem postgres_exactly_once ty (a : Agent (PW * list fate)) st w l name :
  sender a = Some (SendBatch (mkClient (lossy (Grpc.UpdateMetrics now srv)))) →
  (∀ d wf, db (retrySleep a d wf).1.1 = db wf.1) → (∀ wf, db (rand_Read wf).1.1 = db wf.1) →
  store_ok st → (0 ≤ rateLimit a)%Z → ids_distinct ids (length (l_made l)) →
  (∀ i, i < length (l_made l) → t_receipts (db w.1) !! rand_Text (ids i) = None) →
  table_ok ty (database w) → (∀ b, b ∈ l_made l → Forall (metric_ok ty) (batch_Metrics b)) →
  reachable gzip normalize newRequest rand_Read ids order a st w l →
  ∃ cm rest,
    cm ++ rest ≡ₚ l_made l ∧ NoDup (cm ++ rest) ∧
    (∀ b, b ∈ l_delivered l → b ∈ rest → batch_Metrics b = []) ∧
    wrap64 (counter_row (database (world (l_agent l))) name + batches_delta name rest
        + counter_value (store (l_agent l)) name) =
      wrap64 (counter_row (database w) name + collected st (l_polls l) name) ∧
    (l_final l = Some None →
      counter_row (database (world (l_agent l))) name =
        wrap64 (counter_row (database w) name + collected st (l_polls l) name)).
Proof.
  intros Hsd Hsleep Hrand Hst Hrate Hids Hfresh Htable Hfits Hr.
  assert (∀ w1 w2 : PW, db w1 = db w2 → Postgres.ledger w1 = Postgres.ledger w2) as Hdb
    by (unfold Postgres.ledger; by intros w1 w2 ->).
  pose proof (grpc_transport_ok now gzip normalize newRequest rand_Read a srv Postgres_IdempotentRepository
    (Hspec := Postgres_OnceSpec) Hsd srv_storage
    ltac:(intros v; unfold save; by rewrite srv_saves) srv_audit srv_clock
    (λ d wf, Hdb _ _ (Hsleep d wf)) (λ wf, Hdb _ _ (Hrand wf))) as Hok.
  destruct (counted_once gzip normalize newRequest rand_Read ids order order_ok pg_upd
    (remote_ledger (ledger := Postgres.ledger)) grpc_fingerprint grpc_arrived (table_ok ty)
    (Forall (metric_ok ty)) counter_row (λ c n Hc, proj2 Hc n) (pg_counting ty)
    a st w l name Hok Hst Hrate Hids Hfresh Htable ltac:(intros b Hb; by apply grpc_arrived_ok, Hfits)
    ltac:(intros b _; apply grpc_arrived_delta) Hr) as (cm & rest & Hp & Hn & _ & Hd & Hb & Hend).
  by exists cm, rest.
Qed.
End PgSystem.

(** ** A run

    The acknowledgement of the first commit is lost, and so is the answer to the
    call that repeats it. *)
Definition pg_service : MetricsService PW :=
  NewMetricsService Postgres_MetricsRepository (Some Postgres_MetricsBatchRepository) (Some Postgres_IdempotentRepository).

Definition pg_server : metricsServer PW := mkServer pg_service None.

Definition pg_agent : Agent (PW * list fate) :=
  mkAgent (Some (SendBatch (mkClient (lossy (@Grpc.UpdateMetrics PW sys_json (ret 0%Z) pg_server)))))
    2 10 "http://localhost:8080" (λ _, ret (Ok 200%Z)) NewStore "" None 1 (λ _, ret tt).

Definition pg_start : PW * list fate :=
  (mkPW (mkDB ∅ ∅) [Done; Done; Done; Done; Lost (PqError "08006")], [AnswerLost]).

Definition pg_rand : M (PW * list fate) Random := ret witness_random.

Definition pg_final : Loop (W := PW * list fate) :=
  @final_report (PW * list fate) sys_json clear_ciphers sys_gzip sys_normalize sys_request pg_rand
    sys_ids sys_order pg_agent (stopped_loop sys_store pg_start).

Lemma pg_final_reachable :
  @reachable (PW * list fate) sys_json clear_ciphers sys_gzip sys_normalize sys_request pg_rand
    sys_ids sys_order pg_agent sys_store pg_start pg_final.
Proof. apply finished_reachable. Qed.

Lemma pg_table_ok : table_ok (λ _, Counter) ∅.
Proof. split; [apply map_Forall_empty|]. intros n. by vm_compute. Qed.

Lemma one_batch {P : Metrics → Prop} (bs : list Batch) ms :
  map batch_Metrics bs = [ms] → Forall P ms → ∀ b, b ∈ bs → Forall P (batch_Metrics b).
Proof. destruct bs as [|b [|]]; [done| |done]. intros [= <-] Hms c ->%list_elem_of_singleton. exact Hms. Qed.

Lemma postgres_exactly_once_witness :
  l_final pg_final = Some None ∧ counter_row (t_metrics (db (world (l_agent pg_final)).1)) "PollCount" = 1%Z.
Proof.
  assert (l_final pg_final = Some None) as Hf by (by vm_compute). split; [exact Hf|].
  assert (length (l_made pg_final) = 1) as Hlen by (by vm_compute).
  assert (ids_distinct sys_ids (length (l_made pg_final))) as Hids.
  { rewrite Hlen. intros i j Hi Hj _. lia. }
  assert (∀ b, b ∈ l_made pg_final → Forall (metric_ok (λ _, Counter)) (batch_Metrics b)) as Hfits.
  { apply (one_batch _ [counter_metric "PollCount" 1]); [by vm_compute|]. repeat constructor; by vm_compute. }
  assert (∀ i, i < length (l_made pg_final) → t_receipts (db pg_start.1) !! rand_Text (sys_ids i) = None) as Hfresh.
  { intros i _. apply lookup_empty. }
  assert (∀ notify ctx ev v, srv_auditor pg_server = Some notify → Postgres.ledger (notify ctx ev v).1 = Postgres.ledger v)
    as Haudit by (intros notify ctx ev v Hn; discriminate Hn).
  pose proof (@postgres_exactly_once sys_json clear_ciphers sys_gzip sys_normalize sys_request pg_rand sys_ids sys_order
    sys_order_ok (ret 0%Z) pg_server eq_refl eq_refl Haudit (λ v, eq_refl) (λ _, Counter) pg_agent sys_store
    pg_start pg_final "PollCount") as Hp.
  specialize (Hp eq_refl (λ _ _, eq_refl) (λ _, eq_refl) sys_store_ok ltac:(done)).
  specialize (Hp Hids Hfresh pg_table_ok Hfits pg_final_reachable).
  destruct Hp as (cm & rest & _ & _ & _ & _ & Hend).
  rewrite (Hend Hf). by vm_compute.
Defined.
