(* ===== verification/CrashSystem.v ===== *)
(** The agent and a server that crashes: the in-memory storage with a synchronous
    file ([cmd/server] with a store interval of zero), saves that fail, and any
    number of crashes with restorations from the file. *)

From S2P Require Import Prelude GoErrors Metrics GoJson Delivery Retry Repository Memory SaveFile Service Persistence Durable.
From S2P Require Import Auditing Encryption Grpc Transports Store Agent AgentLoop Tracking System.

(** What happens to one call: the network's part; or the server stops before it
    has handled the request, or after it has, and starts again.  A crash inside
    the save leaves the old file or the new one, so it is one or the other;
    [junk] are the other files it may leave. *)
Inductive accident : Type :=
| Net (f : fate)
| Crashed (junk : FS)
| CrashedAfter (junk : FS).

Section CrashSystem.
Context `{!Json (list Metrics)} `{!Ciphers}.
Context `{!Json (list snapshotRecord)} {clean : list snapshotRecord → Prop}.
Context `{!JsonRoundTrip (list snapshotRecord) clean}.
Variable gzip : Gzip.
Variable normalize : string → res string.
Variable newRequest : string → err.
Variable rand_Read : M (World * list accident) Random.
Variable ids : nat → list Z.
Variable order : Store → list (string * float64) * list (string * Z).
Hypothesis order_ok : ∀ s, range_of (order s).1 (Store.gauges s) ∧ range_of (order s).2 (Store.counters s).

(** The file, the order of a restoration, and the storage of the first start. *)
Variable p : persistence.
Variable orders : list snapshotRecord → list (list (string * string)).
Hypothesis orders_good : ∀ rs, orders_of rs (orders rs).
Variable s0 : MemStorage.
Hypothesis s0_ok : mem_ok s0.
Hypothesis s0_saveable : saveable s0.

(** The batches in question change something and lead to snapshots that can be
    encoded. *)
Variable good : list Metrics → Prop.
Hypothesis good_effective : ∀ c, good (call_metrics c) → Exists effective (call_metrics c).
Hypothesis good_clean : ∀ rs go co ro,
  Forall (λ r, good (request_metrics r) ∨ r = SaveOnly) rs →
  range_of go (Memory.gauges (replay s0 rs)) → range_of co (Memory.counters (replay s0 rs)) →
  range_of ro (receipts (replay s0 rs)) → clean (fileSnapshot go co ro (replay s0 rs)).

(** The server: clock and audit leave the storage and its file alone. *)
Definition same_storage (w w' : World) : Prop :=
  mem w' = mem w ∧ files w' !! p_path p = files w !! p_path p ∧ faults w' = faults w.

Variable now : M World Z.
Variable auditor : option (Observer World).
Hypothesis now_frame : ∀ w, same_storage w (now w).1.
Hypothesis audit_frame : ∀ notify ctx ev w, auditor = Some notify → same_storage w (notify ctx ev w).1.

Definition file_server : metricsServer World := mkServer (NewMetricsServiceWithPersistence p 0) auditor.

(** What a start finds in the file. *)
Definition restored (fs : FS) : res MemStorage := NewMemStorageWithRestore None orders (p_path p) true fs.

Definition restart (junk : FS) (w : World) : World :=
  let fs := match files w !! p_path p with
    | Some text => <[p_path p := text]> junk
    | None => delete (p_path p) junk
    end in
  match restored fs with
  | Ok m => mkWorld m fs (faults w) (handled w)
  | Fail _ => mkWorld (mem w) fs (faults w) (handled w)      (* never: [restart_keeps] *)
  end.

(** A call over the network to that server. *)
Definition crashing (h : UnaryHandler World) : RPC (World * list accident) := λ md req '(w, accidents),
  match accidents with
  | [] | Net Delivered :: _ => let '(w', e) := h (mkCtx md None) req w in ((w', tail accidents), e)
  | Net RequestLost :: rest => ((w, rest), unavailable)
  | Net AnswerLost :: rest => let '(w', _) := h (mkCtx md None) req w in ((w', rest), unavailable)
  | Crashed junk :: rest => ((restart junk w, rest), unavailable)
  | CrashedAfter junk :: rest => let '(w', _) := h (mkCtx md None) req w in ((restart junk w', rest), unavailable)
  end.

Definition request_of (b : Batch) : request := Keyed (call_of grpc_fingerprint grpc_arrived b).
Definition batch_good (b : Batch) : Prop := good (grpc_arrived b).

(** ** What the server knows

    The batches [done] are in the file, in the order of their commits, those of
    [ahead] in the memory alone. *)
Definition kept (made done ahead : list Batch) (w : World) : Prop :=
  mem w = replay s0 (map request_of (done ++ ahead)) ∧
  restored (files w) = Ok (replay s0 (map request_of done)) ∧
  once s0 (map request_of (done ++ ahead)) ∧
  Forall (λ b, b ∈ made ∧ batch_Metrics b ≠ [] ∧ batch_good b) (done ++ ahead) ∧
  Forall (fresh_temp p) (faults w).

Definition in_file (made done : list Batch) (w : World * list accident) : Prop := ∃ ahead, kept made done ahead w.1.
Definition receipt_in_file (b : Batch) (w : World * list accident) : Prop :=
  ∃ m, restored (files w.1) = Ok m ∧ receipts m !! batch_ID b = Some (grpc_fingerprint b).

Lemma same_storage_restored w w' : same_storage w w' → restored (files w') = restored (files w).
Proof. intros (_ & Hf & _). by apply restore_target. Qed.

#[local] Instance same_storage_preorder : PreOrder same_storage.
Proof. unfold same_storage. split; [done|]. intros w1 w2 w3 (-> & -> & ->) (-> & -> & ->). done. Qed.

Lemma kept_same made done ahead w w' : same_storage w w' → kept made done ahead w → kept made done ahead w'.
Proof.
  intros Hs (Hm & Hr & Ho & Hb & Hf). unfold kept. rewrite (same_storage_restored _ _ Hs).
  destruct Hs as (-> & _ & ->). done.
Qed.

(** A crash loses what is ahead, and nothing else. *)
Lemma restart_keeps made done ahead junk w :
  kept made done ahead w → kept made done [] (restart junk w) ∧ restored (files (restart junk w)) = restored (files w).
Proof.
  intros (Hm & Hr & Ho & Hb & Hf). unfold restart.
  set (fs := match files w !! p_path p with Some _ => _ | None => _ end).
  assert (restored fs = restored (files w)) as Hfs.
  { apply restore_target. subst fs. destruct (files w !! p_path p); [apply lookup_insert_eq|apply lookup_delete_eq]. }
  rewrite Hfs, Hr. cbn [files]. split; [|by rewrite Hfs].
  unfold kept. cbn [mem files faults]. rewrite app_nil_r, Hfs.
  rewrite map_app in Ho. apply Forall_app in Hb as [Hb _].
  split_and!; [done|done|by eapply once_prefix|done|done].
Qed.

Lemma kept_saveable made done ahead w : kept made done ahead w → saveable (mem w).
Proof.
  intros (-> & _ & _ & Hb & _). apply (replay_saveable s0 s0_saveable good good_effective).
  apply Forall_fmap. eapply Forall_impl; [exact Hb|]. intros b (_ & _ & Hg). by left.
Qed.

(** A save puts all of it into the file, or changes nothing there. *)
Lemma save_kept made done ahead w :
  kept made done ahead w →
  let '(w', e) := saveAndHandle p w in
  match e with
  | None => kept made (done ++ ahead) [] w' ∧ restored (files w') = Ok (mem w)
  | Some _ => kept made done ahead w' ∧ restored (files w') = restored (files w)
  end.
Proof.
  intros Hk. pose proof (kept_saveable _ _ _ _ Hk) as Hsv. destruct Hk as (Hm & Hr & Ho & Hb & Hf).
  assert (let '(w', e) := save p w in
    Forall (fresh_temp p) (faults w') ∧ mem w' = mem w ∧
    match e with None => restored (files w') = Ok (mem w) | Some _ => restored (files w') = restored (files w) end) as Hsave.
  { assert (∃ f rest, fresh_temp p f ∧ Forall (fresh_temp p) rest ∧
      save p w = save_with f p (mkWorld (mem w) (files w) rest (handled w))) as (f & rest & Hff & Hrest & ->).
    { unfold save. destruct (faults w) as [|f rest] eqn:Hfl.
      - eexists _, []. split; [apply no_faults_fresh|]. split; [done|]. by destruct w; cbn in *; subst.
      - apply Forall_cons in Hf as [??]. by exists f, rest. }
    unfold save_with. destruct (SaveToFile f _ (p_path p) _) as [fs e] eqn:Hs. cbn [mem files faults] in *.
    split; [done|]. split; [done|]. destruct e as [e|].
    - apply restore_target. exact (SaveToFile_target _ _ _ _ _ _ Hff Hs).
    - eapply (SaveToFile_restores f _ _ _ (mem w)); [apply range_of_to_list..|done|done| |done|exact Hs].
      unfold snapshot. rewrite Hm. apply good_clean; [|apply range_of_to_list..].
      apply Forall_fmap. eapply Forall_impl; [exact Hb|]. intros b (_ & _ & Hg). by left. }
  unfold saveAndHandle, bind. destruct (save p w) as [w1 e]. destruct Hsave as (Hf1 & Hm1 & He).
  destruct e as [e|].
  - assert (∀ w2, mem w2 = mem w1 → files w2 = files w1 → faults w2 = faults w1 →
      kept made done ahead w2 ∧ restored (files w2) = restored (files w)) as Hdone.
    { intros w2 Hm2 Hfs Hfl. unfold kept. rewrite Hm2, Hfs, Hfl, Hm1, He. done. }
    destruct (p_handles p); by apply Hdone.
  - unfold ret, kept. rewrite app_nil_r, Hm1, He, Hm. done.
Qed.

Lemma kept_receipts made done ahead w done' ahead' w' c :
  done `prefix_of` done' → kept made done ahead w → kept made done' ahead' w' →
  receipt_in_file c (w, @nil accident) → ∀ rest : list accident, receipt_in_file c (w', rest).
Proof.
  intros [new ->] (_ & Hr & _) (_ & Hr' & _) (m & Hm & Hc) rest. unfold receipt_in_file in *. cbn [fst] in *.
  eexists. split; [exact Hr'|]. rewrite Hr in Hm. injection Hm as <-.
  rewrite map_app, replay_requests_app. by apply receipts_replay_mono.
Qed.

(** ** One request *)

(** The first critical section: the batch is new, a repetition, or refused. *)
Lemma update_kept made done ahead b w :
  b ∈ made → batch_Metrics b ≠ [] → batch_good b → kept made done ahead w →
  let '(m, (_, e)) := perform (request_of b) (mem w) in
  let w' := mkWorld m (files w) (faults w) (handled w) in
  ∃ ahead', kept made done ahead' w' ∧ (e = None → receipts m !! batch_ID b = Some (grpc_fingerprint b)).
Proof.
  intros Hb Hne Hg (Hm & Hr & Ho & Hbs & Hf).
  destruct (perform (request_of b) (mem w)) as [m [applied [e|]]] eqn:Hp.
  - pose proof (perform_refused _ _ _ _ _ Hp) as ->. exists ahead. by split.
  - rewrite Hm in Hp. destruct (perform_held s0 _ _ _ _ Hp) as (Hm' & Hheld & Honce).
    set (new := if applied then [b] else []).
    assert (map request_of (done ++ ahead) ++ (if applied then [request_of b] else []) =
      map request_of (done ++ ahead ++ new)) as Heq.
    { subst new. rewrite app_assoc, (map_app _ (done ++ ahead)). by destruct applied. }
    rewrite Heq in *. exists (ahead ++ new). split.
    + split_and!; try assumption; [by apply Honce|]. rewrite app_assoc. apply Forall_app. split; [exact Hbs|].
      subst new. destruct applied; [|done]. by apply Forall_singleton.
    + intros _. rewrite Hm'. exact Hheld.
Qed.

(** A request of the service: what it commits is in the file when it answers. *)
Lemma service_kept made done ahead b w :
  b ∈ made → batch_Metrics b ≠ [] → batch_good b → ValidKey (batch_ID b) = true →
  grpc_arrived b = map received (batch_Metrics b) → kept made done ahead w →
  let '(w', (_, e)) := UpdateMetricsOnce (srv_service file_server) (batch_ID b) (map received (batch_Metrics b)) w in
  ∃ new ahead', kept made (done ++ new) ahead' w' ∧
    (e = None → receipt_in_file b (w', [])).
Proof.
  intros Hb Hne Hg Hk Harr Hkept.
  assert (∀ (e : error), ∃ new ahead', kept made (done ++ new) ahead' w ∧ (Some e = None → receipt_in_file b (w, []))) as Hno.
  { intros e. exists [], ahead. by rewrite app_nil_r. }
  destruct (Fingerprint (map received (batch_Metrics b))) as [fp|e] eqn:Hfp.
  2: { unfold UpdateMetricsOnce. rewrite decide_False by (by intros ?%map_eq_nil).
       rewrite decide_False, Hk by (by intros Heq; rewrite Heq in Hk). cbn [negb].
       change (onceRepo (srv_service file_server)) with (Some memOnce). cbn iota. rewrite Hfp. apply Hno. }
  assert (fp = grpc_fingerprint b) as -> by (unfold grpc_fingerprint; by rewrite Hfp).
  rewrite (UpdateMetricsOnce_keyed _ memOnce (batch_ID b) (grpc_fingerprint b)); try done.
  2: by intros ?%map_eq_nil. 2: by intros Heq; rewrite Heq in Hk.
  pose proof (update_kept made done ahead b w Hb Hne Hg Hkept) as Hu.
  assert (perform (request_of b) (mem w) =
    Memory.UpdateMetricsOnce (batch_ID b) (grpc_fingerprint b) (map received (batch_Metrics b)) (mem w)) as Hp
    by (unfold perform, request_of, call_of; cbn [call_key call_fingerprint call_metrics]; by rewrite Harr).
  rewrite Hp in Hu. unfold bind. cbn [Repository.UpdateMetricsOnce memOnce]. unfold on_mem.
  destruct (Memory.UpdateMetricsOnce _ _ _ (mem w)) as [m [applied e]].
  destruct Hu as (ahead1 & Hk1 & Hrec). destruct e as [e|].
  { exists [], ahead1. rewrite app_nil_r. by split. }
  specialize (Hrec eq_refl). unfold Service.save. cbn [srv_service file_server].
  change (saveOnUpdate _) with (Some (saveAndHandle p)). cbn iota.
  match goal with |- context [saveAndHandle p ?x] => set (w1 := x) in * end.
  pose proof (save_kept _ _ _ _ Hk1) as Hs. destruct (saveAndHandle p w1) as [w2 [e|]]; destruct Hs as [Hs1 Hs2].
  - exists [], ahead1. rewrite app_nil_r. by split.
  - exists ahead1, []. split; [exact Hs1|]. intros _. exists m. by split.
Qed.

Lemma handled_kept made done ahead b items w :
  b ∈ made → batch_Metrics b ≠ [] → batch_good b → ValidKey (batch_ID b) = true →
  to_items (batch_Metrics b) [] = Ok items → kept made done ahead w →
  let '(w', e) := Grpc.UpdateMetrics now file_server
    (mkCtx {["idempotency-key" := [batch_ID b]]} None) (Some items) w in
  ∃ new ahead', kept made (done ++ new) ahead' w' ∧ (e = None → receipt_in_file b (w', [])).
Proof.
  intros Hb Hne Hg Hk Hto Hkept.
  pose proof (grpc_handles now file_server b items w same_storage (λ n c ev v, audit_frame n c ev v) now_frame Hne Hk Hto) as Hh.
  destruct (Grpc.UpdateMetrics _ _ _ _ w) as [w' e]. destruct Hh as [[-> [e' ->]]|[Harr Hh]].
  { exists [], ahead. by rewrite app_nil_r. }
  pose proof (service_kept made done ahead b w Hb Hne Hg Hk Harr Hkept) as Hs.
  destruct (UpdateMetricsOnce (srv_service file_server) (batch_ID b) _ w) as [w1 [applied e1]].
  destruct Hh as [Hsame He], Hs as (new & ahead' & Hs & Hrec). exists new, ahead'.
  split; [by eapply kept_same|]. intros Hn. unfold receipt_in_file. cbn [fst].
  rewrite (same_storage_restored _ _ Hsame). by apply Hrec, He.
Qed.

(** ** The network *)

Lemma kept_advances made done ahead w new ahead' w' rest rest' :
  kept made done ahead w → kept made (done ++ new) ahead' w' →
  advances in_file receipt_in_file made done (w, rest) (w', rest').
Proof.
  intros Hk Hk'. split; [by exists new, ahead'|]. intros c Hc.
  eapply kept_receipts; [by apply prefix_app_r|exact Hk|exact Hk'|exact Hc].
Qed.

Lemma crash_tracked (a : Agent (World * list accident)) :
  sender a = Some (SendBatch (mkClient (crashing (Grpc.UpdateMetrics now file_server)))) →
  (∀ d wf, (retrySleep a d wf).1.1 = wf.1) → (∀ wf, (rand_Read wf).1.1 = wf.1) →
  tracked_transport gzip normalize newRequest rand_Read batch_good in_file receipt_in_file a.
Proof.
  intros Hsd Hsleep Hrand. constructor.
  2: intros made done d w; unfold in_file; by rewrite Hsleep.
  2: intros d w b; unfold receipt_in_file; by rewrite Hsleep.
  2: intros made done w; unfold in_file; by rewrite Hrand.
  2: intros w b; unfold receipt_in_file; by rewrite Hrand.
  2: { intros made made' done w Hsub [ahead (Hm & Hr & Ho & Hb & Hf)]. exists ahead. split_and!; try assumption.
       eapply Forall_impl; [exact Hb|]. intros b (Hin & ? & ?). by split; [apply Hsub|]. }
  intros b op Hg Hne Hop made done [w accs] Hb [ahead Hk]. cbn [fst] in Hk.
  unfold operation_of in Hop. rewrite Hsd in Hop. subst op.
  assert (∀ w' rest (e : error), kept made done [] w' ∨ w' = w →
    advances in_file receipt_in_file made done (w, accs) (w', rest) ∧
    (@Some error e = None → receipt_in_file b (w', rest))) as Hno.
  { intros w' rest e Hw. split; [|done]. destruct Hw as [Hw| ->].
    - apply (kept_advances made done ahead w [] []); [done|by rewrite app_nil_r].
    - apply (kept_advances made done ahead w [] ahead); [done|by rewrite app_nil_r]. }
  unfold SendBatch. rewrite decide_False by (by intros ?%nil_length_inv).
  destruct (ValidKey (batch_ID b)) eqn:Hkey; cbn [negb]; [|by apply Hno; right].
  destruct (to_items (batch_Metrics b) []) as [items|e] eqn:Hto; [|by apply Hno; right].
  pose proof (handled_kept made done ahead b items w Hb Hne Hg Hkey Hto Hk) as Hh.
  unfold bind, crashing. cbn [rpc].
  destruct (Grpc.UpdateMetrics now file_server (mkCtx _ None) (Some items) w) as [w' e].
  destruct Hh as (new & ahead' & Hk' & He).
  assert (∀ v rest (e' : err), (∃ ahead2, kept made (done ++ new) ahead2 v) → (e' = None → receipt_in_file b (v, [])) →
    advances in_file receipt_in_file made done (w, accs) (v, rest) ∧ (e' = None → receipt_in_file b (v, rest))) as Hyes.
  { intros v rest e' [ahead2 Hv] He'. split; [by eapply kept_advances|exact He']. }
  destruct accs as [|[[| |]|junk|junk] rest]; cbn [tail]; unfold unavailable, ret.
  1, 2: destruct e as [e|]; apply Hyes; eauto; done.
  - by apply Hno; right.
  - apply Hyes; [by exists ahead'|done].
  - apply Hno. left. by apply (restart_keeps made done ahead junk w).
  - apply Hyes; [|done]. exists []. by apply (restart_keeps made (done ++ new) ahead' junk w').
Qed.

(** ** The whole system *)

Abbreviation agent_reachable := (reachable gzip normalize newRequest rand_Read ids order).
Abbreviation counter_in m name := (get_or 0%Z (Memory.counters m) name).

(** A storage that has committed the batches [part] of those made, each once, those
    delivered among them: its counter with the other batches and the store adds
    up to what was collected, and is that sum once [Run] has returned nil. *)
Definition accounts (st : Store) (l : Loop (W := World * list accident)) (name : string) (m : MemStorage) (part : list Batch) : Prop :=
  ∃ rest,
    part ++ rest ≡ₚ l_made l ∧ NoDup (part ++ rest) ∧
    (∀ b, b ∈ l_delivered l → b ∈ rest → batch_Metrics b = []) ∧
    wrap64 (counter_in m name + batches_delta name rest + counter_value (store (l_agent l)) name) =
      wrap64 (counter_in s0 name + collected st (l_polls l) name) ∧
    (l_final l = Some None → counter_in m name = wrap64 (counter_in s0 name + collected st (l_polls l) name)).

Lemma request_keys bs : omap request_key (map request_of bs) = map batch_ID bs.
Proof. induction bs as [|b bs IH]; [done|]. cbn. by rewrite IH. Qed.

Lemma request_deltas name bs :
  sumZ (map (λ r, total_delta name (request_metrics r)) (map request_of bs)) = batches_delta name bs.
Proof.
  unfold batches_delta. rewrite List.map_map. f_equal. apply map_ext. intros b. apply grpc_arrived_delta.
Qed.

(** Batches applied once each, the delivered ones among them, account for the
    collections. *)
Lemma replay_accounts a st w l name part :
  store_ok st → (0 ≤ rateLimit a)%Z → ids_distinct ids (length (l_made l)) → agent_reachable a st w l →
  once s0 (map request_of part) → part ⊆ l_made l →
  (∀ b, b ∈ l_delivered l → batch_Metrics b ≠ [] → b ∈ part) →
  accounts st l name (replay s0 (map request_of part)) part.
Proof.
  intros Hst Hrate Hids Hr Ho Hin Hdel. assert (NoDup part) as Hnd.
  { destruct Ho as [Hnd _]. rewrite request_keys in Hnd. by apply NoDup_fmap_1 in Hnd. }
  destruct (replay_counters s0 (map request_of part) name s0_ok Ho) as [_ Hc]. rewrite request_deltas in Hc.
  destruct (balance gzip normalize newRequest rand_Read ids order order_ok a st w l part name _ _ Hst Hrate Hids Hr
    Hnd Hin Hdel Hc) as (rest & ? & ? & ? & ? & ?). by exists rest.
Qed.

Lemma receipt_batch a st w l part b :
  store_ok st → (0 ≤ rateLimit a)%Z → ids_distinct ids (length (l_made l)) → agent_reachable a st w l →
  (∀ i, i < length (l_made l) → receipts s0 !! rand_Text (ids i) = None) →
  part ⊆ l_made l → b ∈ l_delivered l →
  receipts (replay s0 (map request_of part)) !! batch_ID b = Some (grpc_fingerprint b) → b ∈ part.
Proof.
  intros Hst Hrate Hids Hr Hfresh Hin Hb Hrec.
  destruct (reachable_inv gzip normalize newRequest rand_Read ids order order_ok a st w l Hst Hrate Hr)
    as (Hall & (_ & _ & Hid & _) & _ & _).
  assert (b ∈ l_made l) as Hbm.
  { rewrite <-Hall. unfold all_batches. rewrite !elem_of_app. auto 6. }
  destruct (receipts_replay_origin _ _ _ _ Hrec) as [Hold|(c & Hc & Hk & _)].
  - apply list_elem_of_lookup in Hbm as [i Hi]. rewrite (Hid _ _ Hi), Hfresh in Hold; [done|].
    by eapply lookup_lt_Some.
  - apply list_elem_of_fmap in Hc as (d & [= ->] & Hd).
    by rewrite <-(made_unique ids (l_made l) d b Hids Hid (Hin d Hd) Hbm Hk).
Qed.

(** C4: exactly once over crashes: an agent that sends over a network that loses
    requests and answers, to a server that keeps its storage in memory and saves
    it to a file on every update, whose saves fail in any way and which stops
    and starts again from its file before or after it has handled any request,
    in every interleaving of the agent's goroutines.  In every reachable state
    the file gives back a storage that has committed some of the batches made,
    each once, all those delivered among them, and the memory is at most ahead
    of it; for both, counters, uncommitted batches and store add up to what was
    collected; and once [Run] has returned nil the counters have grown by
    exactly that, in memory and in the file. *)
Theorem crash_exactly_once a st w l name :
  sender a = Some (SendBatch (mkClient (crashing (Grpc.UpdateMetrics now file_server)))) →
  (∀ d wf, (retrySleep a d wf).1.1 = wf.1) → (∀ wf, (rand_Read wf).1.1 = wf.1) →
  mem w.1 = s0 → restored (files w.1) = Ok s0 → Forall (fresh_temp p) (faults w.1) →
  store_ok st → (0 ≤ rateLimit a)%Z → ids_distinct ids (length (l_made l)) →
  (∀ i, i < length (l_made l) → receipts s0 !! rand_Text (ids i) = None) →
  Forall batch_good (l_made l) → agent_reachable a st w l →
  ∃ m done ahead, restored (files (world (l_agent l)).1) = Ok m ∧
    accounts st l name m done ∧ accounts st l name (mem (world (l_agent l)).1) (done ++ ahead).
Proof.
  intros Hsd Hsleep Hrand Hmem Hfile Hfaults Hst Hrate Hids Hfresh Hgood Hr.
  pose proof (crash_tracked a Hsd Hsleep Hrand) as Ha.
  assert (in_file [] [] w) as Hstart.
  { exists []. split_and!; try done. split; [apply NoDup_nil_2|]. by intros k ?%not_elem_of_nil. }
  destruct (tracked_reachable gzip normalize newRequest rand_Read ids order order_ok batch_good in_file receipt_in_file
    a st w l [] Ha Hstart Hst Hrate Hgood Hr) as [(done & ahead & Hm & Hres & Ho & Hb & _) Hdel].
  cbn [app] in *. assert (done ++ ahead ⊆ l_made l) as Hin.
  { rewrite Forall_forall in Hb. intros b Hbd. by apply Hb. }
  assert (done ⊆ l_made l) as Hind by (intros b Hbd; apply Hin, elem_of_app; by left).
  assert (once s0 (map request_of done)) as Hod by (rewrite map_app in Ho; by eapply once_prefix).
  assert (∀ b, b ∈ l_delivered l → batch_Metrics b ≠ [] → b ∈ done) as Hdone.
  { intros b Hbd Hne. destruct (Hdel b Hbd Hne) as (m & Hm' & Hrec). rewrite Hres in Hm'. injection Hm' as <-.
    by eapply receipt_batch. }
  exists (replay s0 (map request_of done)), done, ahead. split; [exact Hres|]. split; [by eapply replay_accounts|].
  rewrite Hm. eapply replay_accounts; try done. intros b Hbd Hne. apply elem_of_app. left. by apply Hdone.
Qed.

End CrashSystem.

(** ** A run

    The save of the first call fails, and the server stops before it has answered;
    the save of the second succeeds, and its answer is lost; the server stops
    again; the fourth call finds the batch in the restored file. *)
Definition crash_persistence : persistence := mkPersistence "m" true.

Definition crash_server : metricsServer World := @file_server record_codec crash_persistence None.

Definition crash_agent : Agent (World * list accident) :=
  mkAgent (Some (SendBatch (mkClient (@crashing record_codec crash_persistence crash_orders
      (@Grpc.UpdateMetrics World sys_json (ret 0%Z) crash_server)))))
    2 10 "http://localhost:8080" (λ _, ret (Ok 200%Z)) NewStore "" None 1 (λ _, ret tt).

Definition failing_save : Faults := mkFaults None (Ok "m.1") None None None (Some (Msg "busy")) true.

Definition crash_start : World * list accident :=
  (mkWorld NewMemStorage ∅ [failing_save] [], [CrashedAfter ∅; Net AnswerLost; Crashed {["m.2" := "half a fil"]}]).

Definition crash_rand : M (World * list accident) Random := ret witness_random.

Definition crash_final : Loop (W := World * list accident) :=
  @final_report (World * list accident) sys_json clear_ciphers sys_gzip sys_normalize sys_request crash_rand
    sys_ids sys_order crash_agent (stopped_loop sys_store crash_start).

Lemma crash_final_reachable :
  @reachable (World * list accident) sys_json clear_ciphers sys_gzip sys_normalize sys_request crash_rand
    sys_ids sys_order crash_agent sys_store crash_start crash_final.
Proof.
  exact (@finished_reachable (World * list accident) sys_json clear_ciphers sys_gzip sys_normalize sys_request
    crash_rand sys_ids sys_order crash_agent sys_store crash_start).
Qed.


Lemma crash_fresh_temp : Forall (fresh_temp crash_persistence) (faults crash_start.1).
Proof. repeat constructor. by intros t [= <-]. Qed.

Lemma crash_batches_good : Forall (batch_good witness_good) (l_made crash_final).
Proof.
  assert (map grpc_arrived (l_made crash_final) = [[counter_metric "PollCount" 1]]) as Hm by (by vm_compute).
  assert (Forall witness_good (map grpc_arrived (l_made crash_final))) as Hg.
  { rewrite Hm. constructor; [|constructor]. left. by vm_compute. }
  exact (proj1 (List.Forall_map _ _ _) Hg).
Qed.

Lemma crash_exactly_once_witness :
  l_final crash_final = Some None ∧
  ∃ m, @restored record_codec crash_persistence crash_orders (files (world (l_agent crash_final)).1) = Ok m ∧
    get_or 0%Z (Memory.counters m) "PollCount" = 1%Z ∧
    get_or 0%Z (Memory.counters (mem (world (l_agent crash_final)).1)) "PollCount" = 1%Z.
Proof.
  assert (l_final crash_final = Some None) as Hf by (by vm_compute). split; [exact Hf|].
  assert (length (l_made crash_final) = 1) as Hlen by (by vm_compute).
  assert (ids_distinct sys_ids (length (l_made crash_final))) as Hids.
  { rewrite Hlen. intros i j Hi Hj _. lia. }
  assert (∀ i, i < length (l_made crash_final) → receipts NewMemStorage !! rand_Text (sys_ids i) = None) as Hfresh.
  { intros i _. apply lookup_empty. }
  pose proof (@crash_exactly_once sys_json clear_ciphers record_codec (λ _, True) (BinaryJson.codec_ok _)
    sys_gzip sys_normalize sys_request crash_rand sys_ids sys_order sys_order_ok crash_persistence
    crash_orders crash_orders_good NewMemStorage (proj1 NewMemStorage_ok) (proj2 NewMemStorage_ok)
    witness_good (λ c Hc, Hc) (λ _ _ _ _ _ _ _ _, I) (ret 0%Z) None
    (λ w, conj eq_refl (conj eq_refl eq_refl))) as Hc.
  assert (∀ notify ctx ev w, (None : option (Observer World)) = Some notify →
    same_storage crash_persistence w (notify ctx ev w).1) as Haudit by (intros notify ctx ev w Hn; discriminate Hn).
  specialize (Hc Haudit crash_agent sys_store crash_start crash_final "PollCount").
  specialize (Hc eq_refl (λ _ _, eq_refl) (λ _, eq_refl) eq_refl crash_started crash_fresh_temp sys_store_ok ltac:(done)).
  specialize (Hc Hids Hfresh crash_batches_good crash_final_reachable).
  destruct Hc as (m & part & ahead & Hm & (rest & _ & _ & _ & _ & Hfile) & (rest' & _ & _ & _ & _ & Hmem)).
  exists m. split; [exact Hm|]. rewrite (Hfile Hf), (Hmem Hf). split; by vm_compute.
Defined.
