(* ===== verification/Recovery.v ===== *)
(** The network recovers: from any state of the agent in which the calls to come
    are delivered, [Run] can return, and however it does, every batch has been
    delivered and every increment counted. *)

From S2P Require Import Prelude GoErrors Metrics GoJson Delivery Retry Repository Memory.
From S2P Require Import Service Auditing Encryption Grpc Transports Store Agent AgentLoop Tracking System.

(** ** Sending that succeeds *)

Section Sending.
Context {W : Type} `{Json (list Metrics)} `{Ciphers}.
Variable gzip : Gzip.
Variable normalize : string → res string.
Variable newRequest : string → err.
Variable rand_Read : M W Random.
Variable ids : nat → list Z.
Variable order : Store → list (string * float64) * list (string * Z).
Hypothesis order_ok : ∀ s, range_of (order s).1 (gauges s) ∧ range_of (order s).2 (counters s).
Variable ok : Batch → Prop.
Variable R : list Batch → list Batch → W → Prop.
Variable Ack : Batch → W → Prop.
Variable a : Agent W.
Hypothesis Ha : tracked_transport gzip normalize newRequest rand_Read ok R Ack a.
Variable send : Batch → M W err.
Hypothesis sends : sender a = Some send.

(** Every batch of [made] is accepted. *)
Definition accepted (made : list Batch) : Prop := ∀ b done w,
  ok b → b ∈ made → batch_Metrics b ≠ [] → R made done w → (send b w).2 = None.

Lemma sendBatch_succeeds made done b w :
  accepted made → ok b → b ∈ made → R made done w →
  (sendBatch gzip normalize newRequest rand_Read a b w).2 = None.
Proof.
  intros Hacc Hok Hb Hr. unfold sendBatch. destruct (decide (length (batch_Metrics b) = 0)) as [|Hne]; [done|].
  rewrite sends. specialize (Hacc b done w Hok Hb ltac:(by intros Heq; rewrite Heq in Hne) Hr).
  unfold DoWithSleeper. destruct defaultDelays; cbn [attempt]; unfold bind; destruct (send b w) as [w' e]; cbn in Hacc; by subst e.
Qed.

Lemma send_all_succeeds made bs done w :
  accepted made → Forall ok bs → bs ⊆ made → R made done w →
  failed (send_all gzip normalize newRequest rand_Read a bs w).2 = [].
Proof.
  intros Hacc. revert done w. induction bs as [|b bs IH]; intros done w Hok Hsub Hr; [reflexivity|]. cbn [send_all].
  apply Forall_cons in Hok as [Hokb Hok].
  assert (b ∈ made) as Hb by apply Hsub, list_elem_of_here.
  pose proof (sendBatch_succeeds made done b w Hacc Hokb Hb Hr) as Hs.
  pose proof (send_all_tracked gzip normalize newRequest rand_Read ok R Ack a made [b] Ha
    ltac:(by constructor) ltac:(by intros c ->%list_elem_of_singleton) done w Hr) as Ht.
  cbn [send_all] in Ht. destruct (sendBatch _ _ _ _ a b w) as [w1 e]. cbn [snd] in Hs. subst e.
  destruct Ht as [[[new Hnew] _] _].
  specialize (IH (done ++ new) w1 Hok (λ c Hc, Hsub c (list_elem_of_further _ _ _ Hc)) Hnew).
  destruct (send_all _ _ _ _ a bs w1) as [w2 rs]. exact IH.
Qed.

(** The final report then leaves nothing behind. *)
Lemma report_succeeds made done s :
  accepted made → Forall ok made →
  pending s ++ report_fresh gzip normalize newRequest rand_Read ids order a s ⊆ made → R made done (world s) →
  let '(s', e) := ReportOnce gzip normalize newRequest rand_Read ids order a s in
  e = None ∧ pending s' = [] ∧ counters (store s') = ∅.
Proof.
  intros Hacc Hok Hsub Hr.
  pose proof (ReportOnce_run gzip normalize newRequest rand_Read ids order order_ok a s) as Hrun.
  assert (Forall ok (pending s ++ report_fresh gzip normalize newRequest rand_Read ids order a s)) as Hokb.
  { rewrite Forall_forall in Hok |- *. intros c Hc. by apply Hok, Hsub. }
  pose proof (send_all_succeeds made _ done (world s) Hacc Hokb Hsub Hr) as Hf.
  destruct (send_all _ _ _ _ a _ (world s)) as [w' rs]. destruct (ReportOnce _ _ _ _ _ _ a s) as [s' e].
  destruct Hrun as (_ & Hp & _ & He & Hcase). cbn [snd] in Hf. assert (e = None) as -> by by apply He.
  split_and!; [done|congruence|]. destruct Hcase as [(_ & -> & Hc)|(ms & _ & -> & _)]; [by apply Hc|done].
Qed.

(** A loop that has ended stays as it is. *)
Lemma final_stays l l' r :
  step gzip normalize newRequest rand_Read ids order a l l' → finished l → l_final l = Some r →
  l_agent l' = l_agent l ∧ l_final l' = l_final l ∧ l_groupErr l' = l_groupErr l.
Proof.
  intros Hs Hfin Hf. destruct (Hfin r Hf) as (Hp & Hsy & He & Hj & Hw & _).
  destruct Hs as [l k v [Hp'|Hp']|l Hp'|l Hp' Hc|l e Hs|l Hs Hc|l
    |l He'|l s He' Hs|l s ms He' Hs Hne|l b bs He' Hlen|l He'|l b bs He' Hc|l b bs He'|l He'|l He' Hc
    |l b js Hj' Hlen Hne|l b js Hj' Hlen Hm|l ws1 b ws2 Hws
    |l ws1 b op ds ws2 Hws|l ws1 b op d ds ws2 Hws|l Hp' Hs He' Hj' Hws Hf']; try congruence; try done.
  all: rewrite Hw in Hws; by destruct ws1.
Qed.

(** What holds at the end of [Run] when sending has succeeded from some state on. *)
Definition settled (l : Loop (W := W)) : Prop := ∀ r, l_final l = Some r →
  pending (l_agent l) = [] ∧ counters (store (l_agent l)) = ∅ ∧ (l_groupErr l = None → r = None).

Lemma settled_step done l l' :
  all_batches l ≡ₚ l_made l → bounded gzip normalize newRequest rand_Read a l → finished l →
  step gzip normalize newRequest rand_Read ids order a l l' → Forall ok (l_made l') → accepted (l_made l') →
  tracked R Ack done l → settled l → tracked R Ack done l' ∧ settled l'.
Proof.
  intros Hall Hb Hfin Hs Hok Hacc Ht Hset. split; [by eapply tracked_step|].
  destruct (l_final l) as [r|] eqn:Hf.
  { destruct (final_stays l l' r Hs Hfin Hf) as (Hag & Hf' & Hg). intros r' Hr'. rewrite Hag, Hg.
    apply Hset. congruence. }
  destruct Ht as [[new Hr] _]. revert Hall Hok Hacc Hf Hr. clear Hset Hb Hfin.
  destruct Hs as [l k v Hp|l Hp|l Hp Hc|l e Hs|l Hs Hc|l
    |l He|l s He Hs|l s ms He Hs Hne|l b bs He Hlen|l He|l b bs He Hc|l b bs He|l He|l He Hc
    |l b js Hj Hlen Hne|l b js Hj Hlen Hm|l ws1 b ws2 Hws
    |l ws1 b op ds ws2 Hws|l ws1 b op d ds ws2 Hws|l Hp Hs He Hj Hws Hf0];
    intros Hall Hok Hacc Hf Hr; try (intros r Hr'; cbn in Hr'; congruence).
  - intros r. destruct (prepare _ _ _ _ a b (world (l_agent l))) as [w [op|e]]; simpl; congruence.
  - intros r. destruct (op (world (l_agent l))) as [w e]. unfold after_attempt.
    destruct (final isRetriableSendError e); [destruct e|destruct ds]; simpl; congruence.
  - assert (l_made l ⊆ l_made (final_report gzip normalize newRequest rand_Read ids order a l) ∧
      report_fresh gzip normalize newRequest rand_Read ids order a (l_agent l) ⊆
        l_made (final_report gzip normalize newRequest rand_Read ids order a l)) as [Hg1 Hg2].
    { unfold final_report. destruct (ReportOnce _ _ _ _ _ _ a _). simpl.
      split; intros c Hc; apply elem_of_app; auto. }
    pose proof (report_succeeds _ (done ++ new) (l_agent l) Hacc Hok) as Hrep.
    assert (pending (l_agent l) ++ report_fresh gzip normalize newRequest rand_Read ids order a (l_agent l) ⊆
      l_made (final_report gzip normalize newRequest rand_Read ids order a l)) as Hsub.
    { intros c [Hc|Hc]%elem_of_app; [|by apply Hg2]. apply Hg1. rewrite <-Hall. unfold all_batches.
      apply elem_of_app. by left. }
    specialize (Hrep Hsub (made_grows _ _ _ _ _ _ _ a Ha _ _ _ _ Hg1 Hr)).
    unfold final_report. destruct (ReportOnce _ _ _ _ _ _ a _) as [s e]. destruct Hrep as (-> & Hpe & Hcs).
    intros r [= <-]. simpl. split_and!; [done|done|]. by intros ->.
Qed.
End Sending.

(** ** The gRPC server over a network that has recovered *)

Section Recovery.
Context {W : Type} `{Json (list Metrics)} `{Ciphers}.
Variable gzip : Gzip.
Variable normalize : string → res string.
Variable newRequest : string → err.
Variable rand_Read : M (W * list fate) Random.
Variable ids : nat → list Z.
Variable order : Store → list (string * float64) * list (string * Z).
Hypothesis order_ok : ∀ s, range_of (order s).1 (gauges s) ∧ range_of (order s).2 (counters s).
Variable now : M W Z.
(** A server with a storage that is up: it takes every keyed batch whose key is free
    or has been used for the same batch; saves succeed. *)
Variable srv : metricsServer W.
Context {C : Type} {upd : C → list Metrics → option C} {ledger : W → Ledger C}.
Context {storage : IdempotentRepository W} {Hspec : @OnceSpec W C storage upd ledger}.
Hypothesis srv_storage : onceRepo (srv_service srv) = Some storage.
Hypothesis storage_up : ∀ key fp ms w,
  l_receipts (ledger w) !! key = None ∨ l_receipts (ledger w) !! key = Some fp →
  (@Repository.UpdateMetricsOnce W storage key fp ms w).2.2 = None.
Hypothesis srv_saves : ∀ w, ledger (save (srv_service srv) w).1 = ledger w ∧ (save (srv_service srv) w).2 = None.
Hypothesis srv_audit : ∀ notify ctx ev w,
  srv_auditor srv = Some notify → ledger (notify ctx ev w).1 = ledger w.
Hypothesis srv_clock : ∀ w, ledger (now w).1 = ledger w.
(** What its counters are. *)
Variable good : C → Prop.
Variable fits : list Metrics → Prop.
Variable counter_of : C → string → Z.
Hypothesis counter_range : ∀ c name, good c → in_int64 (counter_of c name).
Hypothesis counting : ∀ c ms c', good c → fits ms → upd c ms = Some c' →
  good c' ∧ ∀ name, counter_of c' name = wrap64 (counter_of c name + total_delta name ms).

Variable a : Agent (W * list fate).
Hypothesis a_sends : sender a = Some (SendBatch (mkClient (lossy (Grpc.UpdateMetrics now srv)))).
Hypothesis a_sleeps : ∀ d wf, (retrySleep a d wf).1 = wf.
Hypothesis rand_reads : ∀ wf, (rand_Read wf).1 = wf.

(** Named metrics with finite values, which the encoder takes. *)
Definition deliverable (b : Batch) : Prop :=
  Forall sendable (batch_Metrics b) ∧ ∃ fp, Fingerprint (map received (batch_Metrics b)) = Ok fp.

(** The server's side, and a network without losses to come. *)
Definition recovered (l0 : Ledger C) (made cm : list Batch) (wf : W * list fate) : Prop :=
  on_server upd (remote_ledger (ledger := ledger)) grpc_fingerprint grpc_arrived l0 made cm wf ∧ wf.2 = [].

Abbreviation receipt_is_there := (receipt_there (remote_ledger (ledger := ledger)) grpc_fingerprint).

Lemma agent_transport_ok :
  transport_ok gzip normalize newRequest rand_Read upd (remote_ledger (ledger := ledger)) grpc_fingerprint grpc_arrived a.
Proof.
  apply (grpc_transport_ok now gzip normalize newRequest rand_Read a srv storage a_sends srv_storage
    (λ w, proj1 (srv_saves w)) srv_audit srv_clock).
  - intros d wf. by rewrite a_sleeps.
  - intros wf. by rewrite rand_reads.
Qed.

Lemma SendBatch_no_losses b w : (SendBatch (mkClient (lossy (Grpc.UpdateMetrics now srv))) b (w, [])).1.2 = [].
Proof.
  unfold SendBatch. case_decide; [done|]. destruct (negb _); [done|].
  destruct (to_items _ []) as [items|e]; [|done]. unfold bind, lossy. cbn [rpc].
  destruct (Grpc.UpdateMetrics _ _ _ _ w) as [w' [e|]]; done.
Qed.

Lemma recovered_tracks l0 :
  tracked_transport gzip normalize newRequest rand_Read deliverable (recovered l0) receipt_is_there a.
Proof.
  destruct (transport_tracks gzip normalize newRequest rand_Read upd (remote_ledger (ledger := ledger))
    grpc_fingerprint grpc_arrived l0 a agent_transport_ok) as [Hop _ _ _ _ Hgrow].
  constructor.
  2: intros made cm d w; by rewrite a_sleeps.
  2: intros d w b; by rewrite a_sleeps.
  2: intros made cm w; by rewrite rand_reads.
  2: intros w b; by rewrite rand_reads.
  2: intros made made' cm w Hsub [Hs Hl]; split; [by eapply Hgrow|done].
  intros b op _ Hne Hof made cm [w fates] Hb [Hs Hl]. cbn [snd] in Hl. subst fates.
  pose proof (Hop b op I Hne Hof made cm (w, []) Hb Hs) as Ht.
  unfold operation_of in Hof. rewrite a_sends in Hof. subst op. pose proof (SendBatch_no_losses b w) as Hnone.
  destruct (SendBatch _ b (w, [])) as [wf' e]. destruct Ht as [[[new Hnew] Hk] He].
  split; [|exact He]. split; [by exists new|exact Hk].
Qed.

(** Such a server accepts the batches of the agent. *)
Lemma recovered_accepts l0 (made : list Batch) :
  (∀ b, b ∈ made → ValidKey (batch_ID b) = true ∧ l_receipts l0 !! batch_ID b = None) →
  (∀ b c, b ∈ made → c ∈ made → batch_ID b = batch_ID c → b = c) →
  accepted deliverable (recovered l0) (SendBatch (mkClient (lossy (Grpc.UpdateMetrics now srv)))) made.
Proof.
  intros Hkeys Huniq b cm [w fates] [Hms [fp Hfp]] Hb Hne [[Hcm Hin] Hl]. cbn [snd] in Hl. subst fates.
  destruct (Hkeys b Hb) as [Hkey Hnew].
  assert (l_receipts (ledger w) !! batch_ID b = None ∨ l_receipts (ledger w) !! batch_ID b = Some fp) as Hfree.
  { destruct (l_receipts (ledger w) !! batch_ID b) as [fp'|] eqn:Hr; [right|by left].
    destruct (commits_origin _ _ _ _ _ Hcm Hr) as [Hold|(c & Hc & Hk & Hf)]; [congruence|].
    apply list_elem_of_fmap in Hc as (d & -> & Hd). cbn in Hk, Hf.
    rewrite (Huniq d b (proj1 (Hin d Hd)) Hb Hk) in Hf. unfold grpc_fingerprint in Hf. rewrite Hfp in Hf. by subst fp'. }
  destruct (items_roundtrip (batch_Metrics b) [] [] [] Hms) as (items & Hto & _ & Hfrom).
  unfold SendBatch. rewrite decide_False by (by intros ?%nil_length_inv). rewrite Hkey, Hto. cbn [negb app].
  unfold bind, lossy. cbn [rpc tail].
  assert ((Grpc.UpdateMetrics now srv (mkCtx {["idempotency-key" := [batch_ID b]]} None) (Some items) w).2 = None) as Hok.
  { unfold UpdateMetrics, ValueFromIncomingContext. cbn [incoming ctx_Err].
    rewrite lookup_singleton_eq. cbn [default from_option id]. rewrite Hkey, Hfrom. cbn [app].
    rewrite decide_False by (rewrite length_map; by intros ?%nil_length_inv).
    rewrite (UpdateMetricsOnce_keyed _ storage (batch_ID b) fp); try done.
    2: by intros ?%map_eq_nil. 2: by intros Heq; rewrite Heq in Hkey.
    unfold bind. pose proof (storage_up (batch_ID b) fp (map received (batch_Metrics b)) w Hfree) as Hup.
    destruct (@Repository.UpdateMetricsOnce W storage _ _ _ w) as [w1 [applied e]]. cbn [snd] in Hup. subst e.
    pose proof (proj2 (srv_saves w1)) as Hs. destruct (save (srv_service srv) w1) as [w2 e]. cbn [snd] in Hs. subst e.
    unfold ret. destruct (srv_auditor srv) as [notify|]; [|done]. destruct applied; [|done].
    destruct (now w2) as [w3 t]. by destruct (notify _ _ w3). }
  destruct (Grpc.UpdateMetrics now srv _ _ w) as [w' e]. cbn [snd] in Hok. by subst e.
Qed.

Abbreviation agent_steps := (steps gzip normalize newRequest rand_Read ids order a).
Abbreviation agent_reachable := (reachable gzip normalize newRequest rand_Read ids order a).

Lemma accepted_mono l0 (made made' : list Batch) send :
  made ⊆ made' → accepted deliverable (recovered l0) send made' → accepted deliverable (recovered l0) send made.
Proof.
  intros Hsub Hacc b cm w Hok Hb Hne Hr. apply (Hacc b cm w Hok (Hsub b Hb) Hne).
  by apply (made_grows _ _ _ _ _ _ _ a (recovered_tracks l0) made).
Qed.

Lemma settled_steps st w l l' :
  store_ok st → (0 ≤ rateLimit a)%Z → agent_reachable st w l → l_final l = None → (world (l_agent l)).2 = [] →
  agent_steps l l' → Forall deliverable (l_made l') →
  accepted deliverable (recovered (ledger w.1)) (SendBatch (mkClient (lossy (Grpc.UpdateMetrics now srv)))) (l_made l') →
  settled l'.
Proof.
  intros Hst Hrate Hr Hf Hl Hs Hok Hacc.
  destruct (served_reachable gzip normalize newRequest rand_Read ids order order_ok upd
    (remote_ledger (ledger := ledger)) grpc_fingerprint grpc_arrived a st w l agent_transport_ok Hst Hrate Hr)
    as (cm & Hcm & Hin & Hdel).
  assert (tracked (recovered (ledger w.1)) receipt_is_there cm l ∧ settled l') as [_ ?]; [|done].
  assert (tracked (recovered (ledger w.1)) receipt_is_there cm l ∧ settled l) as Hstart.
  { split; [|by intros r Hr'; rewrite Hf in Hr']. split; [|exact Hdel]. exists []. by rewrite app_nil_r. }
  split; [exact (proj1 Hstart)|].
  enough (tracked (recovered (ledger w.1)) receipt_is_there cm l' ∧ settled l') by tauto.
  revert l' Hs Hok Hacc. apply (rtc_ind_r (λ l', Forall deliverable (l_made l') →
    accepted deliverable (recovered (ledger w.1)) _ (l_made l') →
    tracked (recovered (ledger w.1)) receipt_is_there cm l' ∧ settled l')); [done|].
  intros l1 l2 H1 H12 IH Hok Hacc.
  pose proof (made_step gzip normalize newRequest rand_Read ids order a l1 l2 H12) as Hmono.
  assert (agent_reachable st w l1) as Hr1 by (unfold reachable, steps in *; by etrans).
  destruct (reachable_inv gzip normalize newRequest rand_Read ids order order_ok a st w l1 Hst Hrate Hr1)
    as (Hall & _ & Hb & Hfin).
  destruct IH as [Ht Hset]; [|by eapply accepted_mono|].
  { rewrite Forall_forall in Hok |- *. intros b Hbm. by apply Hok, Hmono. }
  by eapply (settled_step gzip normalize newRequest rand_Read ids order order_ok deliverable
    (recovered (ledger w.1)) receipt_is_there a (recovered_tracks _) _ a_sends cm l1 l2).
Qed.

(** C22: the agent ends well once the network has recovered: from every reachable
    state of the agent, whatever was lost before, in which the calls to come are
    delivered to a server whose storage is up, there is a way to the end of
    [Run]; and whatever way it takes, when [Run] has ended every batch made has
    been delivered, nothing is left pending or in the store, the counters of the
    server have grown by exactly what was collected, and the only error that
    [Run] can return is that of a collection. *)
Theorem recovers st w l name :
  store_ok st → (0 < rateLimit a)%Z → good (l_content (ledger w.1)) →
  agent_reachable st w l → l_final l = None → (world (l_agent l)).2 = [] →
  (∃ l' r, agent_steps l l' ∧ l_final l' = Some r) ∧
  ∀ l' r, agent_steps l l' → l_final l' = Some r →
    ids_distinct ids (length (l_made l')) →
    (∀ i, i < length (l_made l') → 26 ≤ length (ids i) ∧ l_receipts (ledger w.1) !! rand_Text (ids i) = None) →
    (∀ b, b ∈ l_made l' → deliverable b ∧ fits (grpc_arrived b)) →
    l_delivered l' ≡ₚ l_made l' ∧ pending (l_agent l') = [] ∧ counters (store (l_agent l')) = ∅ ∧
    counter_of (l_content (ledger (world (l_agent l')).1)) name =
      wrap64 (counter_of (l_content (ledger w.1)) name + collected st (l_polls l') name) ∧
    (l_groupErr l' = None → r = None).
Proof.
  intros Hst Hrate Hgood Hr Hf Hl. split.
  { destruct (run_can_finish gzip normalize newRequest rand_Read ids order order_ok a st w l Hst Hrate Hr)
      as (l' & r & Hs & Hf' & _). by exists l', r. }
  intros l' r Hs Hf' Hids Hfresh Hmade.
  assert (agent_reachable st w l') as Hr' by (unfold reachable, steps in *; by etrans).
  destruct (reachable_inv gzip normalize newRequest rand_Read ids order order_ok a st w l' Hst ltac:(lia) Hr')
    as (Hall & (_ & _ & Hid & _) & _ & Hfin).
  assert (settled l') as Hset.
  { apply (settled_steps st w l); try done; [lia| |].
    - rewrite Forall_forall. intros b Hb. by apply Hmade.
    - apply recovered_accepts.
      + intros b Hb. apply list_elem_of_lookup in Hb as [i Hi]. rewrite (Hid _ _ Hi).
        destruct (Hfresh i) as [Hlen Hnew]; [by eapply lookup_lt_Some|]. split; [|done].
        by apply (New_batch (ids i) []).
      + intros b c. by apply made_unique with ids. }
  destruct (Hset r Hf') as (Hp & Hc & Hgr). destruct (Hfin r Hf') as (_ & _ & He & Hj & Hw & _).
  assert (l_delivered l' ≡ₚ l_made l') as Hdel.
  { rewrite <-Hall. unfold all_batches. by rewrite Hp, He, Hj, Hw. }
  destruct (counted_once gzip normalize newRequest rand_Read ids order order_ok upd
    (remote_ledger (ledger := ledger)) grpc_fingerprint grpc_arrived good fits counter_of counter_range counting
    a st w l' name agent_transport_ok Hst ltac:(lia) Hids ltac:(intros i Hi; by apply Hfresh) Hgood
    ltac:(intros b Hb; by apply Hmade) ltac:(intros b _; apply grpc_arrived_delta) Hr')
    as (cm & rest & Hperm & _ & Hcm & Hrest & Hbal & _).
  assert (cm ⊆ l_made l') as Hin by (intros b Hb; rewrite <-Hperm; apply elem_of_app; by left).
  pose proof (committed_counter upd (remote_ledger (ledger := ledger)) grpc_fingerprint grpc_arrived good fits counter_of
    counter_range counting (ledger w.1) cm _ name Hgood Hcm ltac:(intros b Hb; by apply Hmade, Hin)
    ltac:(intros b _; apply grpc_arrived_delta)) as Hcount.
  split_and!; try done. unfold remote_ledger in *. rewrite batches_delta_empty in Hbal.
  2: { intros b Hb. apply Hrest; [|done]. rewrite Hdel, <-Hperm. apply elem_of_app. by right. }
  unfold counter_value, get_or in Hbal. rewrite Hc, lookup_empty in Hbal. cbn [default from_option] in Hbal.
  rewrite !Z.add_0_r in Hbal. by rewrite <-Hbal, Hcount, wrap64_wrap64.
Qed.
End Recovery.

(** ** A run

    The answer to the first attempt of a worker is lost; from then on the network
    delivers, the retry succeeds, and the agent is cancelled. *)
Abbreviation sys_step := (@step Net_world sys_json clear_ciphers sys_gzip sys_normalize sys_request sys_rand
  sys_ids sys_order sys_agent).
Abbreviation sys_steps := (@steps Net_world sys_json clear_ciphers sys_gzip sys_normalize sys_request sys_rand
  sys_ids sys_order sys_agent).

Definition sys_send : Batch → M Net_world err :=
  SendBatch (mkClient (lossy (@Grpc.UpdateMetrics MemStorage sys_json (ret 0%Z) sys_server))).
Definition polled_batch : Batch := New (sys_ids 0) [counter_metric "PollCount" 1].
Definition sent_world : Net_world := (sys_send polled_batch sys_start).1.
Definition empty_store : Store := mkStore ∅ ∅.

Definition at_loop (st : Store) (made : nat) (w : Net_world) (e : enqueuer) (js : list Batch)
    (ws : list (Batch * job)) (running cancelled : bool) (delivered : list Batch) : Loop :=
  mkLoop (mkState st [] made w) e js ws running running cancelled None None (replicate made polled_batch) delivered 0.

(** A worker holds the batch, the server has it, and the worker does not know. *)
Definition sys_lost : Loop := at_loop empty_store 1 sent_world Idle []
  [(polled_batch, Sleeping (sys_send polled_batch) 1000000000 [3000000000; 5000000000]%Z)] true false [].

Lemma first_answer_lost : sent_world.2 = [] ∧
  (sys_send polled_batch sys_start).2 = Some (Wrap "send gRPC metrics" (StatusErr codes_Unavailable "connection lost")).
Proof. split; by vm_compute. Qed.
Lemma sys_lost_reachable : sys_steps (start sys_store sys_start) sys_lost.
Proof.
  unfold steps.
  apply (rtc_l _ _ (at_loop sys_store 0 sys_start Snapshotting [] [] true false [])).
  { by apply (step_tick _ _ _ _ _ _ sys_agent (start sys_store sys_start)). }
  apply (rtc_l _ _ (at_loop empty_store 1 sys_start (Enqueueing [polled_batch]) [] [] true false [])).
  { by apply (step_snapshot _ _ _ _ _ _ sys_agent (at_loop sys_store 0 sys_start Snapshotting [] [] true false [])
      (mkState empty_store [] 0 sys_start) [counter_metric "PollCount" 1]). }
  apply (rtc_l _ _ (at_loop empty_store 1 sys_start (Enqueueing []) [polled_batch] [] true false [])).
  { by apply (step_push _ _ _ _ _ _ sys_agent (at_loop empty_store 1 sys_start (Enqueueing [polled_batch]) [] [] true false [])
      polled_batch []). }
  apply (rtc_l _ _ (at_loop empty_store 1 sys_start Idle [polled_batch] [] true false [])).
  { by apply (step_pushed _ _ _ _ _ _ sys_agent (at_loop empty_store 1 sys_start (Enqueueing []) [polled_batch] [] true false [])). }
  apply (rtc_l _ _ (at_loop empty_store 1 sys_start Idle [] [(polled_batch, Preparing)] true false [])).
  { by apply (step_take _ _ _ _ _ _ sys_agent (at_loop empty_store 1 sys_start Idle [polled_batch] [] true false [])
      polled_batch []). }
  apply (rtc_l _ _ (at_loop empty_store 1 sys_start Idle [] [(polled_batch, Attempt (sys_send polled_batch) defaultDelays)] true false [])).
  { by apply (step_prepare _ _ _ _ _ _ sys_agent (at_loop empty_store 1 sys_start Idle [] [(polled_batch, Preparing)] true false [])
      [] polled_batch []). }
  apply rtc_once.
  pose proof (@step_attempt Net_world sys_json clear_ciphers sys_gzip sys_normalize sys_request sys_rand sys_ids sys_order sys_agent
    (at_loop empty_store 1 sys_start Idle [] [(polled_batch, Attempt (sys_send polled_batch) defaultDelays)] true false [])
    [] polled_batch (sys_send polled_batch) defaultDelays [] eq_refl) as Hs.
  cbn [at_loop l_agent world] in Hs. pose proof (proj2 first_answer_lost) as He. unfold sys_lost, sent_world.
  destruct (sys_send polled_batch sys_start) as [w e]. cbn [snd] in He. subst e. exact Hs.
Qed.

(** The retry, and the end. *)
Definition retried_world : Net_world := (sys_send polled_batch sent_world).1.

Lemma retry_answered : (sys_send polled_batch sent_world).2 = None.
Proof. by vm_compute. Qed.

Definition sys_retried (running cancelled : bool) (e : enqueuer) : Loop :=
  at_loop empty_store 1 retried_world e [] [] running cancelled [polled_batch].

Definition sys_ended : Loop :=
  mkLoop (mkState empty_store [] 1 retried_world) Stopped [] [] false false true None (Some None)
    [polled_batch] [polled_batch] 0.

Lemma sys_retry : sys_steps sys_lost (sys_retried true false Idle).
Proof.
  unfold steps.
  apply (rtc_l _ _ (at_loop empty_store 1 sent_world Idle []
    [(polled_batch, Attempt (sys_send polled_batch) [3000000000; 5000000000]%Z)] true false [])).
  { by apply (@step_sleep Net_world sys_json clear_ciphers sys_gzip sys_normalize sys_request sys_rand sys_ids sys_order sys_agent
      sys_lost [] polled_batch (sys_send polled_batch) 1000000000 [3000000000; 5000000000]%Z []). }
  apply rtc_once.
  pose proof (@step_attempt Net_world sys_json clear_ciphers sys_gzip sys_normalize sys_request sys_rand sys_ids sys_order sys_agent
    (at_loop empty_store 1 sent_world Idle [] [(polled_batch, Attempt (sys_send polled_batch) [3000000000; 5000000000]%Z)] true false [])
    [] polled_batch (sys_send polled_batch) [3000000000; 5000000000]%Z [] eq_refl) as Hs.
  cbn [at_loop l_agent world] in Hs. pose proof retry_answered as He. unfold sys_retried, retried_world.
  destruct (sys_send polled_batch sent_world) as [w e]. cbn [snd] in He. subst e. exact Hs.
Qed.

Lemma sys_end : sys_steps (sys_retried true false Idle) sys_ended.
Proof.
  unfold steps.
  apply (rtc_l _ _ (sys_retried true true Idle)). { apply (@step_cancel Net_world sys_json clear_ciphers). }
  apply (rtc_l _ _ (mkLoop (mkState empty_store [] 1 retried_world) Idle [] [] false true true None None
    [polled_batch] [polled_batch] 0)).
  { by apply (@step_poll_return Net_world sys_json clear_ciphers _ _ _ _ _ _ _ (sys_retried true true Idle)). }
  apply (rtc_l _ _ (sys_retried false true Idle)).
  { by apply (@step_system_return Net_world sys_json clear_ciphers _ _ _ _ _ _ _ (mkLoop (mkState empty_store [] 1 retried_world) Idle
      [] [] false true true None None [polled_batch] [polled_batch] 0)). }
  apply (rtc_l _ _ (sys_retried false true Stopped)).
  { by apply (@step_stop Net_world sys_json clear_ciphers _ _ _ _ _ _ _ (sys_retried false true Idle)). }
  apply rtc_once.
  exact (@step_final Net_world sys_json clear_ciphers sys_gzip sys_normalize sys_request sys_rand sys_ids sys_order sys_agent
    (sys_retried false true Stopped) eq_refl eq_refl eq_refl eq_refl eq_refl eq_refl).
Qed.

(** While the answer is lost the end can still be reached, and at the end the server
    has counted the collection once. *)
Lemma recovers_witness :
  length (l_workers sys_lost) = 1 ∧
  (∃ l' r, sys_steps sys_lost l' ∧ l_final l' = Some r) ∧
  l_delivered sys_ended ≡ₚ l_made sys_ended ∧
  counter_at (content (world (l_agent sys_ended)).1) "PollCount" = 1%Z.
Proof.
  split; [done|].
  assert (∀ notify ctx ev (v : MemStorage), srv_auditor sys_server = Some notify → ledger (notify ctx ev v).1 = ledger v)
    as Haudit by (intros notify ctx ev v Hn; discriminate Hn).
  assert (∀ key fp ms (w : MemStorage), l_receipts (ledger w) !! key = None ∨ l_receipts (ledger w) !! key = Some fp →
    (Memory.UpdateMetricsOnce key fp ms w).2.2 = None) as Hup.
  { intros key fp ms w Hk. rewrite UpdateMetricsOnce_cases. change (l_receipts (ledger w)) with (receipts w) in Hk.
    destruct Hk as [-> | ->]; [done|]. cbn. by rewrite decide_False by auto. }
  pose proof (@recovers MemStorage sys_json clear_ciphers sys_gzip sys_normalize sys_request sys_rand sys_ids sys_order
    sys_order_ok (ret 0%Z) sys_server Content mem_upd ledger MemStorage_IdempotentRepository MemStorage_OnceSpec
    eq_refl Hup (λ w, conj eq_refl eq_refl) Haudit (λ w, eq_refl) content_ok (λ _, True) counter_at
    (λ c name, counter_at_range c name) (λ c ms c' Hc _, mem_counting c ms c' Hc) sys_agent eq_refl
    (λ _ _, eq_refl) (λ _, eq_refl) sys_store sys_start sys_lost "PollCount" sys_store_ok ltac:(done)
    (proj1 NewMemStorage_ok) sys_lost_reachable eq_refl (proj1 first_answer_lost)) as [Hend Hall].
  split; [exact Hend|].
  assert (sys_steps sys_lost sys_ended) as Hs by (unfold steps; etrans; [exact sys_retry|exact sys_end]).
  specialize (Hall sys_ended None Hs eq_refl).
  assert (ids_distinct sys_ids (length (l_made sys_ended))) as Hids by (intros i j Hi Hj _; cbn in Hi, Hj; lia).
  assert (∀ i, i < length (l_made sys_ended) → 26 ≤ length (sys_ids i) ∧
    l_receipts (ledger sys_start.1) !! rand_Text (sys_ids i) = None) as Hfresh.
  { intros i _. split; [cbn; lia|apply lookup_empty]. }
  assert (@deliverable sys_json polled_batch) as Hdel.
  { split; [constructor; [by apply sendableb_spec|constructor]|]. eexists. reflexivity. }
  assert (∀ b, b ∈ l_made sys_ended → @deliverable sys_json b ∧ True) as Hmade.
  { intros b Hb. cbn [sys_ended l_made] in Hb. apply list_elem_of_singleton in Hb as ->. by split. }
  destruct (Hall Hids Hfresh Hmade) as (Hd & _ & _ & Hc & _). split; [exact Hd|].
  refine (eq_trans Hc _). by vm_compute.
Defined.
