(* ===== verification/Programs.v ===== *)
(** The two programs, [cmd/server] and [cmd/agent], from the configuration to the
    exit: which parts they build for it, and in which order they acquire and
    release them.

    A run is its trace of events; a call outside the repository is an argument. *)

From S2P Require Import Prelude Postgres.
From S2P Require Import GoErrors GoCrypto Metrics GoJson GoHttp GoStrconv GoFlag GoNet Config Retry Delivery.
From S2P Require Import Encryption Signature Repository Memory SaveFile Service Auditing Middleware Handler ServerMain.
From S2P Require Import Grpc Store Agent Transports System HttpSystem.

(** ** TLS ([internal/grpcapi/tls.go])

    [tls.LoadX509KeyPair] succeeds or not; [AppendCertsFromPEM] says whether a
    bundle has a certificate. *)
Record TLSFiles : Type := mkTLSFiles {
  LoadX509KeyPair : string → string → err;
  pem_ReadFile : string → res string;
  AppendCertsFromPEM : string → bool
}.


Definition LoadClientTLS (files : TLSFiles) (caFile : string) : res tlsConfig :=
  let cfg := mkTLS 0 VersionTLS12 false in
  if decide (caFile = "") then Ok cfg
  else match pem_ReadFile files caFile with
  | Fail e => Fail (Wrap "read gRPC trust bundle" e)
  | Ok pem =>
      if AppendCertsFromPEM files pem then Ok cfg
      else Fail (Msg "gRPC trust bundle contains no certificates")
  end.

(** [log.Fatal] ends the program, without the deferred calls. *)
Definition or_fatal {E A} (fatal : error → E) (before : list E) (r : res A) (k : A → list E) : list E :=
  match r with Ok a => k a | Fail e => before ++ [fatal e] end.

Section ServerProgram.
Context {W : Type} `{Json Metrics} `{Json (list Metrics)} `{Json (list snapshotRecord)} `{Json Event}.
Context `{FloatText} `{GzipCodec} `{Net} `{Ciphers} `{Router W}.
Context `{!DurationText} `{!Json (option (gmap string string))} `{!Json string} `{!Json Z} `{!Json bool}.
Variable now : M W Z.
Variable Execute : gmap string float64 → gmap string Z → string * err.
Variable logger : option (LogEntry → M W unit).














Context `{!ConfigTextSpec}.



End ServerProgram.

Section AgentProgram.
Context {W : Type} `{!DurationText} `{!Json (option (gmap string string))} `{!Json string} `{!Json Z} `{!Json bool}.
Variable defaultClient : HTTPRequest → M W (res Z).
Variable time_Sleep : Z → M W unit.

(** What the agent finds around it, with the results of [Run] and [client.Close]. *)
Record AgentSite : Type := mkAgentSite {
  a_key_files : KeyFiles;
  a_tls_files : TLSFiles;
  grpc_dial : string → tlsConfig → res (RPC W);
  run_result : err;
  close_result : err
}.

Inductive agent_event : Type :=
| Dialed
| Runs (a : Agent W)
| ClientClosed
| AgentFatal (e : error)
| AgentExits.

(** [if client != nil { err = errors.Join(err, client.Close()) }] *)
Definition close_client (site : AgentSite) (client : option (Client W)) (e : err) : list agent_event * err :=
  match client with
  | Some _ => ([ClientClosed], errors_Join [e; close_result site])
  | None => ([], e)
  end.

Definition agent_exit (e : err) : list agent_event :=
  match e with Some e => [AgentFatal e] | None => [AgentExits] end.

Definition agent_main (p : Process) (site : AgentSite) : list agent_event :=
  or_fatal AgentFatal [] (LoadAgentConfig p) (λ cfg,
  or_fatal AgentFatal [] (LoadPublicKey (a_key_files site) (agent_CryptoKey cfg)) (λ publicKey,
  or_fatal AgentFatal [] (if decide (agent_GRPCAddress cfg ≠ "") then
      match LoadClientTLS (a_tls_files site) (agent_GRPCTLSCA cfg) with
      | Fail e => Fail e
      | Ok tls =>
          match NewClient (grpc_dial site) (agent_GRPCAddress cfg) (Some tls) with
          | Fail e => Fail e
          | Ok client => Ok (Some client)
          end
      end
    else Ok None) (λ client,
  let sender := match client with Some c => Some (SendBatch c) | None => None end in
  let dialed := match client with Some _ => [Dialed] | None => [] end in
  let store := NewStore in
  match NewAgent defaultClient time_Sleep (agent_Address cfg)
          (wrap64 (agent_PollInterval cfg * Second)) (wrap64 (agent_ReportInterval cfg * Second))
          [Some (WithStore (Some store)); Some (WithBatchSender sender); Some (WithKey (agent_Key cfg));
           Some (WithPublicKey publicKey); Some (WithRateLimit (agent_RateLimit cfg))] with
  | Fail e =>
      let '(closed, e) := close_client site client (Some e) in dialed ++ closed ++ agent_exit e
  | Ok metricsAgent =>
      let '(closed, e) := close_client site client (run_result site) in
      dialed ++ Runs metricsAgent :: closed ++ agent_exit e
  end))).

Context `{!ConfigTextSpec}.

(** C32: the agent either stops before it holds a connection, or runs with the
    configured settings, which [NewAgent] never refuses, and then closes the
    connection once. *)
Theorem agent_main_runs p site :
  (∃ e, agent_main p site = [AgentFatal e]) ∨
  ∃ cfg publicKey client a,
    LoadAgentConfig p = Ok cfg ∧ LoadPublicKey (a_key_files site) (agent_CryptoKey cfg) = Ok publicKey ∧
    agent_main p site =
      match client with
      | Some _ => [Dialed; Runs a; ClientClosed] ++ agent_exit (errors_Join [run_result site; close_result site])
      | None => [Runs a] ++ agent_exit (run_result site)
      end ∧
    a = mkAgent (SendBatch <$> client) (agent_PollInterval cfg * Second) (agent_ReportInterval cfg * Second)
          (agent_Address cfg) defaultClient NewStore (agent_Key cfg) publicKey (agent_RateLimit cfg) time_Sleep ∧
    validate a = None ∧
    (client = None ↔ agent_GRPCAddress cfg = "") ∧
    (client ≠ None → publicKey = None ∧ agent_Key cfg = "") ∧
    (∀ k, publicKey = Some k → validatePublicKey (Some k) = None).
Proof.
  unfold agent_main. destruct (LoadAgentConfig p) as [cfg|e] eqn:Hcfg; [|left; by exists e]. cbn [or_fatal].
  destruct (LoadAgentConfig_guarantees p cfg Hcfg) as (Hp & Hr & Hl & Hvp & Hvr & Ha & Hsec).
  destruct (validateSeconds_fits (agent_PollInterval cfg)) as [Hip Hwp]; [lia|done|].
  destruct (validateSeconds_fits (agent_ReportInterval cfg)) as [Hir Hwr]; [lia|done|].
  destruct (LoadPublicKey (a_key_files site) (agent_CryptoKey cfg)) as [pk|e] eqn:Hpk; [|left; by exists e].
  cbn [or_fatal].
  destruct (if decide (agent_GRPCAddress cfg ≠ "") then _ else _) as [client|e] eqn:Hclient;
    [|left; by exists e]. cbn [or_fatal]. right.
  set (a := mkAgent (SendBatch <$> client) (agent_PollInterval cfg * Second) (agent_ReportInterval cfg * Second)
    (agent_Address cfg) defaultClient NewStore (agent_Key cfg) pk (agent_RateLimit cfg) time_Sleep).
  assert (validate a = None) as Hval.
  { unfold validate. cbn [serverURL pollInterval reportInterval rateLimit a].
    unfold Second. rewrite !decide_False by (done || lia). done. }
  assert (NewAgent defaultClient time_Sleep (agent_Address cfg) (wrap64 (agent_PollInterval cfg * Second))
    (wrap64 (agent_ReportInterval cfg * Second))
    [Some (WithStore (Some NewStore)); Some (WithBatchSender (match client with Some c => Some (SendBatch c) | None => None end));
     Some (WithKey (agent_Key cfg)); Some (WithPublicKey pk); Some (WithRateLimit (agent_RateLimit cfg))] = Ok a) as ->.
  { unfold NewAgent. cbn [foldl WithStore WithBatchSender WithKey WithPublicKey WithRateLimit].
    rewrite Hwp, Hwr. replace (match client with Some c => Some (SendBatch c) | None => None end)
      with (SendBatch <$> client) by (by destruct client).
    change (match validate a with Some e => Fail e | None => Ok a end = Ok a). by rewrite Hval. }
  exists cfg, pk, client, a. split; [done|]. split; [done|]. split.
  { destruct client; reflexivity. }
  split; [done|]. split; [done|]. destruct (decide (agent_GRPCAddress cfg ≠ "")) as [Hg|Hg].
  - destruct (Hsec Hg) as [Hkey Hck].
    destruct (LoadClientTLS _ _); [|done]. destruct (NewClient _ _ _); [|done]. injection Hclient as <-.
    split; [done|]. rewrite Hck in Hpk. cbn in Hpk. injection Hpk as <-. split; [done|]. by intros ? [=].
  - injection Hclient as <-. split; [by destruct (decide (agent_GRPCAddress cfg = ""))|]. split; [done|].
    intros k ->. by eapply LoadPublicKey_valid.
Qed.
End AgentProgram.

(** ** Witnesses: both programs with gRPC, the server over a database *)
#[local] Existing Instances no_metric_json run_json no_float mark_gzip text_net clear_ciphers.
#[local] Existing Instances witness_object witness_string witness_int witness_bool witness_duration.
#[local] Existing Instances witness_texts.

#[local] Instance mem_router : Router MemStorage := first_route MemStorage.
#[local] Instance no_snapshot : Json (list snapshotRecord) := json_of (λ _, Fail (Msg "not used")).
#[local] Instance no_event : Json Event := json_of (λ _, Fail (Msg "not used")).

Definition no_keys : KeyFiles := mkKeyFiles (λ _, Fail (Msg "no such file")) (λ _, None)
  (λ _, Fail (Msg "not used")) (λ _, Fail (Msg "not used")) (λ _, Fail (Msg "not used"))
  (λ _, Fail (Msg "not used")) (λ _, None).
Definition any_tls : TLSFiles := mkTLSFiles (λ _ _, None) (λ _, Ok "bundle") (λ _, true).





Definition witness_agent_site : AgentSite (W := MemStorage) :=
  mkAgentSite no_keys any_tls (λ _ _, Ok (λ _ _, ret None)) None None.
Definition witness_grpc_agent : Process :=
  mkProcess ["-grpc-address=server:9090"] {["POLL_INTERVAL" := "3"]} (λ _, Fail (Msg "no such file")).

Definition is_agent_fatal (trace : list (agent_event (W := MemStorage))) : bool :=
  match trace with AgentFatal _ :: _ => true | _ => false end.

Lemma agent_main_runs_witness :
  ∃ a, agent_main (λ _, ret (Ok 200%Z)) (λ _, ret tt) witness_grpc_agent witness_agent_site =
      [Dialed; Runs a; ClientClosed; AgentExits] ∧ pollInterval a = (3 * Second)%Z.
Proof.
  assert (is_agent_fatal (agent_main (λ _, ret (Ok 200%Z)) (λ _, ret tt) witness_grpc_agent witness_agent_site)
    = false) as Hf by (vm_compute; reflexivity).
  destruct (agent_main_runs (λ _, ret (Ok 200%Z)) (λ _, ret tt) witness_grpc_agent witness_agent_site)
    as [(e & Heq)|(cfg & pk & client & a & Hcfg & _ & Heq & Ha & _ & Hg & _)];
    [rewrite Heq in Hf; discriminate Hf|].
  assert (agent_PollInterval cfg = 3%Z ∧ agent_GRPCAddress cfg = "server:9090") as (Hp & Hcg).
  { vm_compute in Hcfg. injection Hcfg as <-. repeat split. }
  exists a. destruct client as [c|].
  - split; [exact Heq|]. rewrite Ha, <-Hp. reflexivity.
  - pose proof (proj1 Hg eq_refl) as Hn. rewrite Hcg in Hn. discriminate Hn.
Defined.
