(* ===== verification/Shutdown.v ===== *)
(** The shutdown of a server with a file storage: [server.RunWithGRPC] with
    [service.Close] as its [flush], over the goroutine of [persistence].

    [Persistence] lets handlers write until [close] is called; [Lifecycle] says
    when [flush] is called.  Here the handlers of the transports are the writers:
    a writer only needs a running handler, and that none is left when [close]
    begins is proved. *)

From S2P Require Import Prelude GoErrors Metrics GoJson Memory SaveFile Persistence Lifecycle.

(** ** The product *)
Record Site : Type := mkSite { server : Run; saves : Persistence.State }.

(** Where the goroutine of [main] is. *)
Definition main_at (r : Run) : Http.pc + Both.pc :=
  match r with HttpOnly s => inl (Http.at_ s) | WithGRPC s => inr (Both.at_ s) end.

Definition handler_runs (r : Run) : Prop := ∃ t, t ∈ transports r ∧ 0 < active t.

Section Shutdown.
Context `{Json (list snapshotRecord)}.
Variable p : persistence.

(** One step of one goroutine.  While [main] is inside [flush], that is inside
    [close], the transports go on without it. *)
Inductive site_step : Site → Site → Prop :=
| server_moves s r :
    run_step (server s) r → flushes r = flushes (server s) →
    ph (saves s) = Open ∨ main_at r = main_at (server s) →
    site_step s (mkSite r (saves s))
| handler_updates s m :
    handler_runs (server s) →
    let w := world (saves s) in
    site_step s (mkSite (server s) (set_world (mkWorld m (files w) (faults w) (handled w)) (saves s)))
| handler_saves s f :
    handler_runs (server s) → fresh_temp p f →
    site_step s (mkSite (server s) (set_world (save_with f p (world (saves s))).1 (saves s)))
| background_moves s st :
    step p (saves s) st → bg st ≠ bg (saves s) → site_step s (mkSite (server s) st)
| flush_called s r f st :
    run_step (server s) r → flushes r = f :: flushes (server s) →
    ph (saves s) = Open → step p (saves s) st → ph st = Persistence.Stopping →
    site_step s (mkSite (server s) st)
| close_moves s st :
    ph (saves s) ≠ Open → step p (saves s) st → ph st ≠ ph (saves s) → site_step s (mkSite (server s) st)
| flush_returns s r :
    run_step (server s) r → flushes r = p_err (saves s) :: flushes (server s) →
    ph (saves s) = Closed →
    site_step s (mkSite r (saves s)).

Definition start (rpc sync : bool) (w : World) : Site :=
  mkSite (if rpc then WithGRPC Both.init else HttpOnly Http.init) (configurePersistence sync w).

Definition site_reachable (rpc sync : bool) (w : World) (s : Site) : Prop := rtc site_step (start rpc sync w) s.

(** ** No handler is left when [close] begins *)
Lemma quiet_iff t : quiet t ↔ active t = 0 ∧ ∀ t', ¬ traffic t t'.
Proof.
  split; [intros Hq; split; [apply Hq|intros t'; by apply quiet_stays]|].
  intros [Ha Ht]. split; [done|]. intros Ho. destruct (drained t) eqn:Hd; [done|].
  by destruct (Ht _ (request_begins t Ho Hd)).
Qed.

Lemma flushed_quiet rpc r : RunWithGRPC rpc r → flushes r ≠ [] → Forall quiet (transports r).
Proof.
  destruct r as [s|s]; cbn; intros [_ Hr] Hf.
  - destruct (Http.Run_flushes s Hr) as (_ & H2 & _). specialize (H2 Hf).
    repeat constructor; by apply quiet_iff.
  - destruct (Both.RunWithGRPC_flushes s Hr) as (_ & H2 & _). destruct (H2 Hf) as (? & ? & Ht).
    repeat constructor; try done; apply quiet_iff; (split; [done|]); intros t; by destruct (Ht t).
Qed.

Lemma flush_step_transports r r' f : run_step r r' → flushes r' = f :: flushes r → transports r' = transports r.
Proof.
  assert (∀ l : list err, l ≠ f :: l) as Hne by (intros l Hl; apply (f_equal length) in Hl; cbn in Hl; lia).
  intros [s s' Hs|s s' Hs]; destruct Hs; cbn; intros Hf; try done; by apply Hne in Hf.
Qed.

Lemma run_step_reachable rpc r r' : run_step r r' → RunWithGRPC rpc r → RunWithGRPC rpc r'.
Proof.
  intros [s s' Hs|s s' Hs] [-> Hr]; (split; [done|]).
  - unfold Http.reachable in *. by eapply rtc_r.
  - unfold Both.reachable in *. by eapply rtc_r.
Qed.

(** While [main] waits, the transports stay quiet. *)
Lemma main_waits_quiet r r' :
  run_step r r' → main_at r' = main_at r → Forall quiet (transports r) → Forall quiet (transports r').
Proof.
  intros [s s' Hs|s s' Hs]; destruct Hs; cbn; intros Hm Hq; repeat (apply Forall_cons in Hq as [? Hq]);
    try congruence; try match goal with
    | Hq : quiet ?t, Ht : traffic ?t _ |- _ => by destruct (quiet_stays _ _ Hq Ht)
    end.
  all: repeat apply Forall_cons_2; try apply Forall_nil_2; try done.
  all: unfold quiet in *; cbn; tauto.
Qed.

(** [flush] is called from the same places, whatever it will return. *)
Definition flush_point (m : Http.pc + Both.pc) : bool :=
  match m with
  | inl Http.Listening | inl (Http.Flushing _ _)
  | inr Both.Listening | inr Both.ListeningRPC | inr (Both.Flushing _) => true
  | _ => false
  end.

Lemma flush_step_point r r' f : run_step r r' → flushes r' = f :: flushes r → flush_point (main_at r) = true.
Proof.
  assert (∀ l : list err, l ≠ f :: l) as Hne by (intros l Hl; apply (f_equal length) in Hl; cbn in Hl; lia).
  intros [s s' Hs|s s' Hs]; destruct Hs; cbn; intros Hf; try (by apply Hne in Hf).
  all: match goal with Ha : Http.at_ _ = _ |- _ => by rewrite Ha | Ha : Both.at_ _ = _ |- _ => by rewrite Ha end.
Qed.

Lemma flush_point_step r f :
  flush_point (main_at r) = true → ∃ r' e, run_step r r' ∧ flushes r' = f :: flushes r ∧ result r' = Some e.
Proof.
  destruct r as [s|s]; cbn.
  - destruct (Http.at_ s) eqn:Ha; try done; intros _.
    + eexists _, _. split; [by apply http_step, (Http.listen_fails s ErrServerClosed f)|done].
    + eexists _, _. split; [by eapply http_step, (Http.flush s _ _ f)|done].
  - destruct (Both.at_ s) eqn:Ha; try done; intros _.
    + eexists _, _. split; [by apply both_step, (Both.listen_fails s ErrServerClosed f)|done].
    + eexists _, _. split; [by apply both_step, (Both.listen_rpc_fails s ErrServerClosed f)|done].
    + eexists _, _. split; [by eapply both_step, (Both.flush s _ f)|done].
Qed.

(** ** Refinement: the saves see [Persistence]'s steps *)
Definition site_inv (rpc : bool) (s : Site) : Prop :=
  RunWithGRPC rpc (server s) ∧ reachable p (saves s) ∧
  (ph (saves s) ≠ Open → Forall quiet (transports (server s)) ∧
    (flushes (server s) = [] → flush_point (main_at (server s)) = true)) ∧
  (flushes (server s) = [] ∨ ph (saves s) = Closed ∧ flushes (server s) = [p_err (saves s)]).

Lemma reachable_step st st' : step p st st' → reachable p st → reachable p st'.
Proof. intros Hs (sync & w & Hr). exists sync, w. unfold steps in *. by eapply rtc_r. Qed.

Lemma writers_open rpc s : site_inv rpc s → handler_runs (server s) → ph (saves s) = Open.
Proof.
  intros (_ & _ & Hq & _) (t & Ht & Ha). destruct (decide (ph (saves s) = Open)) as [|Hn]; [done|].
  destruct (Hq Hn) as [Hall _]. rewrite Forall_forall in Hall. destruct (Hall t Ht) as [Hz _]. lia.
Qed.

(** A step of the product is a step of [Persistence], or does not touch it. *)
Lemma site_step_refines rpc s s' : site_step s s' → site_inv rpc s → saves s' = saves s ∨ step p (saves s) (saves s').
Proof.
  intros Hs Hi. destruct Hs; cbn; try (by left); try (by right); right; subst.
  - by apply step_update, (writers_open rpc).
  - apply step_sync_save; [by apply (writers_open rpc)|done].
Qed.

Lemma closed_stays st st' : step p st st' → ph st = Closed → ph st' = Closed ∧ p_err st' = p_err st.
Proof. destruct 1; cbn; intros; by split_and?; try congruence. Qed.

Lemma phase_stays st st' : step p st st' → ph st ≠ Open → ph st' ≠ Open.
Proof. destruct 1; cbn; intros; congruence. Qed.

Lemma background_keeps st st' : step p st st' → bg st' ≠ bg st → ph st' = ph st ∧ p_err st' = p_err st.
Proof. by destruct 1; cbn; intros. Qed.

Lemma flushed_once rpc r f l : RunWithGRPC rpc r → flushes r = f :: l → l = [] ∧ ∃ e, result r = Some e.
Proof.
  destruct r as [s|s]; cbn; intros [_ Hr] Hf.
  - destruct (Http.Run_flushes s Hr) as ([H1|(f' & e & H1 & Ha)] & _); rewrite H1 in Hf; [done|].
    injection Hf as _ <-. rewrite Ha. by split; [|exists e].
  - destruct (Both.RunWithGRPC_flushes s Hr) as ([H1|(f' & e & H1 & Ha)] & _); rewrite H1 in Hf; [done|].
    injection Hf as _ <-. rewrite Ha. by split; [|exists e].
Qed.

Lemma flush_step_quiet rpc r r' f :
  run_step r r' → RunWithGRPC rpc r → flushes r' = f :: flushes r → Forall quiet (transports r).
Proof.
  intros Hs Hr Hf. rewrite <-(flush_step_transports _ _ _ Hs Hf).
  apply (flushed_quiet rpc); [by eapply run_step_reachable|by rewrite Hf].
Qed.

Lemma site_inv_step rpc s s' : site_step s s' → site_inv rpc s → site_inv rpc s'.
Proof.
  intros Hs Hi. pose proof Hi as (Hrun & Hreach & Hq & Hf).
  assert (reachable p (saves s')) as Hreach'.
  { destruct (site_step_refines rpc s s' Hs Hi) as [->|Hst]; [done|by eapply reachable_step]. }
  destruct Hs as [s r Hr Hfl Hm|s m Hh w|s f Hh _|s st Hst Hb|s r f st Hr Hfl Ho Hst Hp|s st Ho Hst Hp|s r Hr Hfl Hc];
    unfold site_inv; cbn [server saves] in *;
    (split; [by first [done|eapply run_step_reachable]|]); (split; [done|]).
  - rewrite Hfl. split; [|done]. intros Hn. destruct Hm as [Ho|Hm]; [done|]. rewrite Hm.
    split; [by eapply main_waits_quiet, Hq|by apply Hq].
  - done.
  - done.
  - destruct (background_keeps _ _ Hst Hb) as [-> ->]. done.
  - split; [intros _; split; [by eapply flush_step_quiet|by intros _; eapply flush_step_point]|].
    destruct Hf as [Hf|[Hc _]]; [by left|congruence].
  - split; [intros _; by apply Hq|]. destruct Hf as [Hf|[Hc _]]; [by left|].
    destruct (closed_stays _ _ Hst Hc). congruence.
  - split.
    + intros _. rewrite (flush_step_transports _ _ _ Hr Hfl). split; [by eapply flush_step_quiet|by rewrite Hfl].
    + right. split; [done|]. rewrite Hfl.
      destruct (flushed_once rpc r _ _ ltac:(by eapply run_step_reachable) Hfl) as [-> _]. done.
Qed.

Lemma site_reachable_inv rpc sync w s : site_reachable rpc sync w s → site_inv rpc s.
Proof.
  unfold site_reachable. intros Hr. assert (site_inv rpc (start rpc sync w)) as Hi.
  { split; [destruct rpc; split; done || apply rtc_refl|]. split; [by exists sync, w; apply rtc_refl|].
    split; [by destruct sync|left; by destruct rpc]. }
  revert Hi. generalize dependent (start rpc sync w). intros s0 Hr.
  induction Hr as [s|s s1 s2 Hs _ IH]; [done|]. intros Hi. by eapply IH, site_inv_step.
Qed.

(** A server that returned has flushed. *)
Lemma result_flushed rpc r e : RunWithGRPC rpc r → result r = Some e → flushes r ≠ [].
Proof. intros Hr He. destruct (Run_reports rpc r e Hr He) as (f & errs & Hf & _). by rewrite Hf. Qed.

Lemma errors_Join_snoc errs x : errors_Join (errs ++ [Some x]) = Some (Joined (omap id errs ++ [x])).
Proof. unfold errors_Join. rewrite omap_app. cbn. by destruct (omap id errs). Qed.

Lemma closed_world st st' : step p st st' → ph st = Closed → bg st = Exited → world st' = world st.
Proof. by destruct 1; cbn; intros; try congruence. Qed.

(** C18: a server with a file storage that has returned has saved: in every
    interleaving of the requests of both transports, of the saves in the
    background and of the shutdown, its last save began when no handler was left
    and the background goroutine had returned, and nothing changes the storage or
    the file afterwards.  The server returns every other error joined with the
    error of that save: a failed save is always in what the server returns,
    whatever failed before it, and without an error the file holds everything
    the handlers stored. *)
Theorem shutdown_saves rpc sync w s e :
  site_reachable rpc sync w s → result (server s) = Some e →
  ph (saves s) = Closed ∧ bg (saves s) = Exited ∧ finals (saves s) = 1 ∧
  flushes (server s) = [p_err (saves s)] ∧
  (∃ errs, e = errors_Join (errs ++ [p_err (saves s)]) ∧ omap id errs ≡ₚ call_errors (server s)) ∧
  (∀ x, p_err (saves s) = Some x → ∃ es, e = Some (Joined (es ++ [x])) ∧ es ≡ₚ call_errors (server s)) ∧
  (p_err (saves s) = None → file_current p (world (saves s))) ∧
  (e = None → file_current p (world (saves s))) ∧
  (∀ s', site_step s s' → world (saves s') = world (saves s)).
Proof.
  intros Hr He. pose proof (site_reachable_inv _ _ _ _ Hr) as Hi. pose proof Hi as (Hrun & Hreach & Hq & Hf).
  destruct (Run_reports rpc _ _ Hrun He) as (f & errs & Hf' & -> & Hp). rewrite Hf' in Hf.
  destruct Hf as [Hf|[Hc Hf]]; [done|]. injection Hf as ->.
  destruct (inv_reachable p _ Hreach) as (Hd & _ & Hfl & Hph). rewrite Hc in Hph.
  destruct Hph as (Hfin & _ & Hcur). assert (bg (saves s) = Exited) as Hbg by (apply Hd, Hfl; by right).
  split_and!; try done.
  - by exists errs.
  - intros x Hx. exists (omap id errs). rewrite Hx. split; [apply errors_Join_snoc|done].
  - intros [_ Hn]%errors_Join_none_live. by apply Hcur.
  - intros s' Hs. destruct (site_step_refines rpc s s' Hs Hi) as [->|Hst]; [done|]. by apply closed_world.
Qed.

(** ** The shutdown can always finish *)
Lemma run_step_flushes r r' : run_step r r' → flushes r' = flushes r ∨ ∃ f, flushes r' = f :: flushes r.
Proof. intros [s s' Hs|s s' Hs]; destruct Hs; cbn; eauto. Qed.

(** [main] comes to a call of [flush]. *)
Lemma reaches_flush st r r' e :
  rtc run_step r r' → result r' = Some e → ph st = Open → flushes r = [] → flushes r' ≠ [] →
  ∃ r1, rtc site_step (mkSite r st) (mkSite r1 st) ∧ flush_point (main_at r1) = true ∧ flushes r1 = [].
Proof.
  intros Hs He Ho. induction Hs as [r|r r1 r2 Hs _ IH]; intros Hf Hn; [done|].
  destruct (run_step_flushes _ _ Hs) as [Hsame|[f Hf1]].
  - destruct (IH He ltac:(congruence) Hn) as (r3 & Hr & Hp). exists r3. split; [|done].
    eapply rtc_l; [by apply (server_moves (mkSite r st) r1 Hs Hsame); left|done].
  - exists r. split; [apply rtc_refl|]. split; [by eapply flush_step_point|done].
Qed.

Definition closes (s : Site) : Prop := ∃ st, rtc site_step s (mkSite (server s) st) ∧ ph st = Closed.

Lemma closes_step r st st' : site_step (mkSite r st) (mkSite r st') → closes (mkSite r st') → closes (mkSite r st).
Proof. intros Hs (st2 & Hr & Hc). exists st2. split; [by eapply rtc_l|done]. Qed.

Lemma close_can_close f r st :
  fresh_temp p f → reachable p st → ph st ≠ Open → closes (mkSite r st).
Proof.
  intros Hf Hr Hn. destruct (inv_reachable p st Hr) as (Hd & Hst & _). clear Hr.
  assert (∀ st st', step p st st' → ph st ≠ Open → ph st' ≠ ph st ∨ bg st' ≠ bg st →
    closes (mkSite r st') → closes (mkSite r st)) as Hstep.
  { intros st1 st2 Hs Ho Hne. apply closes_step. destruct Hne as [Hne|Hne].
    - by apply (close_moves (mkSite r st1)).
    - by apply (background_moves (mkSite r st1)). }
  assert (∀ st, ph st = Flushing → closes (mkSite r st)) as Hflush.
  { intros st' Hp. eapply Hstep; [by apply (step_final_save p st' f)|by rewrite Hp|left; by rewrite Hp|].
    eexists; split; [apply rtc_refl|done]. }
  assert (∀ st, ph st = Persistence.Stopping → done st = true → closes (mkSite r st)) as Hstop.
  { intros st' Hp Hd'. eapply Hstep; [by apply (step_done p st')|by rewrite Hp|left; by rewrite Hp|].
    by apply Hflush. }
  assert (∀ st, ph st = Persistence.Stopping → bg st = Waiting → Persistence.stop st = true → closes (mkSite r st)) as Hexit.
  { intros st' Hp Hb Hs. eapply Hstep; [by apply (step_exit p st')|by rewrite Hp|right; by rewrite Hb|].
    by apply Hstop. }
  destruct (ph st) eqn:Hp; [done| |by apply Hflush|by exists st; split; [apply rtc_refl|]].
  assert (Persistence.stop st = true) as Hs by (destruct (Persistence.stop st); [done|by pose proof (proj2 Hst eq_refl)]).
  destruct (bg st) eqn:Hb; [by apply Hexit| |by apply Hstop, Hd].
  eapply Hstep; [by apply (step_periodic_save p st f)|by rewrite Hp|right; by rewrite Hb|by apply Hexit].
Qed.

(** C23: a server with a file storage can always shut down: from every reachable
    state there is a way to the return of the server, whatever the handlers, the
    background saves and [close] are doing. *)
Theorem shutdown_can_finish rpc sync w s :
  site_reachable rpc sync w s → ∃ s' e, rtc site_step s s' ∧ result (server s') = Some e.
Proof.
  intros Hr. pose proof (site_reachable_inv _ _ _ _ Hr) as (Hrun & Hreach & Hq & Hf).
  set (f := no_faults (p_path p +:+ ".tmp")).
  assert (∀ r st, flush_point (main_at r) = true → ph st = Closed →
    ∃ s' e, rtc site_step (mkSite r st) s' ∧ result (server s') = Some e) as Hend.
  { intros r st Hp Hc. destruct (flush_point_step r (p_err st) Hp) as (r' & e & Hs & Hfl & He).
    exists (mkSite r' st), e. split; [by apply rtc_once, (flush_returns (mkSite r st))|done]. }
  assert (∀ r st, ph st ≠ Open → reachable p st → flush_point (main_at r) = true →
    ∃ s' e, rtc site_step (mkSite r st) s' ∧ result (server s') = Some e) as Hclose.
  { intros r st Ho Hst Hp. destruct (close_can_close f r st (no_faults_fresh p) Hst Ho) as (st' & Hs & Hc).
    destruct (Hend r st' Hp Hc) as (s' & e & Hs' & He). exists s', e. split; [by etrans|done]. }
  destruct Hf as [Hf|[Hc Hf]].
  2: { destruct (flushed_once _ _ _ _ Hrun Hf) as (_ & e & He). by exists s, e. }
  destruct s as [r st]. cbn in *. destruct (decide (ph st = Open)) as [Ho|Hn]; [|by apply Hclose, Hq].
  destruct (server_can_return rpc r Hrun) as (r' & e & Hs & He).
  assert (RunWithGRPC rpc r') as Hrun'.
  { clear -Hs Hrun. induction Hs; [done|]. by eapply IHHs, run_step_reachable. }
  destruct (reaches_flush st r r' e Hs He Ho Hf) as (r1 & Hr1 & Hp & Hf1); [by eapply result_flushed|].
  destruct (flush_point_step r1 None Hp) as (r2 & e2 & Hs2 & Hf2 & _).
  pose proof (step_close_first p st Ho) as Hfirst. pose proof (reachable_step _ _ Hfirst Hreach) as Hst.
  edestruct (Hclose r1) as (s' & e' & Hs' & He'); [|exact Hst|exact Hp|]; [done|]. exists s', e'. split; [|done].
  etrans; [exact Hr1|]. eapply rtc_l; [|exact Hs'].
  eapply (flush_called (mkSite r1 st)); [exact Hs2|exact Hf2|done|exact Hfirst|done].
Qed.
End Shutdown.

(** ** A server that stops at once

    The context is cancelled before any request; the storage of [witness_world]
    is saved synchronously. *)
Definition p_witness : persistence := mkPersistence "m.json" true.

Abbreviation witness_step := (@site_step record_codec p_witness).

Lemma witness_moves r r' st s :
  Http.serve_step r r' → Http.flushed r' = Http.flushed r → ph st = Open →
  rtc witness_step (mkSite (HttpOnly r') st) s → rtc witness_step (mkSite (HttpOnly r) st) s.
Proof.
  intros Hs Hf Ho Hr. eapply rtc_l; [|exact Hr].
  apply (server_moves p_witness (mkSite (HttpOnly r) st)); [by constructor|done|by left].
Qed.

(** [main] is about to call [flush]. *)
Definition flushing_server : Http.State :=
  Http.mkState (mkTransport true false true true 0) [] true (Http.Flushing None None) [Some ErrServerClosed] None [] None.

Lemma flushing_reachable :
  @site_reachable record_codec p_witness false true witness_world
    (mkSite (HttpOnly flushing_server) (configurePersistence true witness_world)).
Proof.
  unfold site_reachable, start.
  eapply witness_moves; [by apply Http.listens|done|done|].
  eapply witness_moves; [by apply Http.cancel|done|done|].
  eapply witness_moves; [by apply Http.select_ctx|done|done|].
  eapply witness_moves; [apply (Http.goroutine _ (Some ErrServerClosed)); by split; [|apply list_elem_of_here]|done|done|].
  eapply witness_moves; [by eapply (Http.Shutdown_returns _ _ None)|done|done|].
  eapply witness_moves; [by eapply Http.receive|done|done|].
  apply rtc_refl.
Qed.

Definition stopped_site : Site := mkSite
  (HttpOnly (Http.mkState (mkTransport true false true true 0) [] true
    (Http.Returned (errors_Join [None; None; p_err (closed_state p_witness)]))
    [Some ErrServerClosed] None [p_err (closed_state p_witness)] None))
  (closed_state p_witness).

Lemma stopped_site_reachable : @site_reachable record_codec p_witness false true witness_world stopped_site.
Proof.
  unfold site_reachable. etrans; [exact flushing_reachable|].
  eapply rtc_l.
  { eapply (flush_called p_witness (mkSite _ _) (HttpOnly _) None); [by eapply http_step, (Http.flush _ _ _ None)|done|done|by apply step_close_first|done]. }
  eapply rtc_l; [eapply (close_moves p_witness (mkSite _ _)); [done|by apply step_done|done]|].
  eapply rtc_l; [eapply (close_moves p_witness (mkSite _ _)); [done|by eapply step_final_save, no_faults_fresh|done]|].
  eapply rtc_l; [by eapply (flush_returns p_witness (mkSite _ _)); [eapply http_step, (Http.flush _ _ _ (p_err (closed_state p_witness)))|..]|].
  apply rtc_refl.
Qed.

Lemma shutdown_saves_witness :
  result (server stopped_site) = Some None ∧
  @file_current record_codec p_witness (world (saves stopped_site)).
Proof.
  assert (result (server stopped_site) = Some None) as He by (by vm_compute).
  split; [exact He|].
  destruct (@shutdown_saves record_codec p_witness false true witness_world stopped_site None stopped_site_reachable He)
    as (_ & _ & _ & _ & _ & _ & _ & Hcur & _).
  apply Hcur. reflexivity.
Defined.

Lemma shutdown_can_finish_witness :
  ∃ s' e, rtc witness_step (mkSite (HttpOnly flushing_server) (configurePersistence true witness_world)) s' ∧
    result (server s') = Some e.
Proof. exact (@shutdown_can_finish record_codec p_witness false true witness_world _ flushing_reachable). Defined.
