(* ===== verification/ResetGen.v ===== *)
(** [cmd/reset]: the generator of [Reset] methods: from the marked structs of a
    module to the operations of each method, their text, and the files.

    What the generated operations do is in [ResetCode]. *)

From S2P Require Import Prelude GoErrors GoCrypto GoHttp GoStrconv SaveFile.
From Stdlib Require Import Ascii.

(** ** Types ([go/types]) *)
Inductive info : Type := IsBoolean | IsString | IsUnsafePointer | IsNumeric.

(** A piece of the text of a type: characters, or a qualified name. *)
Inductive part : Type := Text (s : string) | Ref (pkg name : string).

(** [Other] are interfaces, channels, functions and type parameters.  The fields of
    a structure without a name have names of their own and no tags, and names have
    no type arguments: the text of other types is not modelled. *)
Inductive ty : Type :=
| Basic (name : string) (i : info)
| Pointer (elem : ty)
| Slice (elem : ty)
| Map (key elem : ty)
| Struct (fields : list (string * ty))
| Array (len : nat) (elem : ty)
| Other (parts : list part)
| Named (pkg name : string).

(** The type behind each name, which is not a name itself. *)
Abbreviation universe := (string → string → ty).

Definition Underlying (U : universe) (t : ty) : ty :=
  match t with Named pkg name => U pkg name | _ => t end.

(** ** Operations

    [Expr] is a place, starting at a field of the receiver; the [Index] of an
    array loop is the number of its variable.  [len] and the type beside [Type]
    are not in the code's record: they are what the compiler knows of [Expr] and
    of the text [Type]. *)
Inductive place : Type :=
| Field (name : string)
| Deref (e : place)
| Index (e : place) (i : nat).

Inductive literal : Type := LZero | LFalse | LEmpty | LNil.

Inductive resetOperation : Type :=
| OpBasic (Expr : place) (Value : literal)
| OpPointer (Expr : place) (child : resetOperation)
| OpSlice (Expr : place)
| OpMap (Expr : place)
| OpStruct (Expr : place) (Type_ : string) (t : ty)
| OpArray (Expr : place) (i : nat) (len : nat) (child : resetOperation)
| OpZero (Expr : place) (Type_ : string) (t : ty).

Record resetMethod : Type := mkMethod {
  m_Name : string;
  m_Receiver : string;
  m_Operations : list resetOperation
}.

(** ** The generator of one package *)
Record generator : Type := mkGenerator {
  g_pkg : string;
  g_name : string;
  methods : list resetMethod;
  imports : gmap string string;
  index : nat
}.

Definition decimal (n : nat) : string := FormatInt (Z.of_nat n).

(** The qualifier of [typeName]: an alias for every other package. *)
Definition qualifier (g : generator) (pkg : string) : generator * string :=
  if decide (pkg = g_pkg g) then (g, "")
  else match imports g !! pkg with
  | Some alias => (g, alias)
  | None =>
      let alias := "resetpkg" +:+ decimal (size (imports g)) in
      (mkGenerator (g_pkg g) (g_name g) (methods g) (<[pkg := alias]> (imports g)) (index g), alias)
  end.

Definition qualified (g : generator) (pkg name : string) : generator * string :=
  let '(g, alias) := qualifier g pkg in
  (g, if decide (alias = "") then name else alias +:+ "." +:+ name).

Fixpoint write_parts (g : generator) (parts : list part) : generator * string :=
  match parts with
  | [] => (g, "")
  | Text s :: parts => let '(g, rest) := write_parts g parts in (g, s +:+ rest)
  | Ref pkg name :: parts =>
      let '(g, s) := qualified g pkg name in
      let '(g, rest) := write_parts g parts in (g, s +:+ rest)
  end.

(** [types.TypeString] with the qualifier. *)
Fixpoint typeName (g : generator) (t : ty) : generator * string :=
  match t with
  | Basic name _ => (g, name)
  | Pointer t => let '(g, s) := typeName g t in (g, "*" +:+ s)
  | Slice t => let '(g, s) := typeName g t in (g, "[]" +:+ s)
  | Map k t =>
      let '(g, sk) := typeName g k in
      let '(g, s) := typeName g t in (g, "map[" +:+ sk +:+ "]" +:+ s)
  | Array n t => let '(g, s) := typeName g t in (g, "[" +:+ decimal n +:+ "]" +:+ s)
  | Struct fields =>
      let '(g, s) := (fix write_fields g (fields : list (string * ty)) : generator * string :=
        match fields with
        | [] => (g, "")
        | (name, t) :: fields =>
            let '(g, s) := typeName g t in
            let '(g, rest) := write_fields g fields in
            (g, name +:+ " " +:+ s +:+ (if decide (rest = "") then "" else "; " +:+ rest))
        end) g fields in
      (g, "struct{" +:+ s +:+ "}")
  | Other parts => write_parts g parts
  | Named pkg name => qualified g pkg name
  end.

Section generator.
Variable U : universe.

Definition basic_value (i : info) : literal :=
  match i with
  | IsBoolean => LFalse
  | IsString => LEmpty
  | IsUnsafePointer => LNil
  | IsNumeric => LZero
  end.

Definition next_index (g : generator) : generator :=
  mkGenerator (g_pkg g) (g_name g) (methods g) (imports g) (S (index g)).

(** The recursion follows pointers and arrays, also through names: [fuel] bounds
    its depth. *)
Fixpoint reset (fuel : nat) (g : generator) (expr : place) (t : ty) : option (generator * resetOperation) :=
  match fuel with
  | O => None
  | S fuel =>
      match Underlying U t with
      | Basic _ i => Some (g, OpBasic expr (basic_value i))
      | Pointer elem =>
          '(g, child) ← reset fuel g (Deref expr) elem;
          Some (g, OpPointer expr child)
      | Slice _ => Some (g, OpSlice expr)
      | Map _ _ => Some (g, OpMap expr)
      | Struct _ => let '(g, name) := typeName g t in Some (g, OpStruct expr name t)
      | Array len elem =>
          let i := index g in
          '(g, child) ← reset fuel (next_index g) (Index expr i) elem;
          Some (g, OpArray expr i len child)
      | _ => let '(g, name) := typeName g t in Some (g, OpZero expr name t)
      end
  end.

(** The loop of [method] over the fields. *)
Fixpoint operations (fuel : nat) (g : generator) (fields : list (string * ty))
  : option (generator * list resetOperation) :=
  match fields with
  | [] => Some (g, [])
  | (name, t) :: fields =>
      if decide (name = "_") then operations fuel g fields
      else
        '(g, op) ← reset fuel g (Field name) t;
        '(g, ops) ← operations fuel g fields;
        Some (g, op :: ops)
  end.

Definition method (fuel : nat) (g : generator) (name : string) (params : list string)
    (fields : list (string * ty)) : option generator :=
  let receiverType :=
    if decide (params = []) then name else name +:+ "[" +:+ join_text ", " params +:+ "]" in
  '(g, ops) ← operations fuel g fields;
  Some (mkGenerator (g_pkg g) (g_name g) (methods g ++ [mkMethod name receiverType ops]) (imports g) (index g)).

(** ** Termination

    [reset] ends exactly when no chain of pointers and arrays comes back to where
    it started. *)
Definition follows (t' t : ty) : Prop :=
  match Underlying U t with
  | Pointer elem | Array _ elem => t' = elem
  | _ => False
  end.

Lemma reset_mono fuel fuel' g e t r : fuel ≤ fuel' → reset fuel g e t = Some r → reset fuel' g e t = Some r.
Proof.
  revert fuel' g e t r. induction fuel as [|fuel IH]; intros fuel' g e t r Hle; [done|].
  destruct fuel' as [|fuel']; [lia|]. cbn [reset]. destruct (Underlying U t); try done.
  - intros ([g' child] & Hr & Heq)%bind_Some. by rewrite (IH fuel' _ _ _ _ ltac:(lia) Hr).
  - intros ([g' child] & Hr & Heq)%bind_Some. by rewrite (IH fuel' _ _ _ _ ltac:(lia) Hr).
Qed.

(** C25: the recursion of the generator over a type ends, from every state and
    for every expression, exactly when the pointers and arrays behind the type
    do not lead back to it. *)
Theorem reset_terminates t :
  Acc follows t ↔ ∀ g e, ∃ fuel r, reset fuel g e t = Some r.
Proof.
  split.
  - induction 1 as [t _ IH]. intros g e. destruct (Underlying U t) as [n i|elem|elem|k elem|fields|len elem|parts|pkg n] eqn:Ht.
    all: try (exists 1; cbn [reset]; rewrite Ht; try destruct (typeName _ _); by eexists).
    + destruct (IH elem ltac:(unfold follows; by rewrite Ht) g (Deref e)) as (fuel & [g' child] & Hr).
      exists (S fuel). eexists. cbn [reset]. rewrite Ht, Hr. done.
    + destruct (IH elem ltac:(unfold follows; by rewrite Ht) (next_index g) (Index e (index g)))
        as (fuel & [g' child] & Hr).
      exists (S fuel). eexists. cbn [reset]. rewrite Ht, Hr. done.
  - intros Hall. destruct (Hall (mkGenerator "" "" [] ∅ 0) (Field "")) as (fuel & r & Hr). clear Hall.
    revert r Hr. generalize (mkGenerator "" "" [] ∅ 0), (Field ""). revert t.
    induction fuel as [|fuel IH]; intros t g e r Hr; [done|].
    constructor. intros t' Hf. unfold follows in Hf. cbn [reset] in Hr.
    destruct (Underlying U t); try contradiction; subst t';
      apply bind_Some in Hr as ([g' child] & Hr & _); exact (IH _ _ _ _ Hr).
Qed.

(** [type P *P]: the generator never comes back. *)
Lemma self_pointer_diverges pkg name fuel g e :
  U pkg name = Pointer (Named pkg name) → reset fuel g e (Named pkg name) = None.
Proof.
  intros HU. revert g e. induction fuel as [|fuel IH]; intros g e; [done|].
  cbn [reset Underlying]. by rewrite HU, IH.
Qed.
End generator.

(** ** The text ([reset.tmpl] and [source]) *)
Definition nl : string := newline.
Definition quotation : string := String (ascii_of_nat 34) "".

Fixpoint show (e : place) : string :=
  match e with
  | Field name => "rs." +:+ name
  | Deref e => "(*" +:+ show e +:+ ")"
  | Index e i => show e +:+ "[i" +:+ decimal i +:+ "]"
  end.

Definition show_literal (l : literal) : string :=
  match l with
  | LZero => "0"
  | LFalse => "false"
  | LEmpty => quotation +:+ quotation
  | LNil => "nil"
  end.

Definition render_zero (e : place) (type : string) : string :=
  "{ var zero " +:+ type +:+ "; " +:+ show e +:+ " = zero }".

(** The template [operations] for one operation. *)
Fixpoint render (op : resetOperation) : string :=
  match op with
  | OpBasic e v => show e +:+ " = " +:+ show_literal v +:+ nl
  | OpPointer e child => "if " +:+ show e +:+ " != nil {" +:+ nl +:+ " " +:+ render child +:+ "}" +:+ nl
  | OpSlice e => show e +:+ " = " +:+ show e +:+ "[:0]" +:+ nl
  | OpMap e => "clear(" +:+ show e +:+ ")" +:+ nl
  | OpStruct e type _ =>
      "if resetter, ok := any(&" +:+ show e +:+ ").(interface{ Reset() }); ok {" +:+ nl +:+
      " resetter.Reset()" +:+ nl +:+ "} else {" +:+ nl +:+ " " +:+ render_zero e type +:+ nl +:+ "}" +:+ nl
  | OpArray e i _ child =>
      "for i" +:+ decimal i +:+ " := range " +:+ show e +:+ " {" +:+ nl +:+ " " +:+ render child +:+ "}" +:+ nl
  | OpZero e type _ => render_zero e type +:+ nl
  end.

Definition render_method (m : resetMethod) : string :=
  nl +:+ "// Reset clears " +:+ m_Name m +:+ " while retaining slice, map and pointer allocations." +:+ nl +:+
  "func (rs *" +:+ m_Receiver m +:+ ") Reset() {" +:+ nl +:+ " if rs == nil {" +:+ nl +:+ "  return" +:+ nl +:+
  " }" +:+ nl +:+ " " +:+ join_text "" (map render (m_Operations m)) +:+ "}" +:+ nl.

Definition generatedHeader : string := "// Code generated by cmd/reset; DO NOT EDIT." +:+ nl.

(** [sort.Strings] on the paths of the imports: insertion into a sorted list. *)
Fixpoint insert_sorted (p : string) (l : list string) : list string :=
  match l with
  | [] => [p]
  | q :: l' => if String.leb p q then p :: l else q :: insert_sorted p l'
  end.
Definition sort_strings (l : list string) : list string := foldr insert_sorted [] l.

(** [quoted] is what the template prints for an import path, and [format_Source]
    is [go/format]'s. *)
Definition source (format_Source : string → res string) (quoted : string → string)
    (order : list string) (g : generator) : res string :=
  let paths := sort_strings order in
  let import_lines := join_text "" (map (λ path,
    nl +:+ "import " +:+ default "" (imports g !! path) +:+ " " +:+ quoted path +:+ nl) paths) in
  format_Source (generatedHeader +:+ nl +:+ "package " +:+ g_name g +:+ nl +:+ import_lines +:+ nl +:+
    join_text "" (map render_method (methods g)) +:+ nl).

(** ** The packages and their files ([generate]) *)

(** A type declaration: its comments, whether it is a struct type and not an
    alias, its type parameters and fields, and the files that declare a method
    [Reset] of it. *)
Record TypeSpec : Type := mkTypeSpec {
  ts_Name : string;
  ts_Doc : option (list string);
  ts_IsStruct : bool;
  ts_Assign : bool;
  ts_Params : list string;
  ts_Fields : list (string * ty);
  ts_ResetFiles : list string
}.

Record GenDecl : Type := mkGenDecl {
  Tok_TYPE : bool;
  gd_Doc : option (list string);
  gd_Specs : list TypeSpec
}.

(** A declaration that is not a [GenDecl] is [None]. *)
Record Package : Type := mkPackage {
  pkg_path : string;
  pkg_name : string;
  Syntax : list (list (option GenDecl));
  CompiledGoFiles : list string
}.

Definition TrimPrefix (s prefix : string) : string :=
  if String.prefix prefix s then String.substring (String.length prefix) (String.length s) s else s.

Definition marked (group : option (list string)) : bool :=
  match group with
  | Some comments =>
      existsb (λ text, bool_decide (TrimSpace (TrimPrefix text "//") = "generate:reset")) comments
  | None => false
  end.

Definition filepath_Base (path : string) : string := default "" (last (split_slash path)).
Definition filepath_Join (dir name : string) : string := filepath_Clean (dir +:+ "/" +:+ name).

Section generate.
Variable U : universe.

(** A result that may not come: the recursion over types ([None]). *)
Definition spec_loop (fuel : nat) (group : GenDecl) (ts : TypeSpec) (g : generator) : option (res generator) :=
  if negb (marked (ts_Doc ts)) && negb (bool_decide (length (gd_Specs group) = 1) && marked (gd_Doc group))
  then Some (Ok g)
  else if negb (ts_IsStruct ts) || ts_Assign ts
  then Some (Fail (Msg "generate:reset requires a defined struct"))
  else if existsb (λ file, negb (bool_decide (filepath_Base file = "reset.gen.go"))) (ts_ResetFiles ts)
  then Some (Fail (Msg "already has a Reset method"))
  else match method U fuel g (ts_Name ts) (ts_Params ts) (ts_Fields ts) with
  | None => None
  | Some g => Some (Ok g)
  end.

(** A loop that returns at the first error. *)
Fixpoint loop {A} (body : A → generator → option (res generator)) (l : list A) (g : generator)
  : option (res generator) :=
  match l with
  | [] => Some (Ok g)
  | a :: l =>
      match body a g with
      | Some (Ok g) => loop body l g
      | r => r
      end
  end.

Definition package_methods (fuel : nat) (pkg : Package) : option (res generator) :=
  loop (loop (λ (decl : option GenDecl) g,
    match decl with
    | Some group => if Tok_TYPE group then loop (spec_loop fuel group) (gd_Specs group) g else Some (Ok g)
    | None => Some (Ok g)
    end)) (Syntax pkg) (mkGenerator (pkg_path pkg) (pkg_name pkg) [] ∅ 0).

(** The libraries and the file system around the generator: a file that is not
    there is not an error of [read_error]; [write_fault] gives what a failed
    write leaves. *)
Record Tools : Type := mkTools {
  format_Source : string → res string;
  quoted : string → string;
  import_order : gmap string string → list string;
  read_error : string → err;
  write_fault : string → option (string * error)
}.

Variable tools : Tools.

(** The file of one package, [None] when it has no marked type. *)
Definition prepare (fuel : nat) (fs : FS) (pkg : Package) : option (res (option (string * string))) :=
  match package_methods fuel pkg with
  | None => None
  | Some (Fail e) => Some (Fail e)
  | Some (Ok g) =>
      if decide (methods g = []) then Some (Ok None)
      else
        let path := filepath_Join (filepath_Dir (hd "" (CompiledGoFiles pkg))) "reset.gen.go" in
        match read_error tools path with
        | Some e => Some (Fail (Wrap "read" e))
        | None =>
            if match fs !! path with Some data => negb (String.prefix generatedHeader data) | None => false end
            then Some (Fail (Msg "refusing to overwrite non-generated file"))
            else match source (format_Source tools) (quoted tools) (import_order tools (imports g)) g with
            | Fail e => Some (Fail (Wrap "format" e))
            | Ok data => Some (Ok (Some (path, data)))
            end
        end
  end.

Fixpoint prepare_all (fuel : nat) (fs : FS) (pkgs : list Package) (outputs : gmap string string)
  : option (res (gmap string string)) :=
  match pkgs with
  | [] => Some (Ok outputs)
  | pkg :: pkgs =>
      match prepare fuel fs pkg with
      | None => None
      | Some (Fail e) => Some (Fail e)
      | Some (Ok None) => prepare_all fuel fs pkgs outputs
      | Some (Ok (Some (path, data))) => prepare_all fuel fs pkgs (<[path := data]> outputs)
      end
  end.

Fixpoint write_all (l : list (string * string)) (fs : FS) : FS * err :=
  match l with
  | [] => (fs, None)
  | (path, data) :: l =>
      match write_fault tools path with
      | Some (partial, e) => (<[path := partial]> fs, Some (Wrap "write" e))
      | None => write_all l (<[path := data]> fs)
      end
  end.

(** [loaded] is what [packages.Load] returns and [PrintErrors] counts; [range]
    is the order of the outputs. *)
Definition generate (fuel : nat) (range : gmap string string → list (string * string))
    (loaded : res (list Package * nat)) (fs : FS) : option (FS * err) :=
  match loaded with
  | Fail e => Some (fs, Some (Wrap "load packages" e))
  | Ok (pkgs, errors) =>
      if decide (errors ≠ 0) then Some (fs, Some (Msg "cannot generate Reset methods: packages contain errors"))
      else match prepare_all fuel fs pkgs ∅ with
      | None => None
      | Some (Fail e) => Some (fs, Some e)
      | Some (Ok outputs) => Some (write_all (range outputs) fs)
      end
  end.

(** ** What is written *)

(** A path that may be written: a generated file, or none yet. *)
Definition writable (fs : FS) (path : string) : Prop :=
  (∃ dir, path = filepath_Join dir "reset.gen.go") ∧
  ∀ data, fs !! path = Some data → String.prefix generatedHeader data = true.

Lemma prepare_all_writable fuel fs pkgs outputs outputs' :
  prepare_all fuel fs pkgs outputs = Some (Ok outputs') →
  (∀ path, is_Some (outputs !! path) → writable fs path) →
  ∀ path, is_Some (outputs' !! path) → writable fs path.
Proof.
  revert outputs. induction pkgs as [|pkg pkgs IH]; intros outputs; cbn [prepare_all]; [by intros [= <-]|].
  destruct (prepare fuel fs pkg) as [[[[path data]|]|e]|] eqn:Hp; try done; [|by apply IH].
  intros Hall Hw. eapply IH; [exact Hall|]. intros path'. rewrite lookup_insert. case_decide; [|by apply Hw].
  intros _. subst path'. unfold prepare in Hp. destruct (package_methods fuel pkg) as [[g|]|]; try done.
  case_decide; [done|]. destruct (read_error tools _); [done|].
  destruct (match fs !! _ with Some _ => _ | None => _ end) eqn:Hf; [done|].
  destruct (source _ _ _ g); [|done]. injection Hp as <- <-. split; [by eexists|].
  intros old Hold. rewrite Hold in Hf. by apply negb_false_iff in Hf.
Qed.

Lemma write_all_other l fs path : path ∉ l.*1 → (write_all l fs).1 !! path = fs !! path.
Proof.
  revert fs. induction l as [|[p data] l IH]; intros fs Hn; [done|].
  apply not_elem_of_cons in Hn as [Hne Hn]. cbn [write_all fst] in *.
  destruct (write_fault tools p) as [[partial e]|]; cbn [fst].
  - by rewrite lookup_insert_ne.
  - rewrite IH by done. by rewrite lookup_insert_ne.
Qed.

Lemma write_all_ok l fs : (∀ path, write_fault tools path = None) → (write_all l fs).2 = None.
Proof. intros Hw. revert fs. induction l as [|[p data] l IH]; intros fs; cbn [write_all]; [done|]. by rewrite Hw, IH. Qed.

(** C26: the generator writes files named [reset.gen.go] only, and none that was
    not generated; an error before the writes, in whatever package, leaves every
    file as it was. *)
Theorem generate_writes_safely fuel range loaded fs fs' e :
  (∀ m, range_of (range m) m) →
  generate fuel range loaded fs = Some (fs', e) →
  (∀ path, fs' !! path ≠ fs !! path → writable fs path) ∧
  (e ≠ None → (∀ path, write_fault tools path = None) → fs' = fs).
Proof.
  intros Hrange. unfold generate.
  destruct loaded as [[pkgs errors]|e0]; [|by intros [= <- <-]; split; [|done]].
  case_decide; [by intros [= <- <-]; split; [|done]|].
  destruct (prepare_all fuel fs pkgs ∅) as [[outputs|e0]|] eqn:Hp; [|by intros [= <- <-]; split; [|done]|done].
  intros [= Hw]. split.
  - intros path Hne. eapply prepare_all_writable; [exact Hp|intros ? [? ?]; done|].
    apply (dec_stable). intros Hn. apply Hne.
    rewrite <-(write_all_other (range outputs) fs path), Hw; [done|].
    intros Hin. apply Hn. apply list_elem_of_fmap in Hin as ([p data] & -> & Hin).
    exists data. by apply (range_of_lookup _ _ p data (Hrange outputs)).
  - intros He Hok. pose proof (write_all_ok (range outputs) fs Hok) as Hn. rewrite Hw in Hn. done.
Qed.
End generate.

(** ** The command ([moduleRoot], [main]) *)

(** What [os.Stat] says of a file. *)
Inductive stat_result : Type := Found | NotExist | StatError (e : error).

(** An absolute directory: its components, the innermost first. *)
Definition directory (dir : list string) : string := "/" +:+ join_text "/" (rev dir).

(** The search for [go.mod], up to the root directory. *)
Fixpoint find_module (Stat : string → stat_result) (dir : list string) : res (list string) :=
  match Stat (filepath_Join (directory dir) "go.mod") with
  | Found => Ok dir
  | StatError e => Fail (Wrap "find go.mod" e)
  | NotExist =>
      match dir with
      | [] => Fail (Msg "go.mod not found")
      | _ :: parent => find_module Stat parent
      end
  end.

Definition moduleRoot (Stat : string → stat_result) (Getwd : res (list string)) : res (list string) :=
  match Getwd with
  | Fail e => Fail (Wrap "get working directory" e)
  | Ok dir => find_module Stat dir
  end.

(** The root is the nearest directory above with a [go.mod]. *)
Lemma find_module_nearest Stat dir root :
  find_module Stat dir = Ok root ↔
  ∃ below, dir = below ++ root ∧ Stat (filepath_Join (directory root) "go.mod") = Found ∧
    ∀ above x, root `suffix_of` above → x :: above `suffix_of` dir →
      Stat (filepath_Join (directory (x :: above)) "go.mod") = NotExist.
Proof.
  induction dir as [|d dir IH]; cbn [find_module].
  - split.
    + destruct (Stat _) eqn:Hs; try done. intros [= <-]. exists []. split; [done|]. split; [done|].
      intros above x _ [k Hk]. by destruct k.
    + intros (below & Hb & Hf & _). destruct below; [|done]. destruct root; [|done]. by rewrite Hf.
  - split.
    + destruct (Stat (filepath_Join (directory (d :: dir)) _)) eqn:Hs; try done.
      * clear IH. intros [= Heq]. subst root. exists []. split; [done|]. split; [done|].
        intros above x [k Hk] [k' Hk']. apply (f_equal length) in Hk, Hk'.
        rewrite length_app in Hk, Hk'. cbn in Hk, Hk'. lia.
      * intros (below & -> & Hf & Hall)%IH. exists (d :: below). split; [done|]. split; [done|].
        intros above x Hr Ha. apply suffix_cons_inv in Ha as [[= -> ->]|Ha]; [done|]. by apply Hall.
    + intros (below & Hb & Hf & Hall). destruct below as [|d' below]; cbn in Hb.
      * subst root. by rewrite Hf.
      * injection Hb as <- Hb. rewrite (Hall dir d); [|by exists below|done]. apply IH.
        exists below. split; [done|]. split; [done|]. intros above x Hr Ha. apply Hall; [done|]. by apply suffix_cons_r.
Qed.

(** [main]: the files after it, and the error of [log.Fatal]. *)
Definition main (U : universe) (tools : Tools) (fuel : nat) (range : gmap string string → list (string * string))
    (Stat : string → stat_result) (Getwd : res (list string)) (Load : list string → res (list Package * nat))
    (fs : FS) : option (FS * err) :=
  match moduleRoot Stat Getwd with
  | Fail e => Some (fs, Some e)
  | Ok root => generate U tools fuel range (Load root) fs
  end.

(** ** A module with one marked struct *)
Definition witness_universe : universe := λ _ _, Struct [("ID", Basic "string" IsString)].

Definition witness_package : Package :=
  mkPackage "m" "m"
    [[None; Some (mkGenDecl true (Some ["generate:reset"])
       [mkTypeSpec "Node" None true false [] [("ID", Basic "string" IsString)] []])]]
    ["m.go"].

(** A formatter that keeps nothing but the header. *)
Definition witness_tools : Tools :=
  mkTools (λ _, Ok generatedHeader) (λ path, path) (λ m, (map_to_list m).*1) (λ _, None) (λ _, None).

Definition witness_files : FS := {["m.go" := "package m"]}.
Definition witness_written : FS := {["m.go" := "package m"; "reset.gen.go" := generatedHeader]}.

Lemma generate_writes_safely_witness :
  generate witness_universe witness_tools 3 map_to_list (Ok ([witness_package], 0)) witness_files
    = Some (witness_written, None) ∧
  writable witness_files "reset.gen.go".
Proof.
  assert (generate witness_universe witness_tools 3 map_to_list (Ok ([witness_package], 0)) witness_files
    = Some (witness_written, None)) as Hg by (vm_compute; reflexivity).
  split; [exact Hg|].
  apply (proj1 (generate_writes_safely witness_universe witness_tools 3 map_to_list _ _ _ _
    (λ m, reflexivity (map_to_list m)) Hg)).
  unfold witness_written, witness_files. rewrite lookup_insert_ne by discriminate.
  rewrite lookup_singleton_eq. discriminate.
Defined.
