(* ===== verification/ResetStable.v ===== *)
(** Repeated runs of [cmd/reset]: the generated files do not depend on the order
    in which Go ranges over its maps, and a run over its own output changes
    nothing. *)

From stdpp Require Import sorting.
From S2P Require Import Prelude GoErrors SaveFile ResetGen.

(** ** The imports, sorted *)

Lemma insert_sorted_perm p l : insert_sorted p l ≡ₚ p :: l.
Proof.
  induction l as [|q l IH]; [done|]. cbn. destruct (String.leb p q); [done|].
  by rewrite IH, Permutation_swap.
Qed.

Lemma sort_strings_perm l : sort_strings l ≡ₚ l.
Proof. induction l as [|p l IH]; [done|]. cbn. by rewrite insert_sorted_perm, IH. Qed.

Lemma insert_sorted_sorted p l : StronglySorted String.le l → StronglySorted String.le (insert_sorted p l).
Proof.
  induction l as [|q l IH]; intros Hl; cbn; [by repeat constructor|].
  apply StronglySorted_cons in Hl as [Hq Hl]. destruct (String.leb p q) eqn:Hpq.
  - assert (String.le p q) as Hle by (unfold String.le; by rewrite Hpq).
    apply StronglySorted_cons. split; [|by apply StronglySorted_cons].
    constructor; [done|]. eapply Forall_impl; [exact Hq|]. intros r Hr. by trans q.
  - apply StronglySorted_cons. split; [|by apply IH]. rewrite insert_sorted_perm. constructor; [|done].
    destruct (total String.le p q) as [Hle|Hle]; [|done]. unfold String.le in Hle. by rewrite Hpq in Hle.
Qed.

Lemma sort_strings_sorted l : StronglySorted String.le (sort_strings l).
Proof. induction l as [|p l IH]; [constructor|]. by apply insert_sorted_sorted. Qed.

Lemma sort_strings_proper l l' : l ≡ₚ l' → sort_strings l = sort_strings l'.
Proof.
  intros Hl. apply (StronglySorted_unique String.le); [apply sort_strings_sorted..|].
  by rewrite !sort_strings_perm.
Qed.

Lemma source_proper format quoted order order' g :
  order ≡ₚ order' → source format quoted order g = source format quoted order' g.
Proof. intros Ho. unfold source. by rewrite (sort_strings_proper _ _ Ho). Qed.

(** ** The same types, declared again *)

(** A package after a run: its types are those before, in the same order; only
    the generated file may have come or changed, which declares methods. *)
Definition hand_written (file : string) : Prop := filepath_Base file ≠ "reset.gen.go".
#[export] Instance hand_written_dec file : Decision (hand_written file).
Proof. unfold hand_written. apply _. Defined.

Record same_spec (ts ts' : TypeSpec) : Prop := {
  same_Name : ts_Name ts' = ts_Name ts;
  same_Doc : ts_Doc ts' = ts_Doc ts;
  same_IsStruct : ts_IsStruct ts' = ts_IsStruct ts;
  same_Assign : ts_Assign ts' = ts_Assign ts;
  same_Params : ts_Params ts' = ts_Params ts;
  same_Fields : ts_Fields ts' = ts_Fields ts;
  same_ResetFiles : filter hand_written (ts_ResetFiles ts') = filter hand_written (ts_ResetFiles ts)
}.

Definition same_group (group group' : GenDecl) : Prop :=
  gd_Doc group' = gd_Doc group ∧ Forall2 same_spec (gd_Specs group) (gd_Specs group').

Definition type_decl (decl : option GenDecl) : option GenDecl :=
  match decl with Some group => if Tok_TYPE group then Some group else None | None => None end.

Definition type_decls (pkg : Package) : list GenDecl := omap type_decl (concat (Syntax pkg)).

Record regenerated (pkg pkg' : Package) : Prop := {
  re_path : pkg_path pkg' = pkg_path pkg;
  re_name : pkg_name pkg' = pkg_name pkg;
  re_types : Forall2 same_group (type_decls pkg) (type_decls pkg');
  re_dir : filepath_Dir (hd "" (CompiledGoFiles pkg')) = filepath_Dir (hd "" (CompiledGoFiles pkg))
}.

#[export] Instance regenerated_refl : Reflexive regenerated.
Proof.
  intros pkg. constructor; [done|done| |done].
  assert (∀ specs, Forall2 same_spec specs specs) as Hs by (intros; by apply Forall_Forall2_diag, Forall_true; constructor).
  apply Forall_Forall2_diag, Forall_true. intros group. by split.
Qed.

Section methods.
Variable U : universe.

Lemma loop_concat {A} (body : A → generator → option (res generator)) ll g :
  loop (loop body) ll g = loop body (concat ll) g.
Proof.
  revert g. induction ll as [|l ll IH]; intros g; [done|]. cbn [loop concat].
  revert g. induction l as [|a l IHl]; intros g; cbn [loop app]; [apply IH|].
  destruct (body a g) as [[g'|]|]; [apply IHl|done|done].
Qed.

Lemma loop_skip {A B} (f : A → option B) (body : A → generator → option (res generator)) body' l g :
  (∀ a g, body a g = match f a with Some b => body' b g | None => Some (Ok g) end) →
  loop body l g = loop body' (omap f l) g.
Proof.
  intros Hb. revert g. induction l as [|a l IH]; intros g; [done|]. cbn [loop omap list_omap].
  rewrite Hb. destruct (f a) as [b|]; [|apply IH]. cbn [loop].
  destruct (body' b g) as [[g'|]|]; [apply IH|done|done].
Qed.

Lemma package_methods_types fuel pkg :
  package_methods U fuel pkg =
    loop (λ group, loop (spec_loop U fuel group) (gd_Specs group)) (type_decls pkg)
      (mkGenerator (pkg_path pkg) (pkg_name pkg) [] ∅ 0).
Proof.
  unfold package_methods. rewrite loop_concat. apply loop_skip.
  intros [group|] g; [|done]. cbn. by destruct (Tok_TYPE group).
Qed.

Lemma loop_Forall2 {A} (R : A → A → Prop) (body body' : A → generator → option (res generator)) l l' g :
  (∀ a a' g, R a a' → body' a' g = body a g) → Forall2 R l l' → loop body' l' g = loop body l g.
Proof.
  intros Hb Hl. revert g. induction Hl as [|a a' l l' Ha _ IH]; intros g; [done|]. cbn [loop].
  rewrite (Hb _ _ _ Ha). destruct (body a g) as [[g'|]|]; [apply IH|done|done].
Qed.

Lemma existsb_filter (files : list string) :
  existsb (λ file, negb (bool_decide (filepath_Base file = "reset.gen.go"))) files =
  negb (bool_decide (filter hand_written files = [])).
Proof.
  induction files as [|file files IH]; [done|]. cbn [existsb]. rewrite filter_cons.
  destruct (decide (hand_written file)) as [Hf|Hf]; unfold hand_written in Hf.
  - by rewrite bool_decide_false by done.
  - apply dec_stable in Hf. by rewrite bool_decide_true, IH by done.
Qed.

Lemma spec_loop_same fuel group group' ts ts' g :
  same_group group group' → same_spec ts ts' → spec_loop U fuel group' ts' g = spec_loop U fuel group ts g.
Proof.
  intros [Hd Hl%Forall2_length] [Hn Hdoc Hs Ha Hp Hf Hr]. unfold spec_loop.
  by rewrite Hdoc, Hs, Ha, Hn, Hp, Hf, Hd, Hl, !existsb_filter, Hr.
Qed.

Lemma package_methods_same fuel pkg pkg' :
  regenerated pkg pkg' → package_methods U fuel pkg' = package_methods U fuel pkg.
Proof.
  intros [Hp Hn Ht _]. rewrite !package_methods_types, Hp, Hn. apply (loop_Forall2 same_group); [|done].
  intros group group' g Hg. apply (loop_Forall2 same_spec); [|by destruct Hg].
  intros ts ts' g' Hs. by apply spec_loop_same.
Qed.
End methods.

(** ** The files *)

(** Another order of the ranges over the imports. *)
Definition reordered (order : gmap string string → list string) (tools : Tools) : Tools :=
  mkTools (format_Source tools) (quoted tools) order (read_error tools) (write_fault tools).

Lemma string_prefix_app s t : String.prefix s (s +:+ t) = true.
Proof.
  induction s as [|c s IH]; [by destruct t|].
  change (String.prefix (String c s) (String c (s +:+ t)) = true). unfold String.prefix at 1.
  fold String.prefix. by destruct (Ascii.ascii_dec c c).
Qed.

(** A file that a run may overwrite: with the header. *)
Definition headed (fs : FS) (path : string) : Prop :=
  ∀ data, fs !! path = Some data → String.prefix generatedHeader data = true.

Section stable.
Variable U : universe.
Variable tools : Tools.
Variable order' : gmap string string → list string.
Hypothesis import_order_ok : ∀ m, import_order tools m ≡ₚ (map_to_list m).*1.
Hypothesis order'_ok : ∀ m, order' m ≡ₚ (map_to_list m).*1.
(** The formatter keeps the comment that a source begins with. *)
Hypothesis format_header : ∀ text formatted,
  format_Source tools text = Ok formatted → String.prefix generatedHeader text = true →
  String.prefix generatedHeader formatted = true.

Lemma source_header order g data :
  source (format_Source tools) (quoted tools) order g = Ok data → String.prefix generatedHeader data = true.
Proof. unfold source. intros Hd. apply (format_header _ _ Hd). apply string_prefix_app. Qed.

Lemma prepare_some fuel fs pkg path data :
  prepare U tools fuel fs pkg = Some (Ok (Some (path, data))) →
  headed fs path ∧ String.prefix generatedHeader data = true.
Proof.
  unfold prepare. destruct (package_methods U fuel pkg) as [[g|]|]; try done.
  case_decide; [done|]. destruct (read_error tools _); [done|].
  destruct (match fs !! _ with Some _ => _ | None => _ end) eqn:Hf; [done|].
  destruct (source _ _ _ g) eqn:Hs; [|done]. intros [= <- <-]. split; [|by eapply source_header].
  intros old Hold. rewrite Hold in Hf. by apply negb_false_iff in Hf.
Qed.

Lemma prepare_same fuel fs fs' pkg pkg' out :
  regenerated pkg pkg' → prepare U tools fuel fs pkg = Some (Ok out) →
  (∀ path data, out = Some (path, data) → headed fs' path) →
  prepare U (reordered order' tools) fuel fs' pkg' = Some (Ok out).
Proof.
  intros Hr. unfold prepare. rewrite (package_methods_same U fuel _ _ Hr), (re_dir _ _ Hr).
  destruct (package_methods U fuel pkg) as [[g|]|]; try done. case_decide; [done|].
  cbn [read_error reordered]. destruct (read_error tools _); [done|].
  destruct (match fs !! _ with Some _ => _ | None => _ end); [done|].
  destruct (source _ _ _ g) eqn:Hs; [|done]. intros [= <-] Hh. specialize (Hh _ _ eq_refl).
  assert (match fs' !! filepath_Join (filepath_Dir (hd "" (CompiledGoFiles pkg))) "reset.gen.go" with
    | Some old => negb (String.prefix generatedHeader old) | None => false end = false) as ->.
  { destruct (fs' !! _) eqn:Hf; [|done]. by rewrite (Hh _ Hf). }
  change (source _ _ _ g) with (source (format_Source tools) (quoted tools) (order' (imports g)) g).
  rewrite <-(source_proper _ _ (import_order tools (imports g))); [by rewrite Hs|].
  by rewrite order'_ok, import_order_ok.
Qed.

Lemma prepare_all_mono fuel fs pkgs outputs outputs' path :
  prepare_all U tools fuel fs pkgs outputs = Some (Ok outputs') →
  is_Some (outputs !! path) → is_Some (outputs' !! path).
Proof.
  revert outputs. induction pkgs as [|pkg pkgs IH]; intros outputs; cbn [prepare_all]; [by intros [= <-]|].
  destruct (prepare U tools fuel fs pkg) as [[[[p data]|]|e]|]; try done; [|by apply IH].
  intros Hall Hs. apply (IH _ Hall). rewrite lookup_insert. by case_decide.
Qed.

Lemma prepare_all_headed fuel fs pkgs outputs outputs' :
  prepare_all U tools fuel fs pkgs outputs = Some (Ok outputs') →
  (∀ path, is_Some (outputs !! path) → headed fs path ∧ headed outputs path) →
  ∀ path, is_Some (outputs' !! path) → headed fs path ∧ headed outputs' path.
Proof.
  revert outputs. induction pkgs as [|pkg pkgs IH]; intros outputs; cbn [prepare_all]; [by intros [= <-]|].
  destruct (prepare U tools fuel fs pkg) as [[[[p data]|]|e]|] eqn:Hp; try done; [|by apply IH].
  intros Hall Hh. apply (IH _ Hall). intros path. unfold headed. rewrite lookup_insert.
  apply prepare_some in Hp as [Hfs Hd]. case_decide as Heq; [|by apply Hh]. subst path.
  intros _. split; [exact Hfs|]. by intros ? [= <-].
Qed.

Lemma prepare_all_same fuel fs fs' pkgs pkgs' outputs outputs' :
  Forall2 regenerated pkgs pkgs' → prepare_all U tools fuel fs pkgs outputs = Some (Ok outputs') →
  (∀ path, is_Some (outputs' !! path) → headed fs' path) →
  prepare_all U (reordered order' tools) fuel fs' pkgs' outputs = Some (Ok outputs').
Proof.
  intros Hp. revert outputs. induction Hp as [|pkg pkg' pkgs pkgs' Hr _ IH]; intros outputs; cbn [prepare_all]; [done|].
  destruct (prepare U tools fuel fs pkg) as [[out|e]|] eqn:Hpr; try done.
  intros Hall Hh. rewrite (prepare_same fuel fs fs' pkg pkg' out Hr Hpr).
  - destruct out as [[path data]|]; by apply IH.
  - intros path data ->. apply Hh. apply (prepare_all_mono _ _ _ _ _ _ Hall). by rewrite lookup_insert_eq.
Qed.

Lemma write_all_done l fs fs' :
  NoDup l.*1 → write_all tools l fs = (fs', None) →
  fs' = list_to_map l ∪ fs ∧ Forall (λ p, write_fault tools p = None) l.*1.
Proof.
  revert fs. induction l as [|[path data] l IH]; intros fs; cbn [write_all fmap list_fmap fst].
  - intros _ [= <-]. split; [|done]. change (list_to_map []) with (∅ : FS). by rewrite map_empty_union.
  - intros [Hn Hl]%NoDup_cons. destruct (write_fault tools path) as [[partial e]|] eqn:Hw; [done|].
    intros [-> Hf]%IH; [|done]. split; [|by constructor]. cbn [list_to_map foldr].
    rewrite <-insert_union_l, <-insert_union_r; [done|]. by apply not_elem_of_list_to_map_1.
Qed.

Lemma write_all_again l fs :
  NoDup l.*1 → Forall (λ p, write_fault tools p = None) l.*1 →
  write_all tools l fs = (list_to_map l ∪ fs, None).
Proof.
  intros Hn Hf. destruct (write_all tools l fs) as [fs' e] eqn:Hw.
  assert (e = None) as ->.
  { clear Hn. revert fs Hw. induction l as [|[path data] l IH]; intros fs; cbn [write_all]; [by intros [= _ <-]|].
    cbn in Hf. apply Forall_cons in Hf as [-> Hf]. by apply IH. }
  by apply write_all_done in Hw as [-> _].
Qed.

Lemma write_all_order range range' outputs fs fs' :
  range_of range outputs → range_of range' outputs → write_all tools range fs = (fs', None) →
  fs' = outputs ∪ fs ∧ ∀ fs2, write_all (reordered order' tools) range' fs2 = (outputs ∪ fs2, None).
Proof.
  intros Hr Hr' Hw. apply write_all_done in Hw as [-> Hf]; [|by eapply range_of_NoDup].
  rewrite (range_of_map _ _ Hr). split; [done|]. intros fs2. rewrite <-(range_of_map _ _ Hr').
  assert (∀ l fs, write_all (reordered order' tools) l fs = write_all tools l fs) as ->.
  { induction l as [|[path data] l IH]; intros fs0; [done|]. cbn. by rewrite IH. }
  apply write_all_again; [by eapply range_of_NoDup|]. unfold range_of in Hr, Hr'. by rewrite Hr', <-Hr.
Qed.

(** C27: generation is deterministic and stable: a successful run gives the same
    files whatever the order of the ranges over the maps of imports and of
    outputs, and a run over its own output, in which the generated files are part
    of the packages, succeeds and changes nothing. *)
Theorem generate_stable fuel range range' pkgs pkgs' fs fs' :
  (∀ m, range_of (range m) m) → (∀ m, range_of (range' m) m) → Forall2 regenerated pkgs pkgs' →
  generate U tools fuel range (Ok (pkgs, 0)) fs = Some (fs', None) →
  generate U (reordered order' tools) fuel range' (Ok (pkgs, 0)) fs = Some (fs', None) ∧
  generate U (reordered order' tools) fuel range' (Ok (pkgs', 0)) fs' = Some (fs', None).
Proof.
  intros Hr Hr' Hp. unfold generate. rewrite !decide_False by (by intros H).
  destruct (prepare_all U tools fuel fs pkgs ∅) as [[outputs|e]|] eqn:Hall; try done.
  intros [= Hw]. destruct (write_all_order _ _ _ _ _ (Hr outputs) (Hr' outputs) Hw) as [-> Hagain].
  assert (∀ path, is_Some (outputs !! path) → headed fs path ∧ headed outputs path) as Hh.
  { apply (prepare_all_headed _ _ _ _ _ Hall). by intros path [? ?]. }
  split.
  - rewrite (prepare_all_same fuel fs fs pkgs pkgs ∅ outputs); [by rewrite Hagain|..|done|].
    + apply Forall_Forall2_diag, Forall_true. reflexivity.
    + intros path Hs. by apply Hh.
  - rewrite (prepare_all_same fuel fs (outputs ∪ fs) pkgs pkgs' ∅ outputs); [|done..|].
    + by rewrite Hagain, map_union_assoc, map_union_idemp.
    + intros path Hs data Hl. destruct (Hh path Hs) as [_ Ho]. destruct Hs as [d Hd].
      rewrite (lookup_union_Some_l _ _ _ _ Hd) in Hl. injection Hl as <-. by apply Ho.
Qed.
End stable.

(** ** The module again, with its generated file *)
Definition regenerated_package : Package :=
  mkPackage "m" "m"
    [[None; Some (mkGenDecl true (Some ["generate:reset"])
       [mkTypeSpec "Node" None true false [] [("ID", Basic "string" IsString)] ["reset.gen.go"]])]; [None]]
    ["m.go"; "reset.gen.go"].

Lemma witness_regenerated : Forall2 regenerated [witness_package] [regenerated_package].
Proof.
  repeat constructor.
Qed.

Lemma witness_format_header text formatted :
  format_Source witness_tools text = Ok formatted → String.prefix generatedHeader text = true →
  String.prefix generatedHeader formatted = true.
Proof. by intros [= <-]. Qed.

Lemma generate_stable_witness :
  generate witness_universe (reordered (λ m, reverse (map_to_list m).*1) witness_tools) 3 (λ m, reverse (map_to_list m))
    (Ok ([regenerated_package], 0)) witness_written = Some (witness_written, None).
Proof.
  apply (generate_stable witness_universe witness_tools (λ m, reverse (map_to_list m).*1)
    (λ m, reflexivity (map_to_list m).*1) (λ m, reverse_Permutation (map_to_list m).*1)
    witness_format_header 3 map_to_list _ [witness_package] [regenerated_package] witness_files witness_written).
  - intros m. unfold range_of. reflexivity.
  - intros m. unfold range_of. apply reverse_Permutation.
  - exact witness_regenerated.
  - by vm_compute.
Defined.
