(* ===== verification/ResetCode.v ===== *)
(** What the methods generated by [cmd/reset] do: the operations of [ResetGen]
    as Go statements on a memory of typed variables.

    A generated [Reset] terminates on data without pointer cycles, leaves every
    field it can reach empty, keeps every allocation, and changes nothing else; and
    it does what the types of the fields say, the methods of other structures
    included: generated ones, ones promoted from an embedded structure or pointer
    to one, and ones written by hand, which count as functions on memory that keep
    to a footprint.  Promotion across an embedded pointer to a structure that
    embeds the owner, from an embedded interface, or from an embedded type that is
    no structure, is not modelled. *)

From S2P Require Import Prelude ResetGen.
From Stdlib Require Import Relations Wellfounded.

(** ** Memory

    A variable is an address: a location and the fields and indices that lead
    into it.  A variable of a structure or an array is the set of those inside
    it; the others hold a leaf.  [table]s are the contents of maps. *)
Inductive sel : Type := SField (name : string) | SIndex (i : nat).

#[export] Instance sel_eq_dec : EqDecision sel.
Proof. solve_decision. Defined.
#[export] Instance sel_countable : Countable sel.
Proof.
  refine (inj_countable' (λ s, match s with SField n => inl n | SIndex i => inr i end)
    (λ s, match s with inl n => SField n | inr i => SIndex i end) _); by intros [].
Defined.

#[export] Instance SField_inj : Inj (=) (=) SField.
Proof. by intros ?? [=]. Qed.
#[export] Instance SIndex_inj : Inj (=) (=) SIndex.
Proof. by intros ?? [=]. Qed.

Abbreviation loc := positive.
Abbreviation addr := (loc * list sel)%type.

Definition sub (a : addr) (s : sel) : addr := (a.1, a.2 ++ [s]).

Inductive leaf : Type :=
| LBool (b : bool)
| LString (s : string)
| LNum (z : Z)
| LUnsafe (p : option loc)
| LPointer (p : option addr)
| LSlice (array : option loc) (len cap : nat)
| LMap (m : option loc)
| LOther (v : option loc).

Record memory : Type := mkMemory {
  leaves : gmap addr leaf;
  tables : gmap loc (list (leaf * leaf))
}.

Definition set_leaf (a : addr) (v : leaf) (m : memory) : memory :=
  mkMemory (<[a := v]> (leaves m)) (tables m).

(** The zero value of the type of a leaf. *)
Definition zero_leaf (v : leaf) : leaf :=
  match v with
  | LBool _ => LBool false
  | LString _ => LString ""
  | LNum _ => LNum 0
  | LUnsafe _ => LUnsafe None
  | LPointer _ => LPointer None
  | LSlice _ _ _ => LSlice None 0 0
  | LMap _ => LMap None
  | LOther _ => LOther None
  end.

Definition inside (a b : addr) : Prop := b.1 = a.1 ∧ a.2 `prefix_of` b.2.
#[export] Instance inside_dec a b : Decision (inside a b).
Proof. unfold inside. apply _. Defined.

(** [{ var zero T; e = zero }] *)
Definition zero_under (a : addr) (m : memory) : memory :=
  mkMemory (map_imap (λ b v, Some (if decide (inside a b) then zero_leaf v else v)) (leaves m)) (tables m).

(** The assignment of a literal, which has to fit the type of the variable. *)
Definition literal_value (l : literal) (v : leaf) : option leaf :=
  match l, v with
  | LZero, LNum _ => Some (LNum 0)
  | LFalse, LBool _ => Some (LBool false)
  | LEmpty, LString _ => Some (LString "")
  | LNil, LUnsafe _ => Some (LUnsafe None)
  | _, _ => None
  end.

(** ** Execution

    [None] is a program that does not compile, a nil dereference, or the end of
    the fuel, which bounds the depth of nesting and of calls. *)

(** The methods [Reset] that the assertion of the template finds: generated ones,
    and ones the package declares by hand, which are functions of a receiver, nil
    or not. *)
Inductive body : Type :=
| Generated (ops : list resetOperation)
| HandWritten (f : option addr → memory → option memory).

(** A structure has its own method, or one promoted from an embedded field: the
    names that lead to the field, and its type, a structure or a pointer to one. *)
Inductive reset_method : Type :=
| Own (b : body)
| Promoted (embedded : list string) (field : ty).

Abbreviation method_set := (ty → option reset_method).

(** The variable at the end of the selectors. *)
Definition path (a : addr) (names : list string) : addr := foldl (λ a name, sub a (SField name)) a names.

(** The receiver of a promoted method, and its type: the embedded variable, or what
    it points to. *)
Definition receiver (m : memory) (a : addr) (field : ty) : option (ty * option addr) :=
  match field with
  | Pointer t => match leaves m !! a with Some (LPointer r) => Some (t, r) | _ => None end
  | _ => Some (field, Some a)
  end.

Fixpoint locate (m : memory) (rs : addr) (env : gmap nat nat) (e : place) : option addr :=
  match e with
  | Field name => Some (sub rs (SField name))
  | Deref e =>
      a ← locate m rs env e;
      match leaves m !! a with Some (LPointer p) => p | _ => None end
  | Index e i => a ← locate m rs env e; k ← env !! i; Some (sub a (SIndex k))
  end.

(** The steps of a range loop and the statements of a body, one after the other. *)
Fixpoint run_each {A} (f : A → memory → option memory) (l : list A) (m : memory) : option memory :=
  match l with
  | [] => Some m
  | x :: l => m ← f x m; run_each f l m
  end.

(** A call of [Reset]; a generated one returns at once from a nil receiver. *)
Definition call (run : addr → resetOperation → memory → option memory) (b : body) (r : option addr) (m : memory)
  : option memory :=
  match b, r with
  | Generated ops, Some r => run_each (run r) ops m
  | Generated _, None => Some m
  | HandWritten f, r => f r m
  end.

Fixpoint exec (fuel : nat) (M : method_set) (rs : addr) (env : gmap nat nat) (op : resetOperation) (m : memory)
  : option memory :=
  match fuel with
  | O => None
  | S fuel =>
      match op with
      | OpBasic e l =>
          a ← locate m rs env e;
          v ← leaves m !! a;
          v ← literal_value l v;
          Some (set_leaf a v m)
      | OpPointer e child =>
          a ← locate m rs env e;
          match leaves m !! a with
          | Some (LPointer None) => Some m
          | Some (LPointer (Some _)) => exec fuel M rs env child m
          | _ => None
          end
      | OpSlice e =>
          a ← locate m rs env e;
          match leaves m !! a with
          | Some (LSlice array _ cap) => Some (set_leaf a (LSlice array 0 cap) m)
          | _ => None
          end
      | OpMap e =>
          a ← locate m rs env e;
          match leaves m !! a with
          | Some (LMap None) => Some m
          | Some (LMap (Some l)) => Some (mkMemory (leaves m) (<[l := []]> (tables m)))
          | _ => None
          end
      | OpStruct e _ t =>
          a ← locate m rs env e;
          match M t with
          | None => Some (zero_under a m)
          | Some (Own b) => call (λ r, exec fuel M r ∅) b (Some a) m
          | Some (Promoted embedded field) =>
              '(t', r) ← receiver m (path a embedded) field;
              match M t' with
              | Some (Own b) => call (λ r, exec fuel M r ∅) b r m
              | _ => None
              end
          end
      | OpArray e i len child =>
          run_each (λ k m, exec fuel M rs (<[i := k]> env) child m) (seq 0 len) m
      | OpZero e _ _ => a ← locate m rs env e; Some (zero_under a m)
      end
  end.

(** [x.Reset()] on a receiver, nil or not. *)
Definition Reset (fuel : nat) (M : method_set) (ops : list resetOperation) (rs : option addr) (m : memory)
  : option memory :=
  call (λ r, exec fuel M r ∅) (Generated ops) rs m.

(** ** The type of a memory *)
Section typing.
Variable U : universe.
Variable Σ : loc → option ty.      (* the type each location was allocated with *)

Inductive has_place : addr → ty → Prop :=
| place_loc l t : Σ l = Some t → has_place (l, []) t
| place_field a t fields name t' :
    has_place a t → Underlying U t = Struct fields → (name, t') ∈ fields →
    has_place (sub a (SField name)) t'
| place_index a t len t' k :
    has_place a t → Underlying U t = Array len t' → k < len →
    has_place (sub a (SIndex k)) t'.

(** A leaf of a type that has leaves. *)
Definition leaf_ok (v : leaf) (t : ty) : Prop :=
  match t, v with
  | Basic _ IsBoolean, LBool _ | Basic _ IsString, LString _ | Basic _ IsNumeric, LNum _
  | Basic _ IsUnsafePointer, LUnsafe _ | Slice _, LSlice _ _ _ | Map _ _, LMap _
  | Other _, LOther _ | Named _ _, LOther _ => True
  | Pointer t, LPointer p => ∀ a, p = Some a → has_place a t
  | _, _ => False
  end.

Definition has_leaf (t : ty) : Prop :=
  match t with Struct _ | Array _ _ => False | _ => True end.

Definition well_typed (m : memory) : Prop :=
  ∀ a t, has_place a t → has_leaf (Underlying U t) →
    ∃ v, leaves m !! a = Some v ∧ leaf_ok v (Underlying U t).
End typing.

(** ** What execution may change *)

(** The leaf of a method that only empties. *)
Definition emptied (v v' : leaf) : Prop :=
  v' = v ∨ v' = zero_leaf v ∨ ∃ array n cap, v = LSlice array n cap ∧ v' = LSlice array 0 cap.

(** The leaf of a method that may give values, but leads nowhere new. *)
Definition similar (v v' : leaf) : Prop :=
  match v, v' with
  | LBool _, LBool _ | LString _, LString _ | LNum _, LNum _ | LUnsafe _, LUnsafe _
  | LSlice _ _ _, LSlice _ _ _ | LOther _, LOther _ => True
  | LPointer p, LPointer p' => p' = p ∨ p' = None
  | LMap l, LMap l' => l' = l ∨ l' = None
  | _, _ => False
  end.

Lemma emptied_trans v1 v2 v3 : emptied v1 v2 → emptied v2 v3 → emptied v1 v3.
Proof.
  unfold emptied. intros H1 H2.
  destruct H1 as [->|[->|(? & ? & ? & -> & ->)]]; [done| |].
  - destruct H2 as [->|[->|(? & ? & ? & Hv & ->)]]; [by auto|right; left; by destruct v1|].
    right; left. destruct v1; by simplify_eq/=.
  - destruct H2 as [->|[->|(? & ? & ? & Hv & ->)]]; [by eauto 10|by auto|]. simplify_eq. eauto 10.
Qed.

Lemma emptied_zero v v' : emptied v v' → v = zero_leaf v → v' = zero_leaf v'.
Proof.
  intros [->|[->|(array & n & cap & -> & ->)]] Hz; [done|by destruct v|]. by injection Hz as -> -> ->.
Qed.

Lemma similar_refl v : similar v v.
Proof. destruct v; cbn; auto. Qed.

Lemma similar_trans v1 v2 v3 : similar v1 v2 → similar v2 v3 → similar v1 v3.
Proof. destruct v1, v2; cbn; try done; destruct v3; cbn; try done; intros [->| ->] [->| ->]; auto. Qed.

Lemma emptied_similar v v' : emptied v v' → similar v v'.
Proof. intros [->|[->|(? & ? & ? & -> & ->)]]; [apply similar_refl|destruct v; cbn; auto|done]. Qed.

Lemma leaf_ok_similar U Σ v v' t : similar v v' → leaf_ok U Σ v t → leaf_ok U Σ v' t.
Proof. destruct t as [? []| | | | | | |], v; cbn; try done; destruct v'; cbn; try done; intros [->| ->]; done. Qed.

Lemma literal_value_zero l v v' : literal_value l v = Some v' → v' = zero_leaf v.
Proof. destruct l, v; try done; by intros [= <-]. Qed.

(** A part of memory: a leaf, or a table. *)
Abbreviation cell := (addr + loc)%type.

(** Only cells of a set change. *)
Definition within (T : cell → Prop) (m m' : memory) : Prop :=
  (∀ b, leaves m' !! b = leaves m !! b ∨ T (inl b)) ∧ (∀ l, tables m' !! l = tables m !! l ∨ T (inr l)).

Lemma within_refl T m : within T m m.
Proof. by split; left. Qed.

Lemma within_mono (T T' : cell → Prop) m m' : within T m m' → (∀ x, T x → T' x) → within T' m m'.
Proof. intros [Hl Ht] HT. split; intros x; [destruct (Hl x)|destruct (Ht x)]; auto. Qed.

Lemma within_trans (T : cell → Prop) m1 m2 m3 : within T m1 m2 → within T m2 m3 → within T m1 m3.
Proof.
  intros [L1 T1] [L2 T2]. split; intros x.
  - destruct (L2 x) as [->|]; auto.
  - destruct (T2 x) as [->|]; auto.
Qed.

Lemma within_set (T : cell → Prop) a v m : T (inl a) → within T m (set_leaf a v m).
Proof.
  intros Ha. split; [|by left]. intros b. cbn. rewrite lookup_insert. case_decide; [subst b; auto|auto].
Qed.

Lemma within_zero (T : cell → Prop) a m : (∀ b, inside a b → T (inl b)) → within T m (zero_under a m).
Proof.
  intros Ha. split; [|by left]. intros b. cbn. rewrite map_lookup_imap.
  destruct (decide (inside a b)); [by auto|]. left. by destruct (leaves m !! b).
Qed.

(** ** Addresses *)
Lemma inside_sub a s b : inside (sub a s) b → inside a b.
Proof. intros [Hl Hp]. split; [done|]. etrans; [|exact Hp]. by eexists. Qed.

Lemma inside_path a names b : inside (path a names) b → inside a b.
Proof. revert a. induction names as [|name names IH]; intros a H; [done|]. apply (inside_sub _ (SField name)), IH, H. Qed.

Lemma path_loc a names : (path a names).1 = a.1.
Proof. revert a. induction names as [|name names IH]; intros a; [done|]. cbn. by rewrite IH. Qed.

Lemma inside_sub_inj a s z b : inside (sub a s) b → inside (sub a z) b → s = z.
Proof.
  intros [_ [k1 H1]] [_ [k2 H2]]. cbn in *. rewrite H1, <-!app_assoc in H2.
  apply app_inv_head in H2. by injection H2.
Qed.

(** ** Execution ends, with every reachable field empty *)
Section correctness.
Variable U : universe.
Variable Σ : loc → option ty.
Variable M : method_set.

(** A type does not contain itself, other than behind a pointer, a slice or a map:
    Go rejects the others. *)
Definition contains (t' t : ty) : Prop :=
  match Underlying U t with
  | Struct fields => ∃ name, (name, t') ∈ fields
  | Array _ elem => t' = elem
  | _ => False
  end.
Hypothesis finite_types : ∀ t, Acc contains t.

(** Fields with a name have different names. *)
Hypothesis distinct_fields : ∀ t fields, M t ≠ None → Underlying U t = Struct fields →
  NoDup (filter (λ f : string * ty, f.1 ≠ "_") fields).*1.

(** Pointers do not form cycles: each leads to a location of a smaller rank. *)
Variable rank : loc → nat.
Definition acyclic (m : memory) : Prop :=
  ∀ a b, leaves m !! a = Some (LPointer (Some b)) → rank b.1 < rank a.1.

(** What a method written by hand may change, given its receiver: of the variables,
    those inside the receiver or of a smaller rank. *)
Variable footprint : addr → cell → Prop.
Hypothesis footprint_local : ∀ a b, footprint a (inl b) → inside a b ∨ rank b.1 < rank a.1.

(** A method written by hand that ends on every receiver of its type, keeps to its
    footprint, and makes no pointer or map lead elsewhere. *)
Definition hand_written (t : ty) (f : option addr → memory → option memory) : Prop :=
  ∀ a m, has_place U Σ a t → well_typed U Σ m → acyclic m →
    ∃ m', f (Some a) m = Some m' ∧ within (footprint a) m m' ∧
      ∀ b, option_relation similar (λ _, False) (λ _, False) (leaves m !! b) (leaves m' !! b).

(** The embedded field at the end of the names. *)
Inductive embeds : ty → list string → ty → Prop :=
| embeds_field t fields name field :
    Underlying U t = Struct fields → (name, field) ∈ fields → embeds t [name] field
| embeds_next t fields name t' names field :
    Underlying U t = Struct fields → (name, t') ∈ fields → embeds t' names field → embeds t (name :: names) field.

Definition is_struct (t : ty) : Prop := ∃ fields, Underlying U t = Struct fields.

Definition method_ok (t : ty) (mt : reset_method) : Prop :=
  match mt with
  | Own (Generated ops) =>
      ∃ fields fuel g g', Underlying U t = Struct fields ∧ operations U fuel g fields = Some (g', ops)
  | Own (HandWritten f) => hand_written t f
  | Promoted embedded field =>
      embeds t embedded field ∧
      match field with
      | Pointer t' => is_struct t' ∧ ∃ b, M t' = Some (Own b) ∧
          match b with Generated _ => True | HandWritten f => ∀ m, f None m = Some m end
      | _ => is_struct field ∧ ∃ b, M field = Some (Own b)
      end
  end.
Hypothesis methods_ok : ∀ t mt, M t = Some mt → method_ok t mt.

(** The cells that methods written by hand change. *)
Definition disturbed (x : cell) : Prop :=
  ∃ c t f, has_place U Σ c t ∧ M t = Some (Own (HandWritten f)) ∧ footprint c x.

(** The cells that [Reset] works on, from a variable of a type: its fields that
    can be named, what its pointers and maps lead to, the whole of a structure
    that has no [Reset], and the footprint of methods written by hand. *)
Inductive touched (m : memory) : ty → addr → cell → Prop :=
| touched_leaf t a :
    match Underlying U t with Basic _ _ | Slice _ => True | _ => False end → touched m t a (inl a)
| touched_map t a key elem l :
    Underlying U t = Map key elem → leaves m !! a = Some (LMap (Some l)) → touched m t a (inr l)
| touched_pointer t a elem b x :
    Underlying U t = Pointer elem → leaves m !! a = Some (LPointer (Some b)) → touched m elem b x → touched m t a x
| touched_index t a len elem k x :
    Underlying U t = Array len elem → k < len → touched m elem (sub a (SIndex k)) x → touched m t a x
| touched_zeroed t a b :
    match Underlying U t with Struct _ => M t = None | Other _ | Named _ _ => True | _ => False end →
    inside a b → touched m t a (inl b)
| touched_field t a fields ops name t' x :
    Underlying U t = Struct fields → M t = Some (Own (Generated ops)) → (name, t') ∈ fields → name ≠ "_" →
    touched m t' (sub a (SField name)) x → touched m t a x
| touched_hand t a fields f x :
    Underlying U t = Struct fields → M t = Some (Own (HandWritten f)) → footprint a x → touched m t a x
| touched_promoted t a fields embedded field x :
    Underlying U t = Struct fields → M t = Some (Promoted embedded field) →
    touched m field (path a embedded) x → touched m t a x.

(** What becomes of memory: a variable keeps its value, or is emptied, or has what
    a method written by hand gave it; a map is as it was, or empty, or what such a
    method made of it. *)
Definition leaf_changes (b : addr) (v v' : leaf) : Prop := emptied v v' ∨ (disturbed (inl b) ∧ similar v v').

Definition cleaner (m m' : memory) : Prop :=
  (∀ a, option_relation (leaf_changes a) (λ _, False) (λ _, False) (leaves m !! a) (leaves m' !! a)) ∧
  (∀ l, tables m' !! l = tables m !! l ∨ tables m' !! l = Some [] ∨ disturbed (inr l)).

Lemma leaf_changes_similar b v v' : leaf_changes b v v' → similar v v'.
Proof. intros [H|[_ H]]; [by apply emptied_similar|done]. Qed.

#[local] Instance cleaner_preorder : PreOrder cleaner.
Proof.
  split.
  - intros m. split; [|by left]. intros a. destruct (leaves m !! a); cbn; [by left; left|done].
  - intros m1 m2 m3 [H1 T1] [H2 T2]. split.
    + intros a. specialize (H1 a). specialize (H2 a).
      destruct (leaves m1 !! a), (leaves m2 !! a), (leaves m3 !! a); cbn in *; try done.
      pose proof (similar_trans _ _ _ (leaf_changes_similar _ _ _ H1) (leaf_changes_similar _ _ _ H2)) as Hs.
      destruct H1 as [H1|[? _]], H2 as [H2|[? _]]; [|by right..]. left. by eapply emptied_trans.
    + intros l. destruct (T2 l) as [->|]; [apply T1|by right].
Qed.

Lemma cleaner_set a v v' m : leaves m !! a = Some v → emptied v v' → cleaner m (set_leaf a v' m).
Proof.
  intros Ha He. split; [|by left]. intros b. cbn. rewrite lookup_insert. case_decide as Hab.
  - subst b. rewrite Ha. by left.
  - destruct (leaves m !! b); cbn; [by left; left|done].
Qed.

Lemma cleaner_zero a m : cleaner m (zero_under a m).
Proof.
  split; [|by left]. intros b. cbn. rewrite map_lookup_imap.
  destruct (leaves m !! b); cbn; [|done]. case_decide; left; [by right; left|by left].
Qed.

Lemma cleaner_table l m : cleaner m (mkMemory (leaves m) (<[l := []]> (tables m))).
Proof.
  split.
  - intros b. cbn. destruct (leaves m !! b); cbn; [by left; left|done].
  - intros l'. cbn. rewrite lookup_insert. case_decide; [by right; left|by left].
Qed.

Lemma cleaner_leaf m m' a v :
  cleaner m m' → leaves m !! a = Some v → ∃ v', leaves m' !! a = Some v' ∧ leaf_changes a v v'.
Proof.
  intros [Hc _] Ha. specialize (Hc a). rewrite Ha in Hc. destruct (leaves m' !! a) as [v'|]; [|done]. by exists v'.
Qed.

Lemma cleaner_leaf_back m m' a v' :
  cleaner m m' → leaves m' !! a = Some v' → ∃ v, leaves m !! a = Some v ∧ leaf_changes a v v'.
Proof.
  intros [Hc _] Ha. specialize (Hc a). rewrite Ha in Hc. destruct (leaves m !! a) as [v|]; [|done]. by exists v.
Qed.

Lemma cleaner_pointer m m' a b :
  cleaner m m' → leaves m' !! a = Some (LPointer (Some b)) → leaves m !! a = Some (LPointer (Some b)).
Proof.
  intros Hc Ha. destruct (cleaner_leaf_back _ _ _ _ Hc Ha) as (v & Hv & Hs%leaf_changes_similar).
  destruct v; try done. by destruct Hs as [<-|].
Qed.

Lemma cleaner_map m m' a l :
  cleaner m m' → leaves m' !! a = Some (LMap (Some l)) → leaves m !! a = Some (LMap (Some l)).
Proof.
  intros Hc Ha. destruct (cleaner_leaf_back _ _ _ _ Hc Ha) as (v & Hv & Hs%leaf_changes_similar).
  destruct v; try done. by destruct Hs as [<-|].
Qed.

(** Types are preserved. *)
Lemma cleaner_well_typed m m' : cleaner m m' → well_typed U Σ m → well_typed U Σ m'.
Proof.
  intros Hc Hw a t Hp Hl. destruct (Hw a t Hp Hl) as (v & Hv & Hok).
  destruct (cleaner_leaf _ _ _ _ Hc Hv) as (v' & Hv' & Hs%leaf_changes_similar).
  exists v'. split; [done|]. by eapply leaf_ok_similar.
Qed.

Lemma cleaner_acyclic m m' : cleaner m m' → acyclic m → acyclic m'.
Proof. intros Hc Ha a b Hb. eapply Ha, cleaner_pointer; done. Qed.

(** Less is touched as memory is emptied. *)
Lemma touched_cleaner m m' t a x : cleaner m m' → touched m' t a x → touched m t a x.
Proof.
  intros Hc. induction 1.
  - by apply touched_leaf.
  - eapply touched_map; [done|]. by eapply cleaner_map.
  - eapply touched_pointer; [done| |done]. by eapply cleaner_pointer.
  - by eapply touched_index.
  - by eapply touched_zeroed.
  - by eapply touched_field.
  - by eapply touched_hand.
  - by eapply touched_promoted.
Qed.

(** What [Reset] empties of a variable, to a given depth: fields it can name,
    behind pointers too; the whole of a structure that has no [Reset].  A method
    written by hand does what it does, to its own receiver and in the variables
    that it disturbs. *)
Fixpoint cleared (depth : nat) (m : memory) (t : ty) (a : addr) : Prop :=
  match depth with
  | O => True
  | S depth =>
      match Underlying U t with
      | Struct fields =>
          match M t with
          | Some (Own (Generated _)) =>
              ∀ name t', (name, t') ∈ fields → name ≠ "_" → cleared depth m t' (sub a (SField name))
          | Some (Own (HandWritten _)) => True
          | Some (Promoted embedded field) => cleared depth m field (path a embedded)
          | None => ∀ b v, inside a b → leaves m !! b = Some v → v = zero_leaf v ∨ disturbed (inl b)
          end
      | Array len elem => ∀ k, k < len → cleared depth m elem (sub a (SIndex k))
      | Pointer elem =>
          disturbed (inl a) ∨ leaves m !! a = Some (LPointer None) ∨
          ∃ b, leaves m !! a = Some (LPointer (Some b)) ∧ cleared depth m elem b
      | Slice _ => disturbed (inl a) ∨ ∃ array cap, leaves m !! a = Some (LSlice array 0 cap)
      | Map _ _ =>
          disturbed (inl a) ∨ leaves m !! a = Some (LMap None) ∨
          ∃ l, leaves m !! a = Some (LMap (Some l)) ∧ (tables m !! l = Some [] ∨ disturbed (inr l))
      | _ => disturbed (inl a) ∨ ∃ v, leaves m !! a = Some v ∧ v = zero_leaf v
      end
  end.

(** What is cleared stays cleared. *)
Lemma cleared_cleaner depth m m' t a : cleaner m m' → cleared depth m t a → cleared depth m' t a.
Proof.
  intros Hc. revert t a. induction depth as [|depth IH]; intros t a; [done|]. cbn [cleared].
  assert (∀ v, leaves m !! a = Some v → disturbed (inl a) ∨ ∃ v', leaves m' !! a = Some v' ∧ emptied v v') as Hl.
  { intros v Ha. destruct (cleaner_leaf m m' a v Hc Ha) as (v' & Ha' & [He|[Hd _]]); eauto. }
  assert (disturbed (inl a) ∨ (∃ v, leaves m !! a = Some v ∧ v = zero_leaf v) →
    disturbed (inl a) ∨ ∃ v', leaves m' !! a = Some v' ∧ v' = zero_leaf v') as Hz.
  { intros [Hd|(v & [Hd|(v' & Ha & He)]%Hl & Hv)]; [by left..|]. right. exists v'. split; [done|]. by eapply emptied_zero. }
  destruct (Underlying U t) as [n i|elem|elem|k elem|fields|len elem|parts|pkg n]; [exact Hz| | | | | |exact Hz|exact Hz].
  - intros [Hd|[[Hd|(v' & Ha & He)]%Hl|(b & [Hd|(v' & Ha & He)]%Hl & Hb)]]; [by left..| |by left|].
    + right. left. destruct He as [->|[->|(? & ? & ? & [=] & _)]]; done.
    + right. destruct He as [->|[->|(? & ? & ? & [=] & _)]]; [right; exists b; auto|by left].
  - intros [Hd|(array & cap & [Hd|(v' & Ha & He)]%Hl)]; [by left..|]. right.
    destruct He as [->|[->|(? & ? & ? & [= -> -> ->] & ->)]]; eauto.
  - intros [Hd|[[Hd|(v' & Ha & He)]%Hl|(l & [Hd|(v' & Ha & He)]%Hl & Hb)]]; [by left..| |by left|].
    + right. left. destruct He as [->|[->|(? & ? & ? & [=] & _)]]; done.
    + right. destruct He as [->|[->|(? & ? & ? & [=] & _)]]; [|by left]. right. exists l. split; [done|].
      destruct Hb as [Hb|]; [|by right]. destruct (proj2 Hc l) as [->|]; auto.
  - destruct (M t) as [[[ops|f]|embedded field]|]; [by eauto|done|by eauto|].
    intros Hall b v' Hin Hb. destruct (cleaner_leaf_back m m' b v' Hc Hb) as (v & Hv & [He|[Hd _]]); [|by right].
    destruct (Hall b v Hin Hv); [|by right]. left. by eapply emptied_zero.
  - eauto.
Qed.

(** Execution at a place touches only variables inside it, and of smaller ranks. *)
Definition untouched (a : addr) (m m' : memory) : Prop :=
  ∀ b, rank a.1 ≤ rank b.1 → ¬ inside a b → leaves m' !! b = leaves m !! b.

Definition effect (a : addr) (m m' : memory) : Prop := cleaner m m' ∧ untouched a m m'.

(** Execution that is not at a place. *)
Definition elsewhere (a : addr) (m m' : memory) : Prop :=
  cleaner m m' ∧ ∀ b, inside a b → leaves m' !! b = leaves m !! b.

#[local] Instance effect_preorder a : PreOrder (effect a).
Proof.
  split; [by intros m|]. intros m1 m2 m3 [H1 U1] [H2 U2]. split; [by etrans|].
  intros b Hr Hb. by rewrite U2, U1.
Qed.
#[local] Instance elsewhere_preorder a : PreOrder (elsewhere a).
Proof.
  split; [by intros m|]. intros m1 m2 m3 [H1 U1] [H2 U2]. split; [by etrans|].
  intros b Hb. by rewrite U2, U1.
Qed.

Lemma effect_smaller a a' m m' : rank a'.1 < rank a.1 → effect a' m m' → effect a m m'.
Proof.
  intros Hr [Hc Hu]. split; [done|]. intros b Hb _. apply Hu; [lia|]. intros [Heq _].
  assert (rank b.1 = rank a'.1) by congruence. lia.
Qed.

Lemma effect_part a a' m m' : a'.1 = a.1 → (∀ b, inside a' b → inside a b) → effect a' m m' → effect a m m'.
Proof. intros Hl Hi [Hc Hu]. split; [done|]. intros b Hr Hb. apply Hu; [by rewrite Hl|]. auto. Qed.

Lemma effect_sub a s m m' : effect (sub a s) m m' → effect a m m'.
Proof. apply effect_part; [done|]. intros b. apply inside_sub. Qed.

Lemma effect_elsewhere a s z m m' : effect (sub a s) m m' → z ≠ s → elsewhere (sub a z) m m'.
Proof.
  intros [Hc Hu] Hne. split; [done|]. intros b Hi. apply Hu; [by rewrite (proj1 Hi)|].
  intros Hs. by apply Hne, (inside_sub_inj a z s b).
Qed.

(** An effect, from the cells that change. *)
Lemma effect_within a m m' (T : cell → Prop) :
  cleaner m m' → within T m m' → (∀ b, T (inl b) → inside a b ∨ rank b.1 < rank a.1) → effect a m m'.
Proof.
  intros Hc [Hl _] HT. split; [done|]. intros b Hr Hb.
  destruct (Hl b) as [|[|]%HT]; [done|done|lia].
Qed.

(** A place keeps its address while smaller ranks, or its own location, change. *)
Lemma locate_stable m m' rs env e a :
  acyclic m → locate m rs env e = Some a →
  (∀ b, rank a.1 < rank b.1 → leaves m' !! b = leaves m !! b) → locate m' rs env e = Some a.
Proof.
  intros Hacy. revert a. induction e as [name|e IH|e IH i]; intros a; cbn [locate]; [done| |].
  - intros (b & Hb & H)%bind_Some Hsame.
    destruct (leaves m !! b) as [[| | | |[c|]| | |]|] eqn:Hl; try done. injection H as ->.
    pose proof (Hacy _ _ Hl) as Hr. rewrite (IH b Hb).
    + cbn. by rewrite Hsame, Hl.
    + intros c Hc. apply Hsame. lia.
  - intros (b & Hb & (k & Hk & [= <-])%bind_Some)%bind_Some Hsame.
    rewrite (IH b Hb) by done. cbn. by rewrite Hk.
Qed.

Lemma locate_effect m m' rs env e a :
  acyclic m → locate m rs env e = Some a → effect a m m' → locate m' rs env e = Some a.
Proof.
  intros Hacy Ha [_ Hu]. eapply locate_stable; [done..|]. intros b Hb. apply Hu; [lia|].
  intros [Heq _]. assert (rank b.1 = rank a.1) by congruence. lia.
Qed.

(** The index variables of a place are older than the next one. *)
Fixpoint indices_below (n : nat) (e : place) : Prop :=
  match e with
  | Field _ => True
  | Deref e => indices_below n e
  | Index e i => i < n ∧ indices_below n e
  end.

Lemma locate_env m rs env e n k : indices_below n e → locate m rs (<[n := k]> env) e = locate m rs env e.
Proof.
  induction e as [name|e IH|e IH i]; cbn [indices_below locate]; [done| |].
  - intros Hb. by rewrite IH.
  - intros [Hi Hb]. rewrite IH by done. destruct (locate m rs env e); [|done]. cbn.
    by rewrite lookup_insert_ne by lia.
Qed.

Lemma indices_below_mono n n' e : n ≤ n' → indices_below n e → indices_below n' e.
Proof. intros Hle. induction e; cbn; intros; naive_solver lia. Qed.

(** The variables that a variable owns: fields that can be named, of structures
    with a generated [Reset], the embedded field a promoted one works on, and
    elements of arrays. *)
Inductive owned : ty → addr → ty → addr → Prop :=
| owned_here t a : owned t a t a
| owned_field t a fields ops name t' s b :
    Underlying U t = Struct fields → M t = Some (Own (Generated ops)) → (name, t') ∈ fields → name ≠ "_" →
    owned t' (sub a (SField name)) s b → owned t a s b
| owned_embedded t a fields embedded field s b :
    Underlying U t = Struct fields → M t = Some (Promoted embedded field) →
    owned field (path a embedded) s b → owned t a s b
| owned_index t a len elem k s b :
    Underlying U t = Array len elem → k < len → owned elem (sub a (SIndex k)) s b → owned t a s b.

(** Allocations are retained: slices keep their array, pointers and maps stay. *)
Definition kept (t : ty) (v v' : option leaf) : Prop :=
  match t with
  | Slice _ => ∀ array n cap, v = Some (LSlice array n cap) → v' = Some (LSlice array 0 cap)
  | Pointer _ | Map _ _ => v' = v
  | _ => True
  end.

Definition retained (m m' : memory) (t : ty) (a : addr) : Prop :=
  ∀ s b, owned t a s b → kept (Underlying U s) (leaves m !! b) (leaves m' !! b).

Lemma owned_inside t a s b : owned t a s b → inside a b.
Proof. induction 1; [done|by eapply inside_sub|by eapply inside_path|by eapply inside_sub]. Qed.

(** What [Reset] does to a variable of a type. *)
Definition emptied_place (m m' : memory) (t : ty) (a : addr) : Prop :=
  (∀ depth, cleared depth m' t a) ∧ retained m m' t a.

Definition resets (m m' : memory) (t : ty) (a : addr) : Prop :=
  effect a m m' ∧ within (touched m t a) m m' ∧ emptied_place m m' t a.

Lemma emptied_place_frame m m1 m2 m' t a :
  elsewhere a m m1 → emptied_place m1 m2 t a → elsewhere a m2 m' → emptied_place m m' t a.
Proof.
  intros [_ H1] [Hc Hr] [Hcl H2]. split.
  - intros depth. by eapply cleared_cleaner.
  - intros s b Ho. pose proof (owned_inside _ _ _ _ Ho) as Hi. rewrite (H2 b Hi), <-(H1 b Hi). by apply Hr.
Qed.

(** A memory on which a loop or a body can go on. *)
Definition proper (m : memory) : Prop := well_typed U Σ m ∧ acyclic m.

Lemma proper_cleaner m m' : cleaner m m' → proper m → proper m'.
Proof. intros Hc [Hw Ha]. split; [by eapply cleaner_well_typed|by eapply cleaner_acyclic]. Qed.

Lemma proper_effect a m m' : proper m → effect a m m' → proper m'.
Proof. intros Hp [Hc _]. by eapply proper_cleaner. Qed.

(** Two ways to do the steps of a sequence, which work on different parts of a
    place and all end with the same memory: the sequence ends, either way. *)
Lemma run_each_total {A} (F G : nat → A → memory → option memory) (a : addr) (part : A → sel) (typ : A → ty)
    (ok : memory → Prop) xs :
  NoDup (part <$> xs) →
  (∀ m m', ok m → effect a m m' → ok m') →
  (∀ x m, x ∈ xs → ok m →
    ∃ N m', (∀ n, N ≤ n → F n x m = Some m' ∧ G n x m = Some m') ∧ resets m m' (typ x) (sub a (part x))) →
  ∀ m, ok m → ∃ N m',
    (∀ n, N ≤ n → run_each (F n) xs m = Some m' ∧ run_each (G n) xs m = Some m') ∧ effect a m m' ∧
    (∀ z, z ∉ part <$> xs → elsewhere (sub a z) m m') ∧
    within (λ y, ∃ x, x ∈ xs ∧ touched m (typ x) (sub a (part x)) y) m m' ∧
    ∀ x, x ∈ xs → emptied_place m m' (typ x) (sub a (part x)).
Proof.
  intros Hnd Hok. induction xs as [|x xs IH]; intros Hstep m Hm.
  { exists 0, m. do 3 (split; [done|]). split; [apply within_refl|]. by intros x ?%not_elem_of_nil. }
  apply NoDup_cons in Hnd as [Hx Hnd].
  destruct (Hstep x m (list_elem_of_here _ _) Hm) as (N1 & m1 & H1 & E1 & W1 & G1).
  pose proof (effect_sub _ _ _ _ E1) as E1'.
  destruct (IH Hnd ltac:(intros y m' Hy; apply Hstep; by apply list_elem_of_further) m1 (Hok _ _ Hm E1'))
    as (N2 & m2 & H2 & E2 & O2 & W2 & G2).
  exists (N1 `max` N2), m2. split; [|split; [by etrans|split; [|split]]].
  - intros n Hn. cbn. destruct (H1 n ltac:(lia)) as [-> ->]. cbn. apply H2. lia.
  - intros z [Hz1 Hz2]%not_elem_of_cons. etrans; [by eapply effect_elsewhere|by apply O2].
  - eapply within_trans; (eapply within_mono; [eassumption|]).
    + intros y Hy. exists x. split; [apply list_elem_of_here|done].
    + intros y (z & Hz & Hy). exists z. split; [by apply list_elem_of_further|].
      eapply touched_cleaner; [apply E1|done].
  - intros y [->|Hy]%elem_of_cons.
    + eapply emptied_place_frame; [done|exact G1|by apply O2].
    + eapply emptied_place_frame; [|by apply G2|done]. eapply effect_elsewhere; [done|].
      intros Heq. apply Hx. rewrite <-Heq. by apply list_elem_of_fmap_2.
Qed.

(** ** The reference: what [Reset] does to a variable, by its type *)
Fixpoint reset_value (fuel : nat) (t : ty) (a : addr) (m : memory) : option memory :=
  match fuel with
  | O => None
  | S fuel =>
      match Underlying U t with
      | Basic _ _ => v ← leaves m !! a; Some (set_leaf a (zero_leaf v) m)
      | Pointer elem =>
          match leaves m !! a with
          | Some (LPointer None) => Some m
          | Some (LPointer (Some b)) => reset_value fuel elem b m
          | _ => None
          end
      | Slice _ =>
          match leaves m !! a with
          | Some (LSlice array _ cap) => Some (set_leaf a (LSlice array 0 cap) m)
          | _ => None
          end
      | Map _ _ =>
          match leaves m !! a with
          | Some (LMap None) => Some m
          | Some (LMap (Some l)) => Some (mkMemory (leaves m) (<[l := []]> (tables m)))
          | _ => None
          end
      | Struct fields =>
          match M t with
          | None => Some (zero_under a m)
          | Some (Own (Generated _)) =>
              run_each (λ f : string * ty, reset_value fuel f.2 (sub a (SField f.1)))
                (filter (λ f : string * ty, f.1 ≠ "_") fields) m
          | Some (Own (HandWritten f)) => f (Some a) m
          | Some (Promoted embedded field) => reset_value fuel field (path a embedded) m
          end
      | Array len elem => run_each (λ k, reset_value fuel elem (sub a (SIndex k))) (seq 0 len) m
      | Other _ | Named _ _ => Some (zero_under a m)
      end
  end.

(** The operations of a body, with their fields. *)
Lemma operations_fields fuel g fields g' ops :
  operations U fuel g fields = Some (g', ops) →
  ∃ l : list (string * ty * resetOperation), ops = l.*2 ∧ l.*1 = filter (λ f : string * ty, f.1 ≠ "_") fields ∧
    ∀ x, x ∈ l → ∃ g1 g2, reset U fuel g1 (Field x.1.1) x.1.2 = Some (g2, x.2).
Proof.
  revert g ops. induction fields as [|[name t] fields IH]; intros g ops; cbn [operations].
  - intros [= <- <-]. exists []. split; [done|]. split; [done|]. by intros x ?%not_elem_of_nil.
  - rewrite filter_cons. case_decide as Hname.
    + intros Hops. rewrite decide_False by (cbn; by intros []). by eapply IH.
    + intros ([g1 op] & Hop & ([g2 ops'] & Hops & [= <- <-])%bind_Some)%bind_Some.
      rewrite decide_True by done.
      destruct (IH _ _ Hops) as (l & -> & Hl & H1). exists (((name, t), op) :: l).
      split; [done|]. split; [cbn; by rewrite Hl|].
      intros x [->|Hx]%elem_of_cons; [by eexists _, _|by apply H1].
Qed.

Lemma run_each_fmap {A B} (g : A → B) (f : B → memory → option memory) l m :
  run_each f (g <$> l) m = run_each (λ x, f (g x)) l m.
Proof. revert m. induction l as [|x l IH]; intros m; [done|]. cbn. destruct (f (g x) m); [|done]. apply IH. Qed.

(** A variable that owns only itself. *)
Lemma retained_leaf m m' t a :
  (∀ fields, Underlying U t = Struct fields → M t = None ∨ ∃ f, M t = Some (Own (HandWritten f))) →
  (∀ len elem, Underlying U t ≠ Array len elem) →
  kept (Underlying U t) (leaves m !! a) (leaves m' !! a) → retained m m' t a.
Proof. intros Hs Ha Hk s b Ho. destruct Ho; [done|..]; naive_solver. Qed.

(** The operation generated for a place runs on it, as the reference does. *)
Definition runs (op : resetOperation) (rs : addr) (env : gmap nat nat) (t : ty) (a : addr) (m : memory) : Prop :=
  ∃ N m', (∀ n, N ≤ n → exec n M rs env op m = Some m' ∧ reset_value n t a m = Some m') ∧ resets m m' t a.

Definition runs_on (r : nat) (t : ty) : Prop :=
  ∀ fuel g e g' op rs env a m,
    reset U fuel g e t = Some (g', op) → indices_below (index g) e → locate m rs env e = Some a →
    has_place U Σ a t → proper m → rank a.1 = r → runs op rs env t a m.

(** One assignment, or none. *)
Lemma runs_step op rs env t a m m1 (T : cell → Prop) :
  (∀ n, exec (S n) M rs env op m = Some m1) → (∀ n, reset_value (S n) t a m = Some m1) →
  cleaner m m1 → within T m m1 → (∀ x, T x → touched m t a x) → (∀ b, T (inl b) → inside a b) →
  (∀ depth, cleared depth m1 t a) → retained m m1 t a → runs op rs env t a m.
Proof.
  intros Hx Hy Hcl Hw HT Hin Hc Hr. exists 1, m1.
  split; [intros [|n] Hn; [lia|]; split; [apply Hx|apply Hy]|].
  split; [|split; [by eapply within_mono|done]]. eapply effect_within; [done..|]. auto.
Qed.

(** A place whose operation does not depend on what is behind it. *)
Ltac run_step m1 T Ht Ha Hv :=
  apply (runs_step _ _ _ _ _ _ m1 T);
  [ intros ?; cbn [exec]; rewrite Ha; cbn; rewrite ?Hv; cbn
  | intros ?; cbn [reset_value]; rewrite Ht, ?Hv
  | | | | | intros [|depth]; [done|]; cbn [cleared]; rewrite Ht
  | apply retained_leaf; [by rewrite Ht|by rewrite Ht|rewrite Ht] ].

Definition only (a : addr) (x : cell) : Prop := x = inl a.

Lemma runs_basic rs env e t a m name i :
  Underlying U t = Basic name i → locate m rs env e = Some a → has_place U Σ a t → well_typed U Σ m →
  runs (OpBasic e (basic_value i)) rs env t a m.
Proof.
  intros Ht Ha Hp Hw. destruct (Hw a t Hp) as (v & Hv & Hok); [by rewrite Ht|]. rewrite Ht in Hok.
  assert (literal_value (basic_value i) v = Some (zero_leaf v)) as Hl by (by destruct i, v).
  run_step (set_leaf a (zero_leaf v) m) (only a) Ht Ha Hv; [by rewrite Hl|done|..].
  - eapply cleaner_set; [done|]. by right; left.
  - by apply within_set.
  - intros ? ->. apply touched_leaf. by rewrite Ht.
  - by intros ? [= ->].
  - right. exists (zero_leaf v). cbn. rewrite lookup_insert_eq. split; [done|by destruct v].
  - done.
Qed.

Lemma runs_slice rs env e t a m elem :
  Underlying U t = Slice elem → locate m rs env e = Some a → has_place U Σ a t → well_typed U Σ m →
  runs (OpSlice e) rs env t a m.
Proof.
  intros Ht Ha Hp Hw. destruct (Hw a t Hp) as (v & Hv & Hok); [by rewrite Ht|]. rewrite Ht in Hok.
  destruct v as [| | | | |array n cap| |]; try done.
  run_step (set_leaf a (LSlice array 0 cap) m) (only a) Ht Ha Hv; [done|done|..].
  - eapply cleaner_set; [done|]. right. right. by eexists _, _, _.
  - by apply within_set.
  - intros ? ->. apply touched_leaf. by rewrite Ht.
  - by intros ? [= ->].
  - right. exists array, cap. cbn. by rewrite lookup_insert_eq.
  - intros array' n' cap'. rewrite Hv. intros [= <- <- <-]. cbn. by rewrite lookup_insert_eq.
Qed.

Lemma runs_map rs env e t a m key elem :
  Underlying U t = Map key elem → locate m rs env e = Some a → has_place U Σ a t → well_typed U Σ m →
  runs (OpMap e) rs env t a m.
Proof.
  intros Ht Ha Hp Hw. destruct (Hw a t Hp) as (v & Hv & Hok); [by rewrite Ht|]. rewrite Ht in Hok.
  destruct v as [| | | | | |[l|]|]; try done.
  - run_step (mkMemory (leaves m) (<[l := []]> (tables m))) (λ x : cell, x = inr l) Ht Ha Hv; [done|done|..].
    + apply cleaner_table.
    + split; [by left|]. intros l'. cbn. rewrite lookup_insert. case_decide; [subst l'; by right|by left].
    + intros ? ->. by eapply touched_map.
    + done.
    + right. right. exists l. split; [done|]. left. cbn. by rewrite lookup_insert_eq.
    + done.
  - run_step m (λ x : cell, False) Ht Ha Hv; [done|done|done|apply within_refl|done|done| |done].
    right. by left.
Qed.

(** The zero value of a whole variable. *)
Lemma zero_under_zero a m b v : inside a b → leaves (zero_under a m) !! b = Some v → v = zero_leaf v.
Proof.
  intros Hin. cbn. rewrite map_lookup_imap. destruct (leaves m !! b) as [w|]; [|done]. cbn.
  rewrite decide_True by done. intros [= <-]. by destruct w.
Qed.

Definition part_of (a : addr) (x : cell) : Prop := match x with inl b => inside a b | inr _ => False end.

Lemma runs_zero rs env e name t a m :
  has_leaf (Underlying U t) → match Underlying U t with Other _ | Named _ _ => True | _ => False end →
  locate m rs env e = Some a → has_place U Σ a t → well_typed U Σ m →
  runs (OpZero e name t) rs env t a m.
Proof.
  intros Hl Ht Ha Hp Hw. destruct (Hw a t Hp Hl) as (v & Hv & _).
  assert (leaves (zero_under a m) !! a = Some (zero_leaf v)) as Hz.
  { cbn. rewrite map_lookup_imap, Hv. cbn. by rewrite decide_True. }
  apply (runs_step _ _ _ _ _ _ (zero_under a m) (part_of a)).
  - intros n. cbn [exec]. by rewrite Ha.
  - intros n. cbn [reset_value]. by destruct (Underlying U t).
  - apply cleaner_zero.
  - by apply within_zero.
  - intros [b|l] Hb; [|done]. apply touched_zeroed; [by destruct (Underlying U t)|done].
  - done.
  - intros [|depth]; [done|]. cbn [cleared]. destruct (Underlying U t); try done;
      right; exists (zero_leaf v); (split; [done|by destruct v]).
  - apply retained_leaf; by destruct (Underlying U t).
Qed.

Lemma runs_plain_struct rs env e name t a m fields :
  Underlying U t = Struct fields → M t = None → locate m rs env e = Some a →
  runs (OpStruct e name t) rs env t a m.
Proof.
  intros Ht HM Ha. apply (runs_step _ _ _ _ _ _ (zero_under a m) (part_of a)).
  - intros n. cbn [exec]. rewrite Ha. cbn. by rewrite HM.
  - intros n. cbn [reset_value]. by rewrite Ht, HM.
  - apply cleaner_zero.
  - by apply within_zero.
  - intros [b|l] Hb; [|done]. apply touched_zeroed; [by rewrite Ht|done].
  - done.
  - intros [|depth]; [done|]. cbn [cleared]. rewrite Ht, HM. intros b v Hb Hv. left. by eapply zero_under_zero.
  - apply retained_leaf; [auto|by rewrite Ht|by rewrite Ht].
Qed.

(** A method written by hand. *)
Lemma hand_written_cleaner t f a m m' :
  M t = Some (Own (HandWritten f)) → has_place U Σ a t → within (footprint a) m m' →
  (∀ b, option_relation similar (λ _, False) (λ _, False) (leaves m !! b) (leaves m' !! b)) → cleaner m m'.
Proof.
  intros HM Hp [Hl Ht] Hs. assert (∀ x, footprint a x → disturbed x) as Hd by (intros x Hx; by exists a, t, f).
  split.
  - intros b. specialize (Hs b). destruct (Hl b) as [->|Hb%Hd].
    + destruct (leaves m !! b); cbn; [by left; left|done].
    + destruct (leaves m !! b), (leaves m' !! b); cbn in *; try done. by right.
  - intros l. destruct (Ht l) as [->|Hb%Hd]; auto.
Qed.

Lemma runs_hand_written rs env e name t a m fields f :
  Underlying U t = Struct fields → M t = Some (Own (HandWritten f)) →
  locate m rs env e = Some a → has_place U Σ a t → proper m →
  runs (OpStruct e name t) rs env t a m.
Proof.
  intros Ht HM Ha Hp [Hw Hacy]. destruct (methods_ok _ _ HM a m Hp Hw Hacy) as (m' & Hf & Hin & Hs).
  exists 1, m'. split; [intros [|n] Hn; [lia|]; split|].
  - cbn [exec]. rewrite Ha. cbn. by rewrite HM.
  - cbn [reset_value]. by rewrite Ht, HM.
  - pose proof (hand_written_cleaner _ _ _ _ _ HM Hp Hin Hs) as Hc. split; [|split; [|split]].
    + by apply (effect_within _ _ _ (footprint a)); [done..|apply footprint_local].
    + eapply within_mono; [done|]. intros x Hx. by eapply touched_hand.
    + intros [|depth]; [done|]. cbn [cleared]. by rewrite Ht, HM.
    + apply retained_leaf; [eauto|by rewrite Ht|by rewrite Ht].
Qed.

(** A body runs on a receiver, if the operations of its fields do. *)
Lemma body_runs r t fields fuel g g' ops a m :
  (∀ t', contains t' t → runs_on r t') →
  Underlying U t = Struct fields → M t = Some (Own (Generated ops)) → operations U fuel g fields = Some (g', ops) →
  has_place U Σ a t → proper m → rank a.1 = r →
  ∃ N m', (∀ n, N ≤ n → run_each (exec n M a ∅) ops m = Some m' ∧ reset_value (S n) t a m = Some m') ∧
    resets m m' t a.
Proof.
  intros IH Ht HM Hops Hp Hm Hr. destruct (operations_fields _ _ _ _ _ Hops) as (l & Hl2 & Hl & Hres).
  assert (∀ name t', (name, t') ∈ fields → name ≠ "_" → ∃ op, ((name, t'), op) ∈ l) as Hall.
  { intros name t' Hin Hn. assert ((name, t') ∈ l.*1) as ([[] op] & [= -> ->] & Hx)%list_elem_of_fmap.
    { rewrite Hl. by apply list_elem_of_filter. } by exists op. }
  assert (∀ x, x ∈ l → x.1 ∈ fields ∧ x.1.1 ≠ "_") as Hback.
  { intros x Hin%(list_elem_of_fmap_2 fst). rewrite Hl in Hin. by apply list_elem_of_filter in Hin as [??]. }
  destruct (run_each_total (λ n (x : string * ty * resetOperation), exec n M a ∅ x.2)
    (λ n x, reset_value n x.1.2 (sub a (SField x.1.1))) a (λ x, SField x.1.1) (λ x, x.1.2) proper l)
    with (m := m) as (N & m' & Hx & He & _ & Hw & Hc).
  - assert (NoDup (SField <$> l.*1.*1)) as Hnd.
    { apply (NoDup_fmap_2 SField). rewrite Hl. eapply distinct_fields; [by rewrite HM|done]. }
    by rewrite <-!list_fmap_compose in Hnd.
  - apply proper_effect.
  - intros x m1 Hin Hm1. destruct (Hres x Hin) as (g1 & g2 & Hx). destruct (Hback x Hin) as [Hf _].
    destruct x as [[name t'] op].
    assert (contains t' t) as Hc' by (unfold contains; rewrite Ht; by exists name).
    apply (IH t' Hc' fuel g1 (Field name) g2 op a ∅ (sub a (SField name)) m1); try done.
    by eapply place_field.
  - done.
  - exists N, m'. split; [|split; [done|split; [|split]]].
    + intros n Hn. destruct (Hx n Hn) as [Hx1 Hx2]. split; [by rewrite Hl2, run_each_fmap|].
      cbn [reset_value]. by rewrite Ht, HM, <-Hl, run_each_fmap.
    + eapply within_mono; [done|]. intros y ([[name t'] op] & [Hf Hn]%Hback & Hy). by eapply touched_field.
    + intros [|depth]; [done|]. cbn [cleared]. rewrite Ht, HM.
      intros name t' Hin Hn. destruct (Hall _ _ Hin Hn) as [op Hop]. apply (Hc _ Hop).
    + intros s b Ho. destruct Ho as [|? ? ? ? name t' s b Ht' _ Hin Hn Ho| |]; [by rewrite Ht| |congruence..].
      rewrite Ht in Ht'. injection Ht' as <-. destruct (Hall _ _ Hin Hn) as [op Hop]. by apply (Hc _ Hop).
Qed.

Lemma runs_method r rs env e name t a m fields ops :
  (∀ t', contains t' t → runs_on r t') →
  Underlying U t = Struct fields → M t = Some (Own (Generated ops)) →
  locate m rs env e = Some a → has_place U Σ a t → proper m → rank a.1 = r →
  runs (OpStruct e name t) rs env t a m.
Proof.
  intros IH Ht HM Ha Hp Hm Hr. destruct (methods_ok _ _ HM) as (fields' & fuel & g & g' & Ht' & Hops).
  destruct (body_runs r t fields' fuel g g' ops a m IH Ht' HM Hops Hp Hm Hr) as (N & m' & Hx & He).
  exists (S N), m'. split; [|done].
  intros [|n] Hn; [lia|]. destruct (Hx n ltac:(lia)) as [Hx1 Hx2]. split; [|done].
  cbn [exec]. rewrite Ha. cbn. by rewrite HM.
Qed.

(** A promoted method: as on the embedded field itself. *)
Lemma embeds_contains t names field : embeds t names field → clos_trans ty contains field t.
Proof.
  induction 1 as [t fields name field Ht Hin|t fields name t' names field Ht Hin _ IH].
  - apply t_step. unfold contains. rewrite Ht. by exists name.
  - eapply t_trans; [exact IH|]. apply t_step. unfold contains. rewrite Ht. by exists name.
Qed.

Lemma embeds_place t names field a : embeds t names field → has_place U Σ a t → has_place U Σ (path a names) field.
Proof.
  intros H. revert a. induction H as [t fields name field Ht Hin|t fields name t' names field Ht Hin _ IH]; intros a Hp.
  - by eapply place_field.
  - apply IH. by eapply place_field.
Qed.

Lemma embeds_last t names field a : embeds t names field → ∃ a' name, path a names = sub a' (SField name).
Proof. intros H. revert a. induction H; intros a; [by eexists a, _|apply IHembeds]. Qed.

(** The operation that an embedded field would have makes the call. *)
Definition promoted_call (n : nat) (a : addr) (field : ty) (m : memory) : option memory :=
  '(t', r) ← receiver m a field;
  match M t' with
  | Some (Own b) => call (λ r, exec n M r ∅) b r m
  | _ => None
  end.

Lemma embedded_operation t embedded field rs name :
  method_ok t (Promoted embedded field) →
  ∃ g op k, reset U 2 (mkGenerator "" "" [] ∅ 0) (Field name) field = Some (g, op) ∧
    ∀ n m m', exec (k + n) M rs ∅ op m = Some m' → promoted_call n (sub rs (SField name)) field m = Some m'.
Proof.
  intros [_ Hf]. destruct field as [|t'| | |fs| | |pkg s].
  2: { destruct Hf as ((fields & Ht) & b & HM & Hb). destruct (typeName (mkGenerator "" "" [] ∅ 0) t') as [g s] eqn:Hty.
    exists g, (OpPointer (Field name) (OpStruct (Deref (Field name)) s t')), 2.
    split; [cbn; by rewrite Ht, Hty|]. intros n m m'. unfold promoted_call. cbn. intros Hx.
    destruct (leaves m !! _) as [[| | | |[c|]| | |]|]; try done; cbn in *; rewrite HM in *; [done|]. destruct b; [done|].
    cbn. by rewrite Hb. }
  all: destruct Hf as ((fields & Ht) & b & HM); try done.
  - destruct (typeName (mkGenerator "" "" [] ∅ 0) (Struct fs)) as [g s] eqn:Hty.
    exists g, (OpStruct (Field name) s (Struct fs)), 1. split; [by cbn [reset Underlying]; rewrite Hty|].
    intros n m m'. unfold promoted_call. cbn. by rewrite HM.
  - destruct (typeName (mkGenerator "" "" [] ∅ 0) (Named pkg s)) as [g s'] eqn:Hty.
    exists g, (OpStruct (Field name) s' (Named pkg s)), 1. split; [cbn [reset]; by rewrite Ht, Hty|].
    intros n m m'. unfold promoted_call. cbn. by rewrite HM.
Qed.

Lemma runs_promoted r rs env e name t a m fields embedded field :
  (∀ t', clos_trans ty contains t' t → runs_on r t') →
  Underlying U t = Struct fields → M t = Some (Promoted embedded field) →
  locate m rs env e = Some a → has_place U Σ a t → proper m → rank a.1 = r →
  runs (OpStruct e name t) rs env t a m.
Proof.
  intros IH Ht HM Ha Hp Hm Hr. pose proof (methods_ok _ _ HM) as Hok. pose proof (proj1 Hok) as Hemb.
  destruct (embeds_last _ _ _ a Hemb) as (a' & f & Hpath).
  destruct (embedded_operation _ _ _ a' f Hok) as (g & op & k & Hres & Hcall).
  pose proof (path_loc a embedded) as Hloc.
  destruct (IH field (embeds_contains _ _ _ Hemb) 2 _ (Field f) g op a' ∅ (path a embedded) m Hres)
    as (N & m' & Hx & He & Hw & Hc & Hk); [done|by rewrite Hpath|by eapply embeds_place|done|by rewrite Hloc|].
  exists (S N), m'. split; [|split; [|split; [|split]]].
  - intros [|n] Hn; [lia|]. split.
    + cbn [exec]. rewrite Ha. cbn. rewrite HM, Hpath. apply (Hcall n), Hx. lia.
    + cbn [reset_value]. rewrite Ht, HM. apply Hx. lia.
  - eapply effect_part; [exact Hloc| |done]. intros b. apply inside_path.
  - eapply within_mono; [done|]. intros x Hx'. by eapply touched_promoted.
  - intros [|depth]; [done|]. cbn [cleared]. rewrite Ht, HM. apply Hc.
  - intros s b Ho. destruct Ho as [| |? ? ? embedded' field' s b _ HM' Ho|]; [by rewrite Ht|congruence| |congruence].
    rewrite HM in HM'. injection HM' as <- <-. by apply Hk.
Qed.

Lemma runs_array r fuel g e g' child len elem rs env t a m :
  runs_on r elem → Underlying U t = Array len elem →
  reset U fuel (next_index g) (Index e (index g)) elem = Some (g', child) →
  indices_below (index g) e → locate m rs env e = Some a → has_place U Σ a t → proper m → rank a.1 = r →
  runs (OpArray e (index g) len child) rs env t a m.
Proof.
  intros IH Ht Hres Hb Ha Hp Hm Hr.
  destruct (run_each_total (λ n k m, exec n M rs (<[index g := k]> env) child m)
    (λ n k, reset_value n elem (sub a (SIndex k))) a SIndex (λ _, elem)
    (λ m, proper m ∧ locate m rs env e = Some a) (seq 0 len)) with (m := m) as (N & m' & Hx & He & _ & Hw & Hc).
  - apply (NoDup_fmap_2 SIndex), NoDup_seq.
  - intros m1 m2 [Hm1 Ha1] He. split; [by eapply proper_effect|]. eapply locate_effect; [apply Hm1|done|done].
  - intros k m1 Hk [Hm1 Ha1]. apply elem_of_seq in Hk.
    apply (IH fuel (next_index g) (Index e (index g)) g' child rs (<[index g := k]> env) (sub a (SIndex k)));
      try done.
    + cbn. split; [lia|]. eapply indices_below_mono; [|done]. lia.
    + cbn [locate]. rewrite locate_env by done. rewrite Ha1. cbn. by rewrite lookup_insert_eq.
    + eapply place_index; [done..|lia].
  - done.
  - exists (S N), m'. split; [|split; [done|split; [|split]]].
    + intros [|n] Hn; [lia|]. cbn [exec reset_value]. rewrite Ht. apply Hx. lia.
    + eapply within_mono; [done|]. intros y (k & [_ Hk]%elem_of_seq & Hy). by eapply touched_index.
    + intros [|depth]; [done|]. cbn [cleared]. rewrite Ht. intros k Hk. apply Hc, elem_of_seq. lia.
    + intros s b Ho. destruct Ho as [| | |? ? len' elem' k s b Ht' Hk Ho]; [by rewrite Ht|congruence..|].
      rewrite Ht in Ht'. injection Ht' as <- <-. apply (Hc k); [|done]. apply elem_of_seq. lia.
Qed.

Lemma runs_pointer r fuel g e g' child elem rs env t a m :
  (∀ r', r' < r → runs_on r' elem) → Underlying U t = Pointer elem →
  reset U fuel g (Deref e) elem = Some (g', child) →
  indices_below (index g) e → locate m rs env e = Some a → has_place U Σ a t → proper m → rank a.1 = r →
  runs (OpPointer e child) rs env t a m.
Proof.
  intros IH Ht Hres Hb Ha Hp [Hw Hacy] Hr. destruct (Hw a t Hp) as (v & Hv & Hok); [by rewrite Ht|].
  rewrite Ht in Hok. destruct v as [| | | |[b|]| | |]; try done.
  - assert (rank b.1 < rank a.1) as Hlt by (by eapply Hacy).
    destruct (IH (rank b.1) ltac:(lia) fuel g (Deref e) g' child rs env b m)
      as (N & m' & Hx & He & Hin & Hc & _); try done.
    { cbn. rewrite Ha. cbn. by rewrite Hv. }
    { by apply Hok. }
    assert (leaves m' !! a = leaves m !! a) as Hsame.
    { apply He; [lia|]. intros [Heq _]. rewrite Heq in Hlt. lia. }
    exists (S N), m'. split; [|split; [|split; [|split]]].
    + intros [|n] Hn; [lia|]. cbn [exec reset_value]. rewrite Ha. cbn. rewrite Ht, Hv. apply Hx. lia.
    + by eapply effect_smaller.
    + eapply within_mono; [done|]. intros x Hx'. by eapply touched_pointer.
    + intros [|depth]; [done|]. cbn [cleared]. rewrite Ht. right. right. exists b. by rewrite Hsame.
    + apply retained_leaf; [by rewrite Ht|by rewrite Ht|by rewrite Ht].
  - run_step m (λ x : cell, False) Ht Ha Hv; [done|done|done|apply within_refl|done|done| |done].
    right. by left.
Qed.

(** Every generated operation ends on its place. *)
Lemma reset_runs r t : runs_on r t.
Proof.
  revert t. induction (lt_wf r) as [r _ IHr]. intros t.
  induction (Acc_clos_trans _ _ _ (finite_types t)) as [t _ IHt].
  intros fuel g e g' op rs env a m Hres Hb Ha Hp Hm Hr. pose proof Hm as [Hw Hacy].
  destruct fuel as [|fuel]; [done|]. cbn [reset] in Hres.
  destruct (Underlying U t) as [name i|elem|elem|key elem|fields|len elem|parts|pkg name] eqn:Ht.
  - injection Hres as <- <-. by eapply runs_basic.
  - apply bind_Some in Hres as ([g1 child] & Hres & [= <- <-]).
    eapply runs_pointer; [|done..]. intros r' Hlt. by apply IHr.
  - injection Hres as <- <-. by eapply runs_slice.
  - injection Hres as <- <-. by eapply runs_map.
  - destruct (typeName g t) as [g1 s]. injection Hres as <- <-.
    destruct (M t) as [[[ops|f]|embedded field]|] eqn:HM.
    + eapply runs_method; [|done..]. intros t' Ht'. by apply IHt, t_step.
    + by eapply runs_hand_written.
    + by eapply runs_promoted.
    + by eapply runs_plain_struct.
  - apply bind_Some in Hres as ([g1 child] & Hres & [= <- <-]).
    eapply runs_array; [|done..]. apply IHt, t_step. unfold contains. by rewrite Ht.
  - destruct (typeName g t) as [g1 s]. injection Hres as <- <-.
    apply runs_zero; [by rewrite Ht|by rewrite Ht|done..].
  - destruct (typeName g t) as [g1 s]. injection Hres as <- <-.
    apply runs_zero; [by rewrite Ht|by rewrite Ht|done..].
Qed.

(** A generated method on a receiver. *)
Lemma Reset_resets t ops a m :
  M t = Some (Own (Generated ops)) → has_place U Σ a t → proper m →
  ∃ N m', (∀ n, N ≤ n → Reset n M ops (Some a) m = Some m' ∧ reset_value (S n) t a m = Some m') ∧
    resets m m' t a.
Proof.
  intros HM Hp Hm. destruct (methods_ok _ _ HM) as (fields & fuel & g & g' & Ht & Hops).
  eapply body_runs; [|done..]. intros t' _. apply reset_runs.
Qed.

(** C24: a generated [Reset] called on a variable of a marked structure, with
    whatever is behind its pointers short of a cycle, and whatever methods other
    structures have, generated, promoted or written by hand, ends with one memory.
    The variable's fields are then empty at every depth; slices, pointers and maps
    that it owns are the same allocations; only cells that it reaches change; and
    these are emptied, but for what a method written by hand gives its own.  A nil
    receiver is left alone. *)
Theorem Reset_correct t ops a m :
  M t = Some (Own (Generated ops)) → has_place U Σ a t → well_typed U Σ m → acyclic m →
  (∀ n, Reset n M ops None m = Some m) ∧
  ∃ N m', (∀ n, N ≤ n → Reset n M ops (Some a) m = Some m') ∧
    (∀ depth, cleared depth m' t a) ∧ retained m m' t a ∧ within (touched m t a) m m' ∧ cleaner m m' ∧
    well_typed U Σ m'.
Proof.
  intros HM Hp Hw Hacy. split; [done|].
  destruct (Reset_resets t ops a m HM Hp (conj Hw Hacy)) as (N & m' & Hx & He & Hin & Hc & Hr).
  exists N, m'. split; [intros n Hn; by apply Hx|]. do 3 (split; [done|]).
  split; [apply He|]. eapply cleaner_well_typed; [apply He|done].
Qed.

(** C28: the generated code does what the types say: it ends, and its memory is
    that of the reference, which goes through the fields, pointers and elements of
    a value by their types, and calls the [Reset] of each structure that has one,
    promoted or written by hand. *)
Theorem Reset_follows_types t ops a m :
  M t = Some (Own (Generated ops)) → has_place U Σ a t → well_typed U Σ m → acyclic m →
  ∃ N m', ∀ n, N ≤ n → Reset n M ops (Some a) m = Some m' ∧ reset_value (S n) t a m = Some m'.
Proof.
  intros HM Hp Hw Hacy. destruct (Reset_resets t ops a m HM Hp (conj Hw Hacy)) as (N & m' & Hx & _). eauto.
Qed.
End correctness.

(** ** Two nodes of a list *)

(** A node has a plain structure [I], a structure [C] with a method of its own, and
    a structure [O] that has one by embedding [B]. *)
Definition node_universe : universe := λ _ name,
  if decide (name = "I") then Struct [("c", Basic "int" IsNumeric)]
  else if decide (name = "C") then Struct [("Calls", Basic "int" IsNumeric)]
  else if decide (name = "B") then Struct [("id", Basic "int" IsNumeric)]
  else if decide (name = "O") then Struct [("B", Named "m" "B"); ("name", Basic "string" IsString)]
  else Struct [("i", Basic "string" IsString); ("n", Pointer (Named "m" "N")); ("t", Slice (Basic "int" IsNumeric));
               ("h", Map (Basic "string" IsString) (Basic "int" IsNumeric)); ("v", Named "m" "I");
               ("k", Named "m" "C"); ("o", Named "m" "O"); ("g", Array 2 (Basic "bool" IsBoolean));
               ("_", Basic "int" IsNumeric)].

(** [func (c *Custom) Reset() { c.Calls++ }] *)
Definition increment (r : option addr) (m : memory) : option memory :=
  match r with
  | None => None
  | Some a =>
      match leaves m !! sub a (SField "Calls") with
      | Some (LNum z) => Some (set_leaf (sub a (SField "Calls")) (LNum (add64 z 1)) m)
      | _ => None
      end
  end.

Definition calls_of (a : addr) (x : cell) : Prop := x = inl (sub a (SField "Calls")).

Definition node_methods : method_set := λ t,
  match t with
  | Named pkg name =>
      if decide (name = "I") then None
      else if decide (name = "C") then Some (Own (HandWritten increment))
      else if decide (name = "O") then Some (Promoted ["B"] (Named "m" "B"))
      else match node_universe pkg name with
      | Struct fields =>
          '(_, ops) ← operations node_universe 3 (mkGenerator "m" "m" [] ∅ 0) fields; Some (Own (Generated ops))
      | _ => None
      end
  | _ => None
  end.

(** A tail and the node that points to it, and the maps of each. *)
Definition tail : loc := 1%positive.
Definition node : loc := 2%positive.
Definition node_map : loc := 4%positive.
Definition other_map : loc := 5%positive.

Definition node_types : loc → option ty :=
  λ l, if decide (l = tail ∨ l = node) then Some (Named "m" "N") else None.

Definition node_leaves (l : loc) (next : option addr) (table : option loc) : list (addr * leaf) :=
  [ ((l, [SField "i"]), LString "a"); ((l, [SField "n"]), LPointer next);
    ((l, [SField "t"]), LSlice (Some 3%positive) 2 4); ((l, [SField "h"]), LMap table);
    ((l, [SField "v"; SField "c"]), LNum 7); ((l, [SField "k"; SField "Calls"]), LNum 8);
    ((l, [SField "o"; SField "B"; SField "id"]), LNum 9); ((l, [SField "o"; SField "name"]), LString "b");
    ((l, [SField "g"; SIndex 0]), LBool true); ((l, [SField "g"; SIndex 1]), LBool false);
    ((l, [SField "_"]), LNum 5) ].

Definition node_memory : memory :=
  mkMemory (list_to_map (node_leaves tail None None ++ node_leaves node (Some (tail, [])) (Some node_map)))
    {[ node_map := [(LString "x", LNum 1)]; other_map := [(LString "y", LNum 2)] ]}.

Definition node_rank (l : loc) : nat := if decide (l = node) then 1 else 0.

(** The names of the universe are structures that hold no larger one. *)
Fixpoint extent (t : ty) : nat :=
  match t with
  | Struct fields => S (list_sum (map (λ f : string * ty, extent f.2) fields))
  | Array _ t => S (extent t)
  | Named _ name =>
      if decide (name = "I") then 2 else if decide (name = "C") then 2 else if decide (name = "B") then 2
      else if decide (name = "O") then 5 else 20
  | _ => 0
  end.

Lemma extent_field fields name t : (name, t) ∈ fields → extent t ≤ list_sum (map (λ f : string * ty, extent f.2) fields).
Proof.
  induction fields as [|f fields IH]; [by intros ?%not_elem_of_nil|].
  change (list_sum (map (λ f : string * ty, extent f.2) (f :: fields)))
    with (extent f.2 + list_sum (map (λ f : string * ty, extent f.2) fields)).
  intros [<-|Hin]%elem_of_cons; [cbn; lia|]. specialize (IH Hin). lia.
Qed.

Lemma node_contains t' t : contains node_universe t' t → extent t' < extent t.
Proof.
  unfold contains. destruct t as [| | | |fields|len elem| |pkg name]; cbn [Underlying]; try done.
  - intros [name Hin]. pose proof (extent_field _ _ _ Hin). cbn. lia.
  - intros ->. cbn. lia.
  - unfold node_universe. cbn [extent]. repeat case_decide; intros [f Hin];
      repeat (apply elem_of_cons in Hin as [[= -> ->]|Hin]; [vm_compute; lia|]); by apply not_elem_of_nil in Hin.
Qed.

Lemma node_finite t : Acc (contains node_universe) t.
Proof. apply (well_founded_lt_compat _ extent), node_contains. Qed.

Lemma node_distinct t fields :
  node_methods t ≠ None → Underlying node_universe t = Struct fields →
  NoDup (filter (λ f : string * ty, f.1 ≠ "_") fields).*1.
Proof.
  destruct t as [| | | | | | |pkg name]; try done. intros _. cbn [Underlying]. unfold node_universe.
  repeat case_decide; intros [= <-]; by apply (bool_decide_unpack _).
Qed.

(** The method written by hand keeps to its counter. *)
Lemma calls_local a b : calls_of a (inl b) → inside a b ∨ node_rank b.1 < node_rank a.1.
Proof. intros [= ->]. left. by eapply inside_sub. Qed.

Lemma increment_ok pkg : hand_written node_universe node_types node_rank calls_of (Named pkg "C") increment.
Proof.
  intros a m Hp Hw _.
  destruct (Hw (sub a (SField "Calls")) (Basic "int" IsNumeric)) as (v & Hv & Hok); [|done|].
  { eapply place_field; [done|reflexivity|]. apply list_elem_of_here. }
  destruct v as [| |z| | | | |]; try done. cbn [increment]. rewrite Hv. eexists. split; [done|].
  split; [by apply within_set|]. intros b. cbn. rewrite lookup_insert. case_decide as Hb.
  - subst b. by rewrite Hv.
  - destruct (leaves m !! b); cbn; [apply similar_refl|done].
Qed.

Lemma node_methods_ok t mt :
  node_methods t = Some mt → method_ok node_universe node_types node_methods node_rank calls_of t mt.
Proof.
  destruct t as [| | | | | | |pkg name]; try done. cbn [node_methods].
  destruct (decide (name = "I")); [done|]. destruct (decide (name = "C")) as [->|].
  { intros [= <-]. apply increment_ok. }
  destruct (decide (name = "O")) as [->|].
  { intros [= <-]. split; [|split; [by eexists|by eexists]].
    eapply embeds_field; [reflexivity|]. apply list_elem_of_here. }
  destruct (node_universe pkg name) as [| | | |fields| | |] eqn:HU; try done.
  intros ([g' ops] & Hops & [= <-])%bind_Some. by eexists _, _, _, _.
Qed.

(** The variables of the two nodes. *)
Definition node_places (l : loc) : list (addr * ty) :=
  [ ((l, []), Named "m" "N"); ((l, [SField "i"]), Basic "string" IsString);
    ((l, [SField "n"]), Pointer (Named "m" "N")); ((l, [SField "t"]), Slice (Basic "int" IsNumeric));
    ((l, [SField "h"]), Map (Basic "string" IsString) (Basic "int" IsNumeric));
    ((l, [SField "v"]), Named "m" "I"); ((l, [SField "v"; SField "c"]), Basic "int" IsNumeric);
    ((l, [SField "k"]), Named "m" "C"); ((l, [SField "k"; SField "Calls"]), Basic "int" IsNumeric);
    ((l, [SField "o"]), Named "m" "O"); ((l, [SField "o"; SField "B"]), Named "m" "B");
    ((l, [SField "o"; SField "B"; SField "id"]), Basic "int" IsNumeric);
    ((l, [SField "o"; SField "name"]), Basic "string" IsString);
    ((l, [SField "g"]), Array 2 (Basic "bool" IsBoolean));
    ((l, [SField "g"; SIndex 0]), Basic "bool" IsBoolean); ((l, [SField "g"; SIndex 1]), Basic "bool" IsBoolean);
    ((l, [SField "_"]), Basic "int" IsNumeric) ].

Ltac each_place H := repeat (apply elem_of_cons in H as [[= -> ->]|H]); [..|by apply not_elem_of_nil in H].

Lemma node_has_place a t :
  has_place node_universe node_types a t → (a.1 = tail ∨ a.1 = node) ∧ (a, t) ∈ node_places a.1.
Proof.
  induction 1 as [l t Hl|a t fields name t' _ [Hl IH] Ht Hin|a t len t' k _ [Hl IH] Ht Hk].
  - unfold node_types in Hl. case_decide; [|done]. injection Hl as <-. split; [done|]. apply list_elem_of_here.
  - split; [done|]. destruct a as [l path]. cbn [fst sub] in *. unfold node_places in IH.
    each_place IH; try discriminate; cbn in Ht; injection Ht as <-; each_place Hin; set_solver.
  - split; [done|]. destruct a as [l path]. cbn [fst sub] in *. unfold node_places in IH.
    each_place IH; try discriminate. cbn in Ht. injection Ht as <- <-.
    destruct k as [|[|k]]; [| |lia]; cbn; set_solver.
Qed.

Lemma node_leaf l path next table t :
  l = tail ∨ l = node → next = None ∨ next = Some (tail, []) →
  ((l, path), t) ∈ node_places l → has_leaf (Underlying node_universe t) →
  ∃ v, ((l, path), v) ∈ node_leaves l next table ∧ leaf_ok node_universe node_types v (Underlying node_universe t).
Proof.
  intros Hl Hn Hin Hleaf. unfold node_places in Hin. each_place Hin; try done.
  all: eexists; (split; [repeat first [apply list_elem_of_here|apply list_elem_of_further]|]); try done.
  cbn. intros b ->. destruct Hn as [|[= ->]]; [done|]. constructor. unfold node_types. by rewrite decide_True by auto.
Qed.

Lemma node_memory_typed : well_typed node_universe node_types node_memory.
Proof.
  intros [l path] t [Hl Hin]%node_has_place Hleaf. cbn [fst] in *.
  destruct (node_leaf l path (if decide (l = node) then Some (tail, []) else None)
    (if decide (l = node) then Some node_map else None) t Hl) as (v & Hv & Hok); [case_decide; auto|done|done|].
  exists v. split; [|done]. cbn [leaves node_memory]. apply elem_of_list_to_map.
  - by apply (bool_decide_unpack _).
  - apply elem_of_app. destruct Hl as [->| ->]; [left|right]; done.
Qed.

Lemma node_memory_acyclic : acyclic node_rank node_memory.
Proof.
  intros a b Ha. apply elem_of_list_to_map_2 in Ha. cbn in Ha. each_place Ha.
  vm_compute. lia.
Qed.

Definition node_operations : list resetOperation := [
  OpBasic (Field "i") LEmpty; OpPointer (Field "n") (OpStruct (Deref (Field "n")) "N" (Named "m" "N"));
  OpSlice (Field "t"); OpMap (Field "h"); OpStruct (Field "v") "I" (Named "m" "I");
  OpStruct (Field "k") "C" (Named "m" "C"); OpStruct (Field "o") "O" (Named "m" "O");
  OpArray (Field "g") 0 2 (OpBasic (Index (Field "g") 0) LFalse)].

Example node_generated : node_methods (Named "m" "N") = Some (Own (Generated node_operations)).
Proof. reflexivity. Qed.

(** What the method leaves of the nodes: the fields of the marked structures are
    empty behind the pointer too, those of [C] counted a call, and the field beside
    the embedded one is as it was, as is the map of nobody. *)
Example node_reset :
  match Reset 8 node_methods node_operations (Some (node, [])) node_memory with
  | Some m =>
      map (λ p, leaves m !! (tail, p))
        [[SField "i"]; [SField "t"]; [SField "v"; SField "c"]; [SField "k"; SField "Calls"];
         [SField "o"; SField "B"; SField "id"]; [SField "o"; SField "name"]; [SField "_"]] =
      [Some (LString ""); Some (LSlice (Some 3%positive) 0 4); Some (LNum 0); Some (LNum 9);
       Some (LNum 0); Some (LString "b"); Some (LNum 5)] ∧
      leaves m !! (node, [SField "n"]) = Some (LPointer (Some (tail, []))) ∧
      tables m !! node_map = Some [] ∧ tables m !! other_map = Some [(LString "y", LNum 2)]
  | None => False
  end.
Proof. by vm_compute. Qed.

Lemma Reset_correct_witness :
  ∃ N m', (∀ n, N ≤ n → Reset n node_methods node_operations (Some (node, [])) node_memory = Some m') ∧
    (∀ depth, cleared node_universe node_types node_methods calls_of depth m' (Named "m" "N") (node, [])) ∧
    within (touched node_universe node_methods calls_of node_memory (Named "m" "N") (node, [])) node_memory m'.
Proof.
  destruct (Reset_correct node_universe node_types node_methods node_finite node_distinct node_rank
    calls_of calls_local node_methods_ok (Named "m" "N") node_operations (node, []) node_memory node_generated)
    as (_ & N & m' & Hr & Hc & _ & Hw & _).
  - constructor. reflexivity.
  - exact node_memory_typed.
  - exact node_memory_acyclic.
  - exists N, m'. split; [exact Hr|split; [exact Hc|exact Hw]].
Defined.

Lemma Reset_follows_types_witness :
  ∃ N m', ∀ n, N ≤ n → Reset n node_methods node_operations (Some (node, [])) node_memory = Some m' ∧
    reset_value node_universe node_methods (S n) (Named "m" "N") (node, []) node_memory = Some m'.
Proof.
  apply (Reset_follows_types node_universe node_types node_methods node_finite node_distinct node_rank
    calls_of calls_local node_methods_ok (Named "m" "N") node_operations (node, []) node_memory node_generated).
  - constructor. reflexivity.
  - exact node_memory_typed.
  - exact node_memory_acyclic.
Defined.

(** A structure that embeds a marked one has its [Reset] by promotion, and is
    reset by it: its own fields stay as they are. *)
Lemma promoted_reset_keeps_siblings :
  let M : method_set := λ t,
    match t with
    | Named _ name =>
        if decide (name = "Base") then Some (Own (Generated [OpBasic (Field "id") LZero]))
        else Some (Promoted ["Base"] (Named "m" "Base"))
    | _ => None
    end in
  let m := mkMemory {[ (node, [SField "o"; SField "Base"; SField "id"]) := LNum 1;
                       (node, [SField "o"; SField "name"]) := LString "a" ]} ∅ in
  ∃ m', Reset 3 M [OpStruct (Field "o") "Outer" (Named "m" "Outer")] (Some (node, [])) m = Some m' ∧
    leaves m' !! (node, [SField "o"; SField "Base"; SField "id"]) = Some (LNum 0) ∧
    leaves m' !! (node, [SField "o"; SField "name"]) = Some (LString "a").
Proof. eexists. split; [reflexivity|]. split; reflexivity. Qed.
