(* ===== verification/ResetFixtures.v ===== *)
(** [cmd/reset/testdata/models.go], which the tests of the generator run it on:
    the package as the loader gives it, the methods generated for it, and the run of
    [testdata/models_test.go]. *)

From S2P Require Import Prelude GoErrors ResetGen ResetCode.

Definition int : ty := Basic "int" IsNumeric.
Definition string_ : ty := Basic "string" IsString.
Definition local (name : string) : ty := Named "resetfixture" name.

Definition Child : list (string * ty) := [("Value", int); ("Data", Slice int)].

Definition Model : list (string * ty) := [
  ("I", int);
  ("S", string_);
  ("B", Basic "bool" IsBoolean);
  ("F", Basic "float64" IsNumeric);
  ("C", Basic "complex128" IsNumeric);
  ("N", local "Number");
  ("Labels", local "Labels");
  ("Counts", local "Counts");
  ("Pointer", Pointer string_);
  ("Double", Pointer (Pointer int));
  ("SlicePointer", Pointer (Slice int));
  ("MapPointer", Pointer (Map string_ int));
  ("Child", Pointer (local "Child"));
  ("Embedded", local "Child");
  ("Custom", local "Custom");
  ("CustomPointer", Pointer (local "Custom"));
  ("Plain", Struct [("Value", int)]);
  ("Time", Named "time" "Time");
  ("Array", Array 2 int);
  ("Interface", Other [Text "any"]);
  ("Function", Other [Text "func()"]);
  ("Channel", Other [Text "chan int"]);
  ("_", int)].

Definition Box : list (string * ty) := [("Value", Other [Text "T"]); ("Items", Slice (Other [Text "T"]))].

(** [time.Time] and the types of the package; names that are not there are empty. *)
Definition fixture : universe := λ pkg name,
  if decide (pkg = "time") then
    Struct [("wall", Basic "uint64" IsNumeric); ("ext", Basic "int64" IsNumeric); ("loc", Pointer (Named "time" "Location"))]
  else if decide (name = "Number") then int
  else if decide (name = "Labels") then Slice string_
  else if decide (name = "Counts") then Map string_ int
  else if decide (name = "Custom") then Struct [("Calls", int)]
  else if decide (name = "Child") then Struct Child
  else if decide (name = "Model") then Struct Model
  else if decide (name = "Box") then Struct Box
  else Struct [].

(** The declarations: the comment of a declaration on its own belongs to it, that
    of a type in a group to the type. *)
Definition mark : option (list string) := Some ["// generate:reset"].
Definition type (name : string) (struct : bool) (fields : list (string * ty)) : TypeSpec :=
  mkTypeSpec name None struct false [] fields [].
Definition alone (doc : option (list string)) (ts : TypeSpec) : option GenDecl := Some (mkGenDecl true doc [ts]).

Definition models : Package := mkPackage "resetfixture" "fixture" [[
  Some (mkGenDecl false None []);
  alone None (type "Number" false []);
  alone None (type "Labels" false []);
  alone None (type "Counts" false []);
  alone None (mkTypeSpec "Custom" None true false [] [("Calls", int)] ["/m/models.go"]);
  None;
  alone mark (type "Child" true Child);
  alone mark (type "Model" true Model);
  Some (mkGenDecl true None [
    mkTypeSpec "Box" mark true false ["T"] Box [];
    type "Ignored" true [("Value", int)]])]]
  ["/m/models.go"].

(** Basic values, allocations kept, [Reset] methods looked for, the rest zeroed;
    the blank field is left out. *)
Definition Child_operations : list resetOperation :=
  [OpBasic (Field "Value") LZero; OpSlice (Field "Data")].

Definition Model_operations : list resetOperation := [
  OpBasic (Field "I") LZero;
  OpBasic (Field "S") LEmpty;
  OpBasic (Field "B") LFalse;
  OpBasic (Field "F") LZero;
  OpBasic (Field "C") LZero;
  OpBasic (Field "N") LZero;
  OpSlice (Field "Labels");
  OpMap (Field "Counts");
  OpPointer (Field "Pointer") (OpBasic (Deref (Field "Pointer")) LEmpty);
  OpPointer (Field "Double") (OpPointer (Deref (Field "Double")) (OpBasic (Deref (Deref (Field "Double"))) LZero));
  OpPointer (Field "SlicePointer") (OpSlice (Deref (Field "SlicePointer")));
  OpPointer (Field "MapPointer") (OpMap (Deref (Field "MapPointer")));
  OpPointer (Field "Child") (OpStruct (Deref (Field "Child")) "Child" (local "Child"));
  OpStruct (Field "Embedded") "Child" (local "Child");
  OpStruct (Field "Custom") "Custom" (local "Custom");
  OpPointer (Field "CustomPointer") (OpStruct (Deref (Field "CustomPointer")) "Custom" (local "Custom"));
  OpStruct (Field "Plain") "struct{Value int}" (Struct [("Value", int)]);
  OpStruct (Field "Time") "resetpkg0.Time" (Named "time" "Time");
  OpArray (Field "Array") 0 2 (OpBasic (Index (Field "Array") 0) LZero);
  OpZero (Field "Interface") "any" (Other [Text "any"]);
  OpZero (Field "Function") "func()" (Other [Text "func()"]);
  OpZero (Field "Channel") "chan int" (Other [Text "chan int"])].

Definition Box_operations : list resetOperation :=
  [OpZero (Field "Value") "T" (Other [Text "T"]); OpSlice (Field "Items")].

Example fixture_generated :
  ∃ g, package_methods fixture 3 models = Some (Ok g) ∧
    methods g = [mkMethod "Child" "Child" Child_operations; mkMethod "Model" "Model" Model_operations;
                 mkMethod "Box" "Box[T]" Box_operations] ∧
    imports g !! "time" = Some "resetpkg0" ∧ size (imports g) = 1.
Proof. eexists. split; [vm_compute; reflexivity|]. by vm_compute. Qed.

(** The text of some of them. *)
Example fixture_rendered :
  map render [OpPointer (Field "Pointer") (OpSlice (Deref (Field "Pointer")));
              OpArray (Field "Array") 0 2 (OpBasic (Index (Field "Array") 0) LZero);
              OpStruct (Field "Time") "resetpkg0.Time" (Named "time" "Time")] =
  ["if rs.Pointer != nil {" +:+ nl +:+ " (*rs.Pointer) = (*rs.Pointer)[:0]" +:+ nl +:+ "}" +:+ nl;
   "for i0 := range rs.Array {" +:+ nl +:+ " rs.Array[i0] = 0" +:+ nl +:+ "}" +:+ nl;
   "if resetter, ok := any(&rs.Time).(interface{ Reset() }); ok {" +:+ nl +:+ " resetter.Reset()" +:+ nl +:+
   "} else {" +:+ nl +:+ " { var zero resetpkg0.Time; rs.Time = zero }" +:+ nl +:+ "}" +:+ nl].
Proof. by vm_compute. Qed.

(** A type that has its own [Reset] may not be marked, nor one that is not a
    structure; the generated method itself is no obstacle. *)
Definition custom_marked (files : list string) (struct : bool) : option (res generator) :=
  package_methods fixture 3 (mkPackage "resetfixture" "fixture"
    [[alone mark (mkTypeSpec "Custom" None struct false [] [("Calls", int)] files)]] ["/m/models.go"]).

Example custom_rejected :
  custom_marked ["/m/models.go"] true = Some (Fail (Msg "already has a Reset method")) ∧
  custom_marked [] false = Some (Fail (Msg "generate:reset requires a defined struct")) ∧
  match custom_marked ["/m/reset.gen.go"] true with
  | Some (Ok g) => methods g = [mkMethod "Custom" "Custom" [OpBasic (Field "Calls") LZero]]
  | _ => False
  end.
Proof. by vm_compute. Qed.

(** ** [TestReset] ([testdata/models_test.go])

    [Custom] has the method it declares, which counts its calls. *)
Definition fixture_methods : method_set := λ t,
  match t with
  | Named "resetfixture" "Child" => Some (Own (Generated Child_operations))
  | Named "resetfixture" "Model" => Some (Own (Generated Model_operations))
  | Named "resetfixture" "Custom" => Some (Own (HandWritten increment))
  | _ => None
  end.

(** The variables of the test, by location: [m], [s], [p], [i], [slice], [mapping],
    and what [Child] and [CustomPointer] point to. *)
Definition m_at (names : list string) : addr := path (1%positive, []) names.
Definition fixture_memory : memory := mkMemory (list_to_map [
  (m_at ["I"], LNum 1); (m_at ["S"], LString "hello"); (m_at ["B"], LBool true); (m_at ["F"], LNum 1);
  (m_at ["C"], LNum 2); (m_at ["N"], LNum 5); (m_at ["Labels"], LSlice (Some 21%positive) 2 2);
  (m_at ["Counts"], LMap (Some 22%positive)); (m_at ["Pointer"], LPointer (Some (2%positive, [])));
  (m_at ["Double"], LPointer (Some (3%positive, []))); (m_at ["SlicePointer"], LPointer (Some (5%positive, [])));
  (m_at ["MapPointer"], LPointer (Some (6%positive, []))); (m_at ["Child"], LPointer (Some (7%positive, [])));
  (m_at ["Embedded"; "Value"], LNum 3); (m_at ["Embedded"; "Data"], LSlice (Some 23%positive) 1 1);
  (m_at ["Custom"; "Calls"], LNum 0); (m_at ["CustomPointer"], LPointer (Some (8%positive, [])));
  (m_at ["Plain"; "Value"], LNum 1); (m_at ["Time"; "wall"], LNum 6); (m_at ["Time"; "ext"], LNum 7);
  (m_at ["Time"; "loc"], LPointer (Some (9%positive, []))); (sub (m_at ["Array"]) (SIndex 0), LNum 1);
  (sub (m_at ["Array"]) (SIndex 1), LNum 2); (m_at ["Interface"], LOther (Some 24%positive));
  (m_at ["Function"], LOther (Some 25%positive)); (m_at ["Channel"], LOther (Some 26%positive));
  ((2%positive, []), LString "value"); ((3%positive, []), LPointer (Some (4%positive, [])));
  ((4%positive, []), LNum 42); ((5%positive, []), LSlice (Some 27%positive) 2 2);
  ((6%positive, []), LMap (Some 28%positive)); (path (7%positive, []) ["Value"], LNum 2);
  (path (7%positive, []) ["Data"], LSlice (Some 29%positive) 1 1); (path (8%positive, []) ["Calls"], LNum 0)])
  {[ 22%positive := [(LString "a", LNum 1)]; 28%positive := [(LString "key", LNum 1)] ]}.

Example fixture_reset :
  match Reset 5 fixture_methods Model_operations (Some (m_at [])) fixture_memory with
  | Some m =>
      map (λ a, leaves m !! a)
        [m_at ["I"]; m_at ["S"]; m_at ["B"]; m_at ["F"]; m_at ["C"]; m_at ["N"]; m_at ["Labels"]; m_at ["Counts"];
         m_at ["Pointer"]; (2%positive, []); m_at ["Double"]; (3%positive, []); (4%positive, []);
         (5%positive, []); (6%positive, []); m_at ["Child"]; path (7%positive, []) ["Value"];
         path (7%positive, []) ["Data"]; m_at ["Embedded"; "Value"]; m_at ["Embedded"; "Data"]] =
      map Some
        [LNum 0; LString ""; LBool false; LNum 0; LNum 0; LNum 0; LSlice (Some 21%positive) 0 2;
         LMap (Some 22%positive); LPointer (Some (2%positive, [])); LString "";
         LPointer (Some (3%positive, [])); LPointer (Some (4%positive, [])); LNum 0;
         LSlice (Some 27%positive) 0 2; LMap (Some 28%positive); LPointer (Some (7%positive, [])); LNum 0;
         LSlice (Some 29%positive) 0 1; LNum 0; LSlice (Some 23%positive) 0 1] ∧
      map (λ a, leaves m !! a)
        [m_at ["Custom"; "Calls"]; path (8%positive, []) ["Calls"]; m_at ["Plain"; "Value"]; m_at ["Time"; "wall"];
         m_at ["Time"; "ext"]; m_at ["Time"; "loc"]; sub (m_at ["Array"]) (SIndex 0);
         sub (m_at ["Array"]) (SIndex 1); m_at ["Interface"]; m_at ["Function"]; m_at ["Channel"]] =
      map Some
        [LNum 1; LNum 1; LNum 0; LNum 0; LNum 0; LPointer None; LNum 0; LNum 0; LOther None; LOther None; LOther None] ∧
      tables m !! 22%positive = Some [] ∧ tables m !! 28%positive = Some []
  | None => False
  end.
Proof. by vm_compute. Qed.
